(** * Supply-chain forecasting tool: a shallow embedding of the computational core

    The development follows [utils/forecasting.ts] (statistics helpers, the
    four forecasting methods, [calculateForecast], [applyMarketShocks]) and
    the analytics of [App.tsx] (volatility ranking, backtest aggregation).

    Numbers.  A JavaScript [number] is modelled as a real number: arithmetic
    is exact, there is no NaN, no infinity and no rounding of intermediate
    results.  [Math.sqrt] is [sqrt], [Math.round] is rounding half up,
    comparisons are the decidable order of [R].  Loop counters, array indices
    and lengths are natural numbers.  Where the last digit of a result
    decides, the computation is repeated on binary64 numbers (module
    [Binary64], the coefficient of variation).

    Dates.  A date is the string the code manipulates.  The host [Date]
    object is modelled on the strings of the form YYYY-MM-DD that denote a
    calendar day; every other string is an invalid date.  The local time
    zone is UTC, except in module [Zoned], which takes the time zone of the
    host as a parameter and has the forecast dates of the zones with a
    constant offset from UTC. *)

From Stdlib Require Import Reals Lra Lia String Ascii ZArith Bool Zfloor List.
From Stdlib Require Import DecimalString Sorting.Permutation Sorting.Sorted.
From Stdlib Require Import SpecFloat.
Import ListNotations.

Open Scope R_scope.

(* ================================================================== *)
(** * JavaScript numbers and arrays *)
(* ================================================================== *)

Module JS.

(** Comparisons of numbers, as booleans. *)
Definition gt (x y : R) : bool := if Rgt_dec x y then true else false.
Definition ge (x y : R) : bool := if Rge_dec x y then true else false.
Definition lt (x y : R) : bool := if Rlt_dec x y then true else false.
Definition le (x y : R) : bool := if Rle_dec x y then true else false.
Definition eq (x y : R) : bool := if Req_dec_T x y then true else false.

(** [x || d] on numbers: [0] is the only falsy real. *)
Definition or_else (x d : R) : R := if eq x 0 then d else x.

(** [Math.round]: nearest integer, ties towards plus infinity. *)
Definition Math_round (x : R) : R := IZR (Zfloor (x + / 2)).
Definition Math_ceil (x : R) : Z := Zceil x.
Definition Math_max (x y : R) : R := Rmax x y.
Definition Math_min (x y : R) : R := Rmin x y.
Definition Math_abs (x : R) : R := Rabs x.
Definition Math_sqrt (x : R) : R := sqrt x.

(** [xs.reduce((a, b) => a + b, 0)]. *)
Definition sum (xs : list R) : R := fold_left Rplus xs 0.

(** [xs.length] as a number. *)
Definition len (xs : list R) : R := INR (length xs).

(** [xs[i]] for an index inside the array; the loops of the program
    never read outside. *)
Definition get (xs : list R) (i : nat) : R := nth i xs 0.

(** [xs[i] = v] for an index inside the array. *)
Fixpoint set (xs : list R) (i : nat) (v : R) : list R :=
  match xs, i with
  | [], _ => []
  | _ :: tl, O => v :: tl
  | x :: tl, S j => x :: set tl j v
  end.

(** [new Array(n).fill(v)]. *)
Definition fill (n : nat) (v : R) : list R := repeat v n.

(** The counter values of [for (let i = a; i < a + k; i++)]. *)
Definition range (a k : nat) : list nat := seq a k.

End JS.

(* ================================================================== *)
(** * Strings and the host [Date] object *)
(* ================================================================== *)

Module JSDate.

Open Scope Z_scope.

Definition digit (c : ascii) : option Z :=
  let n := Z.of_nat (nat_of_ascii c) in
  if (48 <=? n) && (n <=? 57) then Some (n - 48) else None.

(** The value of a string made of decimal digits only; the empty string
    counts as [acc]. *)
Fixpoint digits (s : string) (acc : Z) : option Z :=
  match s with
  | EmptyString => Some acc
  | String c s' =>
      match digit c with
      | Some d => digits s' (10 * acc + d)
      | None => None
      end
  end.

(** [parseInt(s, 10)] for a string that starts with a digit: the value of
    its longest prefix of digits.  [None] is NaN. *)
Fixpoint digitsPrefix (s : string) (acc : option Z) : option Z :=
  match s with
  | EmptyString => acc
  | String c s' =>
      match digit c with
      | Some d =>
          digitsPrefix s' (Some (10 * match acc with Some a => a | None => 0 end + d))
      | None => acc
      end
  end.

Definition parseInt (s : string) : option Z := digitsPrefix s None.

(** [s.split('-')]. *)
Fixpoint splitDash (s : string) : list string :=
  match s with
  | EmptyString => [EmptyString]
  | String c s' =>
      if Ascii.eqb c "-"%char then EmptyString :: splitDash s'
      else match splitDash s' with
           | [] => [String c EmptyString]
           | p :: ps => String c p :: ps
           end
  end.

(** [String(n)] for a natural number. *)
Definition ofNat (n : Z) : string :=
  NilEmpty.string_of_uint (N.to_uint (Z.to_N n)).

(** [s.padStart(w, '0')]. *)
Definition padStart (w : nat) (s : string) : string :=
  (String.concat "" (repeat "0"%string (w - String.length s)) ++ s)%string.

Definition isLeap (y : Z) : bool :=
  (y mod 4 =? 0) && (negb (y mod 100 =? 0) || (y mod 400 =? 0)).

Definition daysInMonth (y m : Z) : Z :=
  if m =? 2 then (if isLeap y then 29 else 28)
  else if (m =? 4) || (m =? 6) || (m =? 9) || (m =? 11) then 30
  else 31.

(** A calendar day: [month] runs from 1 to 12. *)
Record civil := mkCivil { year : Z; month : Z; day : Z }.

(** [new Date(s)] on YYYY-MM-DD strings; [None] is the invalid date. *)
Definition parse (s : string) : option civil :=
  if Nat.eqb (String.length s) 10 then
    match digits (substring 0 4 s) 0, String.get 4 s,
          digits (substring 5 2 s) 0, String.get 7 s,
          digits (substring 8 2 s) 0 with
    | Some y, Some c1, Some m, Some c2, Some d =>
        if Ascii.eqb c1 "-"%char && Ascii.eqb c2 "-"%char
           && (1 <=? m) && (m <=? 12) && (1 <=? d) && (d <=? daysInMonth y m)
        then Some (mkCivil y m d) else None
    | _, _, _, _, _ => None
    end
  else None.

(** Days between 1970-01-01 and a calendar day. *)
Definition daysFromCivil (c : civil) : Z :=
  let y := if month c <=? 2 then year c - 1 else year c in
  let era := y / 400 in
  let yoe := y - era * 400 in
  let mp := if month c <=? 2 then month c + 9 else month c - 3 in
  let doy := (153 * mp + 2) / 5 + day c - 1 in
  let doe := yoe * 365 + yoe / 4 - yoe / 100 + doy in
  era * 146097 + doe - 719468.

(** [d.getTime()] of a day at midnight, in milliseconds. *)
Definition getTime (c : civil) : Z := 86400000 * daysFromCivil c.

(** [new Date(s).getTime()]; [None] is NaN. *)
Definition timeOf (s : string) : option Z := option_map getTime (parse s).

(** [d.setDate(1)]. *)
Definition setDate1 (c : civil) : civil := mkCivil (year c) (month c) 1.

(** The first day of the month with index [mi] of year [y], where the
    index [0] is January and indices outside [0..11] carry into the
    year: [new Date(y, mi, 1)] and [setMonth(mi)] on a first of month. *)
Definition firstOfMonth (y mi : Z) : civil :=
  mkCivil (y + mi / 12) (mi mod 12 + 1) 1.

(** [d.setMonth(d.getMonth() + step)] on a first of month. *)
Definition addMonths (c : civil) (step : Z) : civil :=
  firstOfMonth (year c) (month c - 1 + step).

(** [new Date(y, mi, 1, 0, 0, 0, 0)]: years 0 to 99 mean 1900 to 1999. *)
Definition make (y mi : Z) : civil :=
  firstOfMonth (if (0 <=? y) && (y <=? 99) then 1900 + y else y) mi.

(** [d.toISOString().split('T')[0]]. *)
Definition isoDate (c : civil) : string :=
  let y := year c in
  let ys :=
    if (0 <=? y) && (y <=? 9999) then padStart 4 (ofNat y)
    else ((if (y <? 0)%Z then "-" else "+") ++ padStart 6 (ofNat (Z.abs y)))%string in
  (ys ++ "-" ++ padStart 2 (ofNat (month c)) ++ "-" ++ padStart 2 (ofNat (day c)))%string.

End JSDate.

(* ================================================================== *)
(** * types.ts *)
(* ================================================================== *)

Record DataPoint := mkDataPoint {
  dp_date : string;
  dp_sku : string;
  dp_category : string;
  quantity : R
}.

Record ForecastPoint := mkForecastPoint {
  date : string;
  historical : option R;
  forecast : R;
  lowerBound : option R;
  upperBound : option R;
  isForecast : bool;
  projectedInventory : option R;
  safetyStock : option R;
  reorderPoint : option R;
  scenarioForecast : option R;
  offsetDate : option string;
  incomingProduction : option R;
  projectedRevenue : option R;
  projectedMargin : option R;
  inventoryValue : option R;
  stickyNote : option string;
  marketDisruption : option string
}.

Inductive ForecastMethodology :=
| HOLT_WINTERS | PROPHET | ARIMA | LINEAR | AGGREGATE_ALLOCATE.


(* ================================================================== *)
(** * utils/forecasting.ts: statistics helpers *)
(* ================================================================== *)

Module Forecasting.

Import JS.

(** [getStdDev]: population standard deviation, [0] for the empty array. *)
Definition getStdDev (values : list R) : R :=
  let n := length values in
  if Nat.eqb n 0 then 0
  else
    let mean := sum values / INR n in
    Math_sqrt (fold_left (fun sq x => sq + (x - mean) ^ 2) values 0 / INR n).

(** [getZMultiplier]: the confidence level to a normal quantile. *)
Definition getZMultiplier (conf : R) : R :=
  if ge conf 99 then 2.576
  else if ge conf 95 then 1.96
  else if ge conf 90 then 1.645
  else if ge conf 85 then 1.44
  else if ge conf 80 then 1.28
  else 1.96.

Inductive HWMethod := additive | multiplicative.

(** [detectHWMethod]: additive for volatile, sparse or trending data. *)
Definition detectHWMethod (values : list R) : HWMethod :=
  if Nat.ltb (length values) 4 then multiplicative
  else
    let n := length values in
    let mean := sum values / INR n in
    let stdDev := getStdDev values in
    let cv := if gt mean 0 then stdDev / mean else 0 in
    let earlyDataSize := Z.to_nat (Math_ceil (INR n * 0.25)) in
    let earlyValues := firstn earlyDataSize values in
    let lowValueThreshold := mean * 0.2 in
    let sparseCount :=
      length (filter (fun v => eq v 0 || lt v lowValueThreshold) earlyValues) in
    let earlySparsity :=
      if Nat.ltb 0 (length earlyValues)
      then INR sparseCount / INR (length earlyValues) else 0 in
    let '(sumX, sumY, sumXY, sumXX) :=
      fold_left (fun '(sumX, sumY, sumXY, sumXX) i =>
                   (sumX + INR i, sumY + get values i,
                    sumXY + INR i * get values i, sumXX + INR i * INR i))
                (range 0 n) (0, 0, 0, 0) in
    let slope := (INR n * sumXY - sumX * sumY) / (INR n * sumXX - sumX * sumX) in
    let trendStrength := Math_abs slope / (if gt mean 0 then mean else 1) in
    if gt cv 0.5 || gt earlySparsity 0.4 || gt trendStrength 0.05
    then additive else multiplicative.

(** The three smoothed components carried through the Holt-Winters loop. *)
Record HWState := mkHW { level : R; trend : R; seasonal : list R }.

(** [runHoltWintersAdditive]. *)
Definition runHoltWintersAdditive (values : list R) (horizon L : nat) : list R :=
  let alpha := 0.3 in
  let beta := 0.1 in
  let gamma := 0.05 in
  let n := length values in
  let level0 := or_else (sum values / INR n) 1 in
  let seasonal0 :=
    fold_left (fun s i => set s i (get values i - level0))
              (range 0 (Nat.min L n)) (fill L 0) in
  let st :=
    fold_left
      (fun st i =>
         let value := get values i in
         let prevLevel := level st in
         let level' :=
           alpha * (value - get (seasonal st) (i mod L))
           + (1 - alpha) * (level st + trend st) in
         let trend' := beta * (level' - prevLevel) + (1 - beta) * trend st in
         let seasonal' :=
           set (seasonal st) (i mod L)
               (gamma * (value - level')
                + (1 - gamma) * get (seasonal st) (i mod L)) in
         mkHW level' trend' seasonal')
      (range 0 n) (mkHW level0 0 seasonal0) in
  map (fun i =>
         Math_max 0 (level st + INR i * trend st
                     + get (seasonal st) ((n + i - 1) mod L)))
      (range 1 horizon).

(** [runHoltWintersMultiplicative]. *)
Definition runHoltWintersMultiplicative (values : list R) (horizon L : nat)
  : list R :=
  let alpha := 0.3 in
  let beta := 0.1 in
  let gamma := 0.05 in
  let n := length values in
  let initPeriod := Nat.min L n in
  let level0 := or_else (sum (firstn initPeriod values) / INR initPeriod) 1 in
  let trend0 :=
    or_else ((get values (Nat.min (L - 1) (n - 1)) - get values 0)
             / INR (Nat.min L (n - 1))) 0 in
  let seasonal0 :=
    fold_left (fun s i => set s i (get values i / level0))
              (range 0 initPeriod) (fill L 1) in
  let st :=
    fold_left
      (fun st i =>
         let value := get values i in
         let prevLevel := level st in
         let level' :=
           alpha * (value / or_else (get (seasonal st) (i mod L)) 1)
           + (1 - alpha) * (level st + trend st) in
         let trend' := beta * (level' - prevLevel) + (1 - beta) * trend st in
         let seasonal' :=
           set (seasonal st) (i mod L)
               (gamma * (value / or_else level' 1)
                + (1 - gamma) * get (seasonal st) (i mod L)) in
         mkHW level' trend' seasonal')
      (range 0 n) (mkHW level0 trend0 seasonal0) in
  map (fun i =>
         Math_max 0 ((level st + INR i * trend st)
                     * get (seasonal st) ((n + i - 1) mod L)))
      (range 1 horizon).

(** [runHoltWinters]: the wrapper choosing the variant. *)
Definition runHoltWinters (values : list R) (horizon L : nat)
           (method : HWMethod) : list R :=
  match method with
  | additive => runHoltWintersAdditive values horizon L
  | multiplicative => runHoltWintersMultiplicative values horizon L
  end.

(** [xs.reduce((a, b) => a + b)] without an initial value, on the non-empty
    arrays [runProphet] receives. *)
Definition sum1 (xs : list R) : R :=
  match xs with
  | [] => 0
  | x :: tl => fold_left Rplus tl x
  end.

(** [runProphet]. *)
Definition runProphet (values : list R) (horizon : nat) : list R :=
  let n := length values in
  let L := 12%nat in
  let avgGrowth := (get values (n - 1) - get values 0) / INR n in
  let mean := sum1 values / INR n in
  let seasonal1 :=
    fold_left (fun s i => set s (i mod L) (get s (i mod L) + (get values i - mean)))
              (range 0 n) (fill L 0) in
  let seasonal2 :=
    fold_left (fun s i => set s i (get s i / IZR (Math_ceil (INR n / INR L))))
              (range 0 L) seasonal1 in
  map (fun i =>
         let seasonalBase := get seasonal2 ((i - 1) mod 12) in
         let simulatedVal := seasonalBase + mean + avgGrowth * 1.2 * INR i in
         Math_max 0 (Math_round simulatedVal))
      (range 1 horizon).

(** The loop of [runArima]: [k] more steps from [currentVal]. *)
Fixpoint arimaSteps (mean currentVal : R) (k : nat) : list R :=
  match k with
  | O => []
  | S k' =>
      let currentVal' := mean + 0.85 * (currentVal - mean) in
      Math_max 0 currentVal' :: arimaSteps mean currentVal' k'
  end.

(** [runArima]. *)
Definition runArima (values : list R) (horizon : nat) : list R :=
  let n := length values in
  arimaSteps (sum values / INR n) (get values (n - 1)) horizon.

(** [runLinear]. *)
Definition runLinear (values : list R) (horizon : nat) : list R :=
  let n := length values in
  let '(sumX, sumY, sumXY, sumXX) :=
    fold_left (fun '(sumX, sumY, sumXY, sumXX) i =>
                 (sumX + INR i, sumY + get values i,
                  sumXY + INR i * get values i, sumXX + INR i * INR i))
              (range 0 n) (0, 0, 0, 0) in
  let slope := (INR n * sumXY - sumX * sumY) / (INR n * sumXX - sumX * sumX) in
  let intercept := (sumY - slope * sumX) / INR n in
  map (fun i => Math_max 0 (slope * INR (n + i - 1) + intercept))
      (range 1 horizon).

(** A point of the historical part of the result of [calculateForecast]. *)
Definition historicalPoint (trainingDataEndDate : string) (d : DataPoint)
  : ForecastPoint :=
  {| date := dp_date d;
     historical := Some (quantity d);
     forecast := quantity d;
     lowerBound := None;
     upperBound := None;
     isForecast := String.ltb trainingDataEndDate (dp_date d);
     projectedInventory := None; safetyStock := None; reorderPoint := None;
     scenarioForecast := None; offsetDate := None;
     incomingProduction := None; projectedRevenue := None;
     projectedMargin := None; inventoryValue := None;
     stickyNote := None; marketDisruption := None |}.

(** The point pushed for the forecast value [val] at index [i]. *)
Definition futurePoint (lastDate : JSDate.civil) (multiplier stdDev : R)
           (i : nat) (val : R) : ForecastPoint :=
  let step := S i in
  let forecastDate := JSDate.addMonths lastDate (Z.of_nat step) in
  let uncertainty := multiplier * stdDev * Math_sqrt (INR step) * 0.4 in
  let normalizedDate :=
    (substring 0 7 (JSDate.isoDate forecastDate) ++ "-01")%string in
  {| date := normalizedDate;
     historical := None;
     forecast := Math_round val;
     lowerBound := Some (Math_max 0 (Math_round (val - uncertainty)));
     upperBound := Some (Math_round (val + uncertainty));
     isForecast := true;
     projectedInventory := None; safetyStock := None; reorderPoint := None;
     scenarioForecast := None; offsetDate := None;
     incomingProduction := None; projectedRevenue := None;
     projectedMargin := None; inventoryValue := None;
     stickyNote := None; marketDisruption := None |}.

(** [forecastValues.forEach((val, i) => ...)] from index [i] on.  With an
    invalid [lastDate] the first [toISOString] raises a RangeError: the
    result is [None]. *)
Fixpoint pushForecasts (lastDate : option JSDate.civil) (multiplier stdDev : R)
         (i : nat) (forecastValues : list R) : option (list ForecastPoint) :=
  match forecastValues with
  | [] => Some []
  | val :: rest =>
      match lastDate with
      | None => None
      | Some ld =>
          match pushForecasts lastDate multiplier stdDev (S i) rest with
          | None => None
          | Some pts => Some (futurePoint ld multiplier stdDev i val :: pts)
          end
      end
  end.

(** The output of the selected method, the [switch] of [calculateForecast]. *)
Definition forecastValuesOf (method : ForecastMethodology) (values : list R)
           (horizon : nat) (hwMethod : HWMethod) (autoDetectHW : bool)
  : list R :=
  let L := 12%nat in
  let effectiveHWMethod :=
    match method with
    | HOLT_WINTERS => if autoDetectHW then detectHWMethod values else hwMethod
    | _ => hwMethod
    end in
  match method with
  | LINEAR => runLinear values horizon
  | PROPHET => runProphet values horizon
  | ARIMA => runArima values horizon
  | _ => runHoltWinters values horizon L effectiveHWMethod
  end.

(** [calculateForecast]; the [interval] argument only has the value
    ['monthly'] and is left out.  [None] is an exception raised to the
    caller. *)
Definition calculateForecast (historicalData : list DataPoint) (horizon : nat)
           (trainingDataEndDate : string) (confidenceLevel : R)
           (method : ForecastMethodology) (hwMethod : HWMethod)
           (autoDetectHW : bool) : option (list ForecastPoint) :=
  if Nat.ltb (length historicalData) 3 || String.eqb trainingDataEndDate ""
  then Some []
  else
    let trainingData :=
      filter (fun d => String.leb (dp_date d) trainingDataEndDate)
             historicalData in
    if Nat.ltb (length trainingData) 3 then Some []
    else
      let values := map quantity trainingData in
      let forecastValues :=
        forecastValuesOf method values horizon hwMethod autoDetectHW in
      let results := map (historicalPoint trainingDataEndDate) historicalData in
      let multiplier := getZMultiplier confidenceLevel in
      let stdDev := getStdDev values in
      let lastDate :=
        option_map JSDate.setDate1 (JSDate.parse trainingDataEndDate) in
      match pushForecasts lastDate multiplier stdDev 0 forecastValues with
      | None => None
      | Some future => Some (results ++ future)
      end.





End Forecasting.

(* ================================================================== *)
(** * App.tsx: volatility ranking and the backtest *)
(* ================================================================== *)

Module App.

Import JS Forecasting.

(** [Array.prototype.sort] is stable; [le a b] says that the comparator
    does not put [b] strictly before [a]. *)
Fixpoint insertBy {A : Type} (le : A -> A -> bool) (x : A) (l : list A)
  : list A :=
  match l with
  | [] => [x]
  | y :: tl => if le x y then x :: y :: tl else y :: insertBy le x tl
  end.

Definition sortBy {A : Type} (le : A -> A -> bool) (l : list A) : list A :=
  fold_right (insertBy le) [] l.

(** [m.set(k, v)] on a [Map] kept in insertion order. *)
Fixpoint mapSet {V : Type} (k : string) (v : V) (m : list (string * V))
  : list (string * V) :=
  match m with
  | [] => [(k, v)]
  | (k', v') :: tl =>
      if String.eqb k' k then (k, v) :: tl else (k', v') :: mapSet k v tl
  end.

(** [normalizeDateFormat] on a string argument. *)
Definition normalizeDateFormat (dateStr : string) : string :=
  if String.eqb dateStr "" then ""%string
  else
    let parts := JSDate.splitDash dateStr in
    if Nat.leb 2 (length parts) then
      match JSDate.parseInt (nth 0 parts ""%string),
            JSDate.parseInt (nth 1 parts ""%string) with
      | Some year, Some month =>
          (JSDate.ofNat year ++ "-"
           ++ JSDate.padStart 2 (JSDate.ofNat month) ++ "-01")%string
      | _, _ => ""%string
      end
    else ""%string.

(** ** Volatility *)

(** A row of [skuLevelData]. *)
Record SkuRow := mkSkuRow {
  sku : string;
  historicalVolume : R;
  forecastedVolume : R;
  historicalMonthly : list R;
  forecastedMonthly : list R
}.

Record Volatility := mkVolatility {
  v_sku : string;
  volatility : R;
  avgQuantity : R;
  stdDev : R
}.

(** The entry computed for one SKU from its window of quantities. *)
Definition volatilityEntry (s : string) (quantities : list R) : Volatility :=
  let avg := sum quantities / len quantities in
  let variance :=
    fold_left (fun sum q => sum + (q - avg) ^ 2) quantities 0
    / len quantities in
  let stdDev := Math_sqrt variance in
  let cv := if gt avg 0 then stdDev / avg * 100 else 0 in
  mkVolatility s cv avg stdDev.

Definition matchesSku (filterSkus : list string) (s : string) : bool :=
  Nat.eqb (length filterSkus) 0 || existsb (String.eqb s) filterSkus.

(** The body shared by [volatilityResults] and [forecastVolatilityResults],
    which differ in the window they read. *)
Definition volatilityOver (window : SkuRow -> list R)
           (skuLevelData : list SkuRow) (filterSkus : list string)
  : list Volatility :=
  let skuVolatility :=
    fold_left
      (fun m item =>
         if matchesSku filterSkus (sku item)
            && Nat.ltb 0 (length (window item))
         then mapSet (sku item) (volatilityEntry (sku item) (window item)) m
         else m)
      skuLevelData [] in
  sortBy (fun a b => ge (volatility a) (volatility b)) (map snd skuVolatility).

Definition volatilityResults := volatilityOver historicalMonthly.
Definition forecastVolatilityResults := volatilityOver forecastedMonthly.

Inductive Risk := High | Medium | Low.

(** The risk tier, as [portfolioChanges] derives it from a volatility. *)
Definition riskTier (v : R) : Risk :=
  if gt v 50 then High else if gt v 30 then Medium else Low.

(** ** Backtest *)

(** What [backtestResults] reads from the component state. *)
Record BacktestInput := mkBacktestInput {
  data : list DataPoint;
  filterSkus : list string;
  forecastStartMonth : string;
  confidenceLevel : R;
  methodology : ForecastMethodology;
  includeExternalTrends : bool;
  marketAdj : option R;
  hwMethod : HWMethod;
  autoDetectHW : bool
}.

(** The forecast of one method for one SKU over the forecast dates. *)
Record MethodData := mkMethodData {
  dates : list string;
  forecasts : list R;
  actuals : list R
}.

Record Metrics := mkMetrics { accuracy : R; mape : R; rmse : R; bias : R }.

Definition SkuMethods := list (ForecastMethodology * MethodData).

Record BacktestResult := mkBacktestResult {
  skuMethodForecasts : list (string * SkuMethods);
  testWindow : string * string;
  aggregatedMetrics : option Metrics;
  methodMetrics : list (ForecastMethodology * Metrics)
}.

Definition methodEqb (a b : ForecastMethodology) : bool :=
  match a, b with
  | HOLT_WINTERS, HOLT_WINTERS | PROPHET, PROPHET | ARIMA, ARIMA
  | LINEAR, LINEAR | AGGREGATE_ALLOCATE, AGGREGATE_ALLOCATE => true
  | _, _ => false
  end.

Definition allMethods : list ForecastMethodology :=
  [HOLT_WINTERS; PROPHET; ARIMA; LINEAR].

(** Comparisons of time stamps; [None] is NaN and compares false. *)
Definition timeLt (a b : option Z) : bool :=
  match a, b with Some x, Some y => Z.ltb x y | _, _ => false end.
Definition timeLe (a b : option Z) : bool :=
  match a, b with Some x, Some y => Z.leb x y | _, _ => false end.

(** [Array.from(new Set(xs))]: the first occurrence of each string. *)
Fixpoint dedupe (seen xs : list string) : list string :=
  match xs with
  | [] => []
  | x :: tl =>
      if existsb (String.eqb x) seen then dedupe seen tl
      else x :: dedupe (x :: seen) tl
  end.

Definition uniqueSkusOf (inp : BacktestInput) : list string :=
  if Nat.ltb 0 (length (filterSkus inp)) then filterSkus inp
  else sortBy String.leb (dedupe [] (map dp_sku (data inp))).

(** The points of one SKU in date order; [localeCompare] is modelled by the
    order of the code units, with which it agrees on dates of one format. *)
Definition skuDataOf (inp : BacktestInput) (s : string) : list DataPoint :=
  sortBy (fun a b => String.leb (dp_date a) (dp_date b))
         (filter (fun d => String.eqb (dp_sku d) s) (data inp)).

(** Training data: everything before the start of the test window. *)
Definition trainDataOf (testStartTime : option Z) (skuData : list DataPoint)
  : list DataPoint :=
  filter (fun d => timeLt (JSDate.timeOf (dp_date d)) testStartTime) skuData.

(** [trainData[trainData.length - 1].date]. *)
Definition lastDateOf (trainData : list DataPoint) : string :=
  match rev trainData with
  | d :: _ => dp_date d
  | [] => ""%string
  end.

(** [{ ...p, forecast: v }]. *)
Definition withForecast (p : ForecastPoint) (v : R) : ForecastPoint :=
  {| date := date p; historical := historical p; forecast := v;
     lowerBound := lowerBound p; upperBound := upperBound p;
     isForecast := isForecast p;
     projectedInventory := projectedInventory p;
     safetyStock := safetyStock p; reorderPoint := reorderPoint p;
     scenarioForecast := scenarioForecast p; offsetDate := offsetDate p;
     incomingProduction := incomingProduction p;
     projectedRevenue := projectedRevenue p;
     projectedMargin := projectedMargin p;
     inventoryValue := inventoryValue p;
     stickyNote := stickyNote p; marketDisruption := marketDisruption p |}.

Definition applyMarketAdj (inp : BacktestInput) (pts : list ForecastPoint)
  : list ForecastPoint :=
  match includeExternalTrends inp, marketAdj inp with
  | true, Some multiplier =>
      map (fun p => if isForecast p
                    then withForecast p (Math_round (forecast p * multiplier))
                    else p) pts
  | _, _ => pts
  end.

(** Forecast dates and values of a forecast, and the actual quantity
    matched to each date (0 when the SKU has no point in that month). *)
Definition methodDataOf (skuData : list DataPoint) (pts : list ForecastPoint)
  : MethodData :=
  let forecastDates := map date (filter isForecast pts) in
  let forecastVals :=
    map (fun f => or_else (forecast f) 0) (filter isForecast pts) in
  let actualVals :=
    map (fun fDate =>
           let normalized := normalizeDateFormat fDate in
           match find (fun d => String.eqb (normalizeDateFormat (dp_date d))
                                           normalized) skuData with
           | Some m => quantity m
           | None => 0
           end) forecastDates in
  mkMethodData forecastDates forecastVals actualVals.

(** [xs.map(f)] where a call of [f] may raise. *)
Fixpoint mapRaise {A B : Type} (f : A -> option B) (l : list A)
  : option (list B) :=
  match l with
  | [] => Some []
  | x :: tl =>
      match f x with
      | None => None
      | Some y =>
          match mapRaise f tl with
          | None => None
          | Some ys => Some (y :: ys)
          end
      end
  end.

(** Phase 1 for one SKU: the body of [uniqueSkus.forEach]. *)
Definition backtestSku (inp : BacktestInput) (testStartTime : option Z)
           (s : string) (acc : list (string * SkuMethods))
  : option (list (string * SkuMethods)) :=
  let skuData := skuDataOf inp s in
  if Nat.ltb (length skuData) 18 then Some acc
  else
    let trainData := trainDataOf testStartTime skuData in
    if Nat.ltb (length trainData) 6 then Some acc
    else
      let trainEndDate := lastDateOf trainData in
      match mapRaise
              (fun method =>
                 match calculateForecast trainData 13 trainEndDate
                         (confidenceLevel inp) method (hwMethod inp)
                         (autoDetectHW inp) with
                 | None => None
                 | Some pts =>
                     Some (method, methodDataOf skuData (applyMarketAdj inp pts))
                 end)
              allMethods with
      | None => None
      | Some skuMethods => Some (mapSet s skuMethods acc)
      end.

(** Phase 1: [uniqueSkus.forEach], stopping at the first exception. *)
Fixpoint phase1 (inp : BacktestInput) (testStartTime : option Z)
         (skus : list string) (acc : list (string * SkuMethods))
  : option (list (string * SkuMethods)) :=
  match skus with
  | [] => Some acc
  | s :: tl =>
      match backtestSku inp testStartTime s acc with
      | None => None
      | Some acc' => phase1 inp testStartTime tl acc'
      end
  end.

(** The test performed on a forecast date before its pair is scored. *)
Definition inTestWindow (testStartTime testEndTime : option Z) (d : string)
  : bool :=
  let dt := JSDate.timeOf d in
  timeLe testStartTime dt && timeLe dt testEndTime.

(** A scored pair, kept with the forecast date it comes from. *)
Record Row := mkRow { r_date : string; r_actual : R; r_forecast : R }.

(** The pairs one SKU contributes for one method:
    [methodData.dates.forEach((date, idx) => ...)]. *)
Definition scoredRows (testStartTime testEndTime : option Z) (md : MethodData)
  : list Row :=
  flat_map
    (fun '(idx, d) =>
       if inTestWindow testStartTime testEndTime d
       then [mkRow d (or_else (get (actuals md) idx) 0)
                     (or_else (get (forecasts md) idx) 0)]
       else [])
    (combine (seq 0 (length (dates md))) (dates md)).

(** [skuMethods.get(method)]. *)
Definition getMethod (skuMethods : SkuMethods) (method : ForecastMethodology)
  : option MethodData :=
  option_map snd (find (fun e => methodEqb (fst e) method) skuMethods).

(** All the pairs scored for one method, over the SKUs of phase 1. *)
Definition methodRows (testStartTime testEndTime : option Z)
           (smf : list (string * SkuMethods)) (method : ForecastMethodology)
  : list Row :=
  flat_map
    (fun e =>
       match getMethod (snd e) method with
       | Some md => scoredRows testStartTime testEndTime md
       | None => []
       end) smf.

(** Accuracy, MAPE, RMSE and bias of paired actuals and forecasts. *)
Definition metricsOf (rows : list Row) : Metrics :=
  let methodActuals := map r_actual rows in
  let methodForecasts := map r_forecast rows in
  let methodTotal := sum methodActuals in
  let methodForecastTotal := sum methodForecasts in
  let wMAPENum :=
    fold_left (fun acc r => acc + Math_abs (r_actual r - r_forecast r)) rows 0 in
  let wMAPEDen := fold_left (fun acc r => acc + Math_abs (r_actual r)) rows 0 in
  let mape := if gt wMAPEDen 0 then wMAPENum / wMAPEDen * 100 else 0 in
  let sumSqErr :=
    fold_left (fun acc r => acc + (r_actual r - r_forecast r) ^ 2) rows 0 in
  let rmse := Math_sqrt (sumSqErr / len methodActuals) in
  let accuracy :=
    Math_max 0
      (Math_min 100
         ((1 - Math_abs (methodTotal - methodForecastTotal)
               / Math_max methodTotal 1) * 100)) in
  let bias := (methodForecastTotal - methodTotal) / Math_max methodTotal 1 * 100 in
  mkMetrics accuracy mape rmse bias.

Definition emptyResult (startDate endDate : string) : BacktestResult :=
  mkBacktestResult [] (startDate, endDate) None [].

(** The test window: start and end strings, anchored on
    [forecastStartMonth].  [None]: the month does not parse and
    [toISOString] raises. *)
Definition testWindowOf (inp : BacktestInput) : option (string * string) :=
  let parts := JSDate.splitDash (substring 0 7 (forecastStartMonth inp)) in
  match option_map JSDate.parseInt (nth_error parts 0),
        option_map JSDate.parseInt (nth_error parts 1) with
  | Some (Some forecastYear), Some (Some forecastMonth) =>
      let testEndDate := JSDate.make forecastYear (forecastMonth - 1 - 1) in
      let testEndStr := JSDate.isoDate testEndDate in
      let testStartDate := JSDate.make forecastYear (forecastMonth - 1 - 12) in
      let testStartStr := JSDate.isoDate testStartDate in
      Some (testStartStr, testEndStr)
  | _, _ => None
  end.

Definition testStartTimeOf (w : string * string) : option Z :=
  JSDate.timeOf (fst w).

(** The end of the window, extended by 24 hours. *)
Definition testEndTimeOf (w : string * string) : option Z :=
  option_map (fun t => (t + 24 * 60 * 60 * 1000)%Z) (JSDate.timeOf (snd w)).

(** [backtestResults], phases 1 and 2 and the aggregate of the selected
    methodology.  An exception raised inside the [try] block gives the
    result of the [catch] block. *)
Definition backtestResults (inp : BacktestInput) : BacktestResult :=
  let uniqueSkus := uniqueSkusOf inp in
  if Nat.eqb (length uniqueSkus) 0 || Nat.ltb (length (data inp)) 18
  then emptyResult "" ""
  else
    match testWindowOf inp with
    | None => emptyResult "" ""
    | Some w =>
        let testStartTime := testStartTimeOf w in
        let testEndTime := testEndTimeOf w in
        match phase1 inp testStartTime uniqueSkus [] with
        | None => emptyResult "" ""
        | Some smf =>
            if Nat.eqb (length smf) 0 then emptyResult (fst w) (snd w)
            else
              let methodMetrics :=
                flat_map
                  (fun method =>
                     let rows := methodRows testStartTime testEndTime smf method in
                     if Nat.ltb 0 (length rows)
                     then [(method, metricsOf rows)] else [])
                  allMethods in
              let aggregatedMetrics :=
                match smf with
                | [] => None
                | first :: _ =>
                    match getMethod (snd first) (methodology inp) with
                    | None => None
                    | Some _ =>
                        let rows :=
                          methodRows testStartTime testEndTime smf
                                     (methodology inp) in
                        if Nat.ltb 0 (length rows)
                        then Some (metricsOf rows) else None
                    end
                end in
              mkBacktestResult smf w aggregatedMetrics methodMetrics
        end
    end.

End App.

(* ================================================================== *)
(** * Classifier (ABC / Pareto) *)
(* ================================================================== *)

Module Classifier.

Import JS.

Inductive Tier := A | B | C.

Record Item := mkItem { item_id : string; total_volume : R }.

Record ClassificationResult := mkResult {
  c_item_id : string;
  c_total_volume : R;
  tier : Tier;
  percent_of_total : R
}.

(** The tier of an item, from the percentage of the grand total that the
    items ranked before it cover. *)
Definition tierOf (coveredPct : R) : Tier :=
  if lt coveredPct 80 then A
  else if lt coveredPct 95 then B
  else C.

(** The walk down the ranked items with the running cumulative volume:
    [cumulative] is the volume of the items already ranked. *)
Fixpoint assign (total cumulative : R) (ranked : list Item)
  : list ClassificationResult :=
  match ranked with
  | [] => []
  | it :: tl =>
      mkResult (item_id it) (total_volume it)
               (tierOf (cumulative / total * 100))
               (total_volume it / total * 100)
      :: assign total (cumulative + total_volume it) tl
  end.





End Classifier.

(* ================================================================== *)
(** * utils/forecasting.ts: anomaly cleaning and forecast metrics *)
(* ================================================================== *)

Module Quality.

Import JS Forecasting.

(** [{ ...d, quantity: q }]. *)
Definition withQuantity (d : DataPoint) (q : R) : DataPoint :=
  mkDataPoint (dp_date d) (dp_sku d) (dp_category d) q.

(** The test [isAnomaly] of [cleanAnomalies]. *)
Definition isAnomaly (mean std : R) (d : DataPoint) : bool :=
  gt (Math_abs (quantity d - mean)) (2.5 * std).

(** [cleanAnomalies]: a point further than 2.5 standard deviations from
    the mean has its quantity replaced by the rounded mean. *)
Definition cleanAnomalies (data : list DataPoint) : list DataPoint :=
  let values := map quantity data in
  let mean := sum values / or_else (len values) 1 in
  let std := getStdDev values in
  map (fun d => if isAnomaly mean std d
                then withQuantity d (Math_round mean) else d)
      data.

Record ForecastMetrics := mkForecastMetrics {
  mape : R;
  rmse : R;
  bias : R;
  mad : R;
  accuracy : R;
  holdingCostRisk : R;
  stockoutRevenueRisk : R;
  totalValueAtRisk : option R
}.

(** [calculateMetrics].  When the compared actuals sum to 0 the program
    divides by 0 in [mape] and yields NaN or an infinity; the properties
    below that mention [mape] assume a positive sum. *)
Definition calculateMetrics (actual forecast : list R)
           (unitCost sellingPrice : R) : ForecastMetrics :=
  let n := Nat.min (length actual) (length forecast) in
  let '(sumAbsError, sumSqError, sumActual, sumError) :=
    fold_left (fun '(sumAbsError, sumSqError, sumActual, sumError) i =>
                 let error := get forecast i - get actual i in
                 (sumAbsError + Math_abs error, sumSqError + error * error,
                  sumActual + get actual i, sumError + error))
              (range 0 n) (0, 0, 0, 0) in
  let mape := if Nat.ltb 0 n then sumAbsError / sumActual * 100 else 0 in
  {| mape := mape;
     rmse := Math_sqrt (sumSqError / or_else (INR n) 1);
     bias := sumError / or_else sumActual 1 * 100;
     mad := sumAbsError / or_else (INR n) 1;
     accuracy := Math_max 0 (100 - mape);
     holdingCostRisk := 0;
     stockoutRevenueRisk := 0;
     totalValueAtRisk := None |}.

End Quality.

(* ================================================================== *)
(** * App.tsx: data shaping for the charts *)
(* ================================================================== *)

Module Charts.

Import JS.

(** The loop [for (let i = 0; i < data.length; i += bucketSize)] of
    [downsampleData], from the counter value [i]; [fuel] bounds the number
    of iterations.  A bucket is [data.slice(i, i + bucketSize)] and
    contributes its middle element. *)
Fixpoint downsampleLoop {A : Type} (fuel : nat) (data : list A)
         (bucketSize i : nat) : list A :=
  match fuel with
  | O => []
  | S fuel' =>
      if Nat.ltb i (length data) then
        let bucket := firstn bucketSize (skipn i data) in
        let rest := downsampleLoop fuel' data bucketSize (i + bucketSize) in
        if Nat.ltb 0 (length bucket) then
          match nth_error bucket (length bucket / 2) with
          | Some x => x :: rest
          | None => rest
          end
        else rest
      else []
  end.

(** [downsampleData].  With [maxPoints = 0] the bucket size is infinite
    and the whole array is one bucket; otherwise the bucket size is at
    least 1 and the loop ends within [data.length] iterations. *)
Definition downsampleData {A : Type} (data : list A) (maxPoints : nat)
  : list A :=
  if Nat.leb (length data) maxPoints then data
  else if Nat.eqb maxPoints 0 then
    match nth_error data (length data / 2) with
    | Some x => [x]
    | None => []
    end
  else
    let bucketSize := Z.to_nat (Math_ceil (INR (length data) / INR maxPoints)) in
    downsampleLoop (length data) data bucketSize 0.

End Charts.

(* ================================================================== *)
(** * Aggregation by date and the aggregate-then-allocate forecast *)
(* ================================================================== *)

Module Aggregate.

Import JS Forecasting App.

(** [m.get(k)]. *)
Fixpoint mapGet {V : Type} (k : string) (m : list (string * V)) : option V :=
  match m with
  | [] => None
  | (k', v) :: tl => if String.eqb k' k then Some v else mapGet k tl
  end.

(** [m.get(k) || 0]. *)
Definition getOr0 (k : string) (m : list (string * R)) : R :=
  match mapGet k m with
  | Some v => or_else v 0
  | None => 0
  end.

(** [data.forEach(d => m.set(d.date, (m.get(d.date) || 0) + d.quantity))]. *)
Definition totalsByDate (data : list DataPoint) : list (string * R) :=
  fold_left
    (fun m d => mapSet (dp_date d) (getOr0 (dp_date d) m + quantity d) m)
    data [].

(** [([date, quantity]) => ({ date, quantity, sku: 'ALL', category: 'ALL' })]. *)
Definition aggregatePoint (e : string * R) : DataPoint :=
  mkDataPoint (fst e) "ALL" "ALL" (snd e).

(** The total demand per date, in date order: [aggregateData] of
    [calculateForecastAggregateAllocate]. *)
Definition aggregateData (data : list DataPoint) : list DataPoint :=
  sortBy (fun a b => String.leb (dp_date a) (dp_date b))
         (map aggregatePoint (totalsByDate data)).

(** [aggregatedData] of [App.tsx]: the same statements, on the processed
    data. *)
Definition aggregatedData (processedData : list DataPoint) : list DataPoint :=
  aggregateData processedData.

(** [stats] of [App.tsx]: average and standard deviation of the aggregated
    quantities. *)
Definition stats (aggregated : list DataPoint) : R * R :=
  let values := map quantity aggregated in
  let avg := if Nat.ltb 0 (length values) then sum values / len values else 0 in
  let std :=
    if Nat.ltb 0 (length values)
    then Math_sqrt (fold_left (fun sq x => sq + (x - avg) ^ 2) values 0
                    / len values)
    else 0 in
  (avg, std).

(** [d.setMonth(mi)] on a calendar day: the day of the month is kept, and
    a day past the end of the target month carries into the month after. *)
Definition setMonth (c : JSDate.civil) (mi : Z) : JSDate.civil :=
  let target := JSDate.firstOfMonth (JSDate.year c) mi in
  let dim := JSDate.daysInMonth (JSDate.year target) (JSDate.month target) in
  if (JSDate.day c <=? dim)%Z
  then JSDate.mkCivil (JSDate.year target) (JSDate.month target) (JSDate.day c)
  else
    let next := JSDate.firstOfMonth (JSDate.year target) (JSDate.month target) in
    JSDate.mkCivil (JSDate.year next) (JSDate.month next) (JSDate.day c - dim).

(** A point of the historical part of the result. *)
Definition aggregateHistoricalPoint (d : DataPoint) : ForecastPoint :=
  {| date := dp_date d;
     historical := Some (quantity d);
     forecast := quantity d;
     lowerBound := Some (quantity d);
     upperBound := Some (quantity d);
     isForecast := false;
     projectedInventory := None; safetyStock := None; reorderPoint := None;
     scenarioForecast := None; offsetDate := None;
     incomingProduction := None; projectedRevenue := None;
     projectedMargin := None; inventoryValue := None;
     stickyNote := None; marketDisruption := None |}.

(** The point pushed for the aggregate forecast value [aggValue] at index
    [idx]. *)
Definition aggregateFuturePoint (lastDate : JSDate.civil) (multiplier stdDev : R)
           (idx : nat) (aggValue : R) : ForecastPoint :=
  let step := S idx in
  let forecastDate :=
    setMonth lastDate (JSDate.month lastDate - 1 + Z.of_nat step) in
  let normalizedDate :=
    (substring 0 7 (JSDate.isoDate forecastDate) ++ "-01")%string in
  let uncertainty := multiplier * stdDev * Math_sqrt (INR step) * 0.4 in
  {| date := normalizedDate;
     historical := None;
     forecast := Math_round aggValue;
     lowerBound := Some (Math_max 0 (Math_round (aggValue - uncertainty)));
     upperBound := Some (Math_round (aggValue + uncertainty));
     isForecast := true;
     projectedInventory := None; safetyStock := None; reorderPoint := None;
     scenarioForecast := None; offsetDate := None;
     incomingProduction := None; projectedRevenue := None;
     projectedMargin := None; inventoryValue := None;
     stickyNote := None; marketDisruption := None |}.

(** [aggregateForecast.forEach((aggValue, idx) => ...)] from index [idx]
    on.  With an invalid [lastDate] the first [toISOString] raises a
    RangeError: the result is [None]. *)
Fixpoint pushAggregate (lastDate : option JSDate.civil) (multiplier stdDev : R)
         (idx : nat) (aggregateForecast : list R) : option (list ForecastPoint) :=
  match aggregateForecast with
  | [] => Some []
  | aggValue :: rest =>
      match lastDate with
      | None => None
      | Some ld =>
          match pushAggregate lastDate multiplier stdDev (S idx) rest with
          | None => None
          | Some pts =>
              Some (aggregateFuturePoint ld multiplier stdDev idx aggValue :: pts)
          end
      end
  end.

(** [calculateForecastAggregateAllocate]; the [timeInterval] argument only
    has the value ['monthly'] and is left out, and so is the SKU mix, which
    the function computes and does not use.  [None] is an exception raised
    to the caller. *)
Definition calculateForecastAggregateAllocate (historicalData : list DataPoint)
           (horizon : nat) (confidenceLevel : R) (hwMethod : HWMethod)
  : option (list ForecastPoint) :=
  if Nat.eqb (length historicalData) 0 then Some []
  else
    let aggregateData := aggregateData historicalData in
    let aggregateForecast :=
      runHoltWinters (map quantity aggregateData) horizon 12 hwMethod in
    let results := map aggregateHistoricalPoint aggregateData in
    let lastDate := JSDate.parse (lastDateOf aggregateData) in
    let multiplier := getZMultiplier confidenceLevel in
    let stdDev := getStdDev (map quantity aggregateData) in
    match pushAggregate lastDate multiplier stdDev 0 aggregateForecast with
    | None => None
    | Some future => Some (results ++ future)
    end.

End Aggregate.

(* ================================================================== *)
(** * App.tsx: the window of the quality page *)
(* ================================================================== *)

Module QualityPage.

(** [Number(s)] on a string of decimal digits, the empty string being 0.
    Every other string is taken as NaN ([None]); the dates the properties
    below consider split into strings of digits. *)
Definition toNumber (s : string) : option Z := JSDate.digits s 0.

(** The element [i] of [s.split('-').map(Number)] when it is truthy:
    [None] stands for a missing element, NaN and 0. *)
Definition truthyPart (s : string) (i : nat) : option Z :=
  match nth_error (map toNumber (JSDate.splitDash s)) i with
  | Some (Some n) => if (n =? 0)%Z then None else Some n
  | _ => None
  end.

(** [m - k], carried into the previous year when it is not positive. *)
Definition monthsBack (year month k : Z) : Z * Z :=
  if (month - k <=? 0)%Z then (month - k + 12, year - 1)%Z
  else ((month - k)%Z, year).

(** [getQualityPageData]: the points of the six months that end two months
    before the forecast start. *)
Definition getQualityPageData {A : Type} (date : A -> string)
           (comparisonData : list A) (forecastStartDate : string) : list A :=
  if Nat.eqb (length comparisonData) 0 then []
  else
    match truthyPart forecastStartDate 0, truthyPart forecastStartDate 1 with
    | Some forecastYear, Some forecastMonth =>
        let '(backMonth, backYear) := monthsBack forecastYear forecastMonth 7 in
        let '(excludeMonth, excludeYear) := monthsBack forecastYear forecastMonth 1 in
        filter
          (fun d =>
             match truthyPart (date d) 0, truthyPart (date d) 1 with
             | Some year, Some month =>
                 if (year <? backYear)%Z then false
                 else if (year =? backYear)%Z && (month <? backMonth)%Z then false
                 else if (year >? excludeYear)%Z then false
                 else if (year =? excludeYear)%Z && (month >=? excludeMonth)%Z
                      then false
                 else true
             | _, _ => false
             end)
          comparisonData
    | _, _ => comparisonData
    end.

End QualityPage.

(* ================================================================== *)
(** * App.tsx: the forecast aggregated over the SKUs *)
(* ================================================================== *)

Module CrossSku.

Import JS Forecasting App Aggregate.

(** [x || 0] on an optional number. *)
Definition orZero (x : option R) : R :=
  match x with
  | Some v => or_else v 0
  | None => 0
  end.

(** The entry [aggregatedForecast] creates for a date it has not seen. *)
Definition newAggregate (point : ForecastPoint) : ForecastPoint :=
  {| date := date point;
     historical := Some 0;
     forecast := 0;
     lowerBound := Some 0;
     upperBound := Some 0;
     isForecast := isForecast point;
     projectedInventory := Some 0;
     safetyStock := Some 0;
     reorderPoint := Some 0;
     scenarioForecast := None;
     offsetDate := None;
     incomingProduction := None;
     projectedRevenue := Some 0;
     projectedMargin := Some 0;
     inventoryValue := Some 0;
     stickyNote := None;
     marketDisruption := None |}.

(** The assignments that add [point] to the entry [agg] of its date. *)
Definition addPoint (agg point : ForecastPoint) : ForecastPoint :=
  {| date := date agg;
     historical :=
       if negb (isForecast point)
       then Some (orZero (historical agg) + orZero (historical point))
       else None;
     forecast := or_else (forecast agg) 0 + or_else (forecast point) 0;
     lowerBound := Some (orZero (lowerBound agg) + orZero (lowerBound point));
     upperBound := Some (orZero (upperBound agg) + orZero (upperBound point));
     isForecast := isForecast agg;
     projectedInventory :=
       Some (orZero (projectedInventory agg) + orZero (projectedInventory point));
     safetyStock :=
       Some (Math_max (orZero (safetyStock agg)) (orZero (safetyStock point)));
     reorderPoint :=
       Some (Math_max (orZero (reorderPoint agg)) (orZero (reorderPoint point)));
     scenarioForecast :=
       match isForecast point, scenarioForecast point with
       | true, Some v => Some (orZero (scenarioForecast agg) + v)
       | _, _ => scenarioForecast agg
       end;
     offsetDate := offsetDate agg;
     incomingProduction := incomingProduction agg;
     projectedRevenue :=
       Some (orZero (projectedRevenue agg) + orZero (projectedRevenue point));
     projectedMargin :=
       Some (orZero (projectedMargin agg) + orZero (projectedMargin point));
     inventoryValue :=
       Some (orZero (inventoryValue agg) + orZero (inventoryValue point));
     stickyNote := stickyNote agg;
     marketDisruption := marketDisruption agg |}.

(** The body of [skuForecasts.forEach(point => ...)]: the entry of the
    date is created when missing, then updated in place. *)
Definition aggregateStep (aggregatedMap : list (string * ForecastPoint))
           (point : ForecastPoint) : list (string * ForecastPoint) :=
  let created :=
    match mapGet (date point) aggregatedMap with
    | Some _ => aggregatedMap
    | None => mapSet (date point) (newAggregate point) aggregatedMap
    end in
  match mapGet (date point) created with
  | Some agg => mapSet (date point) (addPoint agg point) created
  | None => created
  end.

(** [aggregatedForecast]: the per-SKU forecasts merged by date, in date
    order. *)
Definition aggregatedForecast
           (skuLevelForecasts : list (string * list ForecastPoint))
  : list ForecastPoint :=
  let aggregatedMap :=
    fold_left (fun m e => fold_left aggregateStep (snd e) m)
              skuLevelForecasts [] in
  sortBy (fun a b => String.leb (date a) (date b)) (map snd aggregatedMap).

End CrossSku.

(* ================================================================== *)
(** * The volatility computation in binary64 arithmetic *)
(* ================================================================== *)

(** The coefficient of variation is compared with the thresholds 30 and 50,
    and there the last digit of the result decides.  This module repeats the
    computation of [volatilityResults] on IEEE 754 binary64 numbers, with
    every operation rounded to nearest, ties to even.  [Math.pow(x, 2)] is
    taken as the correctly rounded square and [Math.sqrt] as the correctly
    rounded square root. *)
Module Binary64.

Open Scope Z_scope.

Definition prec : Z := 53.
Definition emax : Z := 1024.

(** A JavaScript number. *)
Definition number : Type := spec_float.

(** The number of an integer below 2^53 in absolute value. *)
Definition ofZ (n : Z) : number := binary_normalize prec emax n 0 false.

Definition add : number -> number -> number := SFadd prec emax.
Definition sub : number -> number -> number := SFsub prec emax.
Definition mul : number -> number -> number := SFmul prec emax.
Definition div : number -> number -> number := SFdiv prec emax.
Definition sqrt : number -> number := SFsqrt prec emax.
Definition gt (x y : number) : bool := SFltb y x.

(** [Math.pow(x, 2)]. *)
Definition square (x : number) : number := mul x x.

(** [xs.reduce((a, b) => a + b, 0)]. *)
Definition sum (xs : list number) : number := fold_left add xs (ofZ 0).

(** [xs.length] as a number. *)
Definition len (xs : list number) : number := ofZ (Z.of_nat (length xs)).

Record Volatility := mkVolatility {
  v_sku : string;
  volatility : number;
  avgQuantity : number;
  stdDev : number
}.

(** The entry computed for one SKU from its window of quantities. *)
Definition volatilityEntry (s : string) (quantities : list number) : Volatility :=
  let avg := div (sum quantities) (len quantities) in
  let variance :=
    div (fold_left (fun sum q => add sum (square (sub q avg))) quantities (ofZ 0))
        (len quantities) in
  let stdDev := sqrt variance in
  let cv := if gt avg (ofZ 0) then mul (div stdDev avg) (ofZ 100) else ofZ 0 in
  mkVolatility s cv avg stdDev.

(** The risk tier, as [portfolioChanges] derives it from a volatility. *)
Definition riskTier (v : number) : App.Risk :=
  if gt v (ofZ 50) then App.High
  else if gt v (ofZ 30) then App.Medium
  else App.Low.

(** [x * 2^j] for a number that stays clear of the subnormal range and of
    overflow: the sign and the mantissa of [x], the exponent raised by
    [j]. *)
Definition scale (j : Z) (x : number) : number :=
  match x with
  | S754_finite s m e => S754_finite s m (e + j)
  | _ => x
  end.

(** The power of two [2^j] as a number. *)
Definition twoTo (j : Z) : number := S754_finite false (2 ^ 52) (j - 52).

(** [x] is zero or a normal number whose product by [2^j] is a normal
    number again: the product is then exact. *)
Definition scalable (j : Z) (x : number) : bool :=
  match x with
  | S754_zero _ => true
  | S754_finite _ m e =>
      (digits2_pos m =? 53)%positive && (-1074 <=? e + j) && (e + j <=? 971)
  | _ => false
  end.

(** ** Roundings clear of the subnormal range and of overflow *)

Section Checks.

Variables prec emax : Z.

(** At the magnitude [mu] a number keeps [prec] bits: the exponent of its
    last bit is [mu - prec], above the smallest exponent of the format. *)
Definition fullPrecision (mu : Z) : bool := emin prec emax + prec <=? mu.

(** The two shifts of [binary_round_aux] and the mantissa rounded in
    between. *)
Definition stage1 (m e : Z) (l : location) : shr_record * Z :=
  shr_fexp prec emax m e l.

Definition rounded (m e : Z) (l : location) : Z :=
  round_nearest_even (shr_m (fst (stage1 m e l)))
                     (loc_of_shr_record (fst (stage1 m e l))).

Definition stage2 (m e : Z) (l : location) : shr_record * Z :=
  shr_fexp prec emax (rounded m e l) (snd (stage1 m e l)) loc_Exact.

(** The rounding of [m * 2^e] keeps [prec] bits and does not overflow. *)
Definition roundOk (m e : Z) (l : location) : bool :=
  fullPrecision (Zdigits2 m + e)
  && fullPrecision (Zdigits2 (rounded m e l) + snd (stage1 m e l))
  && (snd (stage2 m e l) <=? emax - prec).

(** The same for [binary_normalize], which first aligns the mantissa. *)
Definition normalizeOk (m e : Z) : bool :=
  match m with
  | Z0 => true
  | Zpos p | Zneg p =>
      fullPrecision (Zpos (digits2_pos p) + e)
      && roundOk (Zpos (fst (shl_align p e (fexp prec emax (Zpos (digits2_pos p) + e)))))
                 (snd (shl_align p e (fexp prec emax (Zpos (digits2_pos p) + e))))
                 loc_Exact
  end.

Definition addOk (x y : spec_float) : bool :=
  match x, y with
  | S754_finite sx mx ex, S754_finite sy my ey =>
      let ez := Z.min ex ey in
      normalizeOk (cond_Zopp sx (Zpos (fst (shl_align mx ex ez)))
                   + cond_Zopp sy (Zpos (fst (shl_align my ey ez)))) ez
  | S754_zero _, S754_zero _
  | S754_zero _, S754_finite _ _ _
  | S754_finite _ _ _, S754_zero _ => true
  | _, _ => false
  end.

Definition subOk (x y : spec_float) : bool :=
  match x, y with
  | S754_finite sx mx ex, S754_finite sy my ey =>
      let ez := Z.min ex ey in
      normalizeOk (cond_Zopp sx (Zpos (fst (shl_align mx ex ez)))
                   - cond_Zopp sy (Zpos (fst (shl_align my ey ez)))) ez
  | S754_zero _, S754_zero _
  | S754_zero _, S754_finite _ _ _
  | S754_finite _ _ _, S754_zero _ => true
  | _, _ => false
  end.

Definition mulOk (x y : spec_float) : bool :=
  match x, y with
  | S754_finite sx mx ex, S754_finite sy my ey =>
      roundOk (Zpos (mx * my)) (ex + ey) loc_Exact
  | S754_zero _, S754_zero _
  | S754_zero _, S754_finite _ _ _
  | S754_finite _ _ _, S754_zero _ => true
  | _, _ => false
  end.

Definition divOk (x y : spec_float) : bool :=
  match x, y with
  | S754_finite sx mx ex, S754_finite sy my ey =>
      fullPrecision (Zdigits2 (Zpos mx) + ex - (Zdigits2 (Zpos my) + ey))
      && (let '(mz, ez, lz) := SFdiv_core_binary prec emax (Zpos mx) ex (Zpos my) ey in
          roundOk mz ez lz)
  | S754_zero _, S754_finite _ _ _ => true
  | _, _ => false
  end.

Definition sqrtOk (x : spec_float) : bool :=
  match x with
  | S754_finite false mx ex =>
      fullPrecision (Z.div2 (Zdigits2 (Zpos mx) + ex + 1))
      && (let '(mz, ez, lz) := SFsqrt_core_binary prec emax (Zpos mx) ex in
          roundOk mz ez lz)
  | S754_zero _ => true
  | _ => false
  end.

End Checks.

(** ** The computation with every rounding checked *)

Definition bind {X Y : Type} (o : option X) (f : X -> option Y) : option Y :=
  match o with
  | Some x => f x
  | None => None
  end.

Definition check (ok : bool) (x : number) : option number :=
  if ok then Some x else None.

Definition addC (x y : number) : option number := check (addOk prec emax x y) (add x y).
Definition subC (x y : number) : option number := check (subOk prec emax x y) (sub x y).
Definition mulC (x y : number) : option number := check (mulOk prec emax x y) (mul x y).
Definition divC (x y : number) : option number := check (divOk prec emax x y) (div x y).
Definition sqrtC (x : number) : option number := check (sqrtOk prec emax x) (sqrt x).

Definition sumC (xs : list number) : option number :=
  fold_left (fun acc x => bind acc (fun a => addC a x)) xs (Some (ofZ 0)).

(** One step of the sum of the squared deviations. *)
Definition squareStepC (avg : number) (acc : option number) (q : number)
  : option number :=
  bind acc (fun a =>
  bind (subC q avg) (fun d =>
  bind (mulC d d) (fun p => addC a p))).

Definition squaresC (avg : number) (xs : list number) : option number :=
  fold_left (squareStepC avg) xs (Some (ofZ 0)).

(** The coefficient of variation of [volatilityEntry], or [None] when one
    of its operations meets an infinite operand or a NaN, rounds in the
    subnormal range or overflows. *)
Definition volatilityC (quantities : list number) : option number :=
  bind (sumC quantities) (fun s =>
  bind (divC s (len quantities)) (fun avg =>
  bind (squaresC avg quantities) (fun ss =>
  bind (divC ss (len quantities)) (fun variance =>
  bind (sqrtC variance) (fun stdDev =>
  if gt avg (ofZ 0)
  then bind (divC stdDev avg) (fun r => mulC r (ofZ 100))
  else Some (ofZ 0)))))).

(** Every operation of the computation on [quantities] works on finite
    numbers, keeps 53 bits and stays below overflow. *)
Definition inNormalRange (quantities : list number) : bool :=
  match volatilityC quantities with
  | Some _ => true
  | None => false
  end.

End Binary64.

(* ================================================================== *)
(** * The forecast dates in the time zone of the host *)
(* ================================================================== *)

(** The forecast functions parse their last date as UTC midnight, move it
    with [setDate], [getMonth] and [setMonth], which work on local time,
    and print it with [toISOString], which is UTC again.  This module
    repeats them with the time zone of the host as a parameter; the
    functions of [Forecasting] and [Aggregate] are the instance [utc]. *)
Module Zoned.

Import JS Forecasting App.

Open Scope Z_scope.

Definition msPerDay : Z := 86400000.

(** A time value: a UTC calendar day and the milliseconds elapsed in it. *)
Record instant := mkInstant { dayOf : JSDate.civil; msOf : Z }.

(** The time zone of the host: the offset of local time from UTC, in
    milliseconds, in force at a UTC time and at a local time
    ([LocalTZA(t, true)] and [LocalTZA(t, false)]). *)
Record Zone := mkZone {
  offsetAtUTC : instant -> Z;
  offsetAtLocal : instant -> Z
}.

Definition utc : Zone := mkZone (fun _ => 0) (fun _ => 0).

(** A zone without daylight saving time. *)
Definition fixedOffset (ms : Z) : Zone := mkZone (fun _ => ms) (fun _ => ms).

Definition nextDay (c : JSDate.civil) : JSDate.civil :=
  if JSDate.day c <? JSDate.daysInMonth (JSDate.year c) (JSDate.month c)
  then JSDate.mkCivil (JSDate.year c) (JSDate.month c) (JSDate.day c + 1)
  else if JSDate.month c =? 12 then JSDate.mkCivil (JSDate.year c + 1) 1 1
  else JSDate.mkCivil (JSDate.year c) (JSDate.month c + 1) 1.

Definition prevDay (c : JSDate.civil) : JSDate.civil :=
  if 1 <? JSDate.day c
  then JSDate.mkCivil (JSDate.year c) (JSDate.month c) (JSDate.day c - 1)
  else if JSDate.month c =? 1 then JSDate.mkCivil (JSDate.year c - 1) 12 31
  else JSDate.mkCivil (JSDate.year c) (JSDate.month c - 1)
                      (JSDate.daysInMonth (JSDate.year c) (JSDate.month c - 1)).

Definition addDays (c : JSDate.civil) (k : Z) : JSDate.civil :=
  match k with
  | Z0 => c
  | Zpos p => Pos.iter nextDay c p
  | Zneg p => Pos.iter prevDay c p
  end.

(** The time value [ms] milliseconds after [t]. *)
Definition shift (t : instant) (ms : Z) : instant :=
  let total := msOf t + ms in
  mkInstant (addDays (dayOf t) (total / msPerDay)) (total mod msPerDay).

(** [LocalTime(t)] and [UTC(t)]. *)
Definition LocalTime (z : Zone) (t : instant) : instant :=
  shift t (offsetAtUTC z t).

Definition UTC (z : Zone) (l : instant) : instant :=
  shift l (- offsetAtLocal z l).

(** [MakeDay(y, mi, dt)]: day [dt] of the month with index [mi] of year
    [y]; a day past the end of the month carries into the months after. *)
Definition MakeDay (y mi dt : Z) : JSDate.civil :=
  addDays (JSDate.firstOfMonth y mi) (dt - 1).

(** [new Date(s)] on YYYY-MM-DD strings: UTC midnight of the day. *)
Definition parse (s : string) : option instant :=
  option_map (fun c => mkInstant c 0) (JSDate.parse s).

(** [d.setDate(dt)]. *)
Definition setDate (z : Zone) (t : instant) (dt : Z) : instant :=
  let l := LocalTime z t in
  UTC z (mkInstant (MakeDay (JSDate.year (dayOf l)) (JSDate.month (dayOf l) - 1) dt)
                   (msOf l)).

(** [d.getMonth()]. *)
Definition getMonth (z : Zone) (t : instant) : Z :=
  JSDate.month (dayOf (LocalTime z t)) - 1.

(** [d.setMonth(mi)]. *)
Definition setMonth (z : Zone) (t : instant) (mi : Z) : instant :=
  let l := LocalTime z t in
  UTC z (mkInstant (MakeDay (JSDate.year (dayOf l)) mi (JSDate.day (dayOf l)))
                   (msOf l)).

(** [d.toISOString().split('T')[0]]. *)
Definition isoDate (t : instant) : string := JSDate.isoDate (dayOf t).

(** The point pushed by [calculateForecast] for the forecast value [val]
    at index [i]. *)
Definition futurePoint (z : Zone) (lastDate : instant) (multiplier stdDev : R)
           (i : nat) (val : R) : ForecastPoint :=
  let step := S i in
  let forecastDate :=
    setMonth z lastDate (getMonth z lastDate + Z.of_nat step) in
  let uncertainty := (multiplier * stdDev * Math_sqrt (INR step) * 0.4)%R in
  let normalizedDate := (substring 0 7 (isoDate forecastDate) ++ "-01")%string in
  {| date := normalizedDate;
     historical := None;
     forecast := Math_round val;
     lowerBound := Some (Math_max 0 (Math_round (val - uncertainty)));
     upperBound := Some (Math_round (val + uncertainty));
     isForecast := true;
     projectedInventory := None; safetyStock := None; reorderPoint := None;
     scenarioForecast := None; offsetDate := None;
     incomingProduction := None; projectedRevenue := None;
     projectedMargin := None; inventoryValue := None;
     stickyNote := None; marketDisruption := None |}.

(** [forecastValues.forEach((val, i) => ...)] from index [i] on; [None]
    is the RangeError of [toISOString] on an invalid date. *)
Fixpoint pushForecasts (z : Zone) (lastDate : option instant)
         (multiplier stdDev : R) (i : nat) (forecastValues : list R)
  : option (list ForecastPoint) :=
  match forecastValues with
  | [] => Some []
  | val :: rest =>
      match lastDate with
      | None => None
      | Some ld =>
          match pushForecasts z lastDate multiplier stdDev (S i) rest with
          | None => None
          | Some pts => Some (futurePoint z ld multiplier stdDev i val :: pts)
          end
      end
  end.

(** [calculateForecast] on a host in the zone [z]. *)
Definition calculateForecast (z : Zone) (historicalData : list DataPoint)
           (horizon : nat) (trainingDataEndDate : string) (confidenceLevel : R)
           (method : ForecastMethodology) (hwMethod : HWMethod)
           (autoDetectHW : bool) : option (list ForecastPoint) :=
  if Nat.ltb (length historicalData) 3 || String.eqb trainingDataEndDate ""
  then Some []
  else
    let trainingData :=
      filter (fun d => String.leb (dp_date d) trainingDataEndDate)
             historicalData in
    if Nat.ltb (length trainingData) 3 then Some []
    else
      let values := map quantity trainingData in
      let forecastValues :=
        forecastValuesOf method values horizon hwMethod autoDetectHW in
      let results := map (historicalPoint trainingDataEndDate) historicalData in
      let multiplier := getZMultiplier confidenceLevel in
      let stdDev := getStdDev values in
      let lastDate :=
        option_map (fun t => setDate z t 1) (parse trainingDataEndDate) in
      match pushForecasts z lastDate multiplier stdDev 0 forecastValues with
      | None => None
      | Some future => Some (results ++ future)
      end.

(** The point pushed by [calculateForecastAggregateAllocate] for the
    aggregate forecast value [aggValue] at index [idx]. *)
Definition aggregateFuturePoint (z : Zone) (lastDate : instant)
           (multiplier stdDev : R) (idx : nat) (aggValue : R) : ForecastPoint :=
  let step := S idx in
  let forecastDate :=
    setMonth z lastDate (getMonth z lastDate + Z.of_nat step) in
  let normalizedDate := (substring 0 7 (isoDate forecastDate) ++ "-01")%string in
  let uncertainty := (multiplier * stdDev * Math_sqrt (INR step) * 0.4)%R in
  {| date := normalizedDate;
     historical := None;
     forecast := Math_round aggValue;
     lowerBound := Some (Math_max 0 (Math_round (aggValue - uncertainty)));
     upperBound := Some (Math_round (aggValue + uncertainty));
     isForecast := true;
     projectedInventory := None; safetyStock := None; reorderPoint := None;
     scenarioForecast := None; offsetDate := None;
     incomingProduction := None; projectedRevenue := None;
     projectedMargin := None; inventoryValue := None;
     stickyNote := None; marketDisruption := None |}.

Fixpoint pushAggregate (z : Zone) (lastDate : option instant)
         (multiplier stdDev : R) (idx : nat) (aggregateForecast : list R)
  : option (list ForecastPoint) :=
  match aggregateForecast with
  | [] => Some []
  | aggValue :: rest =>
      match lastDate with
      | None => None
      | Some ld =>
          match pushAggregate z lastDate multiplier stdDev (S idx) rest with
          | None => None
          | Some pts =>
              Some (aggregateFuturePoint z ld multiplier stdDev idx aggValue :: pts)
          end
      end
  end.

(** [calculateForecastAggregateAllocate] on a host in the zone [z]. *)
Definition calculateForecastAggregateAllocate (z : Zone)
           (historicalData : list DataPoint) (horizon : nat)
           (confidenceLevel : R) (hwMethod : HWMethod)
  : option (list ForecastPoint) :=
  if Nat.eqb (length historicalData) 0 then Some []
  else
    let aggregateData := Aggregate.aggregateData historicalData in
    let aggregateForecast :=
      runHoltWinters (map quantity aggregateData) horizon 12 hwMethod in
    let results := map Aggregate.aggregateHistoricalPoint aggregateData in
    let lastDate := parse (lastDateOf aggregateData) in
    let multiplier := getZMultiplier confidenceLevel in
    let stdDev := getStdDev (map quantity aggregateData) in
    match pushAggregate z lastDate multiplier stdDev 0 aggregateForecast with
    | None => None
    | Some future => Some (results ++ future)
    end.

End Zoned.

(* ================================================================== *)
(** * Vocabulary of the statements *)
(* ================================================================== *)

Section Vocabulary.

Import JS Forecasting App Classifier.

(** The accumulated squared deviations of [getStdDev] and of the
    volatility computation. *)
Definition sqDev (mean : R) (xs : list R) : R :=
  fold_right (fun x acc => (x - mean) ^ 2 + acc) 0 xs.

(** The values a forecast point carries are all non-negative. *)
Definition nonnegOpt (x : option R) : Prop :=
  match x with Some v => 0 <= v | None => True end.

Definition pointNonneg (p : ForecastPoint) : Prop :=
  0 <= forecast p /\ nonnegOpt (lowerBound p) /\ nonnegOpt (upperBound p)
  /\ nonnegOpt (historical p).

(** The training data of [calculateForecast]. *)
Definition trainingOf (historicalData : list DataPoint) (cutoff : string)
  : list DataPoint :=
  filter (fun d => String.leb (dp_date d) cutoff) historicalData.

(** The points [pushForecasts] appends when the cutoff is a valid date. *)
Fixpoint futureFrom (ld : JSDate.civil) (multiplier sd : R) (i : nat)
         (vals : list R) : list ForecastPoint :=
  match vals with
  | [] => []
  | val :: rest =>
      futurePoint ld multiplier sd i val :: futureFrom ld multiplier sd (S i) rest
  end.

(** The uncertainty added to and subtracted from a forecast value. *)
Definition uncertaintyAt (conf : R) (trainingValues : list R) (step : nat) : R :=
  getZMultiplier conf * getStdDev trainingValues * sqrt (INR step) * 0.4.















(** A SKU the backtest does not evaluate. *)
Definition ineligible (inp : BacktestInput) (testStartTime : option Z)
           (s : string) : Prop :=
  (length (skuDataOf inp s) < 18)%nat
  \/ (length (trainDataOf testStartTime (skuDataOf inp s)) < 6)%nat.

(** The pairs that the entry of SKU [s] contributes to a method. *)
Definition skuRows (testStartTime testEndTime : option Z)
           (smf : list (string * SkuMethods)) (method : ForecastMethodology)
           (s : string) : list Row :=
  flat_map
    (fun e =>
       if String.eqb (fst e) s then
         match getMethod (snd e) method with
         | Some md => scoredRows testStartTime testEndTime md
         | None => []
         end
       else []) smf.

(** The SKU list without [s]. *)
Definition withoutSku (s : string) (skus : list string) : list string :=
  filter (fun x => negb (String.eqb x s)) skus.

(** The input with another SKU filter. *)
Definition withFilter (inp : BacktestInput) (skus : list string) : BacktestInput :=
  mkBacktestInput (data inp) skus (forecastStartMonth inp) (confidenceLevel inp)
                  (methodology inp) (includeExternalTrends inp) (marketAdj inp)
                  (hwMethod inp) (autoDetectHW inp).

(** The start of the test window of an input, NaN when there is none. *)
Definition testStartOf (inp : BacktestInput) : option Z :=
  match testWindowOf inp with
  | Some w => testStartTimeOf w
  | None => None
  end.

(** The date of the forecast point at index [i]. *)
Definition futureDate (ld : JSDate.civil) (i : nat) : string :=
  (substring 0 7 (JSDate.isoDate (JSDate.addMonths ld (Z.of_nat (S i))))
   ++ "-01")%string.

(** The forecast the backtest obtains for one method from training data
    ending on a valid date. *)
Definition backtestForecast (inp : BacktestInput) (trainData : list DataPoint)
           (trainEndDate : string) (c : JSDate.civil)
           (method : ForecastMethodology) : list ForecastPoint :=
  let values := map quantity (trainingOf trainData trainEndDate) in
  map (historicalPoint trainEndDate) trainData
  ++ futureFrom (JSDate.setDate1 c) (getZMultiplier (confidenceLevel inp))
       (getStdDev values) 0
       (forecastValuesOf method values 13 (hwMethod inp) (autoDetectHW inp)).

(** The dates the backtest forecasts for a SKU: the training points
    flagged as forecast, none when the data is in date order, then 13
    months after the end of training. *)
Definition forecastDatesOf (trainData : list DataPoint) (trainEndDate : string)
           (c : JSDate.civil) : list string :=
  map dp_date (filter (fun d => String.ltb trainEndDate (dp_date d)) trainData)
  ++ map (futureDate (JSDate.setDate1 c)) (seq 0 13).

(** One SKU with 24 monthly points, January 2023 to December 2024, and a
    forecast that starts in January 2025. *)
Definition twoYears : list DataPoint :=
  map (fun d => mkDataPoint d "S" "trailer" 100)
      ["2023-01-01"; "2023-02-01"; "2023-03-01"; "2023-04-01"; "2023-05-01";
       "2023-06-01"; "2023-07-01"; "2023-08-01"; "2023-09-01"; "2023-10-01";
       "2023-11-01"; "2023-12-01"; "2024-01-01"; "2024-02-01"; "2024-03-01";
       "2024-04-01"; "2024-05-01"; "2024-06-01"; "2024-07-01"; "2024-08-01";
       "2024-09-01"; "2024-10-01"; "2024-11-01"; "2024-12-01"]%string.

Definition yearInput : BacktestInput :=
  mkBacktestInput twoYears [] "2025-01-01" 95 HOLT_WINTERS false None
                  multiplicative false.

Definition yearWindow : string * string :=
  ("2024-01-01", "2024-12-01")%string.

(** The table phase 1 builds for [yearInput]. *)
Definition yearForecasts : list (string * SkuMethods) :=
  let skuData := skuDataOf yearInput "S" in
  let trainData := trainDataOf (testStartTimeOf yearWindow) skuData in
  [("S"%string,
    map (fun method =>
           (method,
            methodDataOf skuData
              (applyMarketAdj yearInput
                 (backtestForecast yearInput trainData "2023-12-01"
                                   (JSDate.mkCivil 2023 12 1) method))))
        allMethods)].

(** The twelve months of the test window of [yearInput]. *)
Definition holdoutMonths : list string :=
  ["2024-01-01"; "2024-02-01"; "2024-03-01"; "2024-04-01"; "2024-05-01";
   "2024-06-01"; "2024-07-01"; "2024-08-01"; "2024-09-01"; "2024-10-01";
   "2024-11-01"; "2024-12-01"]%string.
End Vocabulary.

(* ================================================================== *)
(** * Sums over the counter values of a loop *)
(* ================================================================== *)

(** The sum of [f i] over the counter values [l]. *)
Definition sumOver (f : nat -> R) (l : list nat) : R :=
  fold_right (fun i acc => f i + acc) 0 l.

(* ================================================================== *)
(** * Vocabulary of the further properties *)
(* ================================================================== *)

Section MoreVocabulary.

Import JS Forecasting App Aggregate CrossSku.

(** The error [forecast[i] - actual[i]] accumulated by [calculateMetrics]. *)
Definition errorAt (actual forecast : list R) (i : nat) : R :=
  get forecast i - get actual i.

(** How many pairs [calculateMetrics] compares. *)
Definition compared (actual forecast : list R) : nat :=
  Nat.min (length actual) (length forecast).

(** At how many positions the quantity of [out] differs from the one of
    [data]. *)
Definition changed (data out : list DataPoint) : nat :=
  length (filter (fun p => negb (eq (quantity (fst p)) (quantity (snd p))))
                 (combine data out)).

(** An entry of phase 1 of the backtest holds the four methods in order,
    each with 13 forecast dates, 13 forecasts and 13 matched actuals. *)
Definition completeEntry (e : string * SkuMethods) : Prop :=
  map fst (snd e) = allMethods
  /\ Forall (fun md => length (dates md) = 13%nat
                       /\ length (forecasts md) = 13%nat
                       /\ length (actuals md) = 13%nat)
            (map snd (snd e)).

(** The ranges of the figures of a metrics record of the backtest. *)
Definition metricsConsistent (m : Metrics) : Prop :=
  0 <= accuracy m <= 100
  /\ 0 <= mape m
  /\ 0 <= rmse m.

(** What the loop of [volatilityOver] keeps true of the map it fills. *)
Definition volatilityMap (filterSkus : list string)
           (m : list (string * Volatility)) : Prop :=
  NoDup (map fst m)
  /\ Forall (fun e => v_sku (snd e) = fst e
                      /\ 0 <= volatility (snd e)
                      /\ matchesSku filterSkus (fst e) = true) m.

(** [subseq l1 l2]: [l1] is [l2] with some elements left out, the others
    in the same order. *)
Inductive subseq {A : Type} : list A -> list A -> Prop :=
| subseq_nil : subseq [] []
| subseq_skip : forall x l1 l2, subseq l1 l2 -> subseq l1 (x :: l2)
| subseq_take : forall x l1 l2, subseq l1 l2 -> subseq (x :: l1) (x :: l2).

(** The total quantity the points of [data] carry on the date [k]. *)
Definition totalOn (k : string) (data : list DataPoint) : R :=
  sum (map quantity (filter (fun d => String.eqb (dp_date d) k) data)).

(** What the loop of [totalsByDate] keeps true of the map after the points
    [seen]. *)
Definition totalsInv (seen : list DataPoint) (m : list (string * R)) : Prop :=
  NoDup (map fst m)
  /\ (forall k, In k (map fst m) <-> In k (map dp_date seen))
  /\ (forall k, getOr0 k m = totalOn k seen)
  /\ sum (map snd m) = sum (map quantity seen).

(** The points [pushAggregate] appends when the last date is valid. *)
Fixpoint aggregateFutureFrom (ld : JSDate.civil) (multiplier sd : R) (i : nat)
         (vals : list R) : list ForecastPoint :=
  match vals with
  | [] => []
  | val :: rest =>
      aggregateFuturePoint ld multiplier sd i val
      :: aggregateFutureFrom ld multiplier sd (S i) rest
  end.

(** The label YYYY-MM-01 of the month of a calendar day, as the forecast
    functions build it. *)
Definition monthLabel (c : JSDate.civil) : string :=
  (substring 0 7 (JSDate.isoDate c) ++ "-01")%string.

(** The months counted from year 0: consecutive months have consecutive
    indices. *)
Definition monthIndex (c : JSDate.civil) : Z :=
  (12 * JSDate.year c + JSDate.month c)%Z.

(** The date [s] is a calendar day at most seven and at least two months
    before the month of [start]. *)
Definition inQualityWindow (start : JSDate.civil) (s : string) : bool :=
  match JSDate.parse s with
  | Some c =>
      (monthIndex start - 7 <=? monthIndex c)%Z
      && (monthIndex c <=? monthIndex start - 2)%Z
  | None => false
  end.

(** A calendar day of the year 1 or later. *)
Definition commonEra (s : string) : Prop :=
  match JSDate.parse s with
  | Some c => (1 <= JSDate.year c)%Z
  | None => False
  end.

(** The character of a decimal digit. *)
Definition digitChar (d : Z) : ascii := ascii_of_nat (Z.to_nat (48 + d)).

(** A number below 10000 written with four digits, and one below 100
    written with two. *)
Definition fourDigits (y : Z) : string :=
  String (digitChar (y / 1000))
    (String (digitChar (y / 100 mod 10))
       (String (digitChar (y / 10 mod 10))
          (String (digitChar (y mod 10)) EmptyString))).

Definition twoDigits (m : Z) : string :=
  String (digitChar (m / 10)) (String (digitChar (m mod 10)) EmptyString).

(** The decimal numeral that starts with the digit [d]. *)
Definition uintDigit (d : Z) (l : Decimal.uint) : Decimal.uint :=
  match d with
  | 0%Z => Decimal.D0 l | 1%Z => Decimal.D1 l | 2%Z => Decimal.D2 l
  | 3%Z => Decimal.D3 l | 4%Z => Decimal.D4 l | 5%Z => Decimal.D5 l
  | 6%Z => Decimal.D6 l | 7%Z => Decimal.D7 l | 8%Z => Decimal.D8 l
  | _ => Decimal.D9 l
  end.

(** A calendar day of the years 0 to 9999, the days an ISO date of ten
    characters can name. *)
Definition calendarDay (c : JSDate.civil) : Prop :=
  (0 <= JSDate.year c <= 9999)%Z
  /\ (1 <= JSDate.month c <= 12)%Z
  /\ (1 <= JSDate.day c <= JSDate.daysInMonth (JSDate.year c) (JSDate.month c))%Z.

(** The points of all the SKUs, in the order [aggregatedForecast] reads
    them, and those dated [k] among a list of points. *)
Definition allPoints (skuLevelForecasts : list (string * list ForecastPoint))
  : list ForecastPoint :=
  flat_map snd skuLevelForecasts.

Definition pointsOn (k : string) (pts : list ForecastPoint) : list ForecastPoint :=
  filter (fun p => String.eqb (date p) k) pts.

(** What the loop of [aggregatedForecast] keeps true of its map after the
    points [seen], for a figure [w] of the entries fed by the figure [wp]
    of the points. *)
Definition mergedInv (w wp : ForecastPoint -> R) (seen : list ForecastPoint)
           (m : list (string * ForecastPoint)) : Prop :=
  NoDup (map fst m)
  /\ (forall k, In k (map fst m) <-> In k (map date seen))
  /\ (forall k a, mapGet k m = Some a ->
                  date a = k /\ w a = sum (map wp (pointsOn k seen)))
  /\ sum (map (fun e => w (snd e)) m) = sum (map wp seen).

End MoreVocabulary.

(* ================================================================== *)
(** * Vocabulary of the forecast dates *)
(* ================================================================== *)

(** The local calendar day at UTC midnight of the day [c], in a zone at the
    constant offset [tz] from UTC. *)
Definition localDay (tz : Z) (c : JSDate.civil) : JSDate.civil :=
  if (tz <? 0)%Z then Zoned.prevDay c else c.

(** The forecast dates fall a month behind: the zone is west of UTC and the
    day [c] is a first of the month. *)
Definition monthBehind (tz : Z) (c : JSDate.civil) : bool :=
  ((tz <? 0) && (JSDate.day c =? 1))%Z.

(** The first day of the month [k] months after the month of [c]. *)
Definition monthAfter (c : JSDate.civil) (k : Z) : JSDate.civil :=
  JSDate.firstOfMonth (JSDate.year c) (JSDate.month c - 1 + k)%Z.

(** The number of days of the month of [c]. *)
Definition daysOf (c : JSDate.civil) : Z :=
  JSDate.daysInMonth (JSDate.year c) (JSDate.month c).

(** The local time at UTC midnight of the day [c]: what [new Date(s)]
    holds, read in local time. *)
Definition localCutoff (z : Zoned.Zone) (c : JSDate.civil) : Zoned.instant :=
  Zoned.LocalTime z (Zoned.mkInstant c 0).

(** The local time of [calculateForecast] at step [k]: the first day of
    the month [k] months after the local month of the cutoff, at the local
    time of day of the cutoff. *)
Definition localFirst (z : Zoned.Zone) (c : JSDate.civil) (k : Z) : Zoned.instant :=
  Zoned.mkInstant (monthAfter (Zoned.dayOf (localCutoff z c)) k)
                  (Zoned.msOf (localCutoff z c)).

(** The offsets of a zone are below 24 hours. *)
Definition zoneBounded (z : Zoned.Zone) : Prop :=
  forall t,
    (- Zoned.msPerDay < Zoned.offsetAtUTC z t < Zoned.msPerDay)%Z
    /\ (- Zoned.msPerDay < Zoned.offsetAtLocal z t < Zoned.msPerDay)%Z.

(** A zone with daylight saving time, after Central European time: one
    hour east of UTC, two hours from April to October.  The switch is
    taken at the turn of the month. *)
Definition summerTime (c : JSDate.civil) : bool :=
  ((4 <=? JSDate.month c) && (JSDate.month c <=? 10))%Z.

Definition centralEurope : Zoned.Zone :=
  Zoned.mkZone
    (fun t => if summerTime (Zoned.dayOf t) then 7200000 else 3600000)%Z
    (fun l => if summerTime (Zoned.dayOf l) then 7200000 else 3600000)%Z.

(* ================================================================== *)
(** * Facts about numbers *)
(* ================================================================== *)

Section NumberFacts.

Import JS.

Lemma gt_spec x y : gt x y = true <-> x > y.
Proof. unfold gt; destruct (Rgt_dec x y); split; intros; auto; discriminate. Qed.

Lemma ge_spec x y : ge x y = true <-> x >= y.
Proof. unfold ge; destruct (Rge_dec x y); split; intros; auto; discriminate. Qed.



Lemma eq_spec x y : eq x y = true <-> x = y.
Proof. unfold eq; destruct (Req_dec_T x y); split; intros; auto; discriminate. Qed.

Lemma gt_false x y : gt x y = false <-> x <= y.
Proof.
  unfold gt; destruct (Rgt_dec x y); split; intros; auto; try discriminate; lra.
Qed.

Lemma ge_false x y : ge x y = false <-> x < y.
Proof.
  unfold ge; destruct (Rge_dec x y); split; intros; auto; try discriminate; lra.
Qed.


Lemma lt_false x y : lt x y = false <-> y <= x.
Proof.
  unfold lt. destruct (Rlt_dec x y); split; intros; try discriminate; lra.
Qed.

Lemma or_else_0 x : or_else x 0 = x.
Proof. unfold or_else; destruct (eq x 0) eqn:E; auto. apply eq_spec in E; auto. Qed.

(** [Math.round] is pinned down by the half-open unit interval around an
    integer. *)
Lemma Math_round_eq (k : Z) x :
  IZR k - / 2 <= x < IZR k + / 2 -> Math_round x = IZR k.
Proof.
  intros H. unfold Math_round. f_equal. apply Zfloor_eq. lra.
Qed.

Lemma Math_round_nonneg x : 0 <= x -> 0 <= Math_round x.
Proof.
  intros H. unfold Math_round. apply IZR_le.
  apply Zfloor_lub. simpl. lra.
Qed.

Lemma Math_round_IZR (k : Z) : Math_round (IZR k) = IZR k.
Proof. apply Math_round_eq. lra. Qed.

Lemma Math_max_0_nonneg x : 0 <= Math_max 0 x.
Proof. apply Rmax_l. Qed.

(** [reduce] from the left against the usual sum. *)
Lemma fold_left_Rplus (xs : list R) a :
  fold_left Rplus xs a = a + fold_right Rplus 0 xs.
Proof.
  revert a; induction xs as [|x xs IH]; intros a; simpl.
  - lra.
  - rewrite IH. lra.
Qed.

Lemma sum_cons x xs : sum (x :: xs) = x + sum xs.
Proof. unfold sum; simpl. rewrite (fold_left_Rplus xs (0 + x)), (fold_left_Rplus xs 0). lra. Qed.

Lemma sum_nil : sum [] = 0.
Proof. reflexivity. Qed.

Lemma sum_app xs ys : sum (xs ++ ys) = sum xs + sum ys.
Proof.
  induction xs as [|x xs IH]; simpl.
  - rewrite sum_nil; lra.
  - rewrite !sum_cons, IH; lra.
Qed.

Lemma fold_left_sqDev mean xs a :
  fold_left (fun sq x => sq + (x - mean) ^ 2) xs a = a + sqDev mean xs.
Proof.
  revert a; induction xs as [|x xs IH]; intros a; simpl.
  - lra.
  - rewrite IH. lra.
Qed.

Lemma sqDev_nonneg mean xs : 0 <= sqDev mean xs.
Proof.
  induction xs as [|x xs IH]; simpl; [lra|].
  pose proof (pow2_ge_0 (x - mean)). lra.
Qed.

End NumberFacts.

(* ================================================================== *)
(** * Dates at work *)
(* ================================================================== *)

Example timeOf_epoch : JSDate.timeOf "1970-01-01" = Some 0%Z.
Proof. reflexivity. Qed.

Example timeOf_2024 : JSDate.timeOf "2024-01-01" = Some 1704067200000%Z.
Proof. reflexivity. Qed.

Example parse_leap_day :
  JSDate.parse "2024-02-29" = Some (JSDate.mkCivil 2024 2 29)
  /\ JSDate.parse "2023-02-29" = None
  /\ JSDate.parse "2024-2-29" = None.
Proof. repeat split; reflexivity. Qed.

Example make_carries_months :
  JSDate.isoDate (JSDate.make 2025 (1 - 1 - 12)) = "2024-01-01"%string
  /\ JSDate.isoDate (JSDate.make 2025 (1 - 1 - 1)) = "2024-12-01"%string
  /\ JSDate.isoDate (JSDate.addMonths (JSDate.mkCivil 2023 12 1) 13)
     = "2025-01-01"%string.
Proof. repeat split; reflexivity. Qed.

Example normalizeDateFormat_day :
  App.normalizeDateFormat "2024-03-15" = "2024-03-01"%string
  /\ App.normalizeDateFormat "March" = ""%string.
Proof. split; reflexivity. Qed.

(* ================================================================== *)
(** * The confidence multiplier and the standard deviation *)
(* ================================================================== *)

Section Statistics.

Import JS Forecasting.

Lemma getZMultiplier_cases conf :
  (conf >= 99 /\ getZMultiplier conf = 2.576)
  \/ (95 <= conf < 99 /\ getZMultiplier conf = 1.96)
  \/ (90 <= conf < 95 /\ getZMultiplier conf = 1.645)
  \/ (85 <= conf < 90 /\ getZMultiplier conf = 1.44)
  \/ (80 <= conf < 85 /\ getZMultiplier conf = 1.28)
  \/ (conf < 80 /\ getZMultiplier conf = 1.96).
Proof.
  unfold getZMultiplier.
  destruct (ge conf 99) eqn:E99; [apply ge_spec in E99; left; split; auto|].
  destruct (ge conf 95) eqn:E95;
    [apply ge_spec in E95; apply ge_false in E99; right; left; split; auto; lra|].
  destruct (ge conf 90) eqn:E90;
    [apply ge_spec in E90; apply ge_false in E95; do 2 right; left; split; auto; lra|].
  destruct (ge conf 85) eqn:E85;
    [apply ge_spec in E85; apply ge_false in E90; do 3 right; left; split; auto; lra|].
  destruct (ge conf 80) eqn:E80;
    [apply ge_spec in E80; apply ge_false in E85; do 4 right; left; split; auto; lra|].
  apply ge_false in E80. do 5 right. split; auto.
Qed.

Lemma getZMultiplier_pos conf : 0 < getZMultiplier conf.
Proof.
  destruct (getZMultiplier_cases conf) as [[_ H]|[[_ H]|[[_ H]|[[_ H]|[[_ H]|[_ H]]]]]];
    rewrite H; lra.
Qed.

Lemma getStdDev_nonneg values : 0 <= getStdDev values.
Proof.
  unfold getStdDev. destruct (Nat.eqb (length values) 0); [lra|].
  apply sqrt_pos.
Qed.

End Statistics.

(** C9. [getZMultiplier] is defined for every confidence level and returns
    one of 2.576, 1.96, 1.645, 1.44 and 1.28; below 80 it returns 1.96,
    the multiplier of the 95 percent level. *)
Theorem getZMultiplier_total_and_default :
  forall conf : R,
    In (Forecasting.getZMultiplier conf) [2.576; 1.96; 1.645; 1.44; 1.28]
    /\ (conf < 80 ->
        Forecasting.getZMultiplier conf = 1.96
        /\ Forecasting.getZMultiplier conf = Forecasting.getZMultiplier 95).
Proof.
  intros conf. split.
  - destruct (getZMultiplier_cases conf)
      as [[_ H]|[[_ H]|[[_ H]|[[_ H]|[[_ H]|[_ H]]]]]]; rewrite H; simpl; auto 6.
  - intros Hlt.
    destruct (getZMultiplier_cases conf)
      as [[C H]|[[C H]|[[C H]|[[C H]|[[C H]|[C H]]]]]]; try lra.
    split; [exact H|].
    rewrite H.
    destruct (getZMultiplier_cases 95)
      as [[C' H']|[[C' H']|[[C' H']|[[C' H']|[[C' H']|[C' H']]]]]]; try lra.
Qed.

Lemma getZMultiplier_total_and_default_witness :
  50 < 80 /\ Forecasting.getZMultiplier 50 = 1.96.
Proof.
  split; [lra|].
  apply (proj2 (getZMultiplier_total_and_default 50)). lra.
Defined.

(* ================================================================== *)
(** * calculateForecast *)
(* ================================================================== *)

Section ForecastFacts.

Import JS Forecasting.

(** Every method clamps each value it pushes at 0. *)
Lemma Forall_map_max0 {A : Type} (f : A -> R) (l : list A) :
  Forall (fun v => 0 <= v) (map (fun i => Math_max 0 (f i)) l).
Proof.
  induction l as [|a l IH]; simpl; constructor; auto. apply Math_max_0_nonneg.
Qed.

Lemma runHoltWintersAdditive_nonneg values horizon L :
  Forall (fun v => 0 <= v) (runHoltWintersAdditive values horizon L).
Proof. unfold runHoltWintersAdditive. cbv zeta. apply Forall_map_max0. Qed.

Lemma runHoltWintersMultiplicative_nonneg values horizon L :
  Forall (fun v => 0 <= v) (runHoltWintersMultiplicative values horizon L).
Proof. unfold runHoltWintersMultiplicative. cbv zeta. apply Forall_map_max0. Qed.

Lemma runProphet_nonneg values horizon :
  Forall (fun v => 0 <= v) (runProphet values horizon).
Proof. unfold runProphet. cbv zeta. apply Forall_map_max0. Qed.

Lemma arimaSteps_nonneg mean k :
  forall currentVal, Forall (fun v => 0 <= v) (arimaSteps mean currentVal k).
Proof.
  induction k as [|k IH]; intros c; simpl; constructor; auto.
  apply Math_max_0_nonneg.
Qed.

Lemma runArima_nonneg values horizon :
  Forall (fun v => 0 <= v) (runArima values horizon).
Proof. apply arimaSteps_nonneg. Qed.

Lemma runLinear_nonneg values horizon :
  Forall (fun v => 0 <= v) (runLinear values horizon).
Proof.
  unfold runLinear. cbv zeta.
  destruct (fold_left _ _ _) as [[[sumX sumY] sumXY] sumXX].
  apply Forall_map_max0.
Qed.

Lemma forecastValuesOf_nonneg method values horizon hw auto :
  Forall (fun v => 0 <= v) (forecastValuesOf method values horizon hw auto).
Proof.
  unfold forecastValuesOf, runHoltWinters.
  destruct method;
    try apply runLinear_nonneg; try apply runProphet_nonneg;
    try apply runArima_nonneg;
    match goal with
    | |- context [match ?m with additive => _ | multiplicative => _ end] =>
        destruct m
    end;
    auto using runHoltWintersAdditive_nonneg, runHoltWintersMultiplicative_nonneg.
Qed.

(** Every method pushes one value per step of the horizon. *)
Lemma arimaSteps_length mean k :
  forall currentVal, length (arimaSteps mean currentVal k) = k.
Proof. induction k; intros; simpl; auto. Qed.

Lemma runLinear_length values horizon :
  length (runLinear values horizon) = horizon.
Proof.
  unfold runLinear, range. cbv zeta.
  destruct (fold_left _ _ _) as [[[sumX sumY] sumXY] sumXX].
  now rewrite length_map, length_seq.
Qed.

Lemma runHoltWinters_length values horizon L hw :
  length (runHoltWinters values horizon L hw) = horizon.
Proof.
  unfold runHoltWinters, runHoltWintersAdditive, runHoltWintersMultiplicative,
    range.
  destruct hw; cbv zeta; now rewrite length_map, length_seq.
Qed.

Lemma forecastValuesOf_length method values horizon hw auto :
  length (forecastValuesOf method values horizon hw auto) = horizon.
Proof.
  unfold forecastValuesOf.
  destruct method; cbv zeta;
    auto using runLinear_length, runHoltWinters_length.
  - unfold runProphet, range. cbv zeta. now rewrite length_map, length_seq.
  - apply arimaSteps_length.
Qed.

Lemma historicalPoint_nonneg cutoff d :
  0 <= quantity d -> pointNonneg (historicalPoint cutoff d).
Proof. intros H. unfold pointNonneg; simpl. auto. Qed.

Lemma futurePoint_nonneg ld multiplier sd i val :
  0 <= multiplier -> 0 <= sd -> 0 <= val ->
  pointNonneg (futurePoint ld multiplier sd i val).
Proof.
  intros Hm Hs Hv. unfold pointNonneg, futurePoint; cbn -[INR Math_round].
  assert (Hu : 0 <= multiplier * sd * Math_sqrt (INR (S i)) * 0.4).
  { pose proof (sqrt_pos (INR (S i))). unfold Math_sqrt.
    apply Rmult_le_pos; [apply Rmult_le_pos; [apply Rmult_le_pos|]|lra]; auto. }
  repeat split.
  - apply Math_round_nonneg; auto.
  - apply Math_max_0_nonneg.
  - apply Math_round_nonneg. lra.
Qed.

Lemma pushForecasts_nonneg lastDate multiplier sd vals :
  0 <= multiplier -> 0 <= sd -> Forall (fun v => 0 <= v) vals ->
  forall i pts,
    pushForecasts lastDate multiplier sd i vals = Some pts ->
    Forall pointNonneg pts.
Proof.
  intros Hm Hs Hv. induction Hv as [|v vals Hv0 Hv IH]; intros i pts H; simpl in H.
  - inversion H; constructor.
  - destruct lastDate as [ld|]; [|discriminate].
    destruct (pushForecasts (Some ld) multiplier sd (S i) vals) as [rest|] eqn:E;
      [|discriminate].
    inversion H; subst. constructor; eauto using futurePoint_nonneg.
Qed.

Lemma pushForecasts_valid ld multiplier sd vals :
  forall i, exists pts, pushForecasts (Some ld) multiplier sd i vals = Some pts.
Proof.
  induction vals as [|v vals IH]; intros i; simpl; eauto.
  destruct (IH (S i)) as [pts ->]. eauto.
Qed.

End ForecastFacts.

(** C3. With fewer than 3 points dated on or before the cutoff,
    [calculateForecast] returns the empty list: a value, not an exception. *)
Theorem calculateForecast_insufficient_data :
  forall (historicalData : list DataPoint) (horizon : nat) (cutoff : string)
         (conf : R) (method : ForecastMethodology)
         (hw : Forecasting.HWMethod) (auto : bool),
    (length (filter (fun d => String.leb (dp_date d) cutoff) historicalData) < 3)%nat ->
    Forecasting.calculateForecast historicalData horizon cutoff conf method hw auto
    = Some [].
Proof.
  intros hist horizon cutoff conf method hw auto H.
  unfold Forecasting.calculateForecast.
  destruct (Nat.ltb (length hist) 3 || String.eqb cutoff ""); [reflexivity|].
  apply Nat.ltb_lt in H. rewrite H. reflexivity.
Qed.

Lemma calculateForecast_insufficient_data_witness :
  Forecasting.calculateForecast
    [mkDataPoint "2024-01-01" "A" "c" 5; mkDataPoint "2024-02-01" "A" "c" 7;
     mkDataPoint "2024-03-01" "A" "c" 9; mkDataPoint "2024-04-01" "A" "c" 4]
    6 "2024-02-15" 95 LINEAR Forecasting.multiplicative false
  = Some [].
Proof.
  apply calculateForecast_insufficient_data. vm_compute. lia.
Defined.

(** C1. On a history of non-negative quantities, whatever the horizon, the
    cutoff, the confidence level and the method, every value carried by a
    point [calculateForecast] returns is at least 0: the forecast, the lower
    and upper bounds where present, on historical and on forecast points.
    With a cutoff that is a calendar day a series is returned. *)
Theorem calculateForecast_nonnegative :
  forall (historicalData : list DataPoint) (horizon : nat) (cutoff : string)
         (conf : R) (method : ForecastMethodology)
         (hw : Forecasting.HWMethod) (auto : bool),
    Forall (fun d => 0 <= quantity d) historicalData ->
    (JSDate.parse cutoff <> None ->
     exists pts,
       Forecasting.calculateForecast historicalData horizon cutoff conf method hw auto
       = Some pts)
    /\ (forall pts,
          Forecasting.calculateForecast historicalData horizon cutoff conf method hw auto
          = Some pts ->
          Forall pointNonneg pts).
Proof.
  intros hist horizon cutoff conf method hw auto Hq.
  unfold Forecasting.calculateForecast.
  destruct (_ || _); [split; [eauto|intros pts H; inversion H; constructor]|].
  destruct (Nat.ltb _ 3); [split; [eauto|intros pts H; inversion H; constructor]|].
  split.
  - intros Hd. destruct (JSDate.parse cutoff) as [c|]; [|congruence]. simpl.
    match goal with
    | |- context [Forecasting.pushForecasts (Some ?ld) ?m ?s 0%nat ?v] =>
        destruct (pushForecasts_valid ld m s v 0%nat) as [pts ->]
    end. eauto.
  - intros pts H.
    destruct (Forecasting.pushForecasts _ _ _ _ _) as [future|] eqn:E; [|discriminate].
    inversion H; subst. apply Forall_app. split.
    + clear -Hq. induction Hq; simpl; constructor; auto using historicalPoint_nonneg.
    + eapply pushForecasts_nonneg; [| | |exact E].
      * apply Rlt_le, getZMultiplier_pos.
      * apply getStdDev_nonneg.
      * apply forecastValuesOf_nonneg.
Qed.

Lemma calculateForecast_nonnegative_witness :
  let hist := [mkDataPoint "2024-01-01" "A" "c" 5; mkDataPoint "2024-02-01" "A" "c" 0;
               mkDataPoint "2024-03-01" "A" "c" 9] in
  Forall (fun d => 0 <= quantity d) hist
  /\ exists pts,
      Forecasting.calculateForecast hist 2 "2024-03-01" 95 ARIMA
                                    Forecasting.multiplicative false = Some pts
      /\ Forall pointNonneg pts.
Proof.
  intros hist.
  assert (Hq : Forall (fun d => 0 <= quantity d) hist).
  { repeat constructor; simpl; lra. }
  split; [exact Hq|].
  destruct (calculateForecast_nonnegative hist 2 "2024-03-01" 95 ARIMA
              Forecasting.multiplicative false Hq) as [Hret Hall].
  destruct Hret as [pts Hpts]; [vm_compute; discriminate|].
  exists pts. split; [exact Hpts|exact (Hall pts Hpts)].
Defined.

Section ForecastShape.

Import JS Forecasting.

Lemma pushForecasts_some ld multiplier sd vals :
  forall i,
    pushForecasts (Some ld) multiplier sd i vals
    = Some (futureFrom ld multiplier sd i vals).
Proof.
  induction vals as [|v vals IH]; intros i; simpl; auto.
  now rewrite IH.
Qed.

Lemma futureFrom_length ld multiplier sd vals :
  forall i, length (futureFrom ld multiplier sd i vals) = length vals.
Proof. induction vals; intros; simpl; auto. Qed.

Lemma futureFrom_nth ld multiplier sd vals :
  forall i k,
    (k < length vals)%nat ->
    nth_error (futureFrom ld multiplier sd i vals) k
    = Some (futurePoint ld multiplier sd (i + k) (nth k vals 0)).
Proof.
  induction vals as [|v vals IH]; intros i k Hk; simpl in *; [lia|].
  destruct k as [|k]; simpl.
  - now rewrite Nat.add_0_r.
  - rewrite IH by lia. do 2 f_equal. lia.
Qed.

Lemma trainingOf_length hist cutoff :
  (length (trainingOf hist cutoff) <= length hist)%nat.
Proof. apply filter_length_le. Qed.

Lemma parse_nonempty s c : JSDate.parse s = Some c -> String.eqb s "" = false.
Proof. destruct s; simpl; [discriminate|reflexivity]. Qed.

(** The result of [calculateForecast] when there is a forecast to make:
    the history, then one point per forecast value. *)
Lemma calculateForecast_shape hist horizon cutoff conf method hw auto c :
  (3 <= length (trainingOf hist cutoff))%nat ->
  JSDate.parse cutoff = Some c ->
  calculateForecast hist horizon cutoff conf method hw auto
  = Some (map (historicalPoint cutoff) hist
          ++ futureFrom (JSDate.setDate1 c) (getZMultiplier conf)
               (getStdDev (map quantity (trainingOf hist cutoff))) 0
               (forecastValuesOf method (map quantity (trainingOf hist cutoff))
                                 horizon hw auto)).
Proof.
  intros Htrain Hparse. unfold calculateForecast.
  pose proof (trainingOf_length hist cutoff) as Hle.
  replace (Nat.ltb (length hist) 3) with false
    by (symmetry; apply Nat.ltb_ge; lia).
  rewrite (parse_nonempty _ _ Hparse). simpl orb. cbv iota.
  fold (trainingOf hist cutoff).
  replace (Nat.ltb (length (trainingOf hist cutoff)) 3) with false
    by (symmetry; apply Nat.ltb_ge; lia).
  rewrite Hparse. simpl option_map. now rewrite pushForecasts_some.
Qed.

End ForecastShape.

Section ForecastStep.

Import JS Forecasting.

(** The point pushed at forecast step [i + 1]. *)
Lemma calculateForecast_step hist horizon cutoff conf method hw auto c i :
  (3 <= length (trainingOf hist cutoff))%nat ->
  JSDate.parse cutoff = Some c ->
  (i < horizon)%nat ->
  let values := map quantity (trainingOf hist cutoff) in
  let val := nth i (forecastValuesOf method values horizon hw auto) 0 in
  let u := uncertaintyAt conf values (S i) in
  exists pts p,
    calculateForecast hist horizon cutoff conf method hw auto = Some pts
    /\ length pts = (length hist + horizon)%nat
    /\ nth_error pts (length hist + i) = Some p
    /\ isForecast p = true
    /\ forecast p = Math_round val
    /\ lowerBound p = Some (Rmax 0 (Math_round (val - u)))
    /\ upperBound p = Some (Math_round (val + u)).
Proof.
  intros Htrain Hparse Hi values val u.
  rewrite (calculateForecast_shape _ _ _ _ _ _ _ _ Htrain Hparse).
  fold values.
  set (fv := forecastValuesOf method values horizon hw auto).
  assert (Hlen : length fv = horizon) by apply forecastValuesOf_length.
  eexists. eexists. split; [reflexivity|].
  split; [now rewrite length_app, length_map, futureFrom_length, Hlen|].
  split.
  - rewrite nth_error_app2 by (rewrite length_map; lia).
    rewrite length_map, Nat.add_comm, Nat.add_sub.
    apply futureFrom_nth. lia.
  - simpl. repeat split.
Qed.

Lemma getStdDev_sqDev values :
  getStdDev values
  = sqrt (sqDev (sum values / INR (length values)) values / INR (length values)).
Proof.
  unfold getStdDev.
  destruct (length values) eqn:E.
  - apply length_zero_iff_nil in E. rewrite E. simpl.
    unfold Rdiv. now rewrite Rmult_0_l, sqrt_0.
  - simpl Nat.eqb. cbv iota. rewrite fold_left_sqDev, Rplus_0_l. reflexivity.
Qed.




End ForecastStep.




(* ================================================================== *)
(** * Volatility ranking *)
(* ================================================================== *)

Section VolatilityFacts.

Import JS App.

Lemma sum_repeat c n : sum (repeat c n) = INR n * c.
Proof.
  induction n as [|n IH].
  - simpl. rewrite sum_nil. lra.
  - cbn [repeat]. rewrite sum_cons, IH, S_INR. lra.
Qed.

Lemma sqDev_repeat c n : sqDev c (repeat c n) = 0.
Proof. induction n as [|n IH]; simpl; [reflexivity|]. rewrite IH. lra. Qed.

Lemma sum_scale k xs : sum (map (Rmult k) xs) = k * sum xs.
Proof.
  induction xs as [|x xs IH]; simpl.
  - rewrite sum_nil. lra.
  - rewrite !sum_cons, IH. lra.
Qed.

Lemma sqDev_scale k m xs :
  sqDev (k * m) (map (Rmult k) xs) = k ^ 2 * sqDev m xs.
Proof.
  induction xs as [|x xs IH]; simpl.
  - lra.
  - simpl in IH. rewrite IH. lra.
Qed.

(** The coefficient of variation of an entry, in terms of the mean and of
    the squared deviations. *)
Lemma volatilityEntry_cv s quantities :
  let avg := sum quantities / len quantities in
  volatility (volatilityEntry s quantities)
  = if gt avg 0
    then sqrt (sqDev avg quantities / len quantities) / avg * 100
    else 0.
Proof.
  cbv beta iota zeta delta [volatilityEntry volatility Math_sqrt].
  now rewrite fold_left_sqDev, Rplus_0_l.
Qed.

Lemma volatilityEntry_avg s quantities :
  avgQuantity (volatilityEntry s quantities) = sum quantities / len quantities.
Proof. reflexivity. Qed.

Lemma riskTier_cases v :
  (riskTier v = High <-> v > 50)
  /\ (riskTier v = Medium <-> 30 < v <= 50)
  /\ (riskTier v = Low <-> v <= 30).
Proof.
  unfold riskTier.
  destruct (gt v 50) eqn:E50; [apply gt_spec in E50|apply gt_false in E50];
    [|destruct (gt v 30) eqn:E30; [apply gt_spec in E30|apply gt_false in E30]];
    repeat split; intros; try discriminate; try lra; auto.
Qed.

Lemma riskTier_0 : riskTier 0 = Low.
Proof. apply riskTier_cases. lra. Qed.

(** Membership is kept by the stable sort and by [Map.set]. *)
Lemma In_insertBy {A : Type} (le : A -> A -> bool) x y l :
  In y (insertBy le x l) <-> y = x \/ In y l.
Proof.
  induction l as [|z l IH]; simpl.
  - intuition.
  - destruct (le x z); simpl; rewrite ?IH; intuition.
Qed.

Lemma In_sortBy {A : Type} (le : A -> A -> bool) y l :
  In y (sortBy le l) <-> In y l.
Proof.
  induction l as [|z l IH]; simpl; [tauto|].
  rewrite In_insertBy, IH. intuition.
Qed.

Lemma In_mapSet {V : Type} k (v w : V) m :
  In w (map snd (mapSet k v m)) -> w = v \/ In w (map snd m).
Proof.
  induction m as [|[k' v'] m IH]; simpl.
  - intuition.
  - destruct (String.eqb k' k); simpl; intuition.
Qed.

(** Every ranked entry is the entry of a row with a non-empty window. *)
Lemma volatilityOver_In window rows filterSkus v :
  In v (volatilityOver window rows filterSkus) ->
  exists item,
    In item rows /\ window item <> []
    /\ v = volatilityEntry (sku item) (window item).
Proof.
  unfold volatilityOver. rewrite In_sortBy.
  assert (G : forall m,
             (forall w, In w (map snd m) ->
                        exists item, In item rows /\ window item <> []
                                     /\ w = volatilityEntry (sku item) (window item)) ->
             forall l, incl l rows ->
             forall w,
               In w (map snd
                       (fold_left
                          (fun m item =>
                             if matchesSku filterSkus (sku item)
                                && Nat.ltb 0 (length (window item))
                             then mapSet (sku item)
                                    (volatilityEntry (sku item) (window item)) m
                             else m) l m)) ->
               exists item, In item rows /\ window item <> []
                            /\ w = volatilityEntry (sku item) (window item)).
  { intros m Hm l. revert m Hm.
    induction l as [|it l IH]; intros m Hm Hincl w Hw; simpl in Hw; auto.
    apply (IH _) in Hw; auto.
    - intros w' Hw'.
      destruct (matchesSku filterSkus (sku it) && Nat.ltb 0 (length (window it)))
               eqn:E; auto.
      apply In_mapSet in Hw'. destruct Hw' as [->|Hw']; auto.
      exists it. split; [apply Hincl; left; reflexivity|]. split; auto.
      apply andb_prop in E. destruct E as [_ E]. apply Nat.ltb_lt in E.
      intro Hnil. rewrite Hnil in E. simpl in E. lia.
    - intros x Hx. apply Hincl. right. exact Hx. }
  intros Hv. apply (G [] (fun w H => match H with end) rows (incl_refl _) v Hv).
Qed.

Lemma len_pos quantities : quantities <> [] -> 0 < len quantities.
Proof.
  intros H. unfold len. destruct quantities; [congruence|].
  apply lt_0_INR. simpl. lia.
Qed.

Lemma zero_mean_cv s quantities :
  sum quantities / len quantities = 0 ->
  volatility (volatilityEntry s quantities) = 0.
Proof.
  intros H. rewrite volatilityEntry_cv. cbv zeta. rewrite H.
  replace (gt 0 0) with false; [reflexivity|].
  symmetry. apply gt_false. lra.
Qed.

Lemma constant_cv s c n :
  (0 < n)%nat -> volatility (volatilityEntry s (repeat c n)) = 0.
Proof.
  intros Hn. rewrite volatilityEntry_cv. cbv zeta.
  unfold len. rewrite sum_repeat, repeat_length.
  assert (Hpos : 0 < INR n) by (apply lt_0_INR; lia).
  replace (INR n * c / INR n) with c by (field; lra).
  rewrite sqDev_repeat.
  destruct (gt c 0) eqn:E; [|reflexivity].
  apply gt_spec in E.
  unfold Rdiv at 2. rewrite Rmult_0_l, sqrt_0. field. lra.
Qed.

Lemma scaled_cv s quantities k :
  0 < k ->
  volatility (volatilityEntry s (map (Rmult k) quantities))
  = volatility (volatilityEntry s quantities).
Proof.
  intros Hk. rewrite !volatilityEntry_cv. cbv zeta.
  unfold len. rewrite length_map, sum_scale.
  set (n := INR (length quantities)).
  set (avg := sum quantities / n).
  replace (k * sum quantities / n) with (k * avg) by (unfold avg; unfold Rdiv; ring).
  rewrite sqDev_scale.
  assert (Hn : 0 <= / n).
  { unfold n. destruct (length quantities) as [|m] eqn:E.
    - simpl. rewrite Rinv_0. lra.
    - left. apply Rinv_0_lt_compat. apply lt_0_INR. lia. }
  assert (HV : 0 <= sqDev avg quantities / n).
  { unfold Rdiv. apply Rmult_le_pos; auto using sqDev_nonneg. }
  replace (k ^ 2 * sqDev avg quantities / n)
    with (k ^ 2 * (sqDev avg quantities / n)) by (unfold Rdiv; ring).
  rewrite sqrt_mult by (auto; apply pow2_ge_0).
  rewrite sqrt_pow2 by lra.
  destruct (gt avg 0) eqn:E.
  - apply gt_spec in E.
    replace (gt (k * avg) 0) with true
      by (symmetry; apply gt_spec; apply Rmult_lt_0_compat; auto).
    field. lra.
  - apply gt_false in E.
    replace (gt (k * avg) 0) with false; [reflexivity|].
    symmetry. apply gt_false. nra.
Qed.

End VolatilityFacts.

(** C5. An entry of the volatility ranking whose mean is 0 has a
    coefficient of variation of exactly 0 and the tier Low; the tier is High
    exactly above 50, Medium exactly in (30, 50], Low otherwise; a constant
    window has coefficient 0 and the tier Low. *)
Theorem volatility_degenerate_and_tiers :
  (forall (window : App.SkuRow -> list R) (rows : list App.SkuRow)
          (filterSkus : list string) (v : App.Volatility),
      In v (App.volatilityOver window rows filterSkus) ->
      App.avgQuantity v = 0 ->
      App.volatility v = 0 /\ App.riskTier (App.volatility v) = App.Low)
  /\ (forall v : R,
         (App.riskTier v = App.High <-> v > 50)
         /\ (App.riskTier v = App.Medium <-> 30 < v <= 50)
         /\ (App.riskTier v = App.Low <-> v <= 30))
  /\ (forall (s : string) (c : R) (n : nat),
         (0 < n)%nat ->
         App.volatility (App.volatilityEntry s (repeat c n)) = 0
         /\ App.riskTier (App.volatility (App.volatilityEntry s (repeat c n)))
            = App.Low).
Proof.
  split; [|split].
  - intros window rows filterSkus v Hin Havg.
    destruct (volatilityOver_In _ _ _ _ Hin) as [item [_ [_ ->]]].
    rewrite volatilityEntry_avg in Havg.
    rewrite (zero_mean_cv _ _ Havg). split; [reflexivity|apply riskTier_0].
  - apply riskTier_cases.
  - intros s c n Hn. rewrite (constant_cv s c n Hn).
    split; [reflexivity|apply riskTier_0].
Qed.

(** Computed over the reals, the coefficient of variation does not change
    when every quantity of the window is scaled by a constant [k > 0].
    The program rounds every operation: what remains of this in binary64
    is at the end of the file. *)
Lemma volatility_exact_scale_invariant :
  forall (s : string) (quantities : list R) (k : R),
    0 < k ->
    App.volatility (App.volatilityEntry s (map (Rmult k) quantities))
    = App.volatility (App.volatilityEntry s quantities)
    /\ App.riskTier (App.volatility (App.volatilityEntry s (map (Rmult k) quantities)))
       = App.riskTier (App.volatility (App.volatilityEntry s quantities)).
Proof.
  intros s quantities k Hk. rewrite (scaled_cv s quantities k Hk). auto.
Qed.

Lemma volatility_degenerate_and_tiers_witness :
  let rows := [App.mkSkuRow "A" 0 0 [0; 0] []] in
  let v := App.volatilityEntry "A" [0; 0] in
  (In v (App.volatilityOver App.historicalMonthly rows []) /\ App.avgQuantity v = 0
   /\ App.volatility v = 0)
  /\ ((0 < 3)%nat /\ App.volatility (App.volatilityEntry "A" (repeat 7 3)) = 0).
Proof.
  intros rows v.
  assert (Hin : In v (App.volatilityOver App.historicalMonthly rows [])).
  { left. reflexivity. }
  assert (Havg : App.avgQuantity v = 0).
  { unfold v, App.volatilityEntry, App.avgQuantity, JS.sum, JS.len. simpl. lra. }
  destruct volatility_degenerate_and_tiers as [H1 [_ H3]].
  split.
  - split; [exact Hin|]. split; [exact Havg|].
    exact (proj1 (H1 App.historicalMonthly rows [] v Hin Havg)).
  - split; [lia|]. apply (H3 "A"%string 7 3%nat). lia.
Defined.

(* ================================================================== *)
(** * applyMarketShocks *)
(* ================================================================== *)

Section ShockFacts.

Import JS Forecasting.







End ShockFacts.




(* ================================================================== *)
(** * The stable sort *)
(* ================================================================== *)

Section SortFacts.

Import App.

Context {A : Type} (le : A -> A -> bool).

Lemma insertBy_perm x l : Permutation (insertBy le x l) (x :: l).
Proof.
  induction l as [|y l IH]; simpl; auto.
  destruct (le x y); auto.
  rewrite IH. apply perm_swap.
Qed.

Lemma sortBy_perm l : Permutation (sortBy le l) l.
Proof.
  induction l as [|x l IH]; simpl; auto.
  rewrite insertBy_perm. now constructor.
Qed.


Hypothesis le_total : forall a b, le a b = false -> le b a = true.
Hypothesis le_trans : forall a b c, le a b = true -> le b c = true -> le a c = true.

Lemma insertBy_sorted x l :
  StronglySorted (fun a b => le a b = true) l ->
  StronglySorted (fun a b => le a b = true) (insertBy le x l).
Proof.
  induction 1 as [|y l Hs IH Hy]; simpl.
  - repeat constructor.
  - destruct (le x y) eqn:E.
    + constructor; [constructor; auto|].
      constructor; auto.
      eapply Forall_impl; [|exact Hy]. intros z Hz. eauto.
    + constructor; auto.
      apply Forall_forall. intros z Hz.
      apply (Permutation_in _ (insertBy_perm x l)) in Hz.
      destruct Hz as [<-|Hz]; auto.
      rewrite Forall_forall in Hy. auto.
Qed.

Lemma sortBy_sorted l : StronglySorted (fun a b => le a b = true) (sortBy le l).
Proof.
  induction l as [|x l IH]; simpl; [constructor|].
  now apply insertBy_sorted.
Qed.


End SortFacts.

(* ================================================================== *)
(** * Classifier *)
(* ================================================================== *)

Section ClassifierFacts.

Import JS Classifier.



Lemma sum_perm xs ys : Permutation xs ys -> sum xs = sum ys.
Proof.
  induction 1 as [| x xs ys _ IH | x y xs | xs ys zs _ IH1 _ IH2].
  - reflexivity.
  - rewrite !sum_cons, IH. reflexivity.
  - rewrite !sum_cons. lra.
  - congruence.
Qed.


Lemma assign_length total l : forall c, length (assign total c l) = length l.
Proof. induction l; intros; simpl; auto. Qed.









End ClassifierFacts.

Section ClassifierRanking.

Import JS Classifier.


Lemma StronglySorted_impl {X : Type} (R S : X -> X -> Prop) l :
  (forall a b, R a b -> S a b) -> StronglySorted R l -> StronglySorted S l.
Proof.
  intros H. induction 1 as [|x l _ IH Hx]; constructor; auto.
  eapply Forall_impl; [|exact Hx]. auto.
Qed.








End ClassifierRanking.


(* ================================================================== *)
(** * The backtest *)
(* ================================================================== *)

Section BacktestSkip.

Import JS Forecasting App.

Lemma backtestSku_skip inp testStartTime s :
  ineligible inp testStartTime s ->
  forall acc, backtestSku inp testStartTime s acc = Some acc.
Proof.
  intros [H|H] acc; unfold backtestSku.
  - apply Nat.ltb_lt in H. now rewrite H.
  - destruct (Nat.ltb (length (skuDataOf inp s)) 18); auto.
    apply Nat.ltb_lt in H. now rewrite H.
Qed.

Lemma phase1_skip inp testStartTime s :
  ineligible inp testStartTime s ->
  forall skus acc,
    phase1 inp testStartTime skus acc
    = phase1 inp testStartTime (withoutSku s skus) acc.
Proof.
  intros Hs. induction skus as [|x skus IH]; intros acc; simpl; auto.
  destruct (String.eqb_spec x s) as [->|Hne]; simpl.
  - rewrite (backtestSku_skip _ _ _ Hs). apply IH.
  - destruct (backtestSku inp testStartTime x acc); auto.
Qed.

Lemma mapSet_keys {V : Type} k (v : V) m x :
  In x (map fst (mapSet k v m)) -> x = k \/ In x (map fst m).
Proof.
  induction m as [|[k' v'] m IH]; simpl.
  - intuition.
  - destruct (String.eqb k' k); simpl; intuition.
Qed.

Lemma backtestSku_keys inp testStartTime s acc acc' x :
  backtestSku inp testStartTime s acc = Some acc' ->
  In x (map fst acc') ->
  In x (map fst acc) \/ (x = s /\ ~ ineligible inp testStartTime s).
Proof.
  unfold backtestSku. intros H Hx.
  destruct (Nat.ltb (length (skuDataOf inp s)) 18) eqn:E18;
    [inversion H; subst; auto|].
  destruct (Nat.ltb (length (trainDataOf testStartTime (skuDataOf inp s))) 6)
           eqn:E6; [inversion H; subst; auto|].
  destruct (mapRaise _ _) as [skuMethods|]; [|discriminate].
  inversion H; subst. apply mapSet_keys in Hx. destruct Hx as [->|Hx]; auto.
  right. split; auto. apply Nat.ltb_ge in E18, E6.
  intros [H'|H']; lia.
Qed.

Lemma phase1_keys inp testStartTime skus :
  forall acc smf x,
    phase1 inp testStartTime skus acc = Some smf ->
    In x (map fst smf) ->
    In x (map fst acc) \/ ~ ineligible inp testStartTime x.
Proof.
  induction skus as [|s skus IH]; intros acc smf x H Hx; simpl in H.
  - inversion H; subst; auto.
  - destruct (backtestSku inp testStartTime s acc) as [acc'|] eqn:E;
      [|discriminate].
    destruct (IH _ _ _ H Hx) as [Hin|Hel]; auto.
    destruct (backtestSku_keys _ _ _ _ _ _ E Hin) as [Hacc|[-> Hel]]; auto.
Qed.

Lemma skuRows_absent testStartTime testEndTime smf method s :
  ~ In s (map fst smf) -> skuRows testStartTime testEndTime smf method s = [].
Proof.
  unfold skuRows. induction smf as [|[k v] smf IH]; simpl; intros H; auto.
  destruct (String.eqb_spec k s) as [->|Hne]; [exfalso; auto|].
  simpl. apply IH. tauto.
Qed.

Lemma backtestSku_withFilter inp skus testStartTime s acc :
  backtestSku (withFilter inp skus) testStartTime s acc
  = backtestSku inp testStartTime s acc.
Proof. destruct inp; reflexivity. Qed.

Lemma phase1_withFilter inp skus testStartTime l :
  forall acc,
    phase1 (withFilter inp skus) testStartTime l acc
    = phase1 inp testStartTime l acc.
Proof.
  induction l as [|x l IH]; intros acc; simpl; auto.
  rewrite backtestSku_withFilter.
  destruct (backtestSku inp testStartTime x acc); auto.
Qed.

Lemma withoutSku_length s skus :
  (0 < length (withoutSku s skus))%nat -> (0 < length skus)%nat.
Proof.
  unfold withoutSku. pose proof (filter_length_le (fun x => negb (String.eqb x s)) skus).
  lia.
Qed.

(** Dropping a skipped SKU from a SKU filter that names other SKUs too
    leaves the whole result of the backtest as it is. *)
Lemma backtestResults_without inp s :
  ineligible inp (testStartOf inp) s ->
  (0 < length (withoutSku s (filterSkus inp)))%nat ->
  backtestResults (withFilter inp (withoutSku s (filterSkus inp)))
  = backtestResults inp.
Proof.
  intros Hs Hrest.
  pose proof (withoutSku_length _ _ Hrest) as Hall.
  unfold backtestResults, uniqueSkusOf.
  replace (filterSkus (withFilter inp (withoutSku s (filterSkus inp))))
    with (withoutSku s (filterSkus inp)) by (destruct inp; reflexivity).
  replace (data (withFilter inp (withoutSku s (filterSkus inp))))
    with (data inp) by (destruct inp; reflexivity).
  replace (testWindowOf (withFilter inp (withoutSku s (filterSkus inp))))
    with (testWindowOf inp) by (destruct inp; reflexivity).
  replace (methodology (withFilter inp (withoutSku s (filterSkus inp))))
    with (methodology inp) by (destruct inp; reflexivity).
  apply Nat.ltb_lt in Hrest, Hall. rewrite Hrest, Hall.
  apply Nat.ltb_lt in Hrest, Hall.
  replace (Nat.eqb (length (withoutSku s (filterSkus inp))) 0) with false
    by (symmetry; apply Nat.eqb_neq; lia).
  replace (Nat.eqb (length (filterSkus inp)) 0) with false
    by (symmetry; apply Nat.eqb_neq; lia).
  destruct (Nat.ltb (length (data inp)) 18); [reflexivity|]. cbn [orb].
  unfold testStartOf in Hs.
  destruct (testWindowOf inp) as [w|]; [|reflexivity].
  rewrite phase1_withFilter, <- (phase1_skip _ _ _ Hs). reflexivity.
Qed.

End BacktestSkip.

(** C6.  A SKU with fewer than 18 points, or with fewer than 6 training
    points before the start of the test window, is skipped: its turn in
    phase 1 raises nothing and leaves the table of forecasts as it was, the
    run proceeds as it would without that SKU in the list, and the SKU has no
    entry in the table, so it contributes no pair to any method; when the
    SKU filter names it among others, the whole result is the result
    without it. *)
Theorem backtest_skips_ineligible_sku :
  forall (inp : App.BacktestInput) (testStartTime testEndTime : option Z)
         (s : string),
    ineligible inp testStartTime s ->
    (forall acc, App.backtestSku inp testStartTime s acc = Some acc)
    /\ (forall skus acc,
           App.phase1 inp testStartTime skus acc
           = App.phase1 inp testStartTime (withoutSku s skus) acc)
    /\ (forall skus smf method,
           App.phase1 inp testStartTime skus [] = Some smf ->
           ~ In s (map fst smf)
           /\ skuRows testStartTime testEndTime smf method s = []).
Proof.
  intros inp tS tE s Hs. split; [|split].
  - now apply backtestSku_skip.
  - now apply phase1_skip.
  - intros skus smf method H.
    assert (Hno : ~ In s (map fst smf)).
    { intros Hin. destruct (phase1_keys _ _ _ _ _ _ H Hin) as [[]|Hel]. auto. }
    split; auto. now apply skuRows_absent.
Qed.

Lemma backtest_skips_ineligible_sku_witness :
  let inp :=
    App.mkBacktestInput
      [mkDataPoint "2024-01-01" "B" "c" 5; mkDataPoint "2024-02-01" "B" "c" 7]
      [] "2025-01-01" 95 HOLT_WINTERS false None Forecasting.multiplicative false in
  ineligible inp (Some 0%Z) "B"
  /\ App.backtestSku inp (Some 0%Z) "B" [] = Some [].
Proof.
  intros inp.
  assert (H : ineligible inp (Some 0%Z) "B") by (left; vm_compute; lia).
  split; [exact H|].
  exact (proj1 (backtest_skips_ineligible_sku inp (Some 0%Z) None "B" H) []).
Defined.

Section BacktestWindow.

Import JS Forecasting App.

Lemma applyMarketAdj_dates inp pts :
  map date (filter isForecast (applyMarketAdj inp pts))
  = map date (filter isForecast pts).
Proof.
  unfold applyMarketAdj.
  destruct (includeExternalTrends inp); auto.
  destruct (marketAdj inp) as [m|]; auto.
  induction pts as [|p pts IH]; simpl; auto.
  destruct (isForecast p) eqn:E; simpl; rewrite ?E; simpl; now rewrite IH.
Qed.

Lemma methodDataOf_dates skuData pts :
  dates (methodDataOf skuData pts) = map date (filter isForecast pts).
Proof. reflexivity. Qed.

Lemma historical_dates cutoff hist :
  map date (filter isForecast (map (historicalPoint cutoff) hist))
  = map dp_date (filter (fun d => String.ltb cutoff (dp_date d)) hist).
Proof.
  induction hist as [|d hist IH]; simpl; auto.
  destruct (String.ltb cutoff (dp_date d)); simpl; now rewrite IH.
Qed.

Lemma futureFrom_dates ld multiplier sd vals :
  forall i,
    map date (filter isForecast (futureFrom ld multiplier sd i vals))
    = map (futureDate ld) (seq i (length vals)).
Proof.
  induction vals as [|v vals IH]; intros i; simpl; auto.
  now rewrite IH.
Qed.

Lemma backtestForecast_dates inp skuData trainData trainEndDate c method :
  dates (methodDataOf skuData
           (applyMarketAdj inp
              (backtestForecast inp trainData trainEndDate c method)))
  = forecastDatesOf trainData trainEndDate c.
Proof.
  rewrite methodDataOf_dates, applyMarketAdj_dates.
  unfold backtestForecast, forecastDatesOf. cbv zeta.
  rewrite filter_app, map_app, historical_dates, futureFrom_dates.
  now rewrite forecastValuesOf_length.
Qed.

Lemma mapRaise_some {X Y : Type} (f : X -> option Y) (g : X -> Y) l :
  (forall x, In x l -> f x = Some (g x)) -> mapRaise f l = Some (map g l).
Proof.
  induction l as [|x l IH]; intros H; simpl; auto.
  rewrite (H x) by (left; reflexivity).
  rewrite IH; auto. intros y Hy. apply H. right. exact Hy.
Qed.

(** Phase 1 on a SKU that passes both thresholds. *)
Lemma backtestSku_eligible inp testStartTime s acc c :
  let skuData := skuDataOf inp s in
  let trainData := trainDataOf testStartTime skuData in
  let trainEndDate := lastDateOf trainData in
  (18 <= length skuData)%nat ->
  (6 <= length trainData)%nat ->
  (3 <= length (trainingOf trainData trainEndDate))%nat ->
  JSDate.parse trainEndDate = Some c ->
  backtestSku inp testStartTime s acc
  = Some (mapSet s
            (map (fun method =>
                    (method,
                     methodDataOf skuData
                       (applyMarketAdj inp
                          (backtestForecast inp trainData trainEndDate c method))))
                 allMethods)
            acc).
Proof.
  intros skuData trainData trainEndDate H18 H6 H3 Hc.
  unfold backtestSku. fold skuData. fold trainData. fold trainEndDate.
  replace (Nat.ltb (length skuData) 18) with false
    by (symmetry; apply Nat.ltb_ge; lia).
  replace (Nat.ltb (length trainData) 6) with false
    by (symmetry; apply Nat.ltb_ge; lia).
  erewrite mapRaise_some; [reflexivity|].
  intros method _. cbv beta.
  now rewrite (calculateForecast_shape _ _ _ _ _ _ _ _ H3 Hc).
Qed.

(** The scored pairs are the pairs of the dates that pass the window
    test. *)
Lemma scoredRows_dates testStartTime testEndTime md :
  map r_date (scoredRows testStartTime testEndTime md)
  = filter (inTestWindow testStartTime testEndTime) (dates md).
Proof.
  unfold scoredRows. generalize 0%nat.
  induction (dates md) as [|d ds IH]; intros a; simpl; auto.
  destruct (inTestWindow testStartTime testEndTime d); simpl; now rewrite IH.
Qed.

End BacktestWindow.

Section BacktestYear.

Import JS Forecasting App.

(** [backtestSku_eligible] with the intermediate values named. *)
Lemma backtestSku_eligible_at inp testStartTime s acc c
      skuData trainData trainEndDate :
  skuDataOf inp s = skuData ->
  trainDataOf testStartTime skuData = trainData ->
  lastDateOf trainData = trainEndDate ->
  (18 <= length skuData)%nat ->
  (6 <= length trainData)%nat ->
  (3 <= length (trainingOf trainData trainEndDate))%nat ->
  JSDate.parse trainEndDate = Some c ->
  backtestSku inp testStartTime s acc
  = Some (mapSet s
            (map (fun method =>
                    (method,
                     methodDataOf skuData
                       (applyMarketAdj inp
                          (backtestForecast inp trainData trainEndDate c method))))
                 allMethods)
            acc).
Proof. intros <- <- <-. apply backtestSku_eligible. Qed.

Lemma getMethod_all (f : ForecastMethodology -> MethodData) m :
  In m allMethods ->
  getMethod (map (fun x => (x, f x)) allMethods) m = Some (f m).
Proof. intros [<-|[<-|[<-|[<-|[]]]]]; reflexivity. Qed.

Lemma yearInput_skus : uniqueSkusOf yearInput = ["S"%string].
Proof. vm_compute. reflexivity. Qed.

Lemma yearInput_window : testWindowOf yearInput = Some yearWindow.
Proof. vm_compute. reflexivity. Qed.

Lemma yearInput_phase1 :
  phase1 yearInput (testStartTimeOf yearWindow) ["S"%string] []
  = Some yearForecasts.
Proof.
  cbn [phase1].
  rewrite (backtestSku_eligible_at yearInput (testStartTimeOf yearWindow) "S" []
             (JSDate.mkCivil 2023 12 1) _ _ "2023-12-01" eq_refl eq_refl).
  - reflexivity.
  - vm_compute. reflexivity.
  - vm_compute. lia.
  - vm_compute. lia.
  - vm_compute. lia.
  - vm_compute. reflexivity.
Qed.

Lemma yearInput_rows m :
  In m allMethods ->
  map r_date (methodRows (testStartTimeOf yearWindow) (testEndTimeOf yearWindow)
                         yearForecasts m)
  = holdoutMonths.
Proof.
  intros Hm. unfold methodRows, yearForecasts. cbn [flat_map snd].
  rewrite (getMethod_all _ m Hm), app_nil_r.
  rewrite scoredRows_dates, backtestForecast_dates.
  vm_compute. reflexivity.
Qed.

Lemma yearInput_metrics :
  methodMetrics (backtestResults yearInput)
  = map (fun m => (m, metricsOf (methodRows (testStartTimeOf yearWindow)
                                            (testEndTimeOf yearWindow)
                                            yearForecasts m)))
        allMethods.
Proof.
  unfold backtestResults.
  replace (Nat.eqb (length (uniqueSkusOf yearInput)) 0
           || Nat.ltb (length (data yearInput)) 18)%bool with false
    by (vm_compute; reflexivity).
  rewrite yearInput_window, yearInput_skus, yearInput_phase1.
  change (Nat.eqb (length yearForecasts) 0) with false. cbv iota.
  cbn [methodMetrics flat_map allMethods map app].
  assert (L : forall m,
             In m allMethods ->
             Nat.ltb 0 (length (methodRows (testStartTimeOf yearWindow)
                                           (testEndTimeOf yearWindow)
                                           yearForecasts m)) = true).
  { intros m Hm. rewrite <- (length_map r_date), (yearInput_rows m Hm).
    reflexivity. }
  rewrite !L by (simpl; auto). reflexivity.
Qed.

End BacktestYear.

(** C2, the code at work.  For a forecast starting in January 2025 the
    test window runs from 2024-01-01 to 2024-12-01, and for each of the four
    methods the pairs that enter the metrics are those of all twelve months of
    the window, the six months January to June 2024 included: the metrics
    are not restricted to the most recent six months. *)
Theorem backtest_scores_whole_window :
  App.testWindowOf yearInput = Some yearWindow
  /\ App.phase1 yearInput (App.testStartTimeOf yearWindow)
                (App.uniqueSkusOf yearInput) [] = Some yearForecasts
  /\ Forall
       (fun m =>
          map App.r_date
              (App.methodRows (App.testStartTimeOf yearWindow)
                              (App.testEndTimeOf yearWindow) yearForecasts m)
          = holdoutMonths)
       App.allMethods
  /\ App.methodMetrics (App.backtestResults yearInput)
     = map (fun m =>
              (m, App.metricsOf
                    (App.methodRows (App.testStartTimeOf yearWindow)
                                    (App.testEndTimeOf yearWindow)
                                    yearForecasts m)))
           App.allMethods
  /\ In "2024-01-01"%string holdoutMonths
  /\ length holdoutMonths = 12%nat.
Proof.
  split; [apply yearInput_window|].
  split; [rewrite yearInput_skus; apply yearInput_phase1|].
  split; [apply Forall_forall; apply yearInput_rows|].
  split; [apply yearInput_metrics|].
  split; [left; reflexivity|reflexivity].
Qed.





(* ================================================================== *)
(** * The standard deviation *)
(* ================================================================== *)

Section StdDevFacts.

Import JS Forecasting.


Lemma sqDev_zero_iff m xs : sqDev m xs = 0 <-> Forall (fun x => x = m) xs.
Proof.
  induction xs as [|x xs IH]; simpl.
  - split; auto.
  - pose proof (sqDev_nonneg m xs). pose proof (pow2_ge_0 (x - m)). split.
    + intros H1. assert ((x - m) ^ 2 = 0) by lra. assert (sqDev m xs = 0) by lra.
      constructor; [|now apply IH]. simpl in H2. nra.
    + intros H1. inversion H1; subst. apply IH in H5. rewrite H5. lra.
Qed.

Lemma getStdDev_zero_iff xs :
  xs <> [] ->
  (getStdDev xs = 0 <-> Forall (fun x => x = sum xs / INR (length xs)) xs).
Proof.
  intros Hne. rewrite getStdDev_sqDev.
  set (n := INR (length xs)). set (m := sum xs / n).
  assert (Hn : 0 < n) by (unfold n; destruct xs; [congruence|apply lt_0_INR; simpl; lia]).
  rewrite <- sqDev_zero_iff.
  pose proof (sqDev_nonneg m xs) as Hs.
  assert (HV : 0 <= sqDev m xs / n).
  { unfold Rdiv. apply Rmult_le_pos; auto. left. now apply Rinv_0_lt_compat. }
  split.
  - intros H. apply sqrt_eq_0 in H; auto.
    unfold Rdiv in H. apply Rmult_integral in H. destruct H as [H|H]; auto.
    assert (0 < / n) by now apply Rinv_0_lt_compat. lra.
  - intros ->. unfold Rdiv. rewrite Rmult_0_l. apply sqrt_0.
Qed.

Lemma getStdDev_repeat c n : getStdDev (repeat c n) = 0.
Proof.
  rewrite getStdDev_sqDev, repeat_length, sum_repeat.
  destruct n as [|n].
  - simpl. unfold Rdiv. rewrite Rmult_0_l. apply sqrt_0.
  - replace (INR (S n) * c / INR (S n)) with c
      by (field; apply not_0_INR; lia).
    rewrite sqDev_repeat. unfold Rdiv. rewrite Rmult_0_l. apply sqrt_0.
Qed.

Lemma Forall_eq_repeat (m : R) xs :
  Forall (fun x => x = m) xs -> xs = repeat m (length xs).
Proof. induction 1 as [|x xs -> _ IH]; simpl; [reflexivity|]. now rewrite <- IH. Qed.

End StdDevFacts.

(** X2. [getStdDev] returns 0 exactly on the arrays whose values are all
    equal, the empty array included. *)
Theorem getStdDev_zero_iff_constant :
  forall xs : list R,
    Forecasting.getStdDev xs = 0 <-> exists m, Forall (fun x => x = m) xs.
Proof.
  intros xs. split.
  - intros H. destruct xs as [|x xs]; [exists 0; constructor|].
    eexists. apply getStdDev_zero_iff; [discriminate|exact H].
  - intros [m Hm]. rewrite (Forall_eq_repeat m xs Hm). apply getStdDev_repeat.
Qed.

(* ================================================================== *)
(** * The forecasting methods on flat and on linear histories *)
(* ================================================================== *)

Section FlatSeries.

Import JS Forecasting.

Lemma get_repeat c n i : (i < n)%nat -> get (repeat c n) i = c.
Proof.
  unfold get. revert i; induction n as [|n IH]; intros i Hi; [lia|].
  destruct i as [|i]; simpl; auto. apply IH. lia.
Qed.

Lemma get_map_seq (f : nat -> R) n i :
  (i < n)%nat -> get (map f (seq 0 n)) i = f i.
Proof.
  intros Hi. unfold get.
  rewrite (nth_indep _ 0 (f 0%nat)) by now rewrite length_map, length_seq.
  rewrite map_nth. now rewrite seq_nth.
Qed.

Lemma set_repeat c n i : set (repeat c n) i c = repeat c n.
Proof.
  revert i; induction n as [|n IH]; intros i; simpl; auto.
  destruct i as [|i]; auto. now rewrite IH.
Qed.

Lemma firstn_repeat {A} (c : A) n k : (k <= n)%nat -> firstn k (repeat c n) = repeat c k.
Proof.
  revert k; induction n as [|n IH]; intros k Hk.
  - replace k with 0%nat by lia. reflexivity.
  - destruct k as [|k]; simpl; auto. rewrite IH by lia. reflexivity.
Qed.

Lemma or_else_nonzero x d : x <> 0 -> or_else x d = x.
Proof.
  intros H. unfold or_else. destruct (eq x 0) eqn:E; auto.
  apply eq_spec in E. contradiction.
Qed.

Lemma mean_repeat c n : (0 < n)%nat -> sum (repeat c n) / INR n = c.
Proof.
  intros Hn. rewrite sum_repeat. field.
  apply not_0_INR. lia.
Qed.

Lemma Math_max_0_pos c : 0 <= c -> Math_max 0 c = c.
Proof. intros H. unfold Math_max. now apply Rmax_right. Qed.

Lemma map_all_equal {A B} (c : B) (f : A -> B) (l : list A) :
  (forall x, In x l -> f x = c) -> map f l = repeat c (length l).
Proof.
  induction l as [|a l IH]; intros H; simpl; auto.
  rewrite H by (left; reflexivity). f_equal. apply IH. intros x Hx. apply H. now right.
Qed.

(** A loop whose body leaves a state unchanged. *)
Lemma fold_left_fixed {S I} (f : S -> I -> S) (l : list I) (s : S) :
  (forall i, In i l -> f s i = s) -> fold_left f l s = s.
Proof.
  induction l as [|i l IH]; intros H; simpl; auto.
  rewrite H by (left; reflexivity). apply IH. intros j Hj. apply H. now right.
Qed.

Lemma runHoltWintersMultiplicative_flat c n horizon :
  0 < c -> (0 < n)%nat ->
  runHoltWintersMultiplicative (repeat c n) horizon 12 = repeat c horizon.
Proof.
  intros Hc Hn. unfold runHoltWintersMultiplicative. cbv zeta.
  rewrite repeat_length.
  assert (Hip : (0 < Nat.min 12 n)%nat) by lia.
  rewrite firstn_repeat by lia. rewrite (mean_repeat c _ Hip).
  rewrite (or_else_nonzero c 1) by lra.
  rewrite !get_repeat by lia.
  replace ((c - c) / INR (Nat.min 12 (n - 1))) with 0 by (unfold Rdiv; ring).
  rewrite or_else_0.
  assert (Hs0 : fold_left (fun s i => set s i (get (repeat c n) i / c))
                          (range 0 (Nat.min 12 n)) (fill 12 1) = repeat 1 12).
  { apply fold_left_fixed. intros i Hi. unfold range in Hi. apply in_seq in Hi.
    rewrite get_repeat by lia. replace (c / c) with 1 by (field; lra).
    apply (set_repeat 1 12). }
  rewrite Hs0.
  rewrite fold_left_fixed.
  - cbn [level trend seasonal]. unfold range.
    replace (repeat c horizon) with (repeat c (length (seq 1 horizon)))
      by now rewrite length_seq.
    apply map_all_equal.
    intros i Hi. rewrite get_repeat by (apply Nat.mod_upper_bound; lia).
    rewrite Math_max_0_pos; lra.
  - intros i Hi. unfold range in Hi. apply in_seq in Hi.
    cbn [level trend seasonal].
    rewrite !get_repeat by (try apply Nat.mod_upper_bound; lia).
    rewrite (or_else_nonzero 1 1) by lra.
    replace (0.3 * (c / 1) + (1 - 0.3) * (c + 0)) with c by (field).
    rewrite (or_else_nonzero c 1) by lra.
    replace (0.05 * (c / c) + (1 - 0.05) * 1) with 1 by (field; lra).
    rewrite (set_repeat 1 12).
    f_equal. lra.
Qed.

Lemma runHoltWintersAdditive_flat c n horizon :
  0 < c -> (0 < n)%nat ->
  runHoltWintersAdditive (repeat c n) horizon 12 = repeat c horizon.
Proof.
  intros Hc Hn. unfold runHoltWintersAdditive. cbv zeta.
  rewrite repeat_length. rewrite (mean_repeat c _ Hn).
  rewrite (or_else_nonzero c 1) by lra.
  assert (Hs0 : fold_left (fun s i => set s i (get (repeat c n) i - c))
                          (range 0 (Nat.min 12 n)) (fill 12 0) = repeat 0 12).
  { apply fold_left_fixed. intros i Hi. unfold range in Hi. apply in_seq in Hi.
    rewrite get_repeat by lia. replace (c - c) with 0 by ring.
    apply (set_repeat 0 12). }
  rewrite Hs0.
  rewrite fold_left_fixed.
  - cbn [level trend seasonal]. unfold range.
    replace (repeat c horizon) with (repeat c (length (seq 1 horizon)))
      by now rewrite length_seq.
    apply map_all_equal.
    intros i Hi. rewrite get_repeat by (apply Nat.mod_upper_bound; lia).
    rewrite Math_max_0_pos; lra.
  - intros i Hi. unfold range in Hi. apply in_seq in Hi.
    cbn [level trend seasonal].
    rewrite !get_repeat by (try apply Nat.mod_upper_bound; lia).
    replace (0.3 * (c - 0) + (1 - 0.3) * (c + 0)) with c by field.
    replace (0.05 * (c - c) + (1 - 0.05) * 0) with 0 by field.
    rewrite (set_repeat 0 12).
    f_equal. lra.
Qed.

End FlatSeries.

Section RegressionSums.

Import JS Forecasting.

Lemma sumOver_ext f g l :
  (forall i, In i l -> f i = g i) -> sumOver f l = sumOver g l.
Proof.
  induction l as [|i l IH]; intros H; simpl; auto.
  rewrite H by (left; reflexivity). rewrite IH; auto. intros j Hj. apply H. now right.
Qed.

Lemma sumOver_app f l1 l2 : sumOver f (l1 ++ l2) = sumOver f l1 + sumOver f l2.
Proof. induction l1 as [|i l IH]; simpl; [lra|]. rewrite IH. lra. Qed.

Lemma sumOver_seq_S f n : sumOver f (seq 0 (S n)) = sumOver f (seq 0 n) + f n.
Proof. rewrite seq_S, sumOver_app. simpl. lra. Qed.

Lemma sumOver_plus f g l : sumOver (fun i => f i + g i) l = sumOver f l + sumOver g l.
Proof. induction l as [|i l IH]; simpl; [lra|]. rewrite IH. lra. Qed.

Lemma sumOver_scal k f l : sumOver (fun i => k * f i) l = k * sumOver f l.
Proof. induction l as [|i l IH]; simpl; [lra|]. rewrite IH. lra. Qed.

Lemma sumOver_const k l : sumOver (fun _ => k) l = INR (length l) * k.
Proof.
  induction l as [|i l IH]; [simpl; lra|].
  cbn [sumOver fold_right] in *. unfold sumOver in IH. rewrite IH.
  change (length (i :: l)) with (S (length l)). rewrite S_INR. lra.
Qed.

(** The four running sums of the regression loop. *)
Lemma regression_sums values l :
  forall a b c d,
    fold_left (fun '(sumX, sumY, sumXY, sumXX) i =>
                 (sumX + INR i, sumY + get values i,
                  sumXY + INR i * get values i, sumXX + INR i * INR i))
              l (a, b, c, d)
    = (a + sumOver INR l, b + sumOver (get values) l,
       c + sumOver (fun i => INR i * get values i) l,
       d + sumOver (fun i => INR i * INR i) l).
Proof.
  induction l as [|i l IH]; intros a b c d; simpl.
  - f_equal; [f_equal; [f_equal|]|]; lra.
  - rewrite IH. unfold sumOver. simpl. f_equal; [f_equal; [f_equal|]|]; lra.
Qed.

Lemma sum_sumOver values :
  sum values = sumOver (get values) (seq 0 (length values)).
Proof.
  induction values as [|x xs IH] using rev_ind.
  - reflexivity.
  - rewrite sum_app, sum_cons, sum_nil, length_app. simpl length.
    rewrite Nat.add_1_r, sumOver_seq_S.
    unfold get at 2. rewrite app_nth2, Nat.sub_diag by lia. simpl nth.
    rewrite IH. f_equal; [|lra].
    apply sumOver_ext. intros i Hi. apply in_seq in Hi.
    unfold get. rewrite app_nth1 by lia. reflexivity.
Qed.

(** Closed forms of the sums of the indices and of their squares. *)
Lemma sum_indices n : sumOver INR (seq 0 n) = INR n * (INR n - 1) / 2.
Proof.
  induction n as [|n IH].
  - simpl. lra.
  - rewrite sumOver_seq_S, IH, S_INR. field.
Qed.

Lemma sum_squares n :
  sumOver (fun i => INR i * INR i) (seq 0 n)
  = (INR n - 1) * INR n * (2 * INR n - 1) / 6.
Proof.
  induction n as [|n IH].
  - simpl. lra.
  - rewrite sumOver_seq_S, IH, S_INR. field.
Qed.

(** The denominator of the slope is positive from two points on. *)
Lemma slope_denominator n :
  INR n * sumOver (fun i => INR i * INR i) (seq 0 n)
  - sumOver INR (seq 0 n) * sumOver INR (seq 0 n)
  = INR n * INR n * (INR n - 1) * (INR n + 1) / 12.
Proof. rewrite sum_indices, sum_squares. field. Qed.

Lemma slope_denominator_pos n :
  (2 <= n)%nat ->
  0 < INR n * sumOver (fun i => INR i * INR i) (seq 0 n)
      - sumOver INR (seq 0 n) * sumOver INR (seq 0 n).
Proof.
  intros Hn. rewrite slope_denominator.
  assert (2 <= INR n) by (change 2 with (INR 2); apply le_INR; lia).
  assert (0 < INR n * INR n * (INR n - 1) * (INR n + 1)).
  { repeat apply Rmult_lt_0_compat; lra. }
  lra.
Qed.

(** [runLinear] on a history that lies on a line. *)
Lemma runLinear_line values a b horizon :
  (2 <= length values)%nat ->
  (forall i, (i < length values)%nat -> get values i = a + b * INR i) ->
  runLinear values horizon
  = map (fun i => Math_max 0 (a + b * INR (length values + i - 1))) (range 1 horizon).
Proof.
  intros Hn Hline. unfold runLinear. cbv zeta.
  rewrite regression_sums. unfold range.
  set (n := length values) in *.
  set (SX := sumOver INR (seq 0 n)).
  set (SXX := sumOver (fun i => INR i * INR i) (seq 0 n)).
  assert (HY : sumOver (get values) (seq 0 n) = INR n * a + b * SX).
  { rewrite (sumOver_ext _ (fun i => a + b * INR i)).
    - rewrite sumOver_plus, sumOver_const, sumOver_scal, length_seq. reflexivity.
    - intros i Hi. apply in_seq in Hi. apply Hline. lia. }
  assert (HXY : sumOver (fun i => INR i * get values i) (seq 0 n) = a * SX + b * SXX).
  { rewrite (sumOver_ext _ (fun i => a * INR i + b * (INR i * INR i))).
    - rewrite sumOver_plus, !sumOver_scal. reflexivity.
    - intros i Hi. apply in_seq in Hi. rewrite Hline by lia. ring. }
  rewrite HY, HXY, !Rplus_0_l.
  pose proof (slope_denominator_pos n Hn) as HD. fold SX SXX in HD.
  assert (Hnpos : 0 < INR n) by (apply lt_0_INR; lia).
  apply map_ext. intros i. f_equal. field. split; lra.
Qed.

Lemma arimaSteps_closed mean cur k :
  0 <= mean -> 0 <= cur ->
  forall j0,
    arimaSteps mean (mean + 0.85 ^ j0 * (cur - mean)) k
    = map (fun j => mean + 0.85 ^ j * (cur - mean)) (seq (S j0) k).
Proof.
  intros Hm Hc. induction k as [|k IH]; intros j0; simpl; auto.
  assert (Hp : 0 < 0.85 ^ j0 <= 1).
  { split; [apply pow_lt; lra|]. clear. induction j0; simpl; [lra|].
    assert (0 < 0.85 ^ j0) by (apply pow_lt; lra). nra. }
  replace (mean + 0.85 * (mean + 0.85 ^ j0 * (cur - mean) - mean))
    with (mean + 0.85 ^ S j0 * (cur - mean)) by (simpl; ring).
  rewrite IH. f_equal.
  apply Math_max_0_pos. simpl. nra.
Qed.

End RegressionSums.

Section FlatForecast.

Import JS Forecasting.

Lemma sum_nonneg xs : Forall (fun x => 0 <= x) xs -> 0 <= sum xs.
Proof.
  induction 1 as [|x xs Hx _ IH]; [rewrite sum_nil; lra|].
  rewrite sum_cons. lra.
Qed.

Lemma get_nonneg xs i : Forall (fun x => 0 <= x) xs -> 0 <= get xs i.
Proof.
  intros H. unfold get. destruct (nth_in_or_default i xs 0) as [Hin| ->]; [|lra].
  rewrite Forall_forall in H. auto.
Qed.

Lemma pow_085_le i j : (i <= j)%nat -> 0 < 0.85 ^ j <= 0.85 ^ i.
Proof.
  intros H. split; [apply pow_lt; lra|].
  induction H as [|j _ IH]; [lra|].
  assert (0 < 0.85 ^ j) by (apply pow_lt; lra). simpl. nra.
Qed.

Lemma map_seq_sorted (rel : R -> R -> Prop) (g : nat -> R) a k :
  (forall i j, (i <= j)%nat -> rel (g i) (g j)) ->
  StronglySorted rel (map g (seq a k)).
Proof.
  intros H. revert a. induction k as [|k IH]; intros a; simpl; constructor.
  - apply IH.
  - apply Forall_forall. intros y Hy. apply in_map_iff in Hy.
    destruct Hy as [j [<- Hj]]. apply in_seq in Hj. apply H. lia.
Qed.

(** [runArima]: exponential reversion from the last value to the mean. *)
Lemma runArima_closed values horizon :
  values <> [] -> Forall (fun x => 0 <= x) values ->
  let mean := sum values / INR (length values) in
  let last := get values (length values - 1) in
  runArima values horizon
  = map (fun j => mean + 0.85 ^ j * (last - mean)) (seq 1 horizon).
Proof.
  intros Hne Hpos mean last. unfold runArima. fold mean. fold last.
  assert (Hm : 0 <= mean).
  { unfold mean, Rdiv. apply Rmult_le_pos; [now apply sum_nonneg|].
    left. apply Rinv_0_lt_compat, lt_0_INR. destruct values; [congruence|simpl; lia]. }
  assert (Hl : 0 <= last) by now apply get_nonneg.
  rewrite <- (arimaSteps_closed mean last horizon Hm Hl 0).
  f_equal. simpl. ring.
Qed.

Lemma runArima_flat c n horizon :
  0 < c -> (0 < n)%nat -> runArima (repeat c n) horizon = repeat c horizon.
Proof.
  intros Hc Hn. rewrite runArima_closed.
  - rewrite repeat_length, get_repeat, (mean_repeat c n Hn) by lia.
    replace (repeat c horizon) with (repeat c (length (seq 1 horizon)))
      by now rewrite length_seq.
    apply map_all_equal. intros j _. ring.
  - destruct n; [lia|discriminate].
  - apply Forall_forall. intros x Hx. apply repeat_spec in Hx. lra.
Qed.

Lemma runLinear_flat c n horizon :
  0 < c -> (2 <= n)%nat -> runLinear (repeat c n) horizon = repeat c horizon.
Proof.
  intros Hc Hn. rewrite (runLinear_line _ c 0).
  - unfold range.
    replace (repeat c horizon) with (repeat c (length (seq 1 horizon)))
      by now rewrite length_seq.
    apply map_all_equal. intros i _. rewrite Math_max_0_pos; lra.
  - now rewrite repeat_length.
  - intros i Hi. rewrite repeat_length in Hi. rewrite get_repeat by lia. ring.
Qed.

Lemma sum1_sum xs : sum1 xs = sum xs.
Proof.
  destruct xs as [|x xs]; [reflexivity|].
  unfold sum1, sum. simpl. now rewrite Rplus_0_l.
Qed.

Lemma runProphet_flat c n horizon :
  0 < c -> (0 < n)%nat ->
  runProphet (repeat c n) horizon = repeat (Math_round c) horizon.
Proof.
  intros Hc Hn. unfold runProphet. cbv zeta.
  rewrite repeat_length, sum1_sum, (mean_repeat c n Hn).
  rewrite !get_repeat by lia.
  assert (Hs1 : fold_left
                  (fun s i => set s (i mod 12) (get s (i mod 12) + (get (repeat c n) i - c)))
                  (range 0 n) (fill 12 0) = repeat 0 12).
  { apply fold_left_fixed. intros i Hi. unfold range in Hi. apply in_seq in Hi.
    unfold fill. rewrite !get_repeat by (try apply Nat.mod_upper_bound; lia).
    replace (0 + (c - c)) with 0 by ring. apply set_repeat. }
  rewrite Hs1.
  assert (Hs2 : fold_left
                  (fun s i => set s i (get s i / IZR (Math_ceil (INR n / INR 12))))
                  (range 0 12) (repeat 0 12) = repeat 0 12).
  { apply fold_left_fixed. intros i Hi. unfold range in Hi. apply in_seq in Hi.
    rewrite get_repeat by lia. unfold Rdiv at 1. rewrite Rmult_0_l. apply set_repeat. }
  rewrite Hs2. unfold range.
  replace (repeat (Math_round c) horizon)
    with (repeat (Math_round c) (length (seq 1 horizon))) by now rewrite length_seq.
  apply map_all_equal. intros i _.
  rewrite get_repeat by (apply Nat.mod_upper_bound; lia).
  replace (0 + c + (c - c) / INR n * 1.2 * INR i) with c by (unfold Rdiv; ring).
  apply Math_max_0_pos, Math_round_nonneg. lra.
Qed.

Lemma Math_round_round x : Math_round (Math_round x) = Math_round x.
Proof. unfold Math_round at 2. apply Math_round_IZR. Qed.

(** On a flat positive history every method returns values that round to
    the rounded constant. *)
Lemma forecastValuesOf_flat method c n horizon hw auto :
  0 < c -> (2 <= n)%nat ->
  Forall (fun v => Math_round v = Math_round c)
         (forecastValuesOf method (repeat c n) horizon hw auto).
Proof.
  intros Hc Hn.
  assert (Hsame : forall h, Forall (fun v => Math_round v = Math_round c) (repeat c h)).
  { intros h. apply Forall_forall. intros x Hx. apply repeat_spec in Hx. now subst. }
  unfold forecastValuesOf, runHoltWinters.
  destruct method;
    rewrite ?runLinear_flat, ?runArima_flat, ?runProphet_flat by (auto; lia); auto;
    try (apply Forall_forall; intros x Hx; apply repeat_spec in Hx; subst;
         apply Math_round_round);
    match goal with
    | |- context [match ?m with additive => _ | multiplicative => _ end] => destruct m
    end;
    rewrite ?runHoltWintersAdditive_flat, ?runHoltWintersMultiplicative_flat
      by (auto; lia); auto.
Qed.

End FlatForecast.

Section Detect.

Import JS Forecasting.

Lemma firstn_repeat_min {A} (c : A) n k : firstn k (repeat c n) = repeat c (Nat.min k n).
Proof.
  revert k; induction n as [|n IH]; intros k.
  - rewrite Nat.min_0_r. destruct k; reflexivity.
  - destruct k as [|k]; simpl; auto. now rewrite IH.
Qed.

Lemma filter_repeat_false {A} (f : A -> bool) c n :
  f c = false -> filter f (repeat c n) = [].
Proof. intros H. induction n; simpl; auto. now rewrite H. Qed.

Lemma filter_repeat_true {A} (f : A -> bool) c n :
  f c = true -> filter f (repeat c n) = repeat c n.
Proof. intros H. induction n; simpl; auto. rewrite H. now f_equal. Qed.

Lemma slope_flat c n :
  let '(sumX, sumY, sumXY, sumXX) :=
    fold_left (fun '(sumX, sumY, sumXY, sumXX) i =>
                 (sumX + INR i, sumY + get (repeat c n) i,
                  sumXY + INR i * get (repeat c n) i, sumXX + INR i * INR i))
              (range 0 n) (0, 0, 0, 0) in
  (INR n * sumXY - sumX * sumY) / (INR n * sumXX - sumX * sumX) = 0.
Proof.
  rewrite regression_sums. unfold range.
  rewrite (sumOver_ext (get (repeat c n)) (fun _ => c))
    by (intros i Hi; apply in_seq in Hi; apply get_repeat; lia).
  rewrite (sumOver_ext (fun i => INR i * get (repeat c n) i) (fun i => c * INR i))
    by (intros i Hi; apply in_seq in Hi; rewrite get_repeat by lia; ring).
  rewrite sumOver_const, sumOver_scal, length_seq.
  unfold Rdiv.
  match goal with |- ?a * _ = 0 => replace a with 0 by ring end.
  ring.
Qed.

Lemma detectHWMethod_flat_positive c n :
  0 < c -> detectHWMethod (repeat c n) = multiplicative.
Proof.
  intros Hc. unfold detectHWMethod. rewrite repeat_length.
  destruct (Nat.ltb n 4) eqn:E4; [reflexivity|].
  apply Nat.ltb_ge in E4. cbv zeta.
  pose proof (slope_flat c n) as Hslope.
  destruct (fold_left _ (range 0 n) (0, 0, 0, 0)) as [[[sumX sumY] sumXY] sumXX].
  rewrite Hslope.
  rewrite (mean_repeat c n) by lia. rewrite getStdDev_repeat.
  replace (gt c 0) with true by (symmetry; apply gt_spec; lra).
  rewrite firstn_repeat_min, filter_repeat_false.
  2:{ apply Bool.orb_false_iff. split.
      - destruct (eq c 0) eqn:E; auto. apply eq_spec in E. lra.
      - apply lt_false. lra. }
  cbn [length].
  assert (H0 : 0 / c = 0) by (unfold Rdiv; ring).
  assert (Hcv : gt (0 / c) 0.5 = false) by (rewrite H0; apply gt_false; lra).
  assert (Hsp : gt (if Nat.ltb 0 (length (repeat c (Nat.min (Z.to_nat (Math_ceil (INR n * 0.25))) n)))
                    then INR 0 / INR (length (repeat c (Nat.min (Z.to_nat (Math_ceil (INR n * 0.25))) n)))
                    else 0) 0.4 = false).
  { apply gt_false. destruct (Nat.ltb 0 _); [|lra].
    change (INR 0) with 0. unfold Rdiv. rewrite Rmult_0_l. lra. }
  assert (Htr : gt (Math_abs 0 / c) 0.05 = false).
  { apply gt_false. unfold Math_abs. rewrite Rabs_R0, H0. lra. }
  rewrite Hcv, Hsp, Htr. reflexivity.
Qed.

Lemma Zceil_pos x : 0 < x -> (1 <= Zceil x)%Z.
Proof.
  intros Hx. pose proof (Zceil_bound x) as [_ H].
  assert (0 < IZR (Zceil x)) by lra. apply lt_IZR in H0. lia.
Qed.

Lemma detectHWMethod_flat_zero n :
  (4 <= n)%nat -> detectHWMethod (repeat 0 n) = additive.
Proof.
  intros Hn. unfold detectHWMethod. rewrite repeat_length.
  replace (Nat.ltb n 4) with false by (symmetry; apply Nat.ltb_ge; lia).
  cbv zeta.
  destruct (fold_left _ (range 0 n) (0, 0, 0, 0)) as [[[sumX sumY] sumXY] sumXX].
  rewrite firstn_repeat_min, filter_repeat_true.
  2:{ apply Bool.orb_true_iff. left. now apply eq_spec. }
  set (e := Nat.min (Z.to_nat (Math_ceil (INR n * 0.25))) n).
  assert (He : (0 < e)%nat).
  { unfold e, Math_ceil.
    assert (0 < INR n) by (apply lt_0_INR; lia).
    pose proof (Zceil_pos (INR n * 0.25) ltac:(lra)). lia. }
  rewrite repeat_length.
  replace (Nat.ltb 0 e) with true by (symmetry; apply Nat.ltb_lt; lia).
  assert (Hsp : gt (INR e / INR e) 0.4 = true).
  { apply gt_spec. replace (INR e / INR e) with 1; [lra|].
    field. apply not_0_INR. lia. }
  rewrite Hsp, Bool.orb_true_r. reflexivity.
Qed.

End Detect.

Section MethodProperties.

Import JS Forecasting.

(** X3. On a history of [n >= 2] copies of a positive quantity [c], the
    ARIMA-like method and the linear regression return [c] at every step
    and the Prophet-like method returns [c] rounded. *)
Theorem forecast_methods_flat :
  forall (c : R) (n horizon : nat),
    0 < c -> (2 <= n)%nat ->
    Forecasting.runArima (repeat c n) horizon = repeat c horizon
    /\ Forecasting.runLinear (repeat c n) horizon = repeat c horizon
    /\ Forecasting.runProphet (repeat c n) horizon
       = repeat (JS.Math_round c) horizon.
Proof.
  intros c n horizon Hc Hn. repeat split.
  - apply runArima_flat; auto; lia.
  - apply runLinear_flat; auto.
  - apply runProphet_flat; auto; lia.
Qed.

Lemma forecast_methods_flat_witness :
  Forecasting.runArima (repeat 5 3) 2 = repeat 5 2
  /\ Forecasting.runLinear (repeat 5 3) 2 = repeat 5 2
  /\ Forecasting.runProphet (repeat 5 3) 2 = repeat (JS.Math_round 5) 2.
Proof. apply forecast_methods_flat; [lra|lia]. Defined.

(** X4. When the training points (those dated on or before the cutoff, at
    least 3 of them) all carry the same positive quantity [c] and the cutoff
    is a calendar day, [calculateForecast] returns, at every step of the
    horizon and for every method, a point whose forecast, lower bound and
    upper bound are all [c] rounded: the interval has width 0. *)
Theorem calculateForecast_flat :
  forall (historicalData : list DataPoint) (horizon : nat) (cutoff : string)
         (conf : R) (method : ForecastMethodology) (hw : Forecasting.HWMethod) (auto : bool)
         (cd : JSDate.civil) (c : R) (i : nat),
    0 < c ->
    Forall (fun d => quantity d = c) (trainingOf historicalData cutoff) ->
    (3 <= length (trainingOf historicalData cutoff))%nat ->
    JSDate.parse cutoff = Some cd ->
    (i < horizon)%nat ->
    exists pts p,
      Forecasting.calculateForecast historicalData horizon cutoff conf method hw auto
      = Some pts
      /\ nth_error pts (length historicalData + i) = Some p
      /\ forecast p = JS.Math_round c
      /\ lowerBound p = Some (JS.Math_round c)
      /\ upperBound p = Some (JS.Math_round c).
Proof.
  intros hist horizon cutoff conf method hw auto cd c i Hc Hflat Htrain Hparse Hi.
  destruct (calculateForecast_step hist horizon cutoff conf method hw auto cd i
              Htrain Hparse Hi) as [pts [p [H1 [_ [H3 [_ [H5 [H6 H7]]]]]]]].
  assert (Hvals : map quantity (trainingOf hist cutoff)
                  = repeat c (length (trainingOf hist cutoff))).
  { apply map_all_equal. intros d Hd. rewrite Forall_forall in Hflat. auto. }
  rewrite Hvals in H5, H6, H7.
  set (n := length (trainingOf hist cutoff)) in *.
  assert (Hu : uncertaintyAt conf (repeat c n) (S i) = 0).
  { unfold uncertaintyAt. rewrite getStdDev_repeat. ring. }
  rewrite Hu in H6, H7. rewrite Rminus_0_r in H6. rewrite Rplus_0_r in H7.
  pose proof (forecastValuesOf_flat method c n horizon hw auto Hc ltac:(lia)) as Hall.
  assert (Hv : Math_round (nth i (forecastValuesOf method (repeat c n) horizon hw auto) 0)
               = Math_round c).
  { rewrite Forall_forall in Hall. apply Hall. apply nth_In.
    now rewrite forecastValuesOf_length. }
  rewrite Hv in H5, H6, H7.
  exists pts, p. repeat split; auto.
  rewrite H6. f_equal. apply Rmax_right. apply Math_round_nonneg. lra.
Qed.

Lemma calculateForecast_flat_witness :
  let hist := [mkDataPoint "2024-01-01" "A" "c" 5; mkDataPoint "2024-02-01" "A" "c" 5;
               mkDataPoint "2024-03-01" "A" "c" 5] in
  exists pts p,
    Forecasting.calculateForecast hist 2 "2024-03-01" 95 PROPHET
                                  Forecasting.multiplicative true = Some pts
    /\ nth_error pts (length hist + 1) = Some p
    /\ forecast p = JS.Math_round 5
    /\ lowerBound p = Some (JS.Math_round 5)
    /\ upperBound p = Some (JS.Math_round 5).
Proof.
  intros hist.
  apply (calculateForecast_flat hist 2 "2024-03-01" 95 PROPHET
           Forecasting.multiplicative true (JSDate.mkCivil 2024 3 1) 5 1).
  - lra.
  - repeat constructor.
  - simpl. lia.
  - reflexivity.
  - lia.
Defined.

(** X5. [runLinear] is exact on a line: on the history
    [a + b * i] for [i = 0 .. n - 1] with [n >= 2], the forecast at step
    [i] is the value of the same line at index [n + i - 1], floored at 0. *)
Theorem runLinear_exact_on_line :
  forall (a b : R) (n horizon : nat),
    (2 <= n)%nat ->
    Forecasting.runLinear (map (fun i => a + b * INR i) (seq 0 n)) horizon
    = map (fun i => JS.Math_max 0 (a + b * INR (n + i - 1))) (JS.range 1 horizon).
Proof.
  intros a b n horizon Hn.
  rewrite (runLinear_line _ a b); rewrite ?length_map, ?length_seq; auto.
  intros i Hi. now rewrite get_map_seq.
Qed.

Lemma runLinear_exact_on_line_witness :
  Forecasting.runLinear (map (fun i => 10 + 2 * INR i) (seq 0 3)) 2
  = map (fun i => JS.Math_max 0 (10 + 2 * INR (3 + i - 1))) (JS.range 1 2).
Proof. apply (runLinear_exact_on_line 10 2 3 2). lia. Defined.

(** X6. On a non-empty history of non-negative values the forecasts of
    [runArima] move one way: when the last value is at or above the mean of
    the history, the sequence of the last value and the forecasts never
    rises; when it is at or below the mean, the sequence never falls. *)
Theorem runArima_monotone :
  forall (values : list R) (horizon : nat),
    values <> [] ->
    Forall (fun x => 0 <= x) values ->
    let mean := JS.sum values / INR (length values) in
    let last := JS.get values (length values - 1) in
    (mean <= last ->
     StronglySorted (fun a b => b <= a)
                    (last :: Forecasting.runArima values horizon))
    /\ (last <= mean ->
        StronglySorted (fun a b => a <= b)
                       (last :: Forecasting.runArima values horizon)).
Proof.
  intros values horizon Hne Hpos mean last.
  rewrite (runArima_closed values horizon Hne Hpos). fold mean. fold last.
  assert (E : last :: map (fun j => mean + 0.85 ^ j * (last - mean)) (seq 1 horizon)
              = map (fun j => mean + 0.85 ^ j * (last - mean)) (seq 0 (S horizon))).
  { cbn [seq map]. f_equal. simpl. ring. }
  rewrite E.
  split; intros H; apply map_seq_sorted; intros i j Hij;
    pose proof (pow_085_le i j Hij); nra.
Qed.

Lemma runArima_monotone_witness :
  let values := [4; 0; 8] in
  let mean := JS.sum values / INR (length values) in
  let last := JS.get values (length values - 1) in
  mean <= last
  /\ StronglySorted (fun a b => b <= a)
                    (last :: Forecasting.runArima values 3).
Proof.
  intros values mean last.
  assert (H : mean <= last).
  { unfold mean, last, values, JS.sum, JS.get. simpl. lra. }
  split; [exact H|].
  apply (proj1 (runArima_monotone values 3 ltac:(discriminate)
                  ltac:(repeat constructor; lra))).
  exact H.
Defined.

(** X7. [detectHWMethod] on a flat history: a positive constant is given the
    multiplicative variant whatever the length, and 4 or more zeros are
    given the additive one (every early value counts as sparse). *)
Theorem detectHWMethod_flat :
  forall (c : R) (n : nat),
    0 < c ->
    Forecasting.detectHWMethod (repeat c n) = Forecasting.multiplicative
    /\ ((4 <= n)%nat ->
        Forecasting.detectHWMethod (repeat 0 n) = Forecasting.additive).
Proof.
  intros c n Hc. split.
  - now apply detectHWMethod_flat_positive.
  - intros Hn. now apply detectHWMethod_flat_zero.
Qed.

Lemma detectHWMethod_flat_witness :
  Forecasting.detectHWMethod (repeat 7 2) = Forecasting.multiplicative
  /\ Forecasting.detectHWMethod (repeat 7 6) = Forecasting.multiplicative
  /\ Forecasting.detectHWMethod (repeat 0 6) = Forecasting.additive.
Proof.
  split; [apply (detectHWMethod_flat 7 2); lra|].
  destruct (detectHWMethod_flat 7 6 ltac:(lra)) as [H1 H2].
  split; [exact H1|apply H2; lia].
Defined.

End MethodProperties.

(* ================================================================== *)
(** * Forecast metrics *)
(* ================================================================== *)

Section SumFacts.

Import JS.

Lemma sumOver_nonneg f l :
  (forall i, In i l -> 0 <= f i) -> 0 <= sumOver f l.
Proof.
  induction l as [|i l IH]; intros H; simpl; [lra|].
  assert (0 <= f i) by (apply H; now left).
  assert (0 <= sumOver f l) by (apply IH; intros j Hj; apply H; now right).
  unfold sumOver in *. lra.
Qed.

Lemma sumOver_abs f l : Rabs (sumOver f l) <= sumOver (fun i => Rabs (f i)) l.
Proof.
  induction l as [|i l IH]; simpl; [rewrite Rabs_R0; lra|].
  eapply Rle_trans; [apply Rabs_triang|]. unfold sumOver in *. lra.
Qed.

Lemma sumOver_zero_iff f l :
  (forall i, In i l -> 0 <= f i) ->
  (sumOver f l = 0 <-> forall i, In i l -> f i = 0).
Proof.
  induction l as [|i l IH]; intros H.
  - simpl. split; [intros _ j []|reflexivity].
  - assert (Hi : 0 <= f i) by (apply H; now left).
    assert (Hl : forall j, In j l -> 0 <= f j) by (intros j Hj; apply H; now right).
    pose proof (sumOver_nonneg f l Hl) as Hs.
    specialize (IH Hl). cbn [sumOver fold_right]. fold (sumOver f l). split.
    + intros H0 j [<-|Hj]; [lra|]. apply IH; [lra|exact Hj].
    + intros H0. rewrite (H0 i) by now left.
      assert (sumOver f l = 0) by (apply IH; intros j Hj; apply H0; now right). lra.
Qed.

(** The step of the Cauchy-Schwarz inequality. *)
Lemma square_sum_step f S Q k :
  0 <= k -> 0 <= Q -> S * S <= k * Q ->
  (f + S) * (f + S) <= (k + 1) * (f * f + Q).
Proof.
  intros Hk HQ IH.
  assert (H2 : 2 * f * S <= k * (f * f) + Q).
  { destruct (Req_dec k 0) as [Hk0|Hk0].
    - subst k. rewrite Rmult_0_l in *.
      pose proof (Rle_0_sqr S) as HS. unfold Rsqr in HS.
      assert (S = 0) by (apply Rsqr_0_uniq; unfold Rsqr; lra).
      subst S. lra.
    - assert (0 < k) by lra.
      pose proof (Rle_0_sqr (k * f - S)) as Hsq. unfold Rsqr in Hsq.
      assert (k * (2 * f * S) <= k * (k * (f * f) + Q)) by nra.
      apply Rmult_le_reg_l with k; auto. }
  nra.
Qed.

(** The Cauchy-Schwarz inequality against the constant 1. *)
Lemma sumOver_square f l :
  sumOver f l * sumOver f l <= INR (length l) * sumOver (fun i => f i * f i) l.
Proof.
  induction l as [|i l IH]; [simpl; lra|].
  cbn [sumOver fold_right length]. fold (sumOver f l).
  fold (sumOver (fun i => f i * f i) l). rewrite S_INR.
  apply square_sum_step; auto using pos_INR.
  apply sumOver_nonneg. intros j _. apply Rle_0_sqr.
Qed.

Lemma get_firstn xs n i : (i < n)%nat -> get (firstn n xs) i = get xs i.
Proof.
  unfold get. revert n i; induction xs as [|x xs IH]; intros n i Hi.
  - now rewrite firstn_nil.
  - destruct n as [|n]; [lia|]. destruct i as [|i]; simpl; auto. apply IH. lia.
Qed.

Lemma sumOver_firstn xs n :
  (n <= length xs)%nat -> sumOver (get xs) (seq 0 n) = sum (firstn n xs).
Proof.
  intros Hn. rewrite sum_sumOver, length_firstn, Nat.min_l by lia.
  apply sumOver_ext. intros i Hi. apply in_seq in Hi. symmetry. apply get_firstn. lia.
Qed.

End SumFacts.

Section MetricsFacts.

Import JS Forecasting Quality.

Lemma metrics_sums actual forecast l :
  forall a b c d,
    fold_left (fun '(sumAbsError, sumSqError, sumActual, sumError) i =>
                 let error := get forecast i - get actual i in
                 (sumAbsError + Math_abs error, sumSqError + error * error,
                  sumActual + get actual i, sumError + error))
              l (a, b, c, d)
    = (a + sumOver (fun i => Rabs (errorAt actual forecast i)) l,
       b + sumOver (fun i => errorAt actual forecast i * errorAt actual forecast i) l,
       c + sumOver (get actual) l,
       d + sumOver (errorAt actual forecast) l).
Proof.
  induction l as [|i l IH]; intros a b c d; simpl.
  - f_equal; [f_equal; [f_equal|]|]; lra.
  - rewrite IH. unfold sumOver, errorAt, Math_abs. simpl.
    f_equal; [f_equal; [f_equal|]|]; lra.
Qed.

Lemma or_else_count n : 0 < or_else (INR n) 1.
Proof.
  unfold or_else. destruct (eq (INR n) 0) eqn:E; [lra|].
  destruct n; [simpl in E; unfold eq in E; destruct (Req_dec_T 0 0); [discriminate|lra]|].
  apply lt_0_INR. lia.
Qed.

Lemma or_else_count_pos n : (0 < n)%nat -> or_else (INR n) 1 = INR n.
Proof. intros H. apply or_else_nonzero. apply not_0_INR. lia. Qed.

End MetricsFacts.
Section MetricsProofs.

Import JS Forecasting.

Lemma firstn_min_length {A} (xs : list A) k :
  firstn (Nat.min (length xs) k) xs = firstn k xs.
Proof.
  destruct (Nat.le_ge_cases k (length xs)).
  - now rewrite Nat.min_r.
  - rewrite Nat.min_l by lia. now rewrite !firstn_all2 by lia.
Qed.

Lemma firstn_get_ext xs ys n :
  (n <= length xs)%nat -> (n <= length ys)%nat ->
  (forall i, (i < n)%nat -> get xs i = get ys i) ->
  firstn n xs = firstn n ys.
Proof.
  intros Hx Hy H. apply (nth_ext _ _ 0 0).
  - rewrite !length_firstn. lia.
  - intros i Hi. rewrite length_firstn in Hi.
    change (get (firstn n xs) i = get (firstn n ys) i).
    rewrite !get_firstn by lia. apply H. lia.
Qed.

(** [calculateMetrics] in terms of the sums it accumulates. *)
Lemma calculateMetrics_sums actual forecast unitCost sellingPrice :
  let n := compared actual forecast in
  let sumAbsError := sumOver (fun i => Rabs (errorAt actual forecast i)) (seq 0 n) in
  let sumSqError :=
    sumOver (fun i => errorAt actual forecast i * errorAt actual forecast i) (seq 0 n) in
  let sumActual := sumOver (get actual) (seq 0 n) in
  let sumError := sumOver (errorAt actual forecast) (seq 0 n) in
  Quality.calculateMetrics actual forecast unitCost sellingPrice
  = Quality.mkForecastMetrics
      (if Nat.ltb 0 n then sumAbsError / sumActual * 100 else 0)
      (Math_sqrt (sumSqError / or_else (INR n) 1))
      (sumError / or_else sumActual 1 * 100)
      (sumAbsError / or_else (INR n) 1)
      (Math_max 0 (100 - (if Nat.ltb 0 n then sumAbsError / sumActual * 100 else 0)))
      0 0 None.
Proof.
  intros n sumAbsError sumSqError sumActual sumError.
  unfold Quality.calculateMetrics. fold (compared actual forecast). fold n.
  unfold range. rewrite metrics_sums, !Rplus_0_l. reflexivity.
Qed.

Lemma sumActual_prefix actual forecast :
  sumOver (get actual) (seq 0 (compared actual forecast))
  = sum (firstn (length forecast) actual).
Proof.
  unfold compared. rewrite sumOver_firstn by lia. now rewrite firstn_min_length.
Qed.

Lemma sumAbsError_nonneg actual forecast l :
  0 <= sumOver (fun i => Rabs (errorAt actual forecast i)) l.
Proof. apply sumOver_nonneg. intros i _. apply Rabs_pos. Qed.

Lemma mad_le_rmse actual forecast unitCost sellingPrice :
  0 <= Quality.mad (Quality.calculateMetrics actual forecast unitCost sellingPrice)
    <= Quality.rmse (Quality.calculateMetrics actual forecast unitCost sellingPrice).
Proof.
  rewrite calculateMetrics_sums. cbn [Quality.mad Quality.rmse].
  set (n := compared actual forecast).
  set (SA := sumOver (fun i => Rabs (errorAt actual forecast i)) (seq 0 n)).
  set (SS := sumOver (fun i => errorAt actual forecast i * errorAt actual forecast i)
                     (seq 0 n)).
  pose proof (or_else_count n) as HN.
  pose proof (sumAbsError_nonneg actual forecast (seq 0 n)) as HSA. fold SA in HSA.
  assert (Hinv : 0 < / or_else (INR n) 1) by now apply Rinv_0_lt_compat.
  assert (Hmad : 0 <= SA / or_else (INR n) 1).
  { unfold Rdiv. apply Rmult_le_pos; lra. }
  split; [exact Hmad|].
  assert (HCS : SA * SA <= or_else (INR n) 1 * SS).
  { destruct n as [|n'] eqn:En.
    - subst SA SS. simpl. rewrite ?Rmult_0_l, ?Rmult_0_r. lra.
    - rewrite or_else_count_pos by lia.
      pose proof (sumOver_square (fun i => Rabs (errorAt actual forecast i))
                                 (seq 0 (S n'))) as H.
      rewrite length_seq in H. fold SA in H.
      rewrite (sumOver_ext _ (fun i => errorAt actual forecast i * errorAt actual forecast i))
        in H; [exact H|].
      intros i _. rewrite <- Rabs_mult. apply Rabs_right. apply Rle_ge, Rle_0_sqr. }
  unfold Math_sqrt.
  rewrite <- (sqrt_Rsqr (SA / or_else (INR n) 1)) at 1 by exact Hmad.
  apply sqrt_le_1_alt. unfold Rsqr, Rdiv.
  set (N := or_else (INR n) 1) in *.
  replace (SA * / N * (SA * / N)) with ((SA * SA) * (/ N * / N)) by ring.
  replace (SS * / N) with ((N * SS) * (/ N * / N)) by (field; lra).
  apply Rmult_le_compat_r; [|exact HCS]. apply Rmult_le_pos; lra.
Qed.

Lemma metrics_positive_sum actual forecast :
  0 < sum (firstn (length forecast) actual) ->
  (0 < compared actual forecast)%nat.
Proof.
  intros H. rewrite <- sumActual_prefix in H.
  destruct (compared actual forecast); [simpl in H; lra|lia].
Qed.

Lemma mape_eq actual forecast unitCost sellingPrice :
  0 < sum (firstn (length forecast) actual) ->
  Quality.mape (Quality.calculateMetrics actual forecast unitCost sellingPrice)
  = sumOver (fun i => Rabs (errorAt actual forecast i))
            (seq 0 (compared actual forecast))
    / sum (firstn (length forecast) actual) * 100.
Proof.
  intros H. pose proof (metrics_positive_sum _ _ H) as Hn.
  rewrite calculateMetrics_sums. cbn [Quality.mape].
  rewrite sumActual_prefix.
  replace (Nat.ltb 0 (compared actual forecast)) with true
    by (symmetry; now apply Nat.ltb_lt).
  reflexivity.
Qed.

Lemma mape_nonneg actual forecast unitCost sellingPrice :
  0 < sum (firstn (length forecast) actual) ->
  0 <= Quality.mape (Quality.calculateMetrics actual forecast unitCost sellingPrice).
Proof.
  intros H. rewrite mape_eq by exact H.
  pose proof (sumAbsError_nonneg actual forecast (seq 0 (compared actual forecast))).
  assert (0 < / sum (firstn (length forecast) actual)) by now apply Rinv_0_lt_compat.
  unfold Rdiv. apply Rmult_le_pos; [apply Rmult_le_pos|]; lra.
Qed.

Lemma accuracy_eq actual forecast unitCost sellingPrice :
  Quality.accuracy (Quality.calculateMetrics actual forecast unitCost sellingPrice)
  = Rmax 0 (100 - Quality.mape
                    (Quality.calculateMetrics actual forecast unitCost sellingPrice)).
Proof. rewrite calculateMetrics_sums. reflexivity. Qed.

End MetricsProofs.

(** X8. Whatever the two arrays, the mean absolute deviation
    [calculateMetrics] reports is non-negative and never exceeds the root
    mean square error it reports. *)
Theorem calculateMetrics_mad_le_rmse :
  forall (actual forecast : list R) (unitCost sellingPrice : R),
    0 <= Quality.mad (Quality.calculateMetrics actual forecast unitCost sellingPrice)
      <= Quality.rmse (Quality.calculateMetrics actual forecast unitCost sellingPrice).
Proof. intros. apply mad_le_rmse. Qed.

(** X9. When the compared actuals have a positive sum, [calculateMetrics]
    reports a non-negative MAPE, a bias whose absolute value is at most the
    MAPE, and an accuracy between 0 and 100. *)
Theorem calculateMetrics_ranges :
  forall (actual forecast : list R) (unitCost sellingPrice : R),
    0 < JS.sum (firstn (length forecast) actual) ->
    0 <= Quality.mape (Quality.calculateMetrics actual forecast unitCost sellingPrice)
    /\ Rabs (Quality.bias (Quality.calculateMetrics actual forecast unitCost sellingPrice))
       <= Quality.mape (Quality.calculateMetrics actual forecast unitCost sellingPrice)
    /\ 0 <= Quality.accuracy (Quality.calculateMetrics actual forecast unitCost sellingPrice)
         <= 100.
Proof.
  intros actual forecast unitCost sellingPrice Hsum.
  pose proof (mape_nonneg actual forecast unitCost sellingPrice Hsum) as Hm.
  split; [exact Hm|]. split.
  - rewrite mape_eq by exact Hsum.
    rewrite calculateMetrics_sums. cbn [Quality.bias].
    rewrite sumActual_prefix.
    set (T := JS.sum (firstn (length forecast) actual)) in *.
    rewrite or_else_nonzero by lra.
    assert (HT : 0 < / T) by now apply Rinv_0_lt_compat.
    unfold Rdiv. rewrite !Rabs_mult, (Rabs_right (/ T)), (Rabs_right 100) by lra.
    apply Rmult_le_compat_r; [lra|]. apply Rmult_le_compat_r; [lra|].
    apply sumOver_abs.
  - rewrite accuracy_eq. split; [apply Rmax_l|]. apply Rmax_lub; lra.
Qed.

Lemma calculateMetrics_ranges_witness :
  0 < JS.sum (firstn (length [12; 18; 7]) [10; 20])
  /\ 0 <= Quality.mape (Quality.calculateMetrics [10; 20] [12; 18; 7] 1 1)
  /\ Rabs (Quality.bias (Quality.calculateMetrics [10; 20] [12; 18; 7] 1 1))
     <= Quality.mape (Quality.calculateMetrics [10; 20] [12; 18; 7] 1 1)
  /\ 0 <= Quality.accuracy (Quality.calculateMetrics [10; 20] [12; 18; 7] 1 1) <= 100.
Proof.
  assert (H : 0 < JS.sum (firstn (length [12; 18; 7]) [10; 20])).
  { unfold JS.sum. simpl. lra. }
  split; [exact H|]. exact (calculateMetrics_ranges [10; 20] [12; 18; 7] 1 1 H).
Defined.

(** X10. When the compared actuals have a positive sum, [calculateMetrics]
    reports an accuracy of 100 exactly when the forecast equals the actuals
    on the compared prefix; MAPE, RMSE, MAD and bias are then all 0. *)
Theorem calculateMetrics_perfect :
  forall (actual forecast : list R) (unitCost sellingPrice : R),
    0 < JS.sum (firstn (length forecast) actual) ->
    (Quality.accuracy (Quality.calculateMetrics actual forecast unitCost sellingPrice) = 100
     <-> firstn (compared actual forecast) forecast
         = firstn (compared actual forecast) actual)
    /\ (firstn (compared actual forecast) forecast
        = firstn (compared actual forecast) actual ->
        Quality.mape (Quality.calculateMetrics actual forecast unitCost sellingPrice) = 0
        /\ Quality.rmse (Quality.calculateMetrics actual forecast unitCost sellingPrice) = 0
        /\ Quality.mad (Quality.calculateMetrics actual forecast unitCost sellingPrice) = 0
        /\ Quality.bias (Quality.calculateMetrics actual forecast unitCost sellingPrice) = 0).
Proof.
  intros actual forecast unitCost sellingPrice Hsum.
  pose proof (mape_nonneg actual forecast unitCost sellingPrice Hsum) as Hm.
  set (n := compared actual forecast).
  assert (Herr : firstn n forecast = firstn n actual
                 <-> forall i, In i (seq 0 n) -> Rabs (errorAt actual forecast i) = 0).
  { split.
    - intros Heq i Hi. apply in_seq in Hi. unfold errorAt.
      rewrite <- (get_firstn forecast n i), <- (get_firstn actual n i), Heq by lia.
      rewrite Rminus_diag. apply Rabs_R0.
    - intros H. apply firstn_get_ext; try (unfold n, compared; lia).
      intros i Hi. specialize (H i). rewrite in_seq in H.
      specialize (H ltac:(lia)). unfold errorAt in H.
      destruct (Req_dec (JS.get forecast i - JS.get actual i) 0) as [E|E]; [lra|].
      apply Rabs_no_R0 in E. contradiction. }
  assert (Hzero : firstn n forecast = firstn n actual
                  <-> sumOver (fun i => Rabs (errorAt actual forecast i)) (seq 0 n) = 0).
  { rewrite Herr. symmetry. apply sumOver_zero_iff. intros i _. apply Rabs_pos. }
  assert (HT : 0 < / JS.sum (firstn (length forecast) actual))
    by now apply Rinv_0_lt_compat.
  assert (Hmape : Quality.mape (Quality.calculateMetrics actual forecast unitCost sellingPrice) = 0
                  <-> firstn n forecast = firstn n actual).
  { rewrite Hzero, mape_eq by exact Hsum. fold n. split.
    - intros H. unfold Rdiv in H.
      apply Rmult_integral in H. destruct H as [H|H]; [|lra].
      apply Rmult_integral in H. destruct H as [H|H]; [exact H|lra].
    - intros ->. unfold Rdiv. ring. }
  split.
  - rewrite <- Hmape, accuracy_eq. split.
    + intros H. unfold Rmax in H. destruct (Rle_dec _ _); lra.
    + intros ->. rewrite Rminus_0_r. apply Rmax_right. lra.
  - intros Heq. split; [now apply Hmape|].
    apply Hzero in Heq.
    pose proof (mad_le_rmse actual forecast unitCost sellingPrice) as Hmr.
    rewrite calculateMetrics_sums in *. cbn [Quality.rmse Quality.mad Quality.bias] in *.
    fold n in Hmr |- *.
    assert (Hall : forall i, In i (seq 0 n) -> errorAt actual forecast i = 0).
    { intros i Hi.
      apply (proj1 (sumOver_zero_iff _ _ (fun i _ => Rabs_pos _)) Heq) in Hi.
      destruct (Req_dec (errorAt actual forecast i) 0) as [E|E]; [exact E|].
      apply Rabs_no_R0 in E. contradiction. }
    assert (HSS : sumOver (fun i => errorAt actual forecast i * errorAt actual forecast i)
                          (seq 0 n) = 0).
    { apply sumOver_zero_iff.
      - intros i _. apply Rle_0_sqr.
      - intros i Hi. rewrite (Hall i Hi). ring. }
    assert (HSE : sumOver (errorAt actual forecast) (seq 0 n) = 0).
    { rewrite (sumOver_ext _ (fun _ => 0) _ Hall), sumOver_const. ring. }
    rewrite HSS, Heq, HSE. unfold Rdiv. rewrite !Rmult_0_l.
    unfold JS.Math_sqrt. rewrite sqrt_0. auto.
Qed.

Lemma calculateMetrics_perfect_witness :
  (Quality.accuracy (Quality.calculateMetrics [10; 20] [10; 20; 7] 1 1) = 100
   <-> firstn (compared [10; 20] [10; 20; 7]) [10; 20; 7]
       = firstn (compared [10; 20] [10; 20; 7]) [10; 20])
  /\ (firstn (compared [10; 20] [10; 20; 7]) [10; 20; 7]
      = firstn (compared [10; 20] [10; 20; 7]) [10; 20] ->
      Quality.mape (Quality.calculateMetrics [10; 20] [10; 20; 7] 1 1) = 0
      /\ Quality.rmse (Quality.calculateMetrics [10; 20] [10; 20; 7] 1 1) = 0
      /\ Quality.mad (Quality.calculateMetrics [10; 20] [10; 20; 7] 1 1) = 0
      /\ Quality.bias (Quality.calculateMetrics [10; 20] [10; 20; 7] 1 1) = 0).
Proof.
  apply (calculateMetrics_perfect [10; 20] [10; 20; 7] 1 1).
  unfold JS.sum. simpl. lra.
Defined.

(** X11. [calculateMetrics] reads the two arrays up to the length of the
    shorter one and ignores the unit cost and the selling price. *)
Theorem calculateMetrics_common_prefix :
  forall (actual forecast : list R) (unitCost sellingPrice unitCost' sellingPrice' : R),
    Quality.calculateMetrics actual forecast unitCost sellingPrice
    = Quality.calculateMetrics (firstn (compared actual forecast) actual)
                               (firstn (compared actual forecast) forecast)
                               unitCost' sellingPrice'.
Proof.
  intros actual forecast u s u' s'.
  rewrite !calculateMetrics_sums.
  set (n := compared actual forecast).
  assert (Hn : compared (firstn n actual) (firstn n forecast) = n).
  { unfold compared. rewrite !length_firstn. unfold n, compared. lia. }
  rewrite Hn.
  assert (He : forall i, In i (seq 0 n) ->
                 errorAt (firstn n actual) (firstn n forecast) i
                 = errorAt actual forecast i).
  { intros i Hi. apply in_seq in Hi. unfold errorAt.
    now rewrite !get_firstn by lia. }
  rewrite (sumOver_ext (fun i => Rabs (errorAt (firstn n actual) (firstn n forecast) i))
                       (fun i => Rabs (errorAt actual forecast i)))
    by (intros i Hi; now rewrite He).
  rewrite (sumOver_ext (fun i => errorAt (firstn n actual) (firstn n forecast) i
                                 * errorAt (firstn n actual) (firstn n forecast) i)
                       (fun i => errorAt actual forecast i * errorAt actual forecast i))
    by (intros i Hi; now rewrite He).
  rewrite (sumOver_ext (errorAt (firstn n actual) (firstn n forecast))
                       (errorAt actual forecast)) by exact He.
  rewrite (sumOver_ext (JS.get (firstn n actual)) (JS.get actual))
    by (intros i Hi; apply in_seq in Hi; apply get_firstn; lia).
  reflexivity.
Qed.

(* ================================================================== *)
(** * The metrics of the backtest *)
(* ================================================================== *)

Section BacktestMetrics.

Import JS Forecasting App.

Lemma fold_left_add {A} (g : A -> R) (l : list A) a :
  fold_left (fun acc r => acc + g r) l a = a + sum (map g l).
Proof.
  revert a; induction l as [|x l IH]; intros a; simpl.
  - rewrite sum_nil. lra.
  - rewrite IH, sum_cons. lra.
Qed.

Lemma sum_map_nonneg {A} (g : A -> R) (l : list A) :
  (forall x, In x l -> 0 <= g x) -> 0 <= sum (map g l).
Proof.
  intros H. apply sum_nonneg. apply Forall_forall. intros y Hy.
  apply in_map_iff in Hy. destruct Hy as [x [<- Hx]]. auto.
Qed.

Lemma sum_map_abs {A} (g : A -> R) (l : list A) :
  Rabs (sum (map g l)) <= sum (map (fun x => Rabs (g x)) l).
Proof.
  induction l as [|x l IH]; simpl.
  - rewrite sum_nil, Rabs_R0. lra.
  - rewrite !sum_cons. eapply Rle_trans; [apply Rabs_triang|]. lra.
Qed.

Lemma sum_map_minus {A} (g h : A -> R) (l : list A) :
  sum (map (fun x => g x - h x) l) = sum (map g l) - sum (map h l).
Proof.
  induction l as [|x l IH]; simpl.
  - rewrite !sum_nil. lra.
  - rewrite !sum_cons, IH. lra.
Qed.

Lemma sum_map_ext {A} (g h : A -> R) (l : list A) :
  (forall x, In x l -> g x = h x) -> sum (map g l) = sum (map h l).
Proof. intros H. f_equal. now apply map_ext_in. Qed.

(** The accuracy and the bias of [metricsOf] in closed form. *)
Lemma metricsOf_bias rows :
  bias (metricsOf rows)
  = (sum (map r_forecast rows) - sum (map r_actual rows))
    / Rmax (sum (map r_actual rows)) 1 * 100.
Proof. reflexivity. Qed.

Lemma metricsOf_accuracy rows :
  accuracy (metricsOf rows) = Rmax 0 (100 - Rabs (bias (metricsOf rows))).
Proof.
  rewrite metricsOf_bias. unfold metricsOf. cbn [accuracy].
  unfold Math_max, Math_min, Math_abs.
  set (T := sum (map r_actual rows)). set (F := sum (map r_forecast rows)).
  assert (HM : 1 <= Rmax T 1) by apply Rmax_r.
  assert (Hinv : 0 < / Rmax T 1) by (apply Rinv_0_lt_compat; lra).
  unfold Rdiv. rewrite !Rabs_mult, (Rabs_right (/ Rmax T 1)), (Rabs_right 100) by lra.
  rewrite (Rabs_minus_sym F T).
  assert (H0 : 0 <= Rabs (T - F) * / Rmax T 1).
  { apply Rmult_le_pos; [apply Rabs_pos|lra]. }
  rewrite Rmin_right by lra. f_equal. ring.
Qed.

Lemma metricsOf_consistent rows : metricsConsistent (metricsOf rows).
Proof.
  pose proof (metricsOf_accuracy rows) as Hacc.
  pose proof (Rabs_pos (bias (metricsOf rows))) as Hb.
  split; [|split].
  - rewrite Hacc. split; [apply Rmax_l|apply Rmax_lub; lra].
  - unfold metricsOf. cbn [mape].
    rewrite !fold_left_add, !Rplus_0_l.
    destruct (gt _ 0) eqn:E; [|lra].
    apply gt_spec in E.
    assert (0 <= sum (map (fun r => Math_abs (r_actual r - r_forecast r)) rows)).
    { apply sum_map_nonneg. intros x _. apply Rabs_pos. }
    assert (0 < / sum (map (fun r => Math_abs (r_actual r)) rows))
      by (apply Rinv_0_lt_compat; lra).
    unfold Rdiv. apply Rmult_le_pos; [apply Rmult_le_pos|]; lra.
  - unfold metricsOf. cbn [rmse]. apply sqrt_pos.
Qed.

Lemma metricsOf_bias_sign rows :
  (0 < bias (metricsOf rows)
   <-> sum (map r_actual rows) < sum (map r_forecast rows))
  /\ (bias (metricsOf rows) < 0
      <-> sum (map r_forecast rows) < sum (map r_actual rows)).
Proof.
  rewrite metricsOf_bias.
  set (T := sum (map r_actual rows)). set (F := sum (map r_forecast rows)).
  assert (HM : 1 <= Rmax T 1) by apply Rmax_r.
  assert (Hinv : 0 < / Rmax T 1) by (apply Rinv_0_lt_compat; lra).
  unfold Rdiv. split; split; intros H; nra.
Qed.

End BacktestMetrics.

(** X12. For every set of scored pairs, the accuracy [metricsOf] reports
    lies between 0 and 100 and looks at the totals only: it is 100, and the
    bias is 0, whenever the forecasts and the actuals have the same total,
    whatever the individual errors.  The bias has the sign of the excess
    of the forecast total over the actual total.  MAPE and RMSE are
    non-negative. *)
Theorem metricsOf_accuracy_of_totals :
  forall rows : list App.Row,
    0 <= App.accuracy (App.metricsOf rows) <= 100
    /\ (JS.sum (map App.r_forecast rows) = JS.sum (map App.r_actual rows) ->
        App.accuracy (App.metricsOf rows) = 100
        /\ App.bias (App.metricsOf rows) = 0)
    /\ (0 < App.bias (App.metricsOf rows)
        <-> JS.sum (map App.r_actual rows) < JS.sum (map App.r_forecast rows))
    /\ (App.bias (App.metricsOf rows) < 0
        <-> JS.sum (map App.r_forecast rows) < JS.sum (map App.r_actual rows))
    /\ 0 <= App.mape (App.metricsOf rows)
    /\ 0 <= App.rmse (App.metricsOf rows).
Proof.
  intros rows.
  destruct (metricsOf_consistent rows) as [Hrange [Hmape Hrmse]].
  destruct (metricsOf_bias_sign rows) as [Hpos Hneg].
  split; [exact Hrange|]. split; [|repeat split; try assumption; tauto].
  intros Heq.
  assert (Hb : App.bias (App.metricsOf rows) = 0).
  { rewrite metricsOf_bias, Heq, Rminus_diag. unfold Rdiv.
    now rewrite !Rmult_0_l. }
  split; [|exact Hb].
  rewrite metricsOf_accuracy, Hb, Rabs_R0, Rminus_0_r. apply Rmax_right. lra.
Qed.

(** X13. When the scored actuals are non-negative and total at least 1, the
    absolute bias [metricsOf] reports is at most the reported MAPE: errors
    of opposite signs cancel in the bias and add up in the MAPE. *)
Theorem metricsOf_bias_below_mape :
  forall rows : list App.Row,
    Forall (fun r => 0 <= App.r_actual r) rows ->
    1 <= JS.sum (map App.r_actual rows) ->
    Rabs (App.bias (App.metricsOf rows)) <= App.mape (App.metricsOf rows).
Proof.
  intros rows Hpos Htot.
  rewrite metricsOf_bias. unfold App.metricsOf. cbn [App.mape].
  rewrite !fold_left_add, !Rplus_0_l. unfold JS.Math_abs.
  rewrite (sum_map_ext (fun r => Rabs (App.r_actual r)) App.r_actual).
  2:{ intros x Hx. rewrite Forall_forall in Hpos. apply Rabs_right, Rle_ge. auto. }
  set (T := JS.sum (map App.r_actual rows)) in *.
  replace (JS.gt T 0) with true by (symmetry; apply gt_spec; lra).
  rewrite Rmax_left by lra.
  assert (HT : 0 < / T) by (apply Rinv_0_lt_compat; lra).
  unfold Rdiv. rewrite !Rabs_mult, (Rabs_right (/ T)), (Rabs_right 100) by lra.
  apply Rmult_le_compat_r; [lra|]. apply Rmult_le_compat_r; [lra|].
  unfold T. rewrite Rabs_minus_sym, <- sum_map_minus.
  apply (sum_map_abs (fun r => App.r_actual r - App.r_forecast r)).
Qed.

Lemma metricsOf_bias_below_mape_witness :
  let rows := [App.mkRow "2024-01-01" 10 12; App.mkRow "2024-02-01" 20 15] in
  Rabs (App.bias (App.metricsOf rows)) <= App.mape (App.metricsOf rows).
Proof.
  intros rows. apply (metricsOf_bias_below_mape rows).
  - repeat constructor; simpl; lra.
  - unfold JS.sum. simpl. lra.
Defined.

(* ================================================================== *)
(** * Anomaly cleaning *)
(* ================================================================== *)

Section AnomalyFacts.

Import JS Forecasting Quality.

Lemma sqDev_app m xs ys : sqDev m (xs ++ ys) = sqDev m xs + sqDev m ys.
Proof. induction xs as [|x xs IH]; simpl; [lra|]. simpl in IH. rewrite IH. lra. Qed.

(** The squared sum of the deviations from [m] against their sum of
    squares. *)
Lemma deviation_square m l :
  (sum l - INR (length l) * m) * (sum l - INR (length l) * m)
  <= INR (length l) * sqDev m l.
Proof.
  induction l as [|x l IH].
  - rewrite sum_nil. simpl. lra.
  - rewrite sum_cons. change (length (x :: l)) with (S (length l)).
    rewrite S_INR. cbn [sqDev fold_right]. fold (sqDev m l).
    replace (x + sum l - (INR (length l) + 1) * m)
      with ((x - m) + (sum l - INR (length l) * m)) by ring.
    replace ((x - m) ^ 2) with ((x - m) * (x - m)) by ring.
    apply square_sum_step; auto using pos_INR, sqDev_nonneg.
Qed.

(** No value is further from the mean than the others allow: with [n]
    values, [n] times a squared deviation is at most [n - 1] times the sum
    of the squared deviations. *)
Lemma deviation_bound values x :
  In x values ->
  let n := INR (length values) in
  let m := sum values / n in
  n * ((x - m) * (x - m)) <= (n - 1) * sqDev m values.
Proof.
  intros Hin n m.
  destruct (in_split _ _ Hin) as [l1 [l2 ->]].
  assert (Hn : 0 < n).
  { unfold n. apply lt_0_INR. rewrite length_app. simpl. lia. }
  assert (Hm : sum (l1 ++ x :: l2) = n * m) by (unfold m; field; lra).
  pose proof (deviation_square m (l1 ++ l2)) as HCS.
  rewrite sqDev_app in *. cbn [sqDev fold_right] in *. fold (sqDev m l2) in *.
  rewrite sum_app in *. rewrite sum_cons in Hm.
  assert (Hlen : INR (length (l1 ++ l2)) = n - 1).
  { unfold n. rewrite !length_app. cbn [length].
    rewrite Nat.add_succ_r, S_INR. lra. }
  rewrite Hlen in HCS.
  replace (sum l1 + sum l2 - (n - 1) * m) with (- (x - m)) in HCS by lra.
  replace ((x - m) ^ 2) with ((x - m) * (x - m)) by ring.
  nra.
Qed.

Lemma cleanAnomalies_mean values :
  values <> [] ->
  sum values / or_else (len values) 1 = sum values / INR (length values).
Proof.
  intros H. unfold len. rewrite or_else_count_pos; [reflexivity|].
  destruct values; [congruence|simpl; lia].
Qed.

(** The anomaly test in terms of squares. *)
Lemma isAnomaly_square values d :
  values <> [] ->
  let n := INR (length values) in
  let m := sum values / n in
  isAnomaly m (getStdDev values) d = true
  <-> 6.25 * (sqDev m values / n) < (quantity d - m) * (quantity d - m).
Proof.
  intros Hne n m. unfold isAnomaly, Math_abs. rewrite gt_spec.
  rewrite getStdDev_sqDev. fold n. fold m.
  assert (Hn : 0 < n).
  { unfold n. apply lt_0_INR. destruct values; [congruence|simpl; lia]. }
  assert (HV : 0 <= sqDev m values / n).
  { unfold Rdiv. apply Rmult_le_pos; [apply sqDev_nonneg|].
    left. now apply Rinv_0_lt_compat. }
  set (V := sqDev m values / n) in *.
  pose proof (sqrt_pos V) as Hs. pose proof (sqrt_sqrt V HV) as Hss.
  pose proof (Rabs_pos (quantity d - m)) as Ha.
  assert (Haa : Rabs (quantity d - m) * Rabs (quantity d - m)
                = (quantity d - m) * (quantity d - m)).
  { rewrite <- Rabs_mult. apply Rabs_right, Rle_ge, Rle_0_sqr. }
  split; intros H.
  - rewrite <- Haa. nra.
  - rewrite <- Haa in H.
    destruct (Rle_lt_dec (Rabs (quantity d - m)) (2.5 * sqrt V)) as [Hle|Hlt]; [|lra].
    exfalso. nra.
Qed.

Lemma cleanAnomalies_eq data :
  data <> [] ->
  cleanAnomalies data
  = map (fun d =>
           if isAnomaly (sum (map quantity data) / INR (length data))
                        (getStdDev (map quantity data)) d
           then withQuantity d
                  (Math_round (sum (map quantity data) / INR (length data)))
           else d) data.
Proof.
  intros Hne. unfold cleanAnomalies. cbv zeta.
  rewrite cleanAnomalies_mean, length_map; [reflexivity|].
  destruct data; [congruence|discriminate].
Qed.

Lemma filter_none {A} (p : A -> bool) (l : list A) :
  (forall x, In x l -> p x = false) -> filter p l = [].
Proof.
  induction l as [|x l IH]; intros H; simpl; auto.
  rewrite (H x) by now left. apply IH. intros y Hy. apply H. now right.
Qed.

(** Points above a threshold weigh at least the threshold each. *)
Lemma threshold_count {A} (p : A -> bool) (g : A -> R) (t : R) (l : list A) :
  (forall x, 0 <= g x) ->
  (forall x, p x = true -> t <= g x) ->
  t * INR (length (filter p l)) <= sum (map g l).
Proof.
  intros Hg Hp. induction l as [|x l IH]; simpl.
  - rewrite sum_nil. lra.
  - rewrite sum_cons. destruct (p x) eqn:E.
    + cbn [length]. rewrite S_INR. specialize (Hp x E). lra.
    + specialize (Hg x). lra.
Qed.

Lemma sqDev_map_sum m (data : list DataPoint) :
  sqDev m (map quantity data)
  = sum (map (fun d => (quantity d - m) * (quantity d - m)) data).
Proof.
  induction data as [|d l IH]; simpl; [now rewrite sum_nil|].
  rewrite sum_cons. simpl in IH. rewrite IH. ring.
Qed.

(** Fewer than one point in six is an anomaly. *)
Lemma anomaly_count data :
  data <> [] ->
  6.25 * INR (length (filter (isAnomaly (sum (map quantity data) / INR (length data))
                                        (getStdDev (map quantity data))) data))
  <= INR (length data).
Proof.
  intros Hne.
  assert (Hv : map quantity data <> []) by (destruct data; [congruence|discriminate]).
  set (m := sum (map quantity data) / INR (length data)).
  set (n := INR (length data)).
  assert (Hn : 0 < n).
  { unfold n. apply lt_0_INR. destruct data; [congruence|simpl; lia]. }
  set (V := sqDev m (map quantity data) / n).
  assert (HV : 0 <= V).
  { unfold V, Rdiv. apply Rmult_le_pos; [apply sqDev_nonneg|].
    left. now apply Rinv_0_lt_compat. }
  assert (Htest : forall d, isAnomaly m (getStdDev (map quantity data)) d = true ->
                    6.25 * V < (quantity d - m) * (quantity d - m)).
  { intros d Hd. pose proof (isAnomaly_square (map quantity data) d Hv) as H.
    cbv zeta in H. rewrite length_map in H. apply H. exact Hd. }
  destruct (Req_dec V 0) as [HV0|HV0].
  - (* no spread: no anomaly *)
    assert (Hnone : filter (isAnomaly m (getStdDev (map quantity data))) data = []).
    { assert (Hs : sqDev m (map quantity data) = 0).
      { unfold V, Rdiv in HV0. apply Rmult_integral in HV0.
        destruct HV0 as [H|H]; [exact H|].
        assert (0 < / n) by now apply Rinv_0_lt_compat. lra. }
      apply sqDev_zero_iff in Hs. rewrite Forall_forall in Hs.
      apply filter_none. intros d Hd.
      destruct (isAnomaly _ _ d) eqn:E; [|reflexivity].
      apply Htest in E. rewrite HV0 in E.
      rewrite (Hs (quantity d)) in E by (apply in_map; exact Hd). lra. }
    rewrite Hnone. simpl. lra.
  - assert (HVpos : 0 < V) by lra.
    pose proof (threshold_count (isAnomaly m (getStdDev (map quantity data)))
                  (fun d => (quantity d - m) * (quantity d - m)) (6.25 * V) data
                  (fun d => Rle_0_sqr _)
                  (fun d Hd => Rlt_le _ _ (Htest d Hd))) as H.
    rewrite <- sqDev_map_sum in H.
    assert (HnV : sqDev m (map quantity data) = n * V) by (unfold V; field; lra).
    rewrite HnV in H.
    set (k := INR (length (filter _ data))) in *.
    apply Rmult_le_reg_l with V; [exact HVpos|]. nra.
Qed.

(** Only the points the test selects can change. *)
Lemma changed_le (p : DataPoint -> bool) (f : DataPoint -> DataPoint) data :
  (forall d, p d = false -> f d = d) ->
  (changed data (map f data) <= length (filter p data))%nat.
Proof.
  intros H. unfold changed. induction data as [|d l IH]; simpl; [lia|].
  destruct (p d) eqn:E.
  - destruct (negb _); simpl; lia.
  - rewrite (H d E).
    replace (eq (quantity d) (quantity d)) with true
      by (symmetry; now apply eq_spec).
    simpl. exact IH.
Qed.

Lemma cleanAnomalies_fields data :
  length (cleanAnomalies data) = length data
  /\ map dp_date (cleanAnomalies data) = map dp_date data
  /\ map dp_sku (cleanAnomalies data) = map dp_sku data
  /\ map dp_category (cleanAnomalies data) = map dp_category data.
Proof.
  unfold cleanAnomalies. cbv zeta. rewrite length_map, !map_map.
  repeat split; apply map_ext; intros d; destruct (isAnomaly _ _ d); reflexivity.
Qed.

End AnomalyFacts.

(** X14. [cleanAnomalies] returns a series of at most 7 points unchanged:
    with so few points none can lie further than 2.5 standard deviations
    from the mean. *)
Theorem cleanAnomalies_small :
  forall data : list DataPoint,
    (length data <= 7)%nat -> Quality.cleanAnomalies data = data.
Proof.
  intros data Hlen.
  destruct data as [|d0 l] eqn:Ed; [reflexivity|]. rewrite <- Ed in *.
  assert (Hne : data <> []) by (rewrite Ed; discriminate).
  assert (Hv : map quantity data <> []) by (rewrite Ed; discriminate).
  rewrite cleanAnomalies_eq by exact Hne.
  transitivity (map (fun d => d) data); [|apply map_id].
  apply map_ext_in. intros d Hd.
  destruct (Quality.isAnomaly _ _ d) eqn:E; [exfalso|reflexivity].
  pose proof (isAnomaly_square (map quantity data) d Hv) as Hsq.
  pose proof (deviation_bound (map quantity data) (quantity d) (in_map quantity _ _ Hd))
    as Hb.
  cbv zeta in Hsq, Hb. rewrite length_map in Hsq, Hb.
  apply Hsq in E. clear Hsq.
  set (n := INR (length data)) in *.
  set (m := JS.sum (map quantity data) / n) in *.
  pose proof (sqDev_nonneg m (map quantity data)) as HS.
  assert (Hn : 1 <= n <= 7).
  { unfold n. split.
    - change 1 with (INR 1). apply le_INR. rewrite Ed. simpl. lia.
    - replace 7 with (INR 7) by (simpl; lra). apply le_INR. exact Hlen. }
  assert (HE : 6.25 * sqDev m (map quantity data)
               < n * ((quantity d - m) * (quantity d - m))).
  { apply Rmult_lt_compat_l with (r := n) in E; [|lra].
    replace (n * (6.25 * (sqDev m (map quantity data) / n)))
      with (6.25 * sqDev m (map quantity data)) in E by (field; lra).
    exact E. }
  nra.
Qed.

Lemma cleanAnomalies_small_witness :
  let data := [mkDataPoint "2024-01-01" "A" "c" 1; mkDataPoint "2024-02-01" "A" "c" 1;
               mkDataPoint "2024-03-01" "A" "c" 100] in
  Quality.cleanAnomalies data = data.
Proof. intros data. apply (cleanAnomalies_small data). simpl. lia. Defined.

(** X15. [cleanAnomalies] keeps the length of the series and the date, the
    SKU and the category of every point, and it alters the quantity at
    fewer than one position in six: 6.25 times the number of altered
    positions is at most the number of points. *)
Theorem cleanAnomalies_frame :
  forall data : list DataPoint,
    length (Quality.cleanAnomalies data) = length data
    /\ map dp_date (Quality.cleanAnomalies data) = map dp_date data
    /\ map dp_sku (Quality.cleanAnomalies data) = map dp_sku data
    /\ map dp_category (Quality.cleanAnomalies data) = map dp_category data
    /\ 6.25 * INR (changed data (Quality.cleanAnomalies data)) <= INR (length data).
Proof.
  intros data.
  destruct (cleanAnomalies_fields data) as [H1 [H2 [H3 H4]]].
  repeat (split; [assumption|]).
  destruct data as [|d0 l] eqn:Ed; [simpl; lra|]. rewrite <- Ed in *.
  assert (Hne : data <> []) by (rewrite Ed; discriminate).
  rewrite cleanAnomalies_eq by exact Hne.
  eapply Rle_trans; [|apply (anomaly_count data Hne)].
  apply Rmult_le_compat_l; [lra|]. apply le_INR.
  apply changed_le. intros d ->. reflexivity.
Qed.

(* ================================================================== *)
(** * Phase 1 of the backtest never raises *)
(* ================================================================== *)

Section StringOrder.

Lemma string_compare_trans a :
  forall b c,
    String.compare a b <> Gt -> String.compare b c <> Gt ->
    String.compare a c <> Gt.
Proof.
  induction a as [|x a IH]; intros [|y b] [|z c]; simpl; try congruence.
  intros Hab Hbc. unfold Ascii.compare in *.
  destruct (N.compare_spec (N_of_ascii x) (N_of_ascii y)) as [Exy|Exy|Exy];
    try congruence;
    destruct (N.compare_spec (N_of_ascii y) (N_of_ascii z)) as [Eyz|Eyz|Eyz];
    try congruence;
    destruct (N.compare_spec (N_of_ascii x) (N_of_ascii z)) as [Exz|Exz|Exz];
    try congruence; try lia.
  eauto.
Qed.

Lemma leb_not_gt a b : String.leb a b = true <-> String.compare a b <> Gt.
Proof.
  unfold String.leb. destruct (String.compare a b); split; congruence.
Qed.

Lemma string_leb_trans a b c :
  String.leb a b = true -> String.leb b c = true -> String.leb a c = true.
Proof. rewrite !leb_not_gt. apply string_compare_trans. Qed.

Lemma string_leb_total a b : String.leb a b = false -> String.leb b a = true.
Proof. destruct (String.leb_total a b); congruence. Qed.

Lemma string_leb_refl a : String.leb a a = true.
Proof. destruct (String.leb_total a a); assumption. Qed.

Lemma string_ltb_leb a b : String.leb b a = true -> String.ltb a b = false.
Proof.
  unfold String.leb, String.ltb. rewrite (String.compare_antisym b a).
  destruct (String.compare a b); simpl; congruence.
Qed.

End StringOrder.

Section BacktestTotal.

Import JS Forecasting App.

Lemma StronglySorted_filter {A} (R : A -> A -> Prop) (p : A -> bool) l :
  StronglySorted R l -> StronglySorted R (filter p l).
Proof.
  induction 1 as [|x l Hs IH Hx]; simpl; [constructor|].
  destruct (p x); auto. constructor; auto.
  apply Forall_forall. intros y Hy. apply filter_In in Hy.
  rewrite Forall_forall in Hx. apply Hx. tauto.
Qed.

Lemma StronglySorted_last {A} (R : A -> A -> Prop) l x :
  StronglySorted R (l ++ [x]) -> Forall (fun y => R y x) l.
Proof.
  induction l as [|y l IH]; simpl; intros H; [constructor|].
  apply StronglySorted_inv in H. destruct H as [Hs Hy].
  constructor; auto.
  rewrite Forall_forall in Hy. apply Hy. apply in_or_app. right. now left.
Qed.

Lemma skuDataOf_sorted inp s :
  StronglySorted (fun a b => String.leb (dp_date a) (dp_date b) = true)
                 (skuDataOf inp s).
Proof.
  unfold skuDataOf. apply sortBy_sorted.
  - intros a b. apply string_leb_total.
  - intros a b c. apply string_leb_trans.
Qed.

(** The last training point carries the latest date, and that date is a
    calendar day. *)
Lemma trainData_last inp testStartTime s :
  let trainData := trainDataOf testStartTime (skuDataOf inp s) in
  trainData <> [] ->
  (exists c, JSDate.parse (lastDateOf trainData) = Some c)
  /\ Forall (fun d => String.leb (dp_date d) (lastDateOf trainData) = true) trainData.
Proof.
  intros trainData Hne.
  assert (Hs : StronglySorted (fun a b => String.leb (dp_date a) (dp_date b) = true)
                              trainData).
  { apply StronglySorted_filter, skuDataOf_sorted. }
  assert (Hin : forall d, In d trainData ->
                  timeLt (JSDate.timeOf (dp_date d)) testStartTime = true).
  { intros d Hd. apply filter_In in Hd. tauto. }
  destruct (exists_last Hne) as [l [x Hl]].
  unfold lastDateOf. rewrite Hl in *. rewrite rev_app_distr. simpl. split.
  - assert (Hx : In x (l ++ [x])) by (apply in_or_app; right; now left).
    specialize (Hin x Hx).
    unfold JSDate.timeOf in Hin.
    destruct (JSDate.parse (dp_date x)) as [c|]; [eauto|discriminate].
  - apply Forall_app. split.
    + apply (StronglySorted_last _ _ _ Hs).
    + constructor; [apply string_leb_refl|constructor].
Qed.

Lemma filter_all {A} (p : A -> bool) l :
  Forall (fun x => p x = true) l -> filter p l = l.
Proof. induction 1 as [|x l Hx _ IH]; simpl; [reflexivity|]. now rewrite Hx, IH. Qed.

Lemma methodDataOf_lengths skuData pts :
  length (forecasts (methodDataOf skuData pts)) = length (dates (methodDataOf skuData pts))
  /\ length (actuals (methodDataOf skuData pts)) = length (dates (methodDataOf skuData pts)).
Proof. unfold methodDataOf. cbn [forecasts dates actuals]. now rewrite !length_map. Qed.

Lemma Forall_mapSet {V} (P : string * V -> Prop) k v m :
  P (k, v) -> Forall P m -> Forall P (mapSet k v m).
Proof.
  intros Hk. induction 1 as [|[k' v'] m Hx Hm IH]; simpl.
  - repeat constructor; auto.
  - destruct (String.eqb k' k); constructor; auto.
Qed.

Lemma mapSet_NoDup {V} k (v : V) m :
  NoDup (map fst m) -> NoDup (map fst (mapSet k v m)).
Proof.
  induction m as [|[k' v'] m IH]; simpl; intros H.
  - repeat constructor. auto.
  - destruct (String.eqb_spec k' k) as [->|Hne]; simpl; [exact H|].
    inversion H as [|? ? Hnin Hnd]; subst. constructor; auto.
    intros Hin. apply mapSet_keys in Hin. destruct Hin as [->|Hin]; auto.
Qed.

(** The body of phase 1 returns for every SKU: the forecast of an eligible
    SKU never raises, and the entry it stores is complete. *)
Lemma backtestSku_total inp testStartTime s acc :
  Forall completeEntry acc -> NoDup (map fst acc) ->
  exists acc',
    backtestSku inp testStartTime s acc = Some acc'
    /\ Forall completeEntry acc'
    /\ NoDup (map fst acc')
    /\ incl (map fst acc') (s :: map fst acc).
Proof.
  intros Hacc Hnd.
  destruct (Nat.ltb (length (skuDataOf inp s)) 18) eqn:E18.
  { exists acc. unfold backtestSku. rewrite E18.
    repeat split; auto. apply incl_tl, incl_refl. }
  destruct (Nat.ltb (length (trainDataOf testStartTime (skuDataOf inp s))) 6) eqn:E6.
  { exists acc. unfold backtestSku. rewrite E18, E6.
    repeat split; auto. apply incl_tl, incl_refl. }
  apply Nat.ltb_ge in E18, E6.
  set (skuData := skuDataOf inp s) in *.
  set (trainData := trainDataOf testStartTime skuData) in *.
  assert (Hne : trainData <> []) by (intros H; rewrite H in E6; simpl in E6; lia).
  destruct (trainData_last inp testStartTime s Hne) as [[c Hc] Hall].
  fold skuData in Hc, Hall. fold trainData in Hc, Hall.
  assert (Htrain : trainingOf trainData (lastDateOf trainData) = trainData).
  { unfold trainingOf. now apply filter_all. }
  assert (Hnone : filter (fun d => String.ltb (lastDateOf trainData) (dp_date d)) trainData
                  = []).
  { apply filter_none. intros d Hd. rewrite Forall_forall in Hall.
    apply string_ltb_leb. auto. }
  eexists. split.
  { apply (backtestSku_eligible inp testStartTime s acc c); fold skuData; fold trainData;
      try assumption. rewrite Htrain. lia. }
  fold skuData. fold trainData. split; [|split].
  - apply Forall_mapSet; [|exact Hacc]. split; [reflexivity|].
    cbn [snd]. rewrite map_map. cbn [snd].
    apply Forall_forall. intros md Hmd. apply in_map_iff in Hmd.
    destruct Hmd as [method [<- _]].
    destruct (methodDataOf_lengths skuData
                (applyMarketAdj inp
                   (backtestForecast inp trainData (lastDateOf trainData) c method)))
      as [Hf Ha].
    rewrite Hf, Ha, backtestForecast_dates. unfold forecastDatesOf.
    rewrite Hnone. simpl. auto.
  - now apply mapSet_NoDup.
  - intros k Hk. apply mapSet_keys in Hk. destruct Hk as [->|Hk]; [now left|now right].
Qed.

Lemma phase1_total inp testStartTime skus :
  forall acc,
    Forall completeEntry acc -> NoDup (map fst acc) ->
    exists smf,
      phase1 inp testStartTime skus acc = Some smf
      /\ Forall completeEntry smf
      /\ NoDup (map fst smf)
      /\ incl (map fst smf) (skus ++ map fst acc).
Proof.
  induction skus as [|s skus IH]; intros acc Hacc Hnd; simpl.
  - exists acc. repeat split; auto. apply incl_refl.
  - destruct (backtestSku_total inp testStartTime s acc Hacc Hnd)
      as [acc' [-> [Hacc' [Hnd' Hincl]]]].
    destruct (IH acc' Hacc' Hnd') as [smf [-> [H1 [H2 H3]]]].
    exists smf. repeat split; auto.
    intros k Hk. apply H3 in Hk. apply in_app_or in Hk.
    destruct Hk as [Hk|Hk]; [right; apply in_or_app; now left|].
    apply Hincl in Hk. destruct Hk as [->|Hk]; [now left|].
    right. apply in_or_app. now right.
Qed.

End BacktestTotal.

(** X16. Phase 1 of the backtest returns for every input: the forecast of
    an eligible SKU never raises an exception.  It stores at most one entry
    per SKU, only for SKUs of the list it walks, and every entry holds the
    four methods in order, each with 13 forecast dates, 13 forecasts and
    13 matched actuals. *)
Theorem phase1_never_raises :
  forall (inp : App.BacktestInput) (testStartTime : option Z) (skus : list string),
    exists smf,
      App.phase1 inp testStartTime skus [] = Some smf
      /\ Forall completeEntry smf
      /\ NoDup (map fst smf)
      /\ incl (map fst smf) skus.
Proof.
  intros inp testStartTime skus.
  destruct (phase1_total inp testStartTime skus [] (Forall_nil _) (NoDup_nil _))
    as [smf [H1 [H2 [H3 H4]]]].
  exists smf. repeat split; auto. now rewrite app_nil_r in H4.
Qed.

(** X17. Whatever the input, the entries [backtestResults] returns are
    complete, and every metrics record it reports, per method and
    aggregated, has an accuracy between 0 and 100 and a non-negative MAPE
    and RMSE. *)
Theorem backtestResults_consistent :
  forall inp : App.BacktestInput,
    Forall completeEntry (App.skuMethodForecasts (App.backtestResults inp))
    /\ Forall (fun e => metricsConsistent (snd e))
              (App.methodMetrics (App.backtestResults inp))
    /\ match App.aggregatedMetrics (App.backtestResults inp) with
       | Some m => metricsConsistent m
       | None => True
       end.
Proof.
  intros inp.
  assert (Hempty : forall a b,
             Forall completeEntry (App.skuMethodForecasts (App.emptyResult a b))
             /\ Forall (fun e => metricsConsistent (snd e))
                       (App.methodMetrics (App.emptyResult a b))
             /\ match App.aggregatedMetrics (App.emptyResult a b) with
                | Some m => metricsConsistent m
                | None => True
                end).
  { intros a b. unfold App.emptyResult. cbn. auto. }
  unfold App.backtestResults.
  destruct (_ || _); [apply Hempty|].
  destruct (App.testWindowOf inp) as [w|]; [|apply Hempty].
  destruct (phase1_total inp (App.testStartTimeOf w) (App.uniqueSkusOf inp) []
              (Forall_nil _) (NoDup_nil _)) as [smf [-> [Hsmf _]]].
  destruct (Nat.eqb (length smf) 0); [apply Hempty|].
  cbn [App.skuMethodForecasts App.methodMetrics App.aggregatedMetrics].
  split; [exact Hsmf|]. split.
  - apply Forall_flat_map. apply Forall_forall. intros method _.
    destruct (Nat.ltb 0 _); [|constructor].
    constructor; [apply metricsOf_consistent|constructor].
  - destruct smf as [|first rest]; [exact I|].
    destruct (App.getMethod (snd first) (App.methodology inp)); [|exact I].
    destruct (Nat.ltb 0 _); [apply metricsOf_consistent|exact I].
Qed.

(* ================================================================== *)
(** * The volatility ranking *)
(* ================================================================== *)

Section VolatilityRanking.

Import JS Forecasting App.

Lemma ge_total x y : ge x y = false -> ge y x = true.
Proof. intros H. apply ge_false in H. apply ge_spec. lra. Qed.

Lemma ge_trans x y z : ge x y = true -> ge y z = true -> ge x z = true.
Proof. rewrite !ge_spec. lra. Qed.

Lemma volatilityEntry_nonneg s quantities :
  0 <= volatility (volatilityEntry s quantities).
Proof.
  rewrite volatilityEntry_cv. cbv zeta.
  destruct (gt _ 0) eqn:E; [|lra].
  apply gt_spec in E.
  apply Rmult_le_pos; [|lra]. unfold Rdiv.
  apply Rmult_le_pos; [apply sqrt_pos|]. left. apply Rinv_0_lt_compat. lra.
Qed.

Lemma volatilityMap_fold window filterSkus rows :
  forall m,
    volatilityMap filterSkus m ->
    volatilityMap filterSkus
      (fold_left
         (fun m item =>
            if matchesSku filterSkus (sku item) && Nat.ltb 0 (length (window item))
            then mapSet (sku item) (volatilityEntry (sku item) (window item)) m
            else m)
         rows m).
Proof.
  induction rows as [|item rows IH]; intros m Hm; simpl; [exact Hm|].
  apply IH. destruct (matchesSku filterSkus (sku item)) eqn:E1; [|exact Hm].
  destruct (Nat.ltb 0 (length (window item))); [|exact Hm]. simpl.
  destruct Hm as [Hnd Hall]. split.
  - now apply mapSet_NoDup.
  - apply Forall_mapSet; [|exact Hall]. cbn [fst snd].
    split; [reflexivity|]. split; [apply volatilityEntry_nonneg|exact E1].
Qed.

Lemma mapSet_has_key {V} k (v : V) m : In k (map fst (mapSet k v m)).
Proof.
  induction m as [|[k' v'] m IH]; simpl; [now left|].
  destruct (String.eqb k' k); simpl; auto.
Qed.

Lemma mapSet_keeps_keys {V} k (v : V) m x :
  In x (map fst m) -> In x (map fst (mapSet k v m)).
Proof.
  induction m as [|[k' v'] m IH]; simpl; [tauto|].
  destruct (String.eqb_spec k' k) as [->|Hne]; simpl; tauto.
Qed.

Lemma volatility_keys_kept window filterSkus rows :
  forall m x,
    In x (map fst m) ->
    In x (map fst
            (fold_left
               (fun m item =>
                  if matchesSku filterSkus (sku item) && Nat.ltb 0 (length (window item))
                  then mapSet (sku item) (volatilityEntry (sku item) (window item)) m
                  else m)
               rows m)).
Proof.
  induction rows as [|item rows IH]; intros m x Hx; simpl; [exact Hx|].
  apply IH. destruct (_ && _); [now apply mapSet_keeps_keys|exact Hx].
Qed.

Lemma volatility_keys_complete window filterSkus rows :
  forall m,
    Forall (fun item =>
              matchesSku filterSkus (sku item) = true -> window item <> [] ->
              In (sku item)
                 (map fst
                    (fold_left
                       (fun m item =>
                          if matchesSku filterSkus (sku item)
                             && Nat.ltb 0 (length (window item))
                          then mapSet (sku item)
                                 (volatilityEntry (sku item) (window item)) m
                          else m)
                       rows m)))
           rows.
Proof.
  induction rows as [|item rows IH]; intros m; constructor.
  - intros Hs Hw. simpl. rewrite Hs.
    replace (Nat.ltb 0 (length (window item))) with true
      by (symmetry; apply Nat.ltb_lt; destruct (window item); [congruence|simpl; lia]).
    simpl. apply volatility_keys_kept, mapSet_has_key.
  - simpl. apply IH.
Qed.

Lemma volatilityMap_skus filterSkus m :
  volatilityMap filterSkus m -> map v_sku (map snd m) = map fst m.
Proof.
  intros [_ H]. induction H as [|e m [He _] _ IH]; simpl; [reflexivity|].
  now rewrite He, IH.
Qed.

End VolatilityRanking.

(** X18. The ranking of [volatilityResults] and [forecastVolatilityResults]:
    the entries are in descending order of volatility, no SKU appears
    twice, every volatility is at least 0, every entry belongs to a SKU
    that passes the filter, and every row that passes the filter with a
    non-empty window has its SKU in the ranking. *)
Theorem volatilityOver_ranking :
  forall (window : App.SkuRow -> list R) (rows : list App.SkuRow)
         (filterSkus : list string),
    StronglySorted (fun a b => App.volatility b <= App.volatility a)
                   (App.volatilityOver window rows filterSkus)
    /\ NoDup (map App.v_sku (App.volatilityOver window rows filterSkus))
    /\ Forall (fun v => 0 <= App.volatility v
                        /\ App.matchesSku filterSkus (App.v_sku v) = true)
              (App.volatilityOver window rows filterSkus)
    /\ Forall (fun item =>
                 App.matchesSku filterSkus (App.sku item) = true ->
                 window item <> [] ->
                 In (App.sku item)
                    (map App.v_sku (App.volatilityOver window rows filterSkus)))
              rows.
Proof.
  intros window rows filterSkus. unfold App.volatilityOver. cbv zeta.
  set (m := fold_left _ rows []).
  assert (Hm : volatilityMap filterSkus m).
  { apply volatilityMap_fold. split; constructor. }
  pose proof (volatilityMap_skus filterSkus m Hm) as Hskus.
  pose proof (sortBy_perm (fun a b => JS.ge (App.volatility a) (App.volatility b))
                          (map snd m)) as Hperm.
  split; [|split; [|split]].
  - eapply StronglySorted_impl; [|apply sortBy_sorted].
    + intros a b H. apply ge_spec in H. lra.
    + intros a b. apply ge_total.
    + intros a b c. apply ge_trans.
  - eapply Permutation_NoDup.
    + symmetry. apply Permutation_map. exact Hperm.
    + rewrite Hskus. apply Hm.
  - apply Forall_forall. intros v Hv. apply In_sortBy in Hv.
    apply in_map_iff in Hv. destruct Hv as [e [<- He]].
    destruct Hm as [_ Hall]. rewrite Forall_forall in Hall.
    destruct (Hall e He) as [Hk [Hpos Hf]]. rewrite Hk. auto.
  - eapply Forall_impl; [|apply (volatility_keys_complete window filterSkus rows [])].
    intros item H Hs Hw. fold m in H.
    eapply Permutation_in.
    + symmetry. apply Permutation_map. exact Hperm.
    + rewrite Hskus. auto.
Qed.

(* ================================================================== *)
(** * Downsampling for the charts *)
(* ================================================================== *)

Section Downsampling.

Import JS Charts.

Context {A : Type}.

Lemma subseq_refl (l : list A) : subseq l l.
Proof. induction l; [constructor|now apply subseq_take]. Qed.

Lemma subseq_nil_l (l : list A) : subseq [] l.
Proof. induction l; constructor; auto. Qed.

Lemma subseq_app_skip (l0 l1 l2 : list A) : subseq l1 l2 -> subseq l1 (l0 ++ l2).
Proof. intros H. induction l0; simpl; [exact H|]. now apply subseq_skip. Qed.

Lemma subseq_In (l1 l2 : list A) x : subseq l1 l2 -> In x l1 -> In x l2.
Proof.
  induction 1 as [|y l1 l2 _ IH|y l1 l2 _ IH]; simpl; auto.
  intros [->|H]; auto.
Qed.

Lemma subseq_length (l1 l2 : list A) : subseq l1 l2 -> (length l1 <= length l2)%nat.
Proof. induction 1; simpl; lia. Qed.

(** The loop returns picks of the part of the array it has not read yet,
    in order, one per bucket. *)
Lemma downsampleLoop_subseq (data : list A) b :
  forall fuel i, subseq (downsampleLoop fuel data b i) (skipn i data).
Proof.
  induction fuel as [|fuel IH]; intros i; simpl; [apply subseq_nil_l|].
  destruct (Nat.ltb i (length data)); [|apply subseq_nil_l].
  specialize (IH (i + b)%nat).
  assert (Hrest : subseq (downsampleLoop fuel data b (i + b)) (skipn i data)).
  { rewrite <- (firstn_skipn b (skipn i data)).
    apply subseq_app_skip. rewrite skipn_skipn, (Nat.add_comm b i). exact IH. }
  destruct (Nat.ltb 0 _); [|exact Hrest].
  destruct (nth_error _ _) as [x|] eqn:E; [|exact Hrest].
  apply nth_error_split in E. destruct E as [l1 [l2 [E _]]].
  rewrite <- (firstn_skipn b (skipn i data)), E, <- app_assoc. simpl.
  apply subseq_app_skip. apply subseq_take. apply subseq_app_skip.
  rewrite skipn_skipn, (Nat.add_comm b i). exact IH.
Qed.

(** At most one pick per bucket. *)
Lemma downsampleLoop_length (data : list A) b :
  (1 <= b)%nat ->
  forall fuel i,
    (i < length data)%nat ->
    (length (downsampleLoop fuel data b i) * b <= length data - i + b - 1)%nat.
Proof.
  intros Hb. induction fuel as [|fuel IH]; intros i Hi; simpl; [lia|].
  replace (Nat.ltb i (length data)) with true by (symmetry; now apply Nat.ltb_lt).
  assert (Hrest : (S (length (downsampleLoop fuel data b (i + b))) * b
                   <= length data - i + b - 1)%nat).
  { destruct (Nat.lt_ge_cases (i + b) (length data)) as [Hlt|Hge].
    - specialize (IH (i + b)%nat Hlt). nia.
    - destruct fuel; simpl.
      + lia.
      + replace (Nat.ltb (i + b) (length data)) with false
          by (symmetry; now apply Nat.ltb_ge).
        simpl. lia. }
  destruct (Nat.ltb 0 _); [|simpl in Hrest; lia].
  destruct (nth_error _ _); simpl; simpl in Hrest; lia.
Qed.

(** The first bucket is not empty. *)
Lemma downsampleLoop_nonempty (data : list A) b fuel :
  (1 <= b)%nat -> data <> [] -> downsampleLoop (S fuel) data b 0 <> [].
Proof.
  intros Hb Hne. cbn [downsampleLoop].
  destruct data as [|x data]; [congruence|].
  destruct b as [|b]; [lia|]. cbn [skipn firstn length Nat.ltb Nat.leb].
  destruct (nth_error _ _) eqn:E; [discriminate|]. exfalso.
  apply nth_error_None in E. cbn [length] in E.
  pose proof (Nat.div_lt (S (length (firstn b data))) 2 ltac:(lia) ltac:(lia)). lia.
Qed.

Lemma bucketSize_bound (n maxPoints : nat) :
  (1 <= maxPoints)%nat -> (maxPoints < n)%nat ->
  let b := Z.to_nat (Math_ceil (INR n / INR maxPoints)) in
  (1 <= b)%nat /\ (n <= b * maxPoints)%nat.
Proof.
  intros Hm Hn b.
  assert (HM : 0 < INR maxPoints) by (apply lt_0_INR; lia).
  assert (HN : INR maxPoints < INR n) by (apply lt_INR; lia).
  assert (Hq : 1 < INR n / INR maxPoints).
  { apply Rmult_lt_reg_r with (INR maxPoints); [exact HM|].
    replace (INR n / INR maxPoints * INR maxPoints) with (INR n) by (field; lra). lra. }
  pose proof (Zceil_bound (INR n / INR maxPoints)) as [_ Hc].
  unfold Math_ceil in b.
  assert (Hz : (2 <= Zceil (INR n / INR maxPoints))%Z).
  { assert (1 < IZR (Zceil (INR n / INR maxPoints))) by lra.
    apply lt_IZR in H. lia. }
  split; [unfold b; lia|].
  apply INR_le. rewrite mult_INR. unfold b.
  rewrite (INR_IZR_INZ (Z.to_nat _)), Z2Nat.id by lia.
  apply Rmult_le_reg_r with (/ INR maxPoints); [now apply Rinv_0_lt_compat|].
  replace (IZR (Zceil (INR n / INR maxPoints)) * INR maxPoints * / INR maxPoints)
    with (IZR (Zceil (INR n / INR maxPoints))) by (field; lra).
  unfold Rdiv in Hc. lra.
Qed.

End Downsampling.

(** X19. [downsampleData] returns an array of at most [maxPoints] elements
    unchanged; otherwise it returns at most [maxPoints] elements (one when
    [maxPoints] is 0), all taken from the input in their input order, and
    at least one when the input is not empty. *)
Theorem downsampleData_bounds :
  forall (A : Type) (data : list A) (maxPoints : nat),
    ((length data <= maxPoints)%nat -> Charts.downsampleData data maxPoints = data)
    /\ (length (Charts.downsampleData data maxPoints) <= Nat.max 1 maxPoints)%nat
    /\ subseq (Charts.downsampleData data maxPoints) data
    /\ (data <> [] -> Charts.downsampleData data maxPoints <> []).
Proof.
  intros A data maxPoints. unfold Charts.downsampleData.
  destruct (Nat.leb (length data) maxPoints) eqn:Ele.
  { apply Nat.leb_le in Ele. repeat split; auto; [lia|apply subseq_refl]. }
  apply Nat.leb_gt in Ele. split; [intros; lia|].
  destruct (Nat.eqb maxPoints 0) eqn:E0.
  { destruct (nth_error data (length data / 2)) as [x|] eqn:E.
    - repeat split; [cbn [length]; lia| |discriminate].
      apply nth_error_split in E. destruct E as [l1 [l2 [-> _]]].
      apply subseq_app_skip. apply subseq_take. apply subseq_nil_l.
    - apply nth_error_None in E.
      pose proof (Nat.div_lt (length data) 2 ltac:(lia) ltac:(lia)). lia. }
  apply Nat.eqb_neq in E0.
  destruct (bucketSize_bound (length data) maxPoints ltac:(lia) Ele) as [Hb Hn].
  cbv zeta.
  set (b := Z.to_nat (JS.Math_ceil (INR (length data) / INR maxPoints))) in *.
  split; [|split].
  - pose proof (downsampleLoop_length data b Hb (length data) 0 ltac:(lia)) as H.
    set (k := length (Charts.downsampleLoop (length data) data b 0)) in *.
    assert (k <= maxPoints)%nat by nia. lia.
  - apply (downsampleLoop_subseq data b (length data) 0).
  - intros Hne. destruct (length data) as [|n'] eqn:En; [lia|].
    rewrite <- En. rewrite En at 1. now apply downsampleLoop_nonempty.
Qed.

(* ================================================================== *)
(** * Aggregation by date *)
(* ================================================================== *)

Section AggregationFacts.

Import JS Forecasting App Aggregate.

Lemma or_else_same v : or_else v 0 = v.
Proof. unfold or_else. destruct (eq v 0) eqn:E; [|reflexivity]. now apply eq_spec in E. Qed.

Lemma mapGet_In {V} k (v : V) m : mapGet k m = Some v -> In (k, v) m.
Proof.
  induction m as [|[k' v'] m IH]; simpl; [discriminate|].
  destruct (String.eqb_spec k' k) as [->|Hne].
  - intros H. inversion H. now left.
  - intros H. right. auto.
Qed.

Lemma mapGet_None {V} k (m : list (string * V)) :
  mapGet k m = None -> ~ In k (map fst m).
Proof.
  induction m as [|[k' v'] m IH]; simpl; [tauto|].
  destruct (String.eqb_spec k' k) as [->|Hne]; [discriminate|].
  intros H [Hk|Hk]; [congruence|]. now apply IH.
Qed.

(** The sum of the values of a map after [m.set(k, v)]. *)
Lemma sum_mapSet k v (m : list (string * R)) :
  sum (map snd (mapSet k v m))
  = sum (map snd m) - match mapGet k m with Some w => w | None => 0 end + v.
Proof.
  induction m as [|[k' v'] m IH]; simpl.
  - rewrite sum_cons, sum_nil. lra.
  - destruct (String.eqb k' k); simpl; rewrite !sum_cons; [lra|].
    rewrite IH. lra.
Qed.

Lemma getOr0_eq k m :
  getOr0 k m = match mapGet k m with Some w => w | None => 0 end.
Proof. unfold getOr0. destruct (mapGet k m); [apply or_else_same|reflexivity]. Qed.

Lemma totalOn_app k l1 l2 : totalOn k (l1 ++ l2) = totalOn k l1 + totalOn k l2.
Proof. unfold totalOn. now rewrite filter_app, map_app, sum_app. Qed.

Lemma totalOn_absent k l :
  ~ In k (map dp_date l) -> totalOn k l = 0.
Proof.
  unfold totalOn. induction l as [|d l IH]; simpl; intros H; [apply sum_nil|].
  destruct (String.eqb_spec (dp_date d) k) as [E|E]; [tauto|]. apply IH. tauto.
Qed.

Lemma mapGet_mapSet_same {V} k (v : V) m : mapGet k (mapSet k v m) = Some v.
Proof.
  induction m as [|[k' v'] m IH]; simpl; [now rewrite String.eqb_refl|].
  destruct (String.eqb k' k) eqn:E; simpl; [now rewrite String.eqb_refl|].
  now rewrite E.
Qed.

Lemma mapGet_mapSet_other {V} k k0 (v : V) m :
  k0 <> k -> mapGet k0 (mapSet k v m) = mapGet k0 m.
Proof.
  intros Hne. induction m as [|[k' v'] m IH]; simpl.
  - destruct (String.eqb_spec k k0); [congruence|reflexivity].
  - destruct (String.eqb_spec k' k) as [->|E]; simpl.
    + destruct (String.eqb_spec k k0); [congruence|reflexivity].
    + now rewrite IH.
Qed.

Lemma totalsInv_step seen m d :
  totalsInv seen m ->
  totalsInv (seen ++ [d])
            (mapSet (dp_date d) (getOr0 (dp_date d) m + quantity d) m).
Proof.
  intros [Hnd [Hkeys [Hget Hsum]]]. split; [|split; [|split]].
  - now apply mapSet_NoDup.
  - intros k. rewrite map_app, in_app_iff. simpl. split.
    + intros H. apply mapSet_keys in H. destruct H as [->|H]; [auto|].
      left. now apply Hkeys.
    + intros [H|[<-|[]]].
      * apply mapSet_keeps_keys. now apply Hkeys.
      * apply mapSet_has_key.
  - intros k. rewrite totalOn_app, <- Hget.
    destruct (String.eqb_spec (dp_date d) k) as [E|Hne].
    + unfold getOr0 at 1. rewrite E, mapGet_mapSet_same, or_else_same.
      unfold totalOn. cbn [filter]. rewrite E, String.eqb_refl. cbn [map].
      rewrite sum_cons, sum_nil. lra.
    + unfold getOr0 at 1. rewrite mapGet_mapSet_other by congruence.
      fold (getOr0 k m).
      unfold totalOn. cbn [filter].
      destruct (String.eqb_spec (dp_date d) k); [congruence|].
      cbn [map]. rewrite sum_nil. lra.
  - rewrite sum_mapSet, <- getOr0_eq, map_app, sum_app, Hsum. simpl.
    rewrite sum_cons, sum_nil. lra.
Qed.

Lemma totalsInv_fold data :
  forall seen m,
    totalsInv seen m ->
    totalsInv (seen ++ data)
      (fold_left
         (fun m d => mapSet (dp_date d) (getOr0 (dp_date d) m + quantity d) m)
         data m).
Proof.
  induction data as [|d data IH]; intros seen m H; simpl.
  - now rewrite app_nil_r.
  - replace (seen ++ d :: data) with ((seen ++ [d]) ++ data)
      by (rewrite <- app_assoc; reflexivity).
    apply IH. now apply totalsInv_step.
Qed.

Lemma totalsByDate_inv data : totalsInv data (totalsByDate data).
Proof.
  apply (totalsInv_fold data [] []).
  split; [constructor|]. split; [simpl; tauto|]. split; [|reflexivity].
  intros k. unfold getOr0, totalOn. simpl. now rewrite sum_nil.
Qed.

Lemma aggregateData_perm data :
  Permutation (aggregateData data) (map aggregatePoint (totalsByDate data)).
Proof. apply sortBy_perm. Qed.

Lemma aggregateData_dates data :
  Permutation (map dp_date (aggregateData data)) (map fst (totalsByDate data)).
Proof.
  rewrite (Permutation_map dp_date (aggregateData_perm data)).
  rewrite map_map. simpl. apply Permutation_refl.
Qed.

Lemma aggregateData_sum data :
  sum (map quantity (aggregateData data)) = sum (map quantity data).
Proof.
  rewrite (sum_perm _ _ (Permutation_map quantity (aggregateData_perm data))).
  rewrite map_map. simpl.
  destruct (totalsByDate_inv data) as [_ [_ [_ H]]]. exact H.
Qed.

Lemma aggregateData_sorted data :
  StronglySorted (fun a b => String.leb (dp_date a) (dp_date b) = true)
                 (aggregateData data).
Proof.
  apply sortBy_sorted.
  - intros a b. apply string_leb_total.
  - intros a b c. apply string_leb_trans.
Qed.

Lemma aggregateData_total data p :
  In p (aggregateData data) -> quantity p = totalOn (dp_date p) data.
Proof.
  intros H. apply (Permutation_in _ (aggregateData_perm data)) in H.
  apply in_map_iff in H. destruct H as [[k v] [<- He]]. simpl.
  destruct (totalsByDate_inv data) as [Hnd [_ [Hget _]]].
  rewrite <- Hget, getOr0_eq.
  assert (Hg : mapGet k (totalsByDate data) = Some v).
  { revert Hnd He. generalize (totalsByDate data). clear.
    induction l as [|[k' v'] l IH]; simpl; [tauto|].
    intros Hnd [He|He].
    - inversion He; subst. now rewrite String.eqb_refl.
    - inversion Hnd as [|? ? Hnin Hnd']; subst.
      destruct (String.eqb_spec k' k) as [->|Hne]; [|auto].
      exfalso. apply Hnin. apply (in_map fst) in He. exact He. }
  now rewrite Hg.
Qed.

End AggregationFacts.

Section AggregationOrder.

Import JS Forecasting App Aggregate.

Lemma string_ltb_of_leb a b :
  String.leb a b = true -> a <> b -> String.ltb a b = true.
Proof.
  unfold String.leb, String.ltb. intros H Hne.
  destruct (String.compare a b) eqn:E; try congruence.
  apply String.compare_eq_iff in E. contradiction.
Qed.

Lemma sorted_strict {X} (key : X -> string) (l : list X) :
  StronglySorted (fun a b => String.leb (key a) (key b) = true) l ->
  NoDup (map key l) ->
  StronglySorted (fun a b => String.ltb (key a) (key b) = true) l.
Proof.
  induction 1 as [|x l Hs IH Hx]; simpl; intros Hnd; [constructor|].
  inversion Hnd as [|? ? Hnin Hnd']; subst. constructor; auto.
  rewrite Forall_forall in *. intros y Hy.
  apply string_ltb_of_leb; auto.
  intros E. apply Hnin. rewrite E. now apply in_map.
Qed.

End AggregationOrder.

(** X20. The aggregation by date ([aggregatedData] of the application and
    [aggregateData] of the aggregate-then-allocate forecast): the result
    has strictly increasing dates, one point per date of the input, each
    carrying the total quantity of the input points of that date under the
    SKU and category ALL; the grand total is conserved. *)
Theorem aggregateData_groups :
  forall data : list DataPoint,
    StronglySorted (fun a b => String.ltb (dp_date a) (dp_date b) = true)
                   (Aggregate.aggregateData data)
    /\ Forall (fun p => quantity p = totalOn (dp_date p) data
                        /\ dp_sku p = "ALL"%string
                        /\ dp_category p = "ALL"%string)
              (Aggregate.aggregateData data)
    /\ Forall (fun d => In (dp_date d) (map dp_date (Aggregate.aggregateData data)))
              data
    /\ JS.sum (map quantity (Aggregate.aggregateData data))
       = JS.sum (map quantity data).
Proof.
  intros data.
  destruct (totalsByDate_inv data) as [Hnd [Hkeys _]].
  pose proof (aggregateData_dates data) as Hdates.
  split; [|split; [|split]].
  - apply sorted_strict; [apply aggregateData_sorted|].
    eapply Permutation_NoDup; [symmetry; exact Hdates|exact Hnd].
  - apply Forall_forall. intros p Hp. split; [now apply aggregateData_total|].
    apply (Permutation_in _ (aggregateData_perm data)) in Hp.
    apply in_map_iff in Hp. destruct Hp as [e [<- _]]. auto.
  - apply Forall_forall. intros d Hd.
    eapply Permutation_in; [symmetry; exact Hdates|].
    apply Hkeys. now apply in_map.
  - apply aggregateData_sum.
Qed.

(** X21. The standard deviation [stats] reports for the aggregated data is
    the one [getStdDev] computes on the same quantities, and the average
    is their mean, 0 for no data. *)
Theorem stats_agrees_with_getStdDev :
  forall aggregated : list DataPoint,
    snd (Aggregate.stats aggregated)
    = Forecasting.getStdDev (map quantity aggregated)
    /\ fst (Aggregate.stats aggregated)
       = if Nat.eqb (length aggregated) 0 then 0
         else JS.sum (map quantity aggregated) / INR (length aggregated).
Proof.
  intros aggregated. unfold Aggregate.stats, Forecasting.getStdDev, JS.len.
  cbv zeta. rewrite length_map.
  destruct aggregated as [|d l]; [split; reflexivity|].
  split; reflexivity.
Qed.

(* ================================================================== *)
(** * The aggregate-then-allocate forecast *)
(* ================================================================== *)

Section StringFacts.

Lemma string_length_append a b :
  String.length (a ++ b) = (String.length a + String.length b)%nat.
Proof. induction a as [|c a IH]; simpl; auto. Qed.

Lemma string_append_assoc a b c : ((a ++ b) ++ c = a ++ (b ++ c))%string.
Proof. induction a as [|x a IH]; simpl; auto. now rewrite IH. Qed.

Lemma substring_prefix a b n :
  (n <= String.length a)%nat -> substring 0 n (a ++ b) = substring 0 n a.
Proof.
  revert n. induction a as [|x a IH]; intros n Hn; simpl in *.
  - replace n with 0%nat by lia. destruct b; reflexivity.
  - destruct n as [|n]; [reflexivity|]. simpl. rewrite IH by lia. reflexivity.
Qed.

Lemma zeros_length k :
  String.length (String.concat "" (repeat "0"%string k)) = k.
Proof.
  induction k as [|k IH]; [reflexivity|].
  cbn [repeat]. destruct (repeat "0"%string k) eqn:E.
  - destruct k; [reflexivity|discriminate].
  - cbn [String.concat]. cbn [String.concat] in IH.
    rewrite !string_length_append in *. simpl in *. lia.
Qed.

Lemma padStart_length w s : (w <= String.length (JSDate.padStart w s))%nat.
Proof.
  unfold JSDate.padStart. rewrite string_length_append, zeros_length. lia.
Qed.

Lemma label_prefix ys ms ds ds' :
  (4 <= String.length ys)%nat -> (2 <= String.length ms)%nat ->
  substring 0 7 (ys ++ "-" ++ ms ++ "-" ++ ds)
  = substring 0 7 (ys ++ "-" ++ ms ++ "-" ++ ds').
Proof.
  intros Hys Hms.
  rewrite <- !(string_append_assoc ys "-" _).
  rewrite <- !(string_append_assoc (ys ++ "-") ms _).
  rewrite !(substring_prefix ((ys ++ "-") ++ ms))
    by (rewrite !string_length_append; simpl; lia).
  reflexivity.
Qed.

(** The first seven characters of an ISO date depend on the year and the
    month only. *)
Lemma monthLabel_day y m d d' :
  monthLabel (JSDate.mkCivil y m d) = monthLabel (JSDate.mkCivil y m d').
Proof.
  unfold monthLabel, JSDate.isoDate. cbn [JSDate.year JSDate.month JSDate.day].
  f_equal. apply label_prefix; [|apply padStart_length].
  destruct (_ && _); [apply padStart_length|].
  rewrite string_length_append.
  pose proof (padStart_length 6 (JSDate.ofNat (Z.abs y))). lia.
Qed.

End StringFacts.

Section AggregateForecast.

Import JS Forecasting App Aggregate.

Lemma pushAggregate_some ld multiplier sd vals :
  forall i,
    pushAggregate (Some ld) multiplier sd i vals
    = Some (aggregateFutureFrom ld multiplier sd i vals).
Proof.
  induction vals as [|v vals IH]; intros i; simpl; auto. now rewrite IH.
Qed.

Lemma aggregateFutureFrom_length ld multiplier sd vals :
  forall i, length (aggregateFutureFrom ld multiplier sd i vals) = length vals.
Proof. induction vals; intros; simpl; auto. Qed.

Lemma aggregateFutureFrom_nth ld multiplier sd vals :
  forall i k,
    (k < length vals)%nat ->
    nth_error (aggregateFutureFrom ld multiplier sd i vals) k
    = Some (aggregateFuturePoint ld multiplier sd (i + k) (nth k vals 0)).
Proof.
  induction vals as [|v vals IH]; intros i k Hk; simpl in *; [lia|].
  destruct k as [|k]; simpl.
  - now rewrite Nat.add_0_r.
  - rewrite IH by lia. do 2 f_equal. lia.
Qed.

Lemma aggregateData_nil : aggregateData [] = [].
Proof. reflexivity. Qed.

(** The result of [calculateForecastAggregateAllocate] when the latest date
    is a calendar day: the aggregated history, then one point per forecast
    value. *)
Lemma aggregate_shape data horizon conf hw c :
  JSDate.parse (lastDateOf (aggregateData data)) = Some c ->
  calculateForecastAggregateAllocate data horizon conf hw
  = Some (map aggregateHistoricalPoint (aggregateData data)
          ++ aggregateFutureFrom c (getZMultiplier conf)
               (getStdDev (map quantity (aggregateData data))) 0
               (runHoltWinters (map quantity (aggregateData data)) horizon 12 hw)).
Proof.
  intros Hc. unfold calculateForecastAggregateAllocate.
  destruct data as [|d data]; [discriminate|].
  cbn [length Nat.eqb]. cbv zeta. rewrite Hc, pushAggregate_some. reflexivity.
Qed.

Lemma aggregateFuturePoint_nonneg ld multiplier sd i val :
  0 <= multiplier -> 0 <= sd -> 0 <= val ->
  pointNonneg (aggregateFuturePoint ld multiplier sd i val).
Proof.
  intros Hm Hs Hv. unfold pointNonneg, aggregateFuturePoint; cbn -[INR Math_round].
  assert (Hu : 0 <= multiplier * sd * Math_sqrt (INR (S i)) * 0.4).
  { apply Rmult_le_pos; [apply Rmult_le_pos; [apply Rmult_le_pos|]|lra]; auto.
    apply sqrt_pos. }
  repeat split.
  - apply Math_round_nonneg; lra.
  - apply Math_max_0_nonneg.
  - apply Math_round_nonneg; lra.
Qed.

Lemma aggregateFutureFrom_nonneg ld multiplier sd vals :
  0 <= multiplier -> 0 <= sd -> Forall (fun v => 0 <= v) vals ->
  forall i, Forall pointNonneg (aggregateFutureFrom ld multiplier sd i vals).
Proof.
  intros Hm Hs Hv. induction Hv as [|v vals Hv0 _ IH]; intros i; simpl; constructor; auto.
  now apply aggregateFuturePoint_nonneg.
Qed.

Lemma totalOn_nonneg k data :
  Forall (fun d => 0 <= quantity d) data -> 0 <= totalOn k data.
Proof.
  intros H. unfold totalOn. apply sum_map_nonneg. intros d Hd.
  apply filter_In in Hd. rewrite Forall_forall in H. apply H. tauto.
Qed.

Lemma runHoltWinters_nonneg values horizon L hw :
  Forall (fun v => 0 <= v) (runHoltWinters values horizon L hw).
Proof.
  destruct hw; simpl;
    [apply runHoltWintersAdditive_nonneg|apply runHoltWintersMultiplicative_nonneg].
Qed.

(** The latest date of a non-empty input is the date of one of its
    points. *)
Lemma aggregate_last_date data :
  data <> [] -> In (lastDateOf (aggregateData data)) (map dp_date data).
Proof.
  intros Hne.
  destruct (totalsByDate_inv data) as [_ [Hkeys _]].
  pose proof (aggregateData_dates data) as Hdates.
  assert (Hagg : aggregateData data <> []).
  { intros E. rewrite E in Hdates. simpl in Hdates.
    apply Permutation_nil in Hdates.
    destruct data as [|d data]; [congruence|].
    assert (Hin : In (dp_date d) (map fst (totalsByDate (d :: data))))
      by (apply Hkeys; now left).
    rewrite Hdates in Hin. exact Hin. }
  destruct (exists_last Hagg) as [l [x Hl]].
  unfold lastDateOf. rewrite Hl, rev_app_distr. simpl.
  apply Hkeys. eapply Permutation_in; [exact Hdates|].
  rewrite Hl, map_app. apply in_or_app. right. now left.
Qed.

Lemma aggregateFutureFrom_isForecast ld multiplier sd vals :
  forall i,
    Forall (fun p => isForecast p = true)
           (aggregateFutureFrom ld multiplier sd i vals).
Proof. induction vals as [|v vals IH]; intros i; simpl; constructor; auto. Qed.

End AggregateForecast.

(** X22. On a non-empty history of non-negative quantities whose dates are
    calendar days, [calculateForecastAggregateAllocate] returns a series:
    one historical point per distinct date, in date order, whose forecast
    values add up to the total quantity of the input, followed by
    [horizon] forecast points; every value carried by a point is at
    least 0. *)
Theorem calculateForecastAggregateAllocate_series :
  forall (data : list DataPoint) (horizon : nat) (conf : R)
         (hw : Forecasting.HWMethod),
    data <> [] ->
    Forall (fun d => 0 <= quantity d) data ->
    Forall (fun d => JSDate.parse (dp_date d) <> None) data ->
    exists pts,
      Aggregate.calculateForecastAggregateAllocate data horizon conf hw = Some pts
      /\ Forall pointNonneg pts
      /\ length pts = (length (Aggregate.aggregateData data) + horizon)%nat
      /\ map date (firstn (length (Aggregate.aggregateData data)) pts)
         = map dp_date (Aggregate.aggregateData data)
      /\ JS.sum (map forecast (firstn (length (Aggregate.aggregateData data)) pts))
         = JS.sum (map quantity data)
      /\ Forall (fun p => isForecast p = false)
                (firstn (length (Aggregate.aggregateData data)) pts)
      /\ Forall (fun p => isForecast p = true)
                (skipn (length (Aggregate.aggregateData data)) pts).
Proof.
  intros data horizon conf hw Hne Hpos Hdates.
  pose proof (aggregate_last_date data Hne) as Hlast.
  apply in_map_iff in Hlast. destruct Hlast as [d [Hd Hin]].
  rewrite Forall_forall in Hdates. specialize (Hdates d Hin). rewrite Hd in Hdates.
  destruct (JSDate.parse (App.lastDateOf (Aggregate.aggregateData data))) as [c|] eqn:Hc;
    [|congruence].
  rewrite (aggregate_shape data horizon conf hw c Hc).
  set (agg := Aggregate.aggregateData data).
  set (hist := map Aggregate.aggregateHistoricalPoint agg).
  set (future := aggregateFutureFrom c _ _ 0 _).
  assert (Hlen : length hist = length agg) by (unfold hist; apply length_map).
  assert (Hfirst : firstn (length agg) (hist ++ future) = hist).
  { rewrite <- Hlen, firstn_app, Nat.sub_diag, firstn_all. simpl. apply app_nil_r. }
  assert (Hskip : skipn (length agg) (hist ++ future) = future).
  { rewrite <- Hlen, skipn_app, Nat.sub_diag, skipn_all. reflexivity. }
  exists (hist ++ future). split; [reflexivity|].
  rewrite Hfirst, Hskip. repeat split.
  - apply Forall_app. split.
    + unfold hist. apply Forall_forall. intros p Hp. apply in_map_iff in Hp.
      destruct Hp as [a [<- Ha]].
      assert (0 <= quantity a).
      { rewrite (aggregateData_total data a Ha). now apply totalOn_nonneg. }
      unfold pointNonneg. simpl. auto.
    + unfold future. apply aggregateFutureFrom_nonneg.
      * apply Rlt_le, getZMultiplier_pos.
      * apply getStdDev_nonneg.
      * apply runHoltWinters_nonneg.
  - rewrite length_app, Hlen. unfold future.
    now rewrite aggregateFutureFrom_length, runHoltWinters_length.
  - unfold hist. rewrite map_map. reflexivity.
  - unfold hist. rewrite map_map. cbn [forecast Aggregate.aggregateHistoricalPoint].
    apply aggregateData_sum.
  - unfold hist. apply Forall_forall. intros p Hp. apply in_map_iff in Hp.
    destruct Hp as [a [<- _]]. reflexivity.
  - apply aggregateFutureFrom_isForecast.
Qed.

Lemma calculateForecastAggregateAllocate_series_witness :
  let data := [mkDataPoint "2024-01-01" "A" "c" 5; mkDataPoint "2024-01-01" "B" "c" 7;
               mkDataPoint "2024-02-01" "A" "c" 9] in
  exists pts,
    Aggregate.calculateForecastAggregateAllocate data 2 95 Forecasting.additive = Some pts
    /\ Forall pointNonneg pts
    /\ length pts = (length (Aggregate.aggregateData data) + 2)%nat
    /\ map date (firstn (length (Aggregate.aggregateData data)) pts)
       = map dp_date (Aggregate.aggregateData data)
    /\ JS.sum (map forecast (firstn (length (Aggregate.aggregateData data)) pts))
       = JS.sum (map quantity data)
    /\ Forall (fun p => isForecast p = false)
              (firstn (length (Aggregate.aggregateData data)) pts)
    /\ Forall (fun p => isForecast p = true)
              (skipn (length (Aggregate.aggregateData data)) pts).
Proof.
  intros data.
  apply (calculateForecastAggregateAllocate_series data 2 95 Forecasting.additive).
  - discriminate.
  - repeat constructor; simpl; lra.
  - repeat constructor; vm_compute; discriminate.
Defined.

(* ================================================================== *)
(** * The window of the quality page *)
(* ================================================================== *)

Section QualityWindow.

Import QualityPage.

Lemma digit_not_dash a d : JSDate.digit a = Some d -> Ascii.eqb a "-"%char = false.
Proof.
  unfold JSDate.digit. intros H.
  destruct (Ascii.eqb_spec a "-"%char) as [->|]; [|reflexivity].
  vm_compute in H. discriminate.
Qed.

(** A calendar day splits into its year, month and day. *)
Lemma parse_parts s c :
  JSDate.parse s = Some c ->
  map toNumber (JSDate.splitDash s)
  = [Some (JSDate.year c); Some (JSDate.month c); Some (JSDate.day c)].
Proof.
  unfold JSDate.parse.
  destruct (Nat.eqb (String.length s) 10) eqn:E; [|discriminate].
  apply Nat.eqb_eq in E.
  do 10 (destruct s as [|? s]; [discriminate E|]).
  destruct s; [|discriminate E]. clear E.
  cbn [substring String.get JSDate.digits].
  destruct (JSDate.digit a) as [d0|] eqn:D0; [|discriminate].
  destruct (JSDate.digit a0) as [d1|] eqn:D1; [|discriminate].
  destruct (JSDate.digit a1) as [d2|] eqn:D2; [|discriminate].
  destruct (JSDate.digit a2) as [d3|] eqn:D3; [|discriminate].
  destruct (JSDate.digit a4) as [d5|] eqn:D5; [|discriminate].
  destruct (JSDate.digit a5) as [d6|] eqn:D6; [|discriminate].
  destruct (JSDate.digit a7) as [d8|] eqn:D8; [|discriminate].
  destruct (JSDate.digit a8) as [d9|] eqn:D9; [|discriminate].
  destruct (Ascii.eqb a3 "-"%char) eqn:E3; [|discriminate].
  destruct (Ascii.eqb a6 "-"%char) eqn:E6; [|discriminate].
  cbn [andb]. destruct (_ && _)%bool; [|discriminate].
  intros H. inversion H; subst c. clear H.
  cbn [JSDate.year JSDate.month JSDate.day JSDate.splitDash].
  rewrite (digit_not_dash _ _ D0), (digit_not_dash _ _ D1), (digit_not_dash _ _ D2),
    (digit_not_dash _ _ D3), (digit_not_dash _ _ D5), (digit_not_dash _ _ D6),
    (digit_not_dash _ _ D8), (digit_not_dash _ _ D9), E3, E6.
  cbn [map]. unfold toNumber. cbn [JSDate.digits].
  rewrite D0, D1, D2, D3, D5, D6, D8, D9. reflexivity.
Qed.

Lemma parse_month s c : JSDate.parse s = Some c -> (1 <= JSDate.month c <= 12)%Z.
Proof.
  unfold JSDate.parse. destruct (Nat.eqb _ 10); [|discriminate].
  destruct (JSDate.digits _ 0) as [y|]; [|discriminate].
  destruct (String.get 4 s); [|discriminate].
  destruct (JSDate.digits _ 0) as [m|]; [|discriminate].
  destruct (String.get 7 s); [|discriminate].
  destruct (JSDate.digits _ 0) as [d|]; [|discriminate].
  destruct (_ && _)%bool eqn:E; [|discriminate].
  intros H. inversion H; subst c. simpl.
  repeat (apply andb_prop in E; destruct E as [E ?]). lia.
Qed.

Lemma truthyPart_year s c :
  JSDate.parse s = Some c -> (1 <= JSDate.year c)%Z ->
  truthyPart s 0 = Some (JSDate.year c).
Proof.
  intros H Hy. unfold truthyPart. rewrite (parse_parts s c H). simpl.
  destruct (Z.eqb_spec (JSDate.year c) 0); [lia|reflexivity].
Qed.

Lemma truthyPart_month s c :
  JSDate.parse s = Some c -> truthyPart s 1 = Some (JSDate.month c).
Proof.
  intros H. pose proof (parse_month s c H).
  unfold truthyPart. rewrite (parse_parts s c H). simpl.
  destruct (Z.eqb_spec (JSDate.month c) 0); [lia|reflexivity].
Qed.

End QualityWindow.

(** X24. When the forecast start and the dates of the points are calendar
    days of the year 1 or later, [getQualityPageData] keeps, in their
    order, exactly the points of the six months that end two months before
    the month of the forecast start: the month just before the forecast is
    left out. *)
Theorem getQualityPageData_window :
  forall (A : Type) (date : A -> string) (comparisonData : list A)
         (forecastStartDate : string) (start : JSDate.civil),
    JSDate.parse forecastStartDate = Some start ->
    (1 <= JSDate.year start)%Z ->
    Forall (fun d => commonEra (date d)) comparisonData ->
    QualityPage.getQualityPageData date comparisonData forecastStartDate
    = filter (fun d => inQualityWindow start (date d)) comparisonData.
Proof.
  intros A date data fsd start Hstart Hyear Hall.
  unfold QualityPage.getQualityPageData.
  destruct (Nat.eqb (length data) 0) eqn:E0.
  { apply Nat.eqb_eq, length_zero_iff_nil in E0. now subst data. }
  rewrite (truthyPart_year _ _ Hstart Hyear), (truthyPart_month _ _ Hstart).
  pose proof (parse_month _ _ Hstart) as Hm.
  destruct (QualityPage.monthsBack (JSDate.year start) (JSDate.month start) 7)
    as [backMonth backYear] eqn:Eb.
  destruct (QualityPage.monthsBack (JSDate.year start) (JSDate.month start) 1)
    as [excludeMonth excludeYear] eqn:Ee.
  apply filter_ext_in. intros d Hd.
  rewrite Forall_forall in Hall. specialize (Hall d Hd).
  unfold commonEra, inQualityWindow in *.
  destruct (JSDate.parse (date d)) as [c|] eqn:Hc; [|contradiction].
  rewrite (truthyPart_year _ _ Hc Hall), (truthyPart_month _ _ Hc).
  pose proof (parse_month _ _ Hc) as Hmc.
  unfold monthIndex. unfold QualityPage.monthsBack in Eb, Ee.
  destruct (Z.leb_spec (JSDate.month start - 7) 0);
    destruct (Z.leb_spec (JSDate.month start - 1) 0);
    inversion Eb; inversion Ee; subst; clear Eb Ee;
    repeat match goal with
           | |- context [(?a <? ?b)%Z] => destruct (Z.ltb_spec a b)
           | |- context [(?a =? ?b)%Z] => destruct (Z.eqb_spec a b)
           | |- context [(?a >? ?b)%Z] => rewrite (Z.gtb_ltb a b)
           | |- context [(?a >=? ?b)%Z] => rewrite (Z.geb_leb a b)
           | |- context [(?a <=? ?b)%Z] => destruct (Z.leb_spec a b)
           end; cbn [andb]; try reflexivity; try lia.
Qed.

Lemma getQualityPageData_window_witness :
  QualityPage.getQualityPageData (fun d => d)
    ["2024-12-01"; "2025-01-01"; "2025-06-01"; "2025-07-01"; "2025-08-01"]%string
    "2025-08-01"
  = filter (fun d => inQualityWindow (JSDate.mkCivil 2025 8 1) d)
      ["2024-12-01"; "2025-01-01"; "2025-06-01"; "2025-07-01"; "2025-08-01"]%string.
Proof.
  apply (getQualityPageData_window string (fun d => d)).
  - reflexivity.
  - simpl. lia.
  - repeat constructor; vm_compute; discriminate.
Defined.

(* ================================================================== *)
(** * Dates as strings *)
(* ================================================================== *)

From Stdlib Require DecimalN.

Section DateStrings.

Open Scope Z_scope.

Ltac digit_cases d H :=
  let Hd := fresh in
  assert (Hd : d = 0 \/ d = 1 \/ d = 2 \/ d = 3 \/ d = 4 \/ d = 5 \/ d = 6
               \/ d = 7 \/ d = 8 \/ d = 9) by lia;
  clear H;
  repeat (destruct Hd as [Hd|Hd]; [subst d|]); [..|subst d].

Lemma string_of_uint_digit d l :
  0 <= d <= 9 ->
  NilEmpty.string_of_uint (uintDigit d l)
  = String (digitChar d) (NilEmpty.string_of_uint l).
Proof. intros H. digit_cases d H; reflexivity. Qed.

Lemma of_uint_acc_digit d l acc :
  0 <= d <= 9 ->
  Pos.of_uint_acc (uintDigit d l) acc
  = Pos.of_uint_acc l (Z.to_pos (10 * Z.pos acc + d)).
Proof.
  intros H.
  digit_cases d H; cbn [uintDigit Pos.of_uint_acc]; f_equal; lia.
Qed.

Lemma of_uint_leading d l :
  1 <= d <= 9 ->
  N.of_uint (uintDigit d l) = Npos (Pos.of_uint_acc l (Z.to_pos d)).
Proof. intros H. assert (H' : 0 <= d <= 9) by lia. digit_cases d H'; try lia; reflexivity. Qed.

Lemma unorm_leading d l :
  1 <= d <= 9 -> Decimal.unorm (uintDigit d l) = uintDigit d l.
Proof. intros H. assert (H' : 0 <= d <= 9) by lia. digit_cases d H'; try lia; reflexivity. Qed.

(** [String(n)] for a number written with a non-zero leading digit. *)
Lemma to_uint_leading d0 l n :
  1 <= d0 <= 9 -> N.of_uint (uintDigit d0 l) = n ->
  N.to_uint n = uintDigit d0 l.
Proof.
  intros H <-. rewrite DecimalN.Unsigned.to_of. now apply unorm_leading.
Qed.

Lemma ofNat_four d0 d1 d2 d3 :
  1 <= d0 <= 9 -> 0 <= d1 <= 9 -> 0 <= d2 <= 9 -> 0 <= d3 <= 9 ->
  JSDate.ofNat (1000 * d0 + 100 * d1 + 10 * d2 + d3)
  = String (digitChar d0) (String (digitChar d1) (String (digitChar d2)
      (String (digitChar d3) EmptyString))).
Proof.
  intros H0 H1 H2 H3. unfold JSDate.ofNat.
  assert (E : N.of_uint (uintDigit d0 (uintDigit d1 (uintDigit d2
                                         (uintDigit d3 Decimal.Nil))))
              = Z.to_N (1000 * d0 + 100 * d1 + 10 * d2 + d3)).
  { rewrite of_uint_leading, !of_uint_acc_digit by assumption.
    cbn [Pos.of_uint_acc]. rewrite !Z2Pos.id by lia.
    replace (10 * (10 * (10 * d0 + d1) + d2) + d3)
      with (1000 * d0 + 100 * d1 + 10 * d2 + d3) by lia.
    destruct (1000 * d0 + 100 * d1 + 10 * d2 + d3) eqn:Ey; [lia|reflexivity|lia]. }
  rewrite (to_uint_leading d0 _ _ H0 E).
  rewrite !string_of_uint_digit by lia. reflexivity.
Qed.

Lemma ofNat_two d0 d1 :
  1 <= d0 <= 9 -> 0 <= d1 <= 9 ->
  JSDate.ofNat (10 * d0 + d1)
  = String (digitChar d0) (String (digitChar d1) EmptyString).
Proof.
  intros H0 H1. unfold JSDate.ofNat.
  assert (E : N.of_uint (uintDigit d0 (uintDigit d1 Decimal.Nil))
              = Z.to_N (10 * d0 + d1)).
  { rewrite of_uint_leading, !of_uint_acc_digit by assumption.
    cbn [Pos.of_uint_acc]. rewrite !Z2Pos.id by lia.
    destruct (10 * d0 + d1) eqn:Ey; [lia|reflexivity|lia]. }
  rewrite (to_uint_leading d0 _ _ H0 E).
  rewrite !string_of_uint_digit by lia. reflexivity.
Qed.

Lemma ofNat_one d : 0 <= d <= 9 -> JSDate.ofNat d = String (digitChar d) EmptyString.
Proof. intros H. digit_cases d H; reflexivity. Qed.

Lemma fourDigits_ofNat y :
  1000 <= y <= 9999 -> JSDate.ofNat y = fourDigits y.
Proof.
  intros Hy. unfold fourDigits.
  rewrite <- ofNat_four by (Z.div_mod_to_equations; lia).
  f_equal. Z.div_mod_to_equations. lia.
Qed.

Lemma fourDigits_pad y :
  1000 <= y <= 9999 -> JSDate.padStart 4 (JSDate.ofNat y) = fourDigits y.
Proof. intros Hy. rewrite fourDigits_ofNat by exact Hy. reflexivity. Qed.

Lemma twoDigits_pad m :
  0 <= m <= 99 -> JSDate.padStart 2 (JSDate.ofNat m) = twoDigits m.
Proof.
  intros Hm. unfold twoDigits.
  destruct (Z.lt_ge_cases m 10) as [Hlt|Hge].
  - replace (m / 10) with 0 by (Z.div_mod_to_equations; lia).
    replace (m mod 10) with m by (Z.div_mod_to_equations; lia).
    rewrite ofNat_one by lia. reflexivity.
  - replace m with (10 * (m / 10) + m mod 10) at 1 by (Z.div_mod_to_equations; lia).
    rewrite ofNat_two by (Z.div_mod_to_equations; lia). reflexivity.
Qed.

Lemma digit_digitChar d : 0 <= d <= 9 -> JSDate.digit (digitChar d) = Some d.
Proof.
  intros Hd.
  assert (H : d = 0 \/ d = 1 \/ d = 2 \/ d = 3 \/ d = 4 \/ d = 5 \/ d = 6
              \/ d = 7 \/ d = 8 \/ d = 9) by lia.
  repeat (destruct H as [->|H]; [reflexivity|]). subst d. reflexivity.
Qed.

Lemma digit_inv a d :
  JSDate.digit a = Some d -> 0 <= d <= 9 /\ a = digitChar d.
Proof.
  unfold JSDate.digit, digitChar. cbv zeta.
  destruct (_ && _)%bool eqn:E; [|discriminate].
  apply andb_prop in E. destruct E as [E1 E2].
  apply Z.leb_le in E1, E2. intros H. inversion H; subst d. clear H.
  split; [lia|].
  replace (48 + (Z.of_nat (nat_of_ascii a) - 48)) with (Z.of_nat (nat_of_ascii a)) by lia.
  now rewrite Nat2Z.id, ascii_nat_embedding.
Qed.

Lemma digitChar_not_dash d :
  0 <= d <= 9 -> Ascii.eqb (digitChar d) "-"%char = false.
Proof. intros Hd. apply (digit_not_dash _ d). now apply digit_digitChar. Qed.

(** The digits of a number below 10000 and of one below 100. *)
Lemma year_digits y :
  0 <= y <= 9999 ->
  0 <= y / 1000 <= 9 /\ 0 <= y / 100 mod 10 <= 9
  /\ 0 <= y / 10 mod 10 <= 9 /\ 0 <= y mod 10 <= 9
  /\ 10 * (10 * (10 * (10 * 0 + y / 1000) + y / 100 mod 10) + y / 10 mod 10)
     + y mod 10 = y.
Proof. intros Hy. repeat split; Z.div_mod_to_equations; lia. Qed.

Lemma month_digits m :
  0 <= m <= 99 ->
  0 <= m / 10 <= 9 /\ 0 <= m mod 10 <= 9
  /\ 10 * (10 * 0 + m / 10) + m mod 10 = m.
Proof. intros Hm. repeat split; Z.div_mod_to_equations; lia. Qed.

Lemma daysInMonth_range y m : 28 <= JSDate.daysInMonth y m <= 31.
Proof.
  unfold JSDate.daysInMonth.
  destruct (m =? 2); [destruct (JSDate.isLeap y); lia|].
  destruct (_ || _)%bool; lia.
Qed.

(** Reading back a date written with four, two and two digits. *)
Lemma parse_written y m d :
  0 <= y <= 9999 -> 1 <= m <= 12 -> 1 <= d <= JSDate.daysInMonth y m ->
  JSDate.parse (fourDigits y ++ "-" ++ twoDigits m ++ "-" ++ twoDigits d)
  = Some (JSDate.mkCivil y m d).
Proof.
  intros Hy Hm Hd. pose proof (daysInMonth_range y m) as Hdim.
  destruct (year_digits y Hy) as [Y0 [Y1 [Y2 [Y3 Yv]]]].
  destruct (month_digits m ltac:(lia)) as [M0 [M1 Mv]].
  destruct (month_digits d ltac:(lia)) as [D0 [D1 Dv]].
  unfold JSDate.parse, fourDigits, twoDigits.
  cbn [String.append String.length Nat.eqb substring String.get JSDate.digits].
  rewrite !digit_digitChar by assumption.
  rewrite Yv, Mv, Dv. cbn [Ascii.eqb Bool.eqb andb].
  replace (1 <=? m) with true by (symmetry; apply Z.leb_le; lia).
  replace (m <=? 12) with true by (symmetry; apply Z.leb_le; lia).
  replace (1 <=? d) with true by (symmetry; apply Z.leb_le; lia).
  replace (d <=? JSDate.daysInMonth y m) with true by (symmetry; apply Z.leb_le; lia).
  reflexivity.
Qed.

Lemma isoDate_written c :
  1000 <= JSDate.year c <= 9999 -> 0 <= JSDate.month c <= 99 ->
  0 <= JSDate.day c <= 99 ->
  JSDate.isoDate c
  = (fourDigits (JSDate.year c) ++ "-" ++ twoDigits (JSDate.month c)
     ++ "-" ++ twoDigits (JSDate.day c))%string.
Proof.
  intros Hy Hm Hd. unfold JSDate.isoDate. cbv zeta.
  replace ((0 <=? JSDate.year c) && (JSDate.year c <=? 9999))%bool with true
    by (symmetry; apply andb_true_intro; split; apply Z.leb_le; lia).
  now rewrite fourDigits_pad, !twoDigits_pad by assumption.
Qed.

(** Writing a calendar day and reading it back. *)
Lemma parse_isoDate c :
  calendarDay c -> 1000 <= JSDate.year c ->
  JSDate.parse (JSDate.isoDate c) = Some c.
Proof.
  intros [Hy [Hm Hd]] Hy'.
  pose proof (daysInMonth_range (JSDate.year c) (JSDate.month c)).
  rewrite isoDate_written by lia. destruct c as [y m d]. now apply parse_written.
Qed.

End DateStrings.
Section ParseChars.

Open Scope Z_scope.

Lemma digits_cons a s acc :
  JSDate.digits (String a s) acc
  = match JSDate.digit a with
    | Some d => JSDate.digits s (10 * acc + d)
    | None => None
    end.
Proof. reflexivity. Qed.

Lemma digits_nil acc : JSDate.digits EmptyString acc = Some acc.
Proof. reflexivity. Qed.

Lemma string_length_10 s :
  String.length s = 10%nat ->
  exists a0 a1 a2 a3 a4 a5 a6 a7 a8 a9,
    s = String a0 (String a1 (String a2 (String a3 (String a4 (String a5
          (String a6 (String a7 (String a8 (String a9 EmptyString))))))))).
Proof.
  intros E.
  do 10 (destruct s as [|? s]; [discriminate E|]).
  destruct s; [|discriminate E]. repeat eexists.
Qed.

(** The characters of a string that names a calendar day. *)
Lemma parse_chars s c :
  JSDate.parse s = Some c ->
  exists d0 d1 d2 d3 d5 d6 d8 d9,
    s = String (digitChar d0) (String (digitChar d1) (String (digitChar d2)
          (String (digitChar d3) (String "-"%char (String (digitChar d5)
            (String (digitChar d6) (String "-"%char (String (digitChar d8)
              (String (digitChar d9) EmptyString)))))))))
    /\ (0 <= d0 <= 9 /\ 0 <= d1 <= 9 /\ 0 <= d2 <= 9 /\ 0 <= d3 <= 9)
    /\ (0 <= d5 <= 9 /\ 0 <= d6 <= 9 /\ 0 <= d8 <= 9 /\ 0 <= d9 <= 9)
    /\ c = JSDate.mkCivil (1000 * d0 + 100 * d1 + 10 * d2 + d3)
                          (10 * d5 + d6) (10 * d8 + d9)
    /\ 1 <= 10 * d5 + d6 <= 12
    /\ 1 <= 10 * d8 + d9
       <= JSDate.daysInMonth (1000 * d0 + 100 * d1 + 10 * d2 + d3) (10 * d5 + d6).
Proof.
  unfold JSDate.parse.
  destruct (Nat.eqb (String.length s) 10) eqn:E; [|discriminate].
  apply Nat.eqb_eq, string_length_10 in E.
  destruct E as [a0 [a1 [a2 [a3 [a4 [a5 [a6 [a7 [a8 [a9 ->]]]]]]]]]].
  cbn [substring String.get].
  rewrite digits_cons. destruct (JSDate.digit a0) as [d0|] eqn:D0; [|discriminate].
  rewrite digits_cons. destruct (JSDate.digit a1) as [d1|] eqn:D1; [|discriminate].
  rewrite digits_cons. destruct (JSDate.digit a2) as [d2|] eqn:D2; [|discriminate].
  rewrite digits_cons. destruct (JSDate.digit a3) as [d3|] eqn:D3; [|discriminate].
  rewrite digits_nil. cbv iota beta.
  rewrite digits_cons. destruct (JSDate.digit a5) as [d5|] eqn:D5; [|discriminate].
  rewrite digits_cons. destruct (JSDate.digit a6) as [d6|] eqn:D6; [|discriminate].
  rewrite digits_nil. cbv iota beta.
  rewrite digits_cons. destruct (JSDate.digit a8) as [d8|] eqn:D8; [|discriminate].
  rewrite digits_cons. destruct (JSDate.digit a9) as [d9|] eqn:D9; [|discriminate].
  rewrite digits_nil. cbv iota beta.
  apply digit_inv in D0, D1, D2, D3, D5, D6, D8, D9.
  destruct D0 as [B0 ->], D1 as [B1 ->], D2 as [B2 ->], D3 as [B3 ->],
    D5 as [B5 ->], D6 as [B6 ->], D8 as [B8 ->], D9 as [B9 ->].
  destruct (Ascii.eqb_spec a4 "-"%char) as [->|]; [|discriminate].
  destruct (Ascii.eqb_spec a7 "-"%char) as [->|]; [|discriminate].
  cbv iota beta delta [andb].
  destruct (Z.leb_spec 1 (10 * (10 * 0 + d5) + d6)); [|discriminate].
  destruct (Z.leb_spec (10 * (10 * 0 + d5) + d6) 12); [|discriminate].
  destruct (Z.leb_spec 1 (10 * (10 * 0 + d8) + d9)); [|discriminate].
  destruct (Z.leb_spec (10 * (10 * 0 + d8) + d9)
              (JSDate.daysInMonth (10 * (10 * (10 * (10 * 0 + d0) + d1) + d2) + d3)
                                  (10 * (10 * 0 + d5) + d6))); [|discriminate].
  intros H'. inversion H' as [Hc]. clear H'.
  exists d0, d1, d2, d3, d5, d6, d8, d9.
  replace (1000 * d0 + 100 * d1 + 10 * d2 + d3)
    with (10 * (10 * (10 * (10 * 0 + d0) + d1) + d2) + d3) by lia.
  replace (10 * d5 + d6) with (10 * (10 * 0 + d5) + d6) by lia.
  replace (10 * d8 + d9) with (10 * (10 * 0 + d8) + d9) by lia.
  repeat split; auto; lia.
Qed.

(** Reading a date and writing it back. *)
Lemma isoDate_parse s c :
  JSDate.parse s = Some c ->
  calendarDay c /\ (1000 <= JSDate.year c -> JSDate.isoDate c = s).
Proof.
  intros H. apply parse_chars in H.
  destruct H as [d0 [d1 [d2 [d3 [d5 [d6 [d8 [d9 [-> [By [Bm [-> [Hm Hd]]]]]]]]]]]]].
  remember (1000 * d0 + 100 * d1 + 10 * d2 + d3) as y eqn:Ey.
  remember (10 * d5 + d6) as m eqn:Em.
  remember (10 * d8 + d9) as d eqn:Ed.
  pose proof (daysInMonth_range y m).
  split; [unfold calendarDay; cbn [JSDate.year JSDate.month JSDate.day]; lia|].
  cbn [JSDate.year]. intros Hy1000.
  rewrite isoDate_written by (cbn [JSDate.year JSDate.month JSDate.day]; lia).
  cbn [JSDate.year JSDate.month JSDate.day].
  unfold fourDigits, twoDigits. cbn [String.append].
  replace (y / 1000) with d0 by (Z.div_mod_to_equations; lia).
  replace (y / 100 mod 10) with d1 by (Z.div_mod_to_equations; lia).
  replace (y / 10 mod 10) with d2 by (Z.div_mod_to_equations; lia).
  replace (y mod 10) with d3 by (Z.div_mod_to_equations; lia).
  replace (m / 10) with d5 by (Z.div_mod_to_equations; lia).
  replace (m mod 10) with d6 by (Z.div_mod_to_equations; lia).
  replace (d / 10) with d8 by (Z.div_mod_to_equations; lia).
  replace (d mod 10) with d9 by (Z.div_mod_to_equations; lia).
  reflexivity.
Qed.

End ParseChars.
Section NormalizeFacts.

Import App.

Open Scope Z_scope.

Lemma digitsPrefix_cons a s acc :
  JSDate.digitsPrefix (String a s) acc
  = match JSDate.digit a with
    | Some d =>
        JSDate.digitsPrefix s
          (Some (10 * match acc with Some x => x | None => 0 end + d))
    | None => acc
    end.
Proof. reflexivity. Qed.

Lemma parseInt_four d0 d1 d2 d3 :
  0 <= d0 <= 9 -> 0 <= d1 <= 9 -> 0 <= d2 <= 9 -> 0 <= d3 <= 9 ->
  JSDate.parseInt
    (String (digitChar d0) (String (digitChar d1) (String (digitChar d2)
       (String (digitChar d3) EmptyString))))
  = Some (1000 * d0 + 100 * d1 + 10 * d2 + d3).
Proof.
  intros H0 H1 H2 H3. unfold JSDate.parseInt.
  rewrite digitsPrefix_cons, digit_digitChar by assumption.
  rewrite digitsPrefix_cons, digit_digitChar by assumption.
  rewrite digitsPrefix_cons, digit_digitChar by assumption.
  rewrite digitsPrefix_cons, digit_digitChar by assumption.
  cbn [JSDate.digitsPrefix]. apply f_equal. lia.
Qed.

Lemma parseInt_two d0 d1 :
  0 <= d0 <= 9 -> 0 <= d1 <= 9 ->
  JSDate.parseInt (String (digitChar d0) (String (digitChar d1) EmptyString))
  = Some (10 * d0 + d1).
Proof.
  intros H0 H1. unfold JSDate.parseInt.
  rewrite digitsPrefix_cons, digit_digitChar by assumption.
  rewrite digitsPrefix_cons, digit_digitChar by assumption.
  cbn [JSDate.digitsPrefix]. apply f_equal. lia.
Qed.

Lemma splitDash_chars a0 a1 a2 a3 a5 a6 a8 a9 :
  Ascii.eqb a0 "-"%char = false -> Ascii.eqb a1 "-"%char = false ->
  Ascii.eqb a2 "-"%char = false -> Ascii.eqb a3 "-"%char = false ->
  Ascii.eqb a5 "-"%char = false -> Ascii.eqb a6 "-"%char = false ->
  Ascii.eqb a8 "-"%char = false -> Ascii.eqb a9 "-"%char = false ->
  JSDate.splitDash
    (String a0 (String a1 (String a2 (String a3 (String "-"%char (String a5
       (String a6 (String "-"%char (String a8 (String a9 EmptyString))))))))))
  = [String a0 (String a1 (String a2 (String a3 EmptyString)));
     String a5 (String a6 EmptyString);
     String a8 (String a9 EmptyString)].
Proof.
  intros E0 E1 E2 E3 E5 E6 E8 E9. cbn [JSDate.splitDash].
  rewrite E0, E1, E2, E3, E5, E6, E8, E9. reflexivity.
Qed.

(** [normalizeDateFormat] on a calendar day of the year 1000 or later
    replaces the day by 01. *)
Lemma normalizeDateFormat_label s c :
  JSDate.parse s = Some c -> 1000 <= JSDate.year c ->
  normalizeDateFormat s = monthLabel c.
Proof.
  intros H Hy. destruct (isoDate_parse s c H) as [_ Hiso].
  unfold monthLabel. rewrite (Hiso Hy). clear Hiso.
  apply parse_chars in H.
  destruct H as [d0 [d1 [d2 [d3 [d5 [d6 [d8 [d9 [-> [By [Bm [-> [Hm Hd]]]]]]]]]]]]].
  cbn [JSDate.year] in Hy.
  destruct By as [B0 [B1 [B2 B3]]]. destruct Bm as [B5 [B6 [B8 B9]]].
  unfold normalizeDateFormat.
  rewrite splitDash_chars by (apply digitChar_not_dash; assumption).
  cbn [String.eqb length Nat.leb nth substring String.append].
  rewrite parseInt_four, parseInt_two by assumption.
  rewrite fourDigits_ofNat, twoDigits_pad by lia.
  unfold fourDigits, twoDigits. cbn [String.append].
  remember (1000 * d0 + 100 * d1 + 10 * d2 + d3) as y eqn:Ey.
  remember (10 * d5 + d6) as m eqn:Em.
  replace (y / 1000) with d0 by (Z.div_mod_to_equations; lia).
  replace (y / 100 mod 10) with d1 by (Z.div_mod_to_equations; lia).
  replace (y / 10 mod 10) with d2 by (Z.div_mod_to_equations; lia).
  replace (y mod 10) with d3 by (Z.div_mod_to_equations; lia).
  replace (m / 10) with d5 by (Z.div_mod_to_equations; lia).
  replace (m mod 10) with d6 by (Z.div_mod_to_equations; lia).
  reflexivity.
Qed.

(** The label of a month names its first day. *)
Lemma parse_monthLabel c :
  1000 <= JSDate.year c <= 9999 -> 1 <= JSDate.month c <= 12 ->
  JSDate.parse (monthLabel c)
  = Some (JSDate.mkCivil (JSDate.year c) (JSDate.month c) 1).
Proof.
  intros Hy Hm. destruct c as [y m d]. cbn [JSDate.year JSDate.month] in *.
  rewrite (monthLabel_day y m d 1). unfold monthLabel.
  rewrite isoDate_written by (cbn [JSDate.year JSDate.month JSDate.day]; lia).
  cbn [JSDate.year JSDate.month JSDate.day].
  pose proof (daysInMonth_range y m).
  rewrite <- (parse_written y m 1) by lia.
  reflexivity.
Qed.

End NormalizeFacts.

(** X25. On a date that is a calendar day of the year 1000 or later,
    [normalizeDateFormat] returns the first day of the same month, written
    YYYY-MM-01; the result is again such a date, and normalising it again
    changes nothing. *)
Theorem normalizeDateFormat_first_of_month :
  forall (s : string) (c : JSDate.civil),
    JSDate.parse s = Some c ->
    (1000 <= JSDate.year c)%Z ->
    App.normalizeDateFormat s = monthLabel c
    /\ JSDate.parse (App.normalizeDateFormat s)
       = Some (JSDate.mkCivil (JSDate.year c) (JSDate.month c) 1)
    /\ App.normalizeDateFormat (App.normalizeDateFormat s)
       = App.normalizeDateFormat s.
Proof.
  intros s c H Hy.
  destruct (isoDate_parse s c H) as [[Hyear [Hmonth _]] _].
  pose proof (normalizeDateFormat_label s c H Hy) as Hn.
  pose proof (parse_monthLabel c ltac:(lia) Hmonth) as Hp.
  rewrite Hn. repeat split; [exact Hp|].
  rewrite (normalizeDateFormat_label _ _ Hp) by (cbn [JSDate.year]; lia).
  destruct c as [y m d]. apply monthLabel_day.
Qed.

Lemma normalizeDateFormat_first_of_month_witness :
  App.normalizeDateFormat "2024-03-17" = monthLabel (JSDate.mkCivil 2024 3 17)
  /\ JSDate.parse (App.normalizeDateFormat "2024-03-17")
     = Some (JSDate.mkCivil 2024 3 1)
  /\ App.normalizeDateFormat (App.normalizeDateFormat "2024-03-17")
     = App.normalizeDateFormat "2024-03-17".
Proof.
  apply (normalizeDateFormat_first_of_month "2024-03-17" (JSDate.mkCivil 2024 3 17)).
  - reflexivity.
  - simpl. lia.
Defined.

(** X26. Two calendar days of the year 1000 or later have the same
    normalised date exactly when they fall in the same month of the same
    year: this is how the backtest matches an actual to a forecast date. *)
Theorem normalizeDateFormat_same_month :
  forall (s s' : string) (c c' : JSDate.civil),
    JSDate.parse s = Some c -> JSDate.parse s' = Some c' ->
    (1000 <= JSDate.year c)%Z -> (1000 <= JSDate.year c')%Z ->
    (App.normalizeDateFormat s = App.normalizeDateFormat s'
     <-> JSDate.year c = JSDate.year c' /\ JSDate.month c = JSDate.month c').
Proof.
  intros s s' c c' H H' Hy Hy'.
  destruct (isoDate_parse s c H) as [[Hyear [Hmonth _]] _].
  destruct (isoDate_parse s' c' H') as [[Hyear' [Hmonth' _]] _].
  rewrite (normalizeDateFormat_label s c H Hy),
    (normalizeDateFormat_label s' c' H' Hy').
  split.
  - intros E.
    pose proof (parse_monthLabel c ltac:(lia) Hmonth) as P.
    pose proof (parse_monthLabel c' ltac:(lia) Hmonth') as P'.
    rewrite E in P. rewrite P in P'. inversion P'. auto.
  - intros [Ey Em]. destruct c as [y m d], c' as [y' m' d'].
    cbn [JSDate.year JSDate.month] in Ey, Em. subst y' m'. apply monthLabel_day.
Qed.

Lemma normalizeDateFormat_same_month_witness :
  App.normalizeDateFormat "2024-03-17" = App.normalizeDateFormat "2024-03-01"
  <-> JSDate.year (JSDate.mkCivil 2024 3 17) = JSDate.year (JSDate.mkCivil 2024 3 1)
      /\ JSDate.month (JSDate.mkCivil 2024 3 17) = JSDate.month (JSDate.mkCivil 2024 3 1).
Proof.
  apply (normalizeDateFormat_same_month "2024-03-17" "2024-03-01");
    [reflexivity|reflexivity|simpl; lia|simpl; lia].
Defined.

Section ForecastMonths.

Import JS Forecasting.

Open Scope Z_scope.

Lemma firstOfMonth_index y mi :
  monthIndex (JSDate.firstOfMonth y mi) = 12 * y + mi + 1
  /\ 1 <= JSDate.month (JSDate.firstOfMonth y mi) <= 12.
Proof.
  unfold monthIndex, JSDate.firstOfMonth. cbn [JSDate.year JSDate.month].
  split; Z.div_mod_to_equations; lia.
Qed.

End ForecastMonths.

(* ================================================================== *)
(** * The forecast aggregated over the SKUs *)
(* ================================================================== *)

Section CrossSkuFacts.

Import JS Forecasting App Aggregate CrossSku.

Lemma mapSet_mapSet {V} k (v1 v2 : V) m :
  mapSet k v2 (mapSet k v1 m) = mapSet k v2 m.
Proof.
  induction m as [|[k' v'] m IH]; simpl.
  - now rewrite String.eqb_refl.
  - destruct (String.eqb k' k) eqn:E; simpl.
    + now rewrite String.eqb_refl.
    + now rewrite E, IH.
Qed.

(** The step of the loop as one update of the map. *)
Lemma aggregateStep_eq m point :
  aggregateStep m point
  = mapSet (date point)
           (addPoint (match mapGet (date point) m with
                      | Some agg => agg
                      | None => newAggregate point
                      end) point)
           m.
Proof.
  unfold aggregateStep. cbv zeta.
  destruct (mapGet (date point) m) as [agg|] eqn:E.
  - now rewrite E.
  - now rewrite mapGet_mapSet_same, mapSet_mapSet.
Qed.

(** The sum of a figure over the entries of a map after [m.set(k, v)]. *)
Lemma sum_mapSet_figure {V} (g : V -> R) k v (m : list (string * V)) :
  sum (map (fun e => g (snd e)) (mapSet k v m))
  = sum (map (fun e => g (snd e)) m)
    - match mapGet k m with Some old => g old | None => 0 end + g v.
Proof.
  induction m as [|[k' v'] m IH]; simpl.
  - rewrite sum_cons, sum_nil. simpl. lra.
  - destruct (String.eqb k' k); simpl; rewrite !sum_cons; simpl; [lra|].
    rewrite IH. lra.
Qed.

Lemma pointsOn_app k l1 l2 : pointsOn k (l1 ++ l2) = pointsOn k l1 ++ pointsOn k l2.
Proof. apply filter_app. Qed.

Lemma pointsOn_absent k l : ~ In k (map date l) -> pointsOn k l = [].
Proof.
  intros H. apply filter_none. intros p Hp.
  destruct (String.eqb_spec (date p) k) as [E|E]; [|reflexivity].
  exfalso. apply H. rewrite <- E. now apply in_map.
Qed.

Lemma pointsOn_same p : pointsOn (date p) [p] = [p].
Proof. unfold pointsOn. cbn [filter]. now rewrite String.eqb_refl. Qed.

Lemma pointsOn_other k p : date p <> k -> pointsOn k [p] = [].
Proof.
  intros H. unfold pointsOn. cbn [filter].
  destruct (String.eqb_spec (date p) k); [congruence|reflexivity].
Qed.

Variables w wp : ForecastPoint -> R.
Hypothesis w_new : forall p, w (newAggregate p) = 0.
Hypothesis w_add : forall a p, w (addPoint a p) = w a + wp p.

Lemma mergedInv_step seen m p :
  mergedInv w wp seen m -> mergedInv w wp (seen ++ [p]) (aggregateStep m p).
Proof.
  intros [Hnd [Hkeys [Hget Hsum]]]. rewrite aggregateStep_eq.
  set (old := match mapGet (date p) m with Some agg => agg | None => newAggregate p end).
  assert (Hold : date old = date p /\ w old = sum (map wp (pointsOn (date p) seen))
                 /\ match mapGet (date p) m with Some a => w a | None => 0 end = w old).
  { unfold old. destruct (mapGet (date p) m) as [a|] eqn:E.
    - destruct (Hget _ _ E) as [H1 H2]. auto.
    - split; [reflexivity|]. rewrite w_new. split; [|reflexivity].
      rewrite pointsOn_absent; [reflexivity|].
      intros Hin. apply Hkeys in Hin. now apply mapGet_None in E. }
  destruct Hold as [Hdate [Hw Hprev]].
  split; [|split; [|split]].
  - now apply mapSet_NoDup.
  - intros k. rewrite map_app, in_app_iff. simpl. split.
    + intros H. apply mapSet_keys in H. destruct H as [->|H]; [auto|].
      left. now apply Hkeys.
    + intros [H|[<-|[]]].
      * apply mapSet_keeps_keys. now apply Hkeys.
      * apply mapSet_has_key.
  - intros k a Ha. rewrite pointsOn_app, map_app, sum_app.
    destruct (String.eqb_spec (date p) k) as [E|Hne].
    + rewrite <- E in *. rewrite mapGet_mapSet_same in Ha. inversion Ha; subst a.
      split; [exact Hdate|]. rewrite w_add, Hw, pointsOn_same. cbn [map].
      rewrite sum_cons, sum_nil. lra.
    + rewrite mapGet_mapSet_other in Ha by congruence.
      destruct (Hget _ _ Ha) as [H1 H2]. split; [exact H1|].
      rewrite (pointsOn_other k p Hne). cbn [map]. rewrite sum_nil. lra.
  - rewrite sum_mapSet_figure, Hprev, w_add, map_app, sum_app, Hsum. simpl.
    rewrite sum_cons, sum_nil. lra.
Qed.

Lemma mergedInv_points pts :
  forall seen m,
    mergedInv w wp seen m ->
    mergedInv w wp (seen ++ pts) (fold_left aggregateStep pts m).
Proof.
  induction pts as [|p pts IH]; intros seen m H; simpl.
  - now rewrite app_nil_r.
  - replace (seen ++ p :: pts) with ((seen ++ [p]) ++ pts)
      by (rewrite <- app_assoc; reflexivity).
    apply IH. now apply mergedInv_step.
Qed.

Lemma mergedInv_skus slf :
  forall seen m,
    mergedInv w wp seen m ->
    mergedInv w wp (seen ++ allPoints slf)
      (fold_left (fun m e => fold_left aggregateStep (snd e) m) slf m).
Proof.
  induction slf as [|e slf IH]; intros seen m H; simpl.
  - unfold allPoints. simpl. now rewrite app_nil_r.
  - unfold allPoints. simpl. rewrite app_assoc. apply IH.
    now apply mergedInv_points.
Qed.

Lemma mergedInv_all slf :
  mergedInv w wp (allPoints slf)
    (fold_left (fun m e => fold_left aggregateStep (snd e) m) slf []).
Proof.
  apply (mergedInv_skus slf [] []).
  split; [constructor|]. split; [simpl; tauto|]. split; [|reflexivity].
  intros k a H. discriminate.
Qed.

End CrossSkuFacts.

Section CrossSkuEntries.

Import JS Forecasting App Aggregate CrossSku.

Lemma In_mapGet {V} k (v : V) m :
  NoDup (map fst m) -> In (k, v) m -> mapGet k m = Some v.
Proof.
  induction m as [|[k' v'] m IH]; simpl; [tauto|].
  intros Hnd [He|He].
  - inversion He; subst. now rewrite String.eqb_refl.
  - inversion Hnd as [|? ? Hnin Hnd']; subst.
    destruct (String.eqb_spec k' k) as [->|Hne]; [|auto].
    exfalso. apply Hnin. apply (in_map fst) in He. exact He.
Qed.

(** Every entry of the map has been through the assignments of
    [addPoint]. *)
Lemma entries_added pts :
  forall m,
    Forall (fun e : string * ForecastPoint => exists a p, snd e = addPoint a p) m ->
    Forall (fun e : string * ForecastPoint => exists a p, snd e = addPoint a p)
           (fold_left aggregateStep pts m).
Proof.
  induction pts as [|p pts IH]; intros m H; simpl; [exact H|].
  apply IH. rewrite aggregateStep_eq. apply Forall_mapSet; [|exact H].
  simpl. eauto.
Qed.

Lemma entries_added_skus (slf : list (string * list ForecastPoint)) :
  forall m,
    Forall (fun e : string * ForecastPoint => exists a p, snd e = addPoint a p) m ->
    Forall (fun e : string * ForecastPoint => exists a p, snd e = addPoint a p)
           (fold_left (fun m e => fold_left aggregateStep (snd e) m) slf m).
Proof.
  induction slf as [|e slf IH]; intros m H; simpl; [exact H|].
  apply IH. now apply entries_added.
Qed.

Lemma orZero_some v : orZero (Some v) = v.
Proof. apply or_else_same. Qed.

End CrossSkuEntries.

(** X29. [aggregatedForecast] merges the per-SKU forecasts by date: the
    result has strictly increasing dates, one point for every date that
    occurs; the forecast of a point is the sum of the forecasts of the
    per-SKU points of its date, its bounds are the sums of their bounds
    (a missing bound counting as 0), and the grand total of the forecasts
    is conserved. *)
Theorem aggregatedForecast_merges :
  forall skuLevelForecasts : list (string * list ForecastPoint),
    StronglySorted (fun a b => String.ltb (date a) (date b) = true)
                   (CrossSku.aggregatedForecast skuLevelForecasts)
    /\ Forall (fun a =>
                 forecast a
                 = JS.sum (map forecast (pointsOn (date a) (allPoints skuLevelForecasts)))
                 /\ lowerBound a
                    = Some (JS.sum (map (fun p => CrossSku.orZero (lowerBound p))
                                        (pointsOn (date a) (allPoints skuLevelForecasts))))
                 /\ upperBound a
                    = Some (JS.sum (map (fun p => CrossSku.orZero (upperBound p))
                                        (pointsOn (date a) (allPoints skuLevelForecasts)))))
              (CrossSku.aggregatedForecast skuLevelForecasts)
    /\ Forall (fun p => In (date p)
                           (map date (CrossSku.aggregatedForecast skuLevelForecasts)))
              (allPoints skuLevelForecasts)
    /\ JS.sum (map forecast (CrossSku.aggregatedForecast skuLevelForecasts))
       = JS.sum (map forecast (allPoints skuLevelForecasts)).
Proof.
  intros slf. unfold CrossSku.aggregatedForecast. cbv zeta.
  set (m := fold_left _ slf []).
  pose proof (sortBy_perm (fun a b => String.leb (date a) (date b)) (map snd m))
    as Hperm.
  assert (HF : mergedInv forecast forecast (allPoints slf) m).
  { apply mergedInv_all; [reflexivity|].
    intros a p. cbn [forecast CrossSku.addPoint]. now rewrite !or_else_same. }
  assert (HL : mergedInv (fun a => CrossSku.orZero (lowerBound a))
                         (fun p => CrossSku.orZero (lowerBound p)) (allPoints slf) m).
  { apply mergedInv_all; [intros p; apply orZero_some|].
    intros a p. cbn [lowerBound CrossSku.addPoint]. apply orZero_some. }
  assert (HU : mergedInv (fun a => CrossSku.orZero (upperBound a))
                         (fun p => CrossSku.orZero (upperBound p)) (allPoints slf) m).
  { apply mergedInv_all; [intros p; apply orZero_some|].
    intros a p. cbn [upperBound CrossSku.addPoint]. apply orZero_some. }
  assert (HA : Forall (fun e : string * ForecastPoint =>
                         exists a p, snd e = CrossSku.addPoint a p) m).
  { apply entries_added_skus. constructor. }
  destruct HF as [Hnd [Hkeys [Hget Hsum]]].
  assert (Hdates : map date (map snd m) = map fst m).
  { rewrite map_map. apply map_ext_in. intros [k a] He.
    destruct (Hget k a (In_mapGet k a m Hnd He)) as [H _]. exact H. }
  split; [|split; [|split]].
  - apply sorted_strict.
    + apply sortBy_sorted.
      * intros a b. apply string_leb_total.
      * intros a b c. apply string_leb_trans.
    + eapply Permutation_NoDup; [symmetry; apply Permutation_map; exact Hperm|].
      now rewrite Hdates.
  - apply Forall_forall. intros a Ha.
    apply (Permutation_in _ Hperm) in Ha. apply in_map_iff in Ha.
    destruct Ha as [[k a'] [Ea He]]. simpl in Ea. subst a'.
    pose proof (In_mapGet k a m Hnd He) as Hg.
    destruct (Hget k a Hg) as [Hk Hf]. rewrite Hk. split; [exact Hf|].
    destruct HL as [_ [_ [HgetL _]]]. destruct HU as [_ [_ [HgetU _]]].
    destruct (HgetL k a Hg) as [_ Hl]. destruct (HgetU k a Hg) as [_ Hu].
    rewrite Forall_forall in HA. destruct (HA _ He) as [a0 [p0 Eadd]].
    simpl in Eadd. rewrite <- Hl, <- Hu. rewrite Eadd.
    cbn [lowerBound upperBound CrossSku.addPoint]. now rewrite !orZero_some.
  - apply Forall_forall. intros p Hp.
    eapply Permutation_in; [symmetry; apply Permutation_map; exact Hperm|].
    rewrite Hdates. apply Hkeys. now apply in_map.
  - rewrite (sum_perm _ _ (Permutation_map forecast Hperm)), map_map. exact Hsum.
Qed.

(* ================================================================== *)
(** * The coefficient of variation in binary64 *)
(* ================================================================== *)

Section Equivariance.

Import Binary64.

Open Scope Z_scope.

Variables prec emax : Z.

Lemma fullPrecision_fexp mu :
  fullPrecision prec emax mu = true -> fexp prec emax mu = mu - prec.
Proof.
  unfold fullPrecision, fexp. intros H. apply Z.leb_le in H. lia.
Qed.

Lemma scale_0 x : scale 0 x = x.
Proof. destruct x; simpl; try reflexivity. now rewrite Z.add_0_r. Qed.

Lemma scale_scale a b x : scale a (scale b x) = scale (b + a) x.
Proof. destruct x; simpl; try reflexivity. now rewrite Z.add_assoc. Qed.

Lemma shr_shift mrs e n j :
  shr mrs (e + j) n = (fst (shr mrs e n), snd (shr mrs e n) + j).
Proof. unfold shr. destruct n; cbn [fst snd]; f_equal; lia. Qed.

Lemma shl_align_shift p e e' j :
  shl_align p (e + j) (e' + j)
  = (fst (shl_align p e e'), snd (shl_align p e e') + j).
Proof.
  unfold shl_align. replace (e' + j - (e + j)) with (e' - e) by lia.
  destruct (e' - e); reflexivity.
Qed.

Lemma stage1_shift m e l j :
  fullPrecision prec emax (Zdigits2 m + e) = true ->
  fullPrecision prec emax (Zdigits2 m + (e + j)) = true ->
  stage1 prec emax m (e + j) l
  = (fst (stage1 prec emax m e l), snd (stage1 prec emax m e l) + j).
Proof.
  intros H1 H2. unfold stage1, shr_fexp.
  rewrite (fullPrecision_fexp _ H1), (fullPrecision_fexp _ H2).
  replace (Zdigits2 m + (e + j) - prec - (e + j))
    with (Zdigits2 m + e - prec - e) by lia.
  apply shr_shift.
Qed.

Lemma rounded_shift m e l j :
  fullPrecision prec emax (Zdigits2 m + e) = true ->
  fullPrecision prec emax (Zdigits2 m + (e + j)) = true ->
  rounded prec emax m (e + j) l = rounded prec emax m e l.
Proof.
  intros H1 H2. unfold rounded. now rewrite (stage1_shift m e l j H1 H2).
Qed.

Lemma stage2_shift m e l j :
  roundOk prec emax m e l = true ->
  roundOk prec emax m (e + j) l = true ->
  stage2 prec emax m (e + j) l
  = (fst (stage2 prec emax m e l), snd (stage2 prec emax m e l) + j).
Proof.
  unfold roundOk. intros H1 H2.
  apply andb_prop in H1. destruct H1 as [H1 _].
  apply andb_prop in H1. destruct H1 as [Ha Hb].
  apply andb_prop in H2. destruct H2 as [H2 _].
  apply andb_prop in H2. destruct H2 as [Ha' Hb'].
  rewrite (rounded_shift m e l j Ha Ha'), (stage1_shift m e l j Ha Ha') in Hb'.
  cbn [snd] in Hb'.
  unfold stage2.
  rewrite (rounded_shift m e l j Ha Ha'), (stage1_shift m e l j Ha Ha').
  cbn [snd]. unfold shr_fexp.
  rewrite (fullPrecision_fexp _ Hb), (fullPrecision_fexp _ Hb').
  set (d := Zdigits2 (rounded prec emax m e l)).
  set (e1 := snd (stage1 prec emax m e l)).
  replace (d + (e1 + j) - prec - (e1 + j)) with (d + e1 - prec - e1) by lia.
  apply shr_shift.
Qed.

Lemma binary_round_aux_stages s m e l :
  binary_round_aux prec emax s m e l
  = match shr_m (fst (stage2 prec emax m e l)) with
    | Z0 => S754_zero s
    | Zpos p =>
        if snd (stage2 prec emax m e l) <=? emax - prec
        then S754_finite s p (snd (stage2 prec emax m e l))
        else S754_infinity s
    | Zneg _ => S754_nan
    end.
Proof.
  unfold binary_round_aux, stage2, rounded, stage1.
  destruct (shr_fexp prec emax m e l) as [mrs' e']. cbn [fst snd].
  destruct (shr_fexp prec emax _ e' loc_Exact) as [mrs'' e'']. reflexivity.
Qed.

Lemma round_scale s m e l j :
  roundOk prec emax m e l = true ->
  roundOk prec emax m (e + j) l = true ->
  binary_round_aux prec emax s m (e + j) l
  = scale j (binary_round_aux prec emax s m e l).
Proof.
  intros H1 H2. rewrite !binary_round_aux_stages.
  pose proof (stage2_shift m e l j H1 H2) as E.
  unfold roundOk in H1, H2.
  apply andb_prop in H1. destruct H1 as [_ H1].
  apply andb_prop in H2. destruct H2 as [_ H2].
  rewrite E in H2 |- *. cbn [fst snd] in H2 |- *.
  rewrite H1, H2.
  destruct (shr_m (fst (stage2 prec emax m e l))); reflexivity.
Qed.

Lemma normalize_scale m e j sz :
  normalizeOk prec emax m e = true ->
  normalizeOk prec emax m (e + j) = true ->
  binary_normalize prec emax m (e + j) sz
  = scale j (binary_normalize prec emax m e sz).
Proof.
  unfold normalizeOk, binary_normalize, binary_round.
  destruct m as [|p|p]; [reflexivity| |]; intros H1 H2;
    apply andb_prop in H1; destruct H1 as [Ha H1];
    apply andb_prop in H2; destruct H2 as [Ha' H2];
    rewrite (fullPrecision_fexp _ Ha) in H1 |- *;
    rewrite (fullPrecision_fexp _ Ha') in H2 |- *;
    replace (Z.pos (digits2_pos p) + (e + j) - prec)
      with (Z.pos (digits2_pos p) + e - prec + j) in H2 |- * by lia;
    rewrite shl_align_shift in H2 |- *;
    cbn [fst snd] in H2;
    destruct (shl_align p e (Z.pos (digits2_pos p) + e - prec)) as [mz ez];
    cbn [fst snd] in *;
    now apply round_scale.
Qed.

End Equivariance.

Section OperationsScaled.

Import Binary64.

Open Scope Z_scope.

Variables prec emax : Z.

Lemma add_scale j x y :
  addOk prec emax x y = true ->
  addOk prec emax (scale j x) (scale j y) = true ->
  SFadd prec emax (scale j x) (scale j y) = scale j (SFadd prec emax x y).
Proof.
  destruct x as [sx|sx| |sx mx ex], y as [sy|sy| |sy my ey];
    try discriminate; try reflexivity.
  - cbn [scale SFadd]. destruct sx, sy; reflexivity.
  - cbn [scale SFadd addOk]. cbv zeta. intros H1 H2.
    rewrite Z.add_min_distr_r in H2 |- *.
    rewrite !shl_align_shift in H2 |- *. cbn [fst] in H2 |- *.
    now apply normalize_scale.
Qed.

Lemma sub_scale j x y :
  subOk prec emax x y = true ->
  subOk prec emax (scale j x) (scale j y) = true ->
  SFsub prec emax (scale j x) (scale j y) = scale j (SFsub prec emax x y).
Proof.
  destruct x as [sx|sx| |sx mx ex], y as [sy|sy| |sy my ey];
    try discriminate; try reflexivity.
  - cbn [scale SFsub]. destruct sx, sy; reflexivity.
  - cbn [scale SFsub subOk]. cbv zeta. intros H1 H2.
    rewrite Z.add_min_distr_r in H2 |- *.
    rewrite !shl_align_shift in H2 |- *. cbn [fst] in H2 |- *.
    now apply normalize_scale.
Qed.

Lemma mul_scale a b x y :
  mulOk prec emax x y = true ->
  mulOk prec emax (scale a x) (scale b y) = true ->
  SFmul prec emax (scale a x) (scale b y) = scale (a + b) (SFmul prec emax x y).
Proof.
  destruct x as [sx|sx| |sx mx ex], y as [sy|sy| |sy my ey];
    try discriminate; try reflexivity.
  cbn [scale SFmul mulOk]. intros H1 H2.
  replace (ex + a + (ey + b)) with (ex + ey + (a + b)) in H2 |- * by lia.
  now apply round_scale.
Qed.

Lemma SFdiv_core_shift m1 e1 m2 e2 a b :
  fullPrecision prec emax (Zdigits2 m1 + e1 - (Zdigits2 m2 + e2)) = true ->
  fullPrecision prec emax (Zdigits2 m1 + (e1 + a) - (Zdigits2 m2 + (e2 + b))) = true ->
  SFdiv_core_binary prec emax m1 (e1 + a) m2 (e2 + b)
  = (fst (fst (SFdiv_core_binary prec emax m1 e1 m2 e2)),
     snd (fst (SFdiv_core_binary prec emax m1 e1 m2 e2)) + (a - b),
     snd (SFdiv_core_binary prec emax m1 e1 m2 e2)).
Proof.
  intros H1 H2. unfold SFdiv_core_binary. cbv zeta.
  rewrite (fullPrecision_fexp _ _ _ H1), (fullPrecision_fexp _ _ _ H2).
  set (d1 := Zdigits2 m1). set (d2 := Zdigits2 m2).
  replace (Z.min (d1 + (e1 + a) - (d2 + (e2 + b)) - prec) (e1 + a - (e2 + b)))
    with (Z.min (d1 + e1 - (d2 + e2) - prec) (e1 - e2) + (a - b)) by lia.
  set (e' := Z.min (d1 + e1 - (d2 + e2) - prec) (e1 - e2)).
  replace (e1 + a - (e2 + b) - (e' + (a - b))) with (e1 - e2 - e') by lia.
  destruct (Z.div_eucl _ m2) as [q r]. reflexivity.
Qed.

Lemma div_scale a b x y :
  divOk prec emax x y = true ->
  divOk prec emax (scale a x) (scale b y) = true ->
  SFdiv prec emax (scale a x) (scale b y) = scale (a - b) (SFdiv prec emax x y).
Proof.
  destruct x as [sx|sx| |sx mx ex], y as [sy|sy| |sy my ey];
    try discriminate; try reflexivity.
  cbn [scale SFdiv divOk]. intros H1 H2.
  apply andb_prop in H1. destruct H1 as [Ha H1].
  apply andb_prop in H2. destruct H2 as [Ha' H2].
  rewrite (SFdiv_core_shift _ _ _ _ a b Ha Ha') in H2 |- *.
  destruct (SFdiv_core_binary prec emax (Z.pos mx) ex (Z.pos my) ey) as [[mz ez] lz].
  cbn [fst snd] in H2 |- *.
  now apply round_scale.
Qed.

Lemma div2_shift x j : Z.div2 (x + 2 * j) = Z.div2 x + j.
Proof. rewrite !Z.div2_div. rewrite (Z.mul_comm 2 j). apply Z.div_add. lia. Qed.

Lemma SFsqrt_core_shift m e j :
  fullPrecision prec emax (Z.div2 (Zdigits2 m + e + 1)) = true ->
  fullPrecision prec emax (Z.div2 (Zdigits2 m + (e + 2 * j) + 1)) = true ->
  SFsqrt_core_binary prec emax m (e + 2 * j)
  = (fst (fst (SFsqrt_core_binary prec emax m e)),
     snd (fst (SFsqrt_core_binary prec emax m e)) + j,
     snd (SFsqrt_core_binary prec emax m e)).
Proof.
  intros H1 H2. unfold SFsqrt_core_binary. cbv zeta.
  rewrite (fullPrecision_fexp _ _ _ H1), (fullPrecision_fexp _ _ _ H2).
  set (d := Zdigits2 m).
  replace (d + (e + 2 * j) + 1) with (d + e + 1 + 2 * j) by lia.
  rewrite !div2_shift.
  replace (Z.min (Z.div2 (d + e + 1) + j - prec) (Z.div2 e + j))
    with (Z.min (Z.div2 (d + e + 1) - prec) (Z.div2 e) + j) by lia.
  set (e' := Z.min (Z.div2 (d + e + 1) - prec) (Z.div2 e)).
  replace (e + 2 * j - 2 * (e' + j)) with (e - 2 * e') by lia.
  destruct (Z.sqrtrem _) as [q r]. reflexivity.
Qed.

Lemma sqrt_scale j x :
  sqrtOk prec emax x = true ->
  sqrtOk prec emax (scale (2 * j) x) = true ->
  SFsqrt prec emax (scale (2 * j) x) = scale j (SFsqrt prec emax x).
Proof.
  destruct x as [sx|sx| |sx mx ex]; try discriminate; try reflexivity.
  destruct sx; [discriminate|].
  cbn [scale SFsqrt sqrtOk]. intros H1 H2.
  apply andb_prop in H1. destruct H1 as [Ha H1].
  apply andb_prop in H2. destruct H2 as [Ha' H2].
  rewrite (SFsqrt_core_shift _ _ j Ha Ha') in H2 |- *.
  destruct (SFsqrt_core_binary prec emax (Z.pos mx) ex) as [[mz ez] lz].
  cbn [fst snd] in H2 |- *.
  now apply round_scale.
Qed.

Lemma gt_zero_scale j x sz :
  SFltb (S754_zero sz) (scale j x) = SFltb (S754_zero sz) x.
Proof. destruct x; reflexivity. Qed.

End OperationsScaled.

Section VolatilityScaled.

Import Binary64.

Open Scope Z_scope.

Lemma check_some b x y : check b x = Some y -> b = true /\ y = x.
Proof. unfold check. destruct b; intros H; inversion H; auto. Qed.

Lemma bind_some {X Y : Type} (o : option X) (f : X -> option Y) y :
  bind o f = Some y -> exists x, o = Some x /\ f x = Some y.
Proof. destruct o as [x|]; simpl; intros H; [eauto|discriminate]. Qed.

Lemma fold_bind_none {X Y : Type} (f : X -> Y -> option X) xs :
  fold_left (fun acc x => bind acc (fun a => f a x)) xs None = None.
Proof. induction xs as [|x xs IH]; simpl; auto. Qed.

(** The checked sum is the sum. *)
Lemma sumC_sound xs :
  forall a r,
    fold_left (fun acc x => bind acc (fun a => addC a x)) xs (Some a) = Some r ->
    r = fold_left add xs a.
Proof.
  induction xs as [|x xs IH]; intros a r H; simpl in *.
  - now inversion H.
  - destruct (addC a x) as [a1|] eqn:E.
    + apply check_some in E. destruct E as [_ ->]. now apply IH.
    + rewrite fold_bind_none in H. discriminate.
Qed.

Lemma sumC_scale j xs :
  forall a r r',
    fold_left (fun acc x => bind acc (fun a => addC a x)) xs (Some a) = Some r ->
    fold_left (fun acc x => bind acc (fun a => addC a x)) (map (scale j) xs)
              (Some (scale j a)) = Some r' ->
    r' = scale j r.
Proof.
  induction xs as [|x xs IH]; intros a r r' H H'; simpl in *.
  - inversion H; inversion H'; subst. reflexivity.
  - destruct (addC a x) as [a1|] eqn:E.
    2:{ rewrite fold_bind_none in H. discriminate. }
    destruct (addC (scale j a) (scale j x)) as [a1'|] eqn:E'.
    2:{ rewrite fold_bind_none in H'. discriminate. }
    unfold addC, add in E, E'.
    apply check_some in E, E'. destruct E as [Ok ->], E' as [Ok' ->].
    rewrite (add_scale _ _ j a x Ok Ok') in H'.
    exact (IH _ _ _ H H').
Qed.

Lemma fold_squareStepC_none avg xs :
  fold_left (squareStepC avg) xs None = None.
Proof. induction xs as [|x xs IH]; simpl; auto. Qed.

Lemma squaresC_sound avg xs :
  forall a r,
    fold_left (squareStepC avg) xs (Some a) = Some r ->
    r = fold_left (fun sum q => add sum (square (sub q avg))) xs a.
Proof.
  induction xs as [|x xs IH]; intros a r H; cbn [fold_left] in *.
  - now inversion H.
  - destruct (squareStepC avg (Some a) x) as [a1|] eqn:E.
    2:{ rewrite fold_squareStepC_none in H. discriminate. }
    unfold squareStepC in E. cbn [bind] in E.
    apply bind_some in E. destruct E as [d [Ed E]].
    apply bind_some in E. destruct E as [p [Ep E]].
    apply check_some in Ed, Ep, E.
    destruct Ed as [_ ->], Ep as [_ ->], E as [_ ->].
    now apply IH.
Qed.

Lemma squaresC_scale j avg xs :
  forall a r r',
    fold_left (squareStepC avg) xs (Some a) = Some r ->
    fold_left (squareStepC (scale j avg)) (map (scale j) xs)
              (Some (scale (2 * j) a)) = Some r' ->
    r' = scale (2 * j) r.
Proof.
  induction xs as [|x xs IH]; intros a r r' H H'; cbn [fold_left map] in *.
  - inversion H; inversion H'; subst. reflexivity.
  - destruct (squareStepC avg (Some a) x) as [a1|] eqn:E.
    2:{ rewrite fold_squareStepC_none in H. discriminate. }
    destruct (squareStepC (scale j avg) (Some (scale (2 * j) a)) (scale j x))
      as [a1'|] eqn:E'.
    2:{ rewrite fold_squareStepC_none in H'. discriminate. }
    unfold squareStepC in E, E'. cbn [bind] in E, E'.
    unfold subC, mulC, addC, sub, mul, add in E, E'.
    apply bind_some in E. destruct E as [d [Ed E]].
    apply bind_some in E. destruct E as [p [Ep E]].
    apply bind_some in E'. destruct E' as [d' [Ed' E']].
    apply bind_some in E'. destruct E' as [p' [Ep' E']].
    apply check_some in Ed, Ed'. destruct Ed as [Okd ->], Ed' as [Okd' ->].
    rewrite (sub_scale _ _ j x avg Okd Okd') in Ep'.
    apply check_some in Ep, Ep'. destruct Ep as [Okp ->], Ep' as [Okp' ->].
    rewrite (mul_scale _ _ j j _ _ Okp Okp') in E'.
    replace (j + j) with (2 * j) in E' by lia.
    apply check_some in E, E'. destruct E as [Oka ->], E' as [Oka' ->].
    rewrite (add_scale _ _ (2 * j) _ _ Oka Oka') in H'.
    exact (IH _ _ _ H H').
Qed.

Lemma len_scale j xs : len (map (scale j) xs) = len xs.
Proof. unfold len. now rewrite length_map. Qed.

Lemma volatilityC_sound s quantities c :
  volatilityC quantities = Some c ->
  volatility (volatilityEntry s quantities) = c.
Proof.
  unfold volatilityC, volatilityEntry. cbn [volatility]. intros H.
  apply bind_some in H. destruct H as [sm [Es H]].
  apply sumC_sound in Es. fold (sum quantities) in Es. subst sm.
  apply bind_some in H. destruct H as [avg [Ea H]].
  apply check_some in Ea. destruct Ea as [_ ->].
  apply bind_some in H. destruct H as [ss [Ess H]].
  apply squaresC_sound in Ess. subst ss.
  apply bind_some in H. destruct H as [variance [Ev H]].
  apply check_some in Ev. destruct Ev as [_ ->].
  apply bind_some in H. destruct H as [sd [Esd H]].
  apply check_some in Esd. destruct Esd as [_ ->].
  destruct (gt _ (ofZ 0)).
  - apply bind_some in H. destruct H as [r [Er H]].
    apply check_some in Er, H. destruct Er as [_ ->], H as [_ ->]. reflexivity.
  - now inversion H.
Qed.

Lemma volatilityC_scale j quantities c c' :
  volatilityC quantities = Some c ->
  volatilityC (map (scale j) quantities) = Some c' ->
  c' = c.
Proof.
  unfold volatilityC. rewrite len_scale. intros H H'.
  apply bind_some in H. destruct H as [sm [Es H]].
  apply bind_some in H'. destruct H' as [sm' [Es' H']].
  assert (Esm : sm' = scale j sm) by exact (sumC_scale j _ (ofZ 0) _ _ Es Es').
  subst sm'.
  apply bind_some in H. destruct H as [avg [Ea H]].
  apply bind_some in H'. destruct H' as [avg' [Ea' H']].
  unfold divC, div in Ea, Ea'.
  apply check_some in Ea, Ea'. destruct Ea as [Oka Ea], Ea' as [Oka' Ea'].
  rewrite <- (scale_0 (len quantities)) in Ea', Oka'.
  rewrite (div_scale _ _ j 0 _ _ Oka Oka'), Z.sub_0_r, <- Ea in Ea'.
  subst avg'.
  apply bind_some in H. destruct H as [ss [Ess H]].
  apply bind_some in H'. destruct H' as [ss' [Ess' H']].
  assert (Ess2 : ss' = scale (2 * j) ss)
    by exact (squaresC_scale j avg _ (ofZ 0) _ _ Ess Ess').
  subst ss'.
  apply bind_some in H. destruct H as [variance [Ev H]].
  apply bind_some in H'. destruct H' as [variance' [Ev' H']].
  unfold divC, div in Ev, Ev'.
  apply check_some in Ev, Ev'. destruct Ev as [Okv Ev], Ev' as [Okv' Ev'].
  rewrite <- (scale_0 (len quantities)) in Ev', Okv'.
  rewrite (div_scale _ _ (2 * j) 0 _ _ Okv Okv'), Z.sub_0_r, <- Ev in Ev'.
  subst variance'.
  apply bind_some in H. destruct H as [sd [Esd H]].
  apply bind_some in H'. destruct H' as [sd' [Esd' H']].
  unfold sqrtC, sqrt in Esd, Esd'.
  apply check_some in Esd, Esd'. destruct Esd as [Oksd Esd], Esd' as [Oksd' Esd'].
  rewrite (sqrt_scale _ _ j _ Oksd Oksd'), <- Esd in Esd'. subst sd'.
  assert (Egt : gt (scale j avg) (ofZ 0) = gt avg (ofZ 0))
    by apply gt_zero_scale.
  rewrite Egt in H'.
  destruct (gt avg (ofZ 0)).
  - apply bind_some in H. destruct H as [r [Er H]].
    apply bind_some in H'. destruct H' as [r' [Er' H']].
    unfold divC, div in Er, Er'.
    apply check_some in Er, Er'. destruct Er as [Okr Er], Er' as [Okr' Er'].
    rewrite (div_scale _ _ j j _ _ Okr Okr'), Z.sub_diag, scale_0, <- Er in Er'.
    subst r'. congruence.
  - congruence.
Qed.

End VolatilityScaled.

Section PowersOfTwo.

Import Binary64.

Open Scope Z_scope.

Lemma stage1_twoTo m e0 :
  digits2_pos m = 53%positive ->
  -1074 <= e0 + 52 ->
  stage1 prec emax (Z.pos (2 ^ 52 * m)) e0 loc_Exact
  = ({| shr_m := Z.pos m; shr_r := false; shr_s := false |}, e0 + 52).
Proof.
  intros Hd Hlo. unfold stage1, shr_fexp.
  change (2 ^ 52)%positive with 4503599627370496%positive.
  cbn [Pos.mul Zdigits2 digits2_pos]. rewrite Hd.
  unfold fexp, SpecFloat.emin, prec, emax.
  cbn [Pos.succ].
  rewrite Z.max_l by lia.
  replace (105 + e0 - 53 - e0) with 52 by lia.
  reflexivity.
Qed.

Lemma stage2_twoTo m e0 :
  digits2_pos m = 53%positive ->
  -1074 <= e0 + 52 ->
  stage2 prec emax (Z.pos (2 ^ 52 * m)) e0 loc_Exact
  = ({| shr_m := Z.pos m; shr_r := false; shr_s := false |}, e0 + 52).
Proof.
  intros Hd Hlo. unfold stage2, rounded.
  rewrite (stage1_twoTo m e0 Hd Hlo). cbn [fst snd shr_m].
  unfold shr_fexp. cbn [loc_of_shr_record round_nearest_even Zdigits2].
  rewrite Hd. unfold fexp, SpecFloat.emin, prec, emax.
  rewrite Z.max_l by lia.
  replace (53 + (e0 + 52) - 53 - (e0 + 52)) with 0 by lia.
  reflexivity.
Qed.

(** The product of a normal number by [2^j] is exact. *)
Lemma mul_twoTo_scale j x :
  scalable j x = true -> mul (twoTo j) x = scale j x.
Proof.
  destruct x as [sx|sx| |sx m e]; try discriminate; [reflexivity|].
  unfold scalable. intros H.
  apply andb_prop in H. destruct H as [H Hhi].
  apply andb_prop in H. destruct H as [Hd Hlo].
  apply Pos.eqb_eq in Hd. apply Z.leb_le in Hlo, Hhi.
  unfold mul, twoTo. cbn [SFmul scale xorb].
  rewrite binary_round_aux_stages.
  rewrite (stage2_twoTo m (j - 52 + e) Hd ltac:(lia)). cbn [fst snd shr_m].
  replace (j - 52 + e + 52) with (e + j) by lia.
  replace (e + j <=? emax - prec) with true; [reflexivity|].
  symmetry. apply Z.leb_le. unfold emax, prec. lia.
Qed.

Lemma map_mul_twoTo j xs :
  Forall (fun x => scalable j x = true) xs ->
  map (mul (twoTo j)) xs = map (scale j) xs.
Proof.
  induction 1 as [|x xs Hx _ IH]; cbn [map]; [reflexivity|].
  now rewrite IH, (mul_twoTo_scale j x Hx).
Qed.

End PowersOfTwo.

(** C8, as the code has it.  In the binary64 arithmetic of the program the
    coefficient of variation is unchanged by a scaling with a power of two:
    when every product [2^j * x] of the window is an exact normal number
    and no operation of the two computations overflows or rounds in the
    subnormal range, the window [2^j * x] is given the volatility of the
    window [x], hence the same risk tier. *)
Theorem volatility_scale_power_of_two :
  forall (s : string) (quantities : list Binary64.number) (j : Z),
    Forall (fun x => Binary64.scalable j x = true) quantities ->
    Binary64.inNormalRange quantities = true ->
    Binary64.inNormalRange (map (Binary64.mul (Binary64.twoTo j)) quantities) = true ->
    Binary64.volatility
      (Binary64.volatilityEntry s (map (Binary64.mul (Binary64.twoTo j)) quantities))
    = Binary64.volatility (Binary64.volatilityEntry s quantities)
    /\ Binary64.riskTier
         (Binary64.volatility
            (Binary64.volatilityEntry s (map (Binary64.mul (Binary64.twoTo j)) quantities)))
       = Binary64.riskTier
           (Binary64.volatility (Binary64.volatilityEntry s quantities)).
Proof.
  intros s quantities j Hs H H'.
  rewrite (map_mul_twoTo j quantities Hs) in H' |- *.
  unfold Binary64.inNormalRange in H, H'.
  destruct (Binary64.volatilityC quantities) as [c|] eqn:E; [|discriminate].
  destruct (Binary64.volatilityC (map (Binary64.scale j) quantities)) as [c'|] eqn:E';
    [|discriminate].
  rewrite (volatilityC_sound s _ _ E), (volatilityC_sound s _ _ E').
  rewrite (volatilityC_scale j _ _ _ E E'). split; reflexivity.
Qed.

Lemma volatility_scale_power_of_two_witness :
  let quantities := map Binary64.ofZ [0; 1; 1; 1; 1]%Z in
  let scaled := map (Binary64.mul (Binary64.twoTo 2)) quantities in
  scaled = map Binary64.ofZ [0; 4; 4; 4; 4]%Z
  /\ Binary64.twoTo 2 = Binary64.ofZ 4
  /\ Binary64.volatility (Binary64.volatilityEntry "S" scaled)
     = Binary64.volatility (Binary64.volatilityEntry "S" quantities)
  /\ Binary64.riskTier (Binary64.volatility (Binary64.volatilityEntry "S" scaled))
     = Binary64.riskTier
         (Binary64.volatility (Binary64.volatilityEntry "S" quantities)).
Proof.
  intros quantities scaled.
  split; [vm_compute; reflexivity|]. split; [vm_compute; reflexivity|].
  apply (volatility_scale_power_of_two "S" quantities 2).
  - repeat constructor.
  - vm_compute. reflexivity.
  - vm_compute. reflexivity.
Defined.

(** C8 fails as stated: the window 0, 1, 1, 1, 1 has a positive mean and
    the volatility 50.000000000000014, tier High; multiplied by 5 it has
    the volatility 50, tier Medium. *)
Lemma volatility_scale_changes_tier :
  let x := map Binary64.ofZ [0; 1; 1; 1; 1]%Z in
  let kx := map (Binary64.mul (Binary64.ofZ 5)) x in
  kx = map Binary64.ofZ [0; 5; 5; 5; 5]%Z
  /\ Binary64.gt (Binary64.avgQuantity (Binary64.volatilityEntry "S" x))
                 (Binary64.ofZ 0) = true
  /\ Binary64.volatility (Binary64.volatilityEntry "S" kx)
     <> Binary64.volatility (Binary64.volatilityEntry "S" x)
  /\ Binary64.volatility (Binary64.volatilityEntry "S" x)
     = S754_finite false 7036874417766402 (-47)
  /\ Binary64.volatility (Binary64.volatilityEntry "S" kx) = Binary64.ofZ 50
  /\ Binary64.riskTier (Binary64.volatility (Binary64.volatilityEntry "S" x))
     = App.High
  /\ Binary64.riskTier (Binary64.volatility (Binary64.volatilityEntry "S" kx))
     = App.Medium.
Proof.
  intros x kx. vm_compute. repeat split. discriminate.
Qed.

(* ================================================================== *)
(** * The forecast dates and the time zone of the host *)
(* ================================================================== *)

Section ZoneFacts.

Import JS Forecasting Zoned.

Open Scope Z_scope.

Lemma shift_east c tz :
  0 <= tz < msPerDay -> shift (mkInstant c 0) tz = mkInstant c tz.
Proof.
  intros H. unfold shift. cbn [msOf dayOf]. rewrite Z.add_0_l.
  rewrite Z.div_small, Z.mod_small by exact H. reflexivity.
Qed.

Lemma shift_west c tz :
  - msPerDay < tz < 0 ->
  shift (mkInstant c 0) tz = mkInstant (prevDay c) (msPerDay + tz).
Proof.
  intros H. unfold shift. cbn [msOf dayOf]. rewrite Z.add_0_l.
  assert (Hq : tz / msPerDay = -1).
  { unfold msPerDay in *. Z.div_mod_to_equations. lia. }
  assert (Hr : tz mod msPerDay = msPerDay + tz).
  { unfold msPerDay in *. Z.div_mod_to_equations. lia. }
  rewrite Hq, Hr. reflexivity.
Qed.

Lemma shift_back_east c tz :
  0 <= tz < msPerDay -> shift (mkInstant c tz) (- tz) = mkInstant c 0.
Proof.
  intros H. unfold shift. cbn [msOf dayOf]. rewrite Z.add_opp_diag_r.
  reflexivity.
Qed.

Lemma shift_back_west c tz :
  - msPerDay < tz < 0 ->
  shift (mkInstant c (msPerDay + tz)) (- tz) = mkInstant (nextDay c) 0.
Proof.
  intros H. unfold shift. cbn [msOf dayOf].
  replace (msPerDay + tz + - tz) with msPerDay by lia.
  reflexivity.
Qed.

Lemma firstOfMonth_same y m :
  1 <= m <= 12 -> JSDate.firstOfMonth y (m - 1) = JSDate.mkCivil y m 1.
Proof.
  intros H. unfold JSDate.firstOfMonth.
  rewrite Z.div_small, Z.mod_small by lia. f_equal; lia.
Qed.

Lemma daysInMonth_bounds y m : 28 <= JSDate.daysInMonth y m <= 31.
Proof.
  unfold JSDate.daysInMonth.
  destruct (m =? 2); [destruct (JSDate.isLeap y); lia|].
  destruct (_ || _); lia.
Qed.

Lemma nextDay_first y m :
  nextDay (JSDate.mkCivil y m 1) = JSDate.mkCivil y m 2.
Proof.
  unfold nextDay. cbn [JSDate.year JSDate.month JSDate.day].
  pose proof (daysInMonth_bounds y m).
  replace (1 <? JSDate.daysInMonth y m) with true
    by (symmetry; apply Z.ltb_lt; lia).
  reflexivity.
Qed.

Lemma prevDay_second y m :
  prevDay (JSDate.mkCivil y m 2) = JSDate.mkCivil y m 1.
Proof. reflexivity. Qed.

Lemma prevDay_month c :
  1 <= JSDate.month c <= 12 -> 1 <= JSDate.month (prevDay c) <= 12.
Proof.
  intros H. unfold prevDay.
  destruct (1 <? JSDate.day c); cbn [JSDate.month]; [exact H|].
  destruct (JSDate.month c =? 1) eqn:E; cbn [JSDate.month]; [lia|].
  apply Z.eqb_neq in E. lia.
Qed.

Lemma localDay_month tz c :
  1 <= JSDate.month c <= 12 -> 1 <= JSDate.month (localDay tz c) <= 12.
Proof.
  intros H. unfold localDay. destruct (tz <? 0); [now apply prevDay_month|exact H].
Qed.

(** [LocalTime] of a UTC midnight in a zone without daylight saving time,
    and back. *)
Lemma LocalTime_fixed tz c :
  - msPerDay < tz < msPerDay ->
  LocalTime (fixedOffset tz) (mkInstant c 0)
  = mkInstant (localDay tz c) (if tz <? 0 then msPerDay + tz else tz).
Proof.
  intros H. unfold LocalTime, localDay. cbn [offsetAtUTC fixedOffset].
  destruct (tz <? 0) eqn:E.
  - apply Z.ltb_lt in E. apply shift_west. lia.
  - apply Z.ltb_ge in E. apply shift_east. lia.
Qed.

Lemma UTC_fixed tz c :
  - msPerDay < tz < msPerDay ->
  UTC (fixedOffset tz) (mkInstant c (if tz <? 0 then msPerDay + tz else tz))
  = mkInstant (if tz <? 0 then nextDay c else c) 0.
Proof.
  intros H. unfold UTC. cbn [offsetAtLocal fixedOffset].
  destruct (tz <? 0) eqn:E.
  - apply Z.ltb_lt in E. apply shift_back_west. lia.
  - apply Z.ltb_ge in E. apply shift_back_east. lia.
Qed.

(** [lastDate.setDate(1)] from the UTC midnight of [c]: the first of the
    local month, which west of UTC is the second of the month in UTC. *)
Lemma setDate_fixed tz c :
  - msPerDay < tz < msPerDay ->
  1 <= JSDate.month c <= 12 ->
  setDate (fixedOffset tz) (mkInstant c 0) 1
  = mkInstant (JSDate.mkCivil (JSDate.year (localDay tz c))
                              (JSDate.month (localDay tz c))
                              (if tz <? 0 then 2 else 1)) 0.
Proof.
  intros H Hm. unfold setDate. rewrite (LocalTime_fixed tz c H).
  cbn [dayOf msOf]. unfold MakeDay. cbn [addDays Z.sub Z.add Z.opp Z.pos_sub].
  rewrite firstOfMonth_same by now apply localDay_month.
  rewrite (UTC_fixed tz _ H).
  destruct (tz <? 0); [now rewrite nextDay_first|reflexivity].
Qed.

(** The date [calculateForecast] gives the forecast of step [i + 1] in a
    zone without daylight saving time is the one it gives in UTC from the
    local day of the cutoff. *)
Lemma forecastDate_fixed tz c step :
  - msPerDay < tz < msPerDay ->
  1 <= JSDate.month c <= 12 ->
  monthLabel
    (dayOf (setMonth (fixedOffset tz)
                     (setDate (fixedOffset tz) (mkInstant c 0) 1)
                     (getMonth (fixedOffset tz)
                               (setDate (fixedOffset tz) (mkInstant c 0) 1)
                      + step)))
  = monthLabel (JSDate.addMonths (JSDate.setDate1 (localDay tz c)) step).
Proof.
  intros H Hm. rewrite (setDate_fixed tz c H Hm).
  set (y := JSDate.year (localDay tz c)). set (m := JSDate.month (localDay tz c)).
  unfold setMonth, getMonth.
  assert (HL : LocalTime (fixedOffset tz)
                 (mkInstant (JSDate.mkCivil y m (if tz <? 0 then 2 else 1)) 0)
               = mkInstant (JSDate.mkCivil y m 1)
                           (if tz <? 0 then msPerDay + tz else tz)).
  { rewrite LocalTime_fixed by exact H. unfold localDay.
    destruct (tz <? 0); reflexivity. }
  rewrite HL. cbn [dayOf msOf JSDate.year JSDate.month JSDate.day].
  unfold MakeDay. cbn [addDays Z.sub Z.add Z.opp Z.pos_sub].
  rewrite (UTC_fixed tz _ H). cbn [dayOf].
  unfold JSDate.addMonths, JSDate.setDate1.
  cbn [JSDate.year JSDate.month JSDate.day]. fold y. fold m.
  destruct (tz <? 0); [|reflexivity].
  unfold JSDate.firstOfMonth. rewrite nextDay_first. apply monthLabel_day.
Qed.

(** The point [calculateForecast] pushes at step [i + 1] in a zone without
    daylight saving time is the one it pushes in UTC from the local day of
    the cutoff. *)
Lemma futurePoint_fixed tz c multiplier stdDev i val :
  - msPerDay < tz < msPerDay ->
  1 <= JSDate.month c <= 12 ->
  Zoned.futurePoint (fixedOffset tz) (setDate (fixedOffset tz) (mkInstant c 0) 1)
                    multiplier stdDev i val
  = Forecasting.futurePoint (JSDate.setDate1 (localDay tz c)) multiplier stdDev i val.
Proof.
  intros H Hm.
  pose proof (forecastDate_fixed tz c (Z.of_nat (S i)) H Hm) as Hd.
  unfold monthLabel in Hd.
  unfold Zoned.futurePoint, Forecasting.futurePoint. cbv zeta.
  unfold isoDate. rewrite Hd. reflexivity.
Qed.

Lemma pushForecasts_fixed tz c multiplier stdDev vals :
  - msPerDay < tz < msPerDay ->
  1 <= JSDate.month c <= 12 ->
  forall i,
    Zoned.pushForecasts (fixedOffset tz)
                        (Some (setDate (fixedOffset tz) (mkInstant c 0) 1))
                        multiplier stdDev i vals
    = Some (futureFrom (JSDate.setDate1 (localDay tz c)) multiplier stdDev i vals).
Proof.
  intros H Hm. induction vals as [|v vals IH]; intros i; cbn [Zoned.pushForecasts futureFrom].
  - reflexivity.
  - rewrite IH, (futurePoint_fixed tz c _ _ _ _ H Hm). reflexivity.
Qed.

Lemma pushForecasts_invalid z multiplier stdDev i vals :
  Zoned.pushForecasts z None multiplier stdDev i vals
  = Forecasting.pushForecasts None multiplier stdDev i vals.
Proof. destruct vals; reflexivity. Qed.

End ZoneFacts.

Section ZonedForecast.

Import JS Forecasting Zoned.

Open Scope Z_scope.

(** The result of [calculateForecast] in a zone without daylight saving
    time, when there is a forecast to make. *)
Lemma calculateForecast_fixed_shape tz hist horizon cutoff conf method hw auto c :
  - msPerDay < tz < msPerDay ->
  (3 <= length (trainingOf hist cutoff))%nat ->
  JSDate.parse cutoff = Some c ->
  Zoned.calculateForecast (fixedOffset tz) hist horizon cutoff conf method hw auto
  = Some (map (historicalPoint cutoff) hist
          ++ futureFrom (JSDate.setDate1 (localDay tz c)) (getZMultiplier conf)
               (getStdDev (map quantity (trainingOf hist cutoff))) 0
               (forecastValuesOf method (map quantity (trainingOf hist cutoff))
                                 horizon hw auto)).
Proof.
  intros H Htrain Hparse. unfold Zoned.calculateForecast.
  pose proof (trainingOf_length hist cutoff) as Hle.
  replace (Nat.ltb (length hist) 3) with false
    by (symmetry; apply Nat.ltb_ge; lia).
  rewrite (parse_nonempty _ _ Hparse). simpl orb. cbv iota.
  fold (trainingOf hist cutoff).
  replace (Nat.ltb (length (trainingOf hist cutoff)) 3) with false
    by (symmetry; apply Nat.ltb_ge; lia).
  unfold parse. rewrite Hparse. cbn [option_map].
  destruct (isoDate_parse cutoff c Hparse) as [[_ [Hm _]] _].
  now rewrite (pushForecasts_fixed tz c _ _ _ H Hm).
Qed.

(** In UTC the function is [calculateForecast] of [Forecasting]. *)
Lemma calculateForecast_utc hist horizon cutoff conf method hw auto :
  Zoned.calculateForecast utc hist horizon cutoff conf method hw auto
  = Forecasting.calculateForecast hist horizon cutoff conf method hw auto.
Proof.
  unfold Zoned.calculateForecast, Forecasting.calculateForecast.
  destruct (_ || _); [reflexivity|].
  destruct (Nat.ltb _ 3); [reflexivity|].
  unfold parse. destruct (JSDate.parse cutoff) as [c|] eqn:Hparse; cbn [option_map].
  - destruct (isoDate_parse cutoff c Hparse) as [[_ [Hm _]] _].
    change utc with (fixedOffset 0).
    rewrite (pushForecasts_fixed 0 c _ _ _ ltac:(unfold msPerDay; lia) Hm).
    now rewrite pushForecasts_some.
  - now rewrite pushForecasts_invalid.
Qed.

Lemma localDay_index tz c :
  calendarDay c ->
  monthIndex (localDay tz c)
  = monthIndex c - (if monthBehind tz c then 1 else 0).
Proof.
  intros [_ [Hm Hd]]. unfold localDay, monthBehind.
  destruct (tz <? 0); cbn [andb]; [|lia].
  unfold prevDay, monthIndex.
  destruct (1 <? JSDate.day c) eqn:E1.
  - apply Z.ltb_lt in E1. cbn [JSDate.year JSDate.month].
    replace (JSDate.day c =? 1) with false by (symmetry; apply Z.eqb_neq; lia).
    lia.
  - apply Z.ltb_ge in E1.
    replace (JSDate.day c =? 1) with true by (symmetry; apply Z.eqb_eq; lia).
    destruct (JSDate.month c =? 1) eqn:Em; cbn [JSDate.year JSDate.month].
    + apply Z.eqb_eq in Em. lia.
    + lia.
Qed.

End ZonedForecast.

(** X27. In a time zone with a constant offset from UTC, when
    [calculateForecast] forecasts (at least 3 training points, a cutoff
    that is a calendar day of the year 1000 or later, a horizon within the
    year 9999), the point of step [i + 1] is dated on the first day of a
    month.  At or east of UTC, and west of UTC from a cutoff that is not a
    first of the month, that month is [i + 1] months after the month of
    the cutoff.  West of UTC from a cutoff on a first of the month it is
    [i] months after: the first forecast carries the month of the cutoff
    itself. *)
Theorem calculateForecast_months :
  forall (tz : Z) (historicalData : list DataPoint) (horizon : nat)
         (cutoff : string) (conf : R) (method : ForecastMethodology)
         (hw : Forecasting.HWMethod) (auto : bool) (c : JSDate.civil) (i : nat),
    (- Zoned.msPerDay < tz < Zoned.msPerDay)%Z ->
    (3 <= length (trainingOf historicalData cutoff))%nat ->
    JSDate.parse cutoff = Some c ->
    (1000 <= JSDate.year c)%Z ->
    (monthIndex c + Z.of_nat horizon <= 12 * 9999 + 12)%Z ->
    (i < horizon)%nat ->
    exists pts p first,
      Zoned.calculateForecast (Zoned.fixedOffset tz) historicalData horizon
                              cutoff conf method hw auto
      = Some pts
      /\ nth_error pts (length historicalData + i) = Some p
      /\ JSDate.parse (date p) = Some first
      /\ JSDate.day first = 1%Z
      /\ (1 <= JSDate.month first <= 12)%Z
      /\ monthIndex first
         = (monthIndex c + Z.of_nat (S i)
            - (if monthBehind tz c then 1 else 0))%Z.
Proof.
  intros tz hist horizon cutoff conf method hw auto c i Htz Htrain Hparse
         Hy1000 Hrange Hi.
  rewrite (calculateForecast_fixed_shape tz _ _ _ _ _ _ _ c Htz Htrain Hparse).
  destruct (isoDate_parse cutoff c Hparse) as [Hcal _].
  pose proof (localDay_index tz c Hcal) as Hl.
  destruct Hcal as [Hy [Hm _]].
  set (vals := Forecasting.forecastValuesOf method _ horizon hw auto).
  assert (Hvals : (i < length vals)%nat)
    by (unfold vals; now rewrite forecastValuesOf_length).
  set (l := localDay tz c) in *.
  set (t := JSDate.firstOfMonth (JSDate.year l) (JSDate.month l - 1 + Z.of_nat (S i))).
  destruct (firstOfMonth_index (JSDate.year l) (JSDate.month l - 1 + Z.of_nat (S i)))
    as [Hidx Hmonth].
  fold t in Hidx, Hmonth.
  assert (Ht : monthIndex t
               = (monthIndex c + Z.of_nat (S i)
                  - (if monthBehind tz c then 1 else 0))%Z).
  { unfold monthIndex in *. lia. }
  eexists. eexists. exists t. split; [reflexivity|]. split.
  { rewrite nth_error_app2 by (rewrite length_map; lia).
    rewrite length_map, Nat.add_comm, Nat.add_sub.
    apply futureFrom_nth. exact Hvals. }
  split; [|split; [reflexivity|split; [exact Hmonth|exact Ht]]].
  cbn [date Forecasting.futurePoint Nat.add].
  unfold JSDate.addMonths, JSDate.setDate1. cbn [JSDate.year JSDate.month].
  fold t. fold (monthLabel t).
  assert (Hty : (1000 <= JSDate.year t <= 9999)%Z).
  { unfold monthIndex in *. destruct (monthBehind tz c); lia. }
  rewrite (parse_monthLabel t Hty Hmonth).
  unfold t, JSDate.firstOfMonth. reflexivity.
Qed.

Lemma calculateForecast_months_witness :
  let hist := [mkDataPoint "2024-09-01" "A" "c" 5; mkDataPoint "2024-10-01" "A" "c" 6;
               mkDataPoint "2024-11-01" "A" "c" 9] in
  exists pts p,
    Zoned.calculateForecast (Zoned.fixedOffset (-18000000)) hist 3 "2024-11-01" 95
                            LINEAR Forecasting.multiplicative false = Some pts
    /\ nth_error pts (length hist + 0) = Some p
    /\ JSDate.parse (date p) = Some (JSDate.mkCivil 2024 11 1).
Proof.
  intros hist.
  destruct (calculateForecast_months (-18000000) hist 3 "2024-11-01" 95 LINEAR
              Forecasting.multiplicative false (JSDate.mkCivil 2024 11 1) 0)
    as [pts [p [first [H1 [H2 [H3 [H4 [H5 H6]]]]]]]];
    [unfold Zoned.msPerDay; lia|simpl; lia|reflexivity|simpl; lia
    |vm_compute; discriminate|lia|].
  exists pts, p. split; [exact H1|]. split; [exact H2|].
  rewrite H3. f_equal. destruct first as [y m d].
  unfold monthIndex, monthBehind in H6.
  cbn [JSDate.year JSDate.month JSDate.day] in *.
  change ((-18000000 <? 0) && (1 =? 1))%Z with true in H6.
  f_equal; lia.
Defined.

Section ZonedAggregate.

Import JS Forecasting Zoned.

Open Scope Z_scope.

Lemma iter_nextDay y m n :
  1 <= m <= 12 -> (n <= 30)%nat ->
  Nat.iter n nextDay (JSDate.mkCivil y m 1)
  = if 1 + Z.of_nat n <=? JSDate.daysInMonth y m
    then JSDate.mkCivil y m (1 + Z.of_nat n)
    else JSDate.mkCivil (JSDate.year (JSDate.firstOfMonth y m))
                        (JSDate.month (JSDate.firstOfMonth y m))
                        (1 + Z.of_nat n - JSDate.daysInMonth y m).
Proof.
  intros Hm. pose proof (daysInMonth_bounds y m) as Hdim.
  induction n as [|n IH]; intros Hn.
  - change (Nat.iter 0 nextDay ?x) with x. cbn [Z.of_nat].
    replace (1 + 0 <=? JSDate.daysInMonth y m) with true
      by (symmetry; apply Z.leb_le; lia).
    reflexivity.
  - rewrite Nat.iter_succ, IH by lia. clear IH.
    rewrite Nat2Z.inj_succ.
    destruct (1 + Z.of_nat n <=? JSDate.daysInMonth y m) eqn:E.
    + apply Z.leb_le in E. unfold nextDay.
      cbn [JSDate.year JSDate.month JSDate.day].
      destruct (1 + Z.of_nat n <? JSDate.daysInMonth y m) eqn:E'.
      * apply Z.ltb_lt in E'.
        replace (1 + Z.succ (Z.of_nat n) <=? JSDate.daysInMonth y m) with true
          by (symmetry; apply Z.leb_le; lia).
        f_equal. lia.
      * apply Z.ltb_ge in E'.
        replace (1 + Z.succ (Z.of_nat n) <=? JSDate.daysInMonth y m) with false
          by (symmetry; apply Z.leb_gt; lia).
        unfold JSDate.firstOfMonth. cbn [JSDate.year JSDate.month].
        destruct (m =? 12) eqn:E12.
        -- apply Z.eqb_eq in E12. subst m. f_equal; try reflexivity; lia.
        -- apply Z.eqb_neq in E12.
           rewrite Z.div_small, Z.mod_small by lia. f_equal; lia.
    + apply Z.leb_gt in E.
      replace (1 + Z.succ (Z.of_nat n) <=? JSDate.daysInMonth y m) with false
        by (symmetry; apply Z.leb_gt; lia).
      unfold nextDay. cbn [JSDate.year JSDate.month JSDate.day].
      set (nx := JSDate.firstOfMonth y m).
      pose proof (daysInMonth_bounds (JSDate.year nx) (JSDate.month nx)).
      replace (1 + Z.of_nat n - JSDate.daysInMonth y m
               <? JSDate.daysInMonth (JSDate.year nx) (JSDate.month nx))
        with true by (symmetry; apply Z.ltb_lt; lia).
      f_equal. lia.
Qed.

(** [MakeDay] on the day of a calendar day is [setMonth] of [Aggregate]. *)
Lemma MakeDay_setMonth c mi :
  1 <= JSDate.day c <= 31 ->
  MakeDay (JSDate.year c) mi (JSDate.day c) = Aggregate.setMonth c mi.
Proof.
  intros Hd. unfold MakeDay, Aggregate.setMonth. cbv zeta.
  set (target := JSDate.firstOfMonth (JSDate.year c) mi).
  destruct (firstOfMonth_index (JSDate.year c) mi) as [_ Hm]. fold target in Hm.
  assert (Et : target = JSDate.mkCivil (JSDate.year target) (JSDate.month target) 1)
    by reflexivity.
  assert (E : addDays target (JSDate.day c - 1)
              = Nat.iter (Z.to_nat (JSDate.day c - 1)) nextDay target).
  { destruct (JSDate.day c - 1) as [|p|p] eqn:Ep; [reflexivity| |lia].
    cbn [addDays]. rewrite Pos2Nat.inj_iter. reflexivity. }
  rewrite E, Et, iter_nextDay by lia.
  rewrite Z2Nat.id by lia.
  replace (1 + (JSDate.day c - 1)) with (JSDate.day c) by lia.
  reflexivity.
Qed.

Lemma prevDay_day c :
  calendarDay c -> 1 <= JSDate.day (prevDay c) <= 31.
Proof.
  intros [_ [Hm Hd]]. unfold prevDay.
  pose proof (daysInMonth_bounds (JSDate.year c) (JSDate.month c)).
  destruct (1 <? JSDate.day c) eqn:E; cbn [JSDate.day].
  - apply Z.ltb_lt in E. lia.
  - destruct (JSDate.month c =? 1); cbn [JSDate.day]; [lia|].
    pose proof (daysInMonth_bounds (JSDate.year c) (JSDate.month c - 1)). lia.
Qed.

(** The day [calculateForecastAggregateAllocate] reaches at step [step] in
    a zone without daylight saving time. *)
Lemma aggregateDate_fixed tz c step :
  - msPerDay < tz < msPerDay ->
  calendarDay c ->
  dayOf (setMonth (fixedOffset tz) (mkInstant c 0)
                  (getMonth (fixedOffset tz) (mkInstant c 0) + step))
  = if tz <? 0
    then nextDay (Aggregate.setMonth (prevDay c)
                                     (JSDate.month (prevDay c) - 1 + step))
    else Aggregate.setMonth c (JSDate.month c - 1 + step).
Proof.
  intros H Hcal. unfold setMonth, getMonth.
  rewrite (LocalTime_fixed tz c H). cbn [dayOf msOf].
  assert (Hd : 1 <= JSDate.day (localDay tz c) <= 31).
  { unfold localDay. destruct (tz <? 0); [now apply prevDay_day|].
    destruct Hcal as [_ [_ Hd]].
    pose proof (daysInMonth_bounds (JSDate.year c) (JSDate.month c)). lia. }
  rewrite (MakeDay_setMonth (localDay tz c) _ Hd).
  rewrite (UTC_fixed tz _ H). cbn [dayOf]. unfold localDay.
  destruct (tz <? 0); reflexivity.
Qed.

(** West of UTC from a day that is not a first of the month: the same day
    as in UTC. *)
Lemma nextDay_setMonth_prevDay c mi :
  calendarDay c -> 2 <= JSDate.day c ->
  nextDay (Aggregate.setMonth (prevDay c) mi) = Aggregate.setMonth c mi.
Proof.
  intros [_ [Hm Hd]] H2. unfold prevDay.
  replace (1 <? JSDate.day c) with true by (symmetry; apply Z.ltb_lt; lia).
  unfold Aggregate.setMonth. cbv zeta.
  cbn [JSDate.year JSDate.month JSDate.day].
  set (target := JSDate.firstOfMonth (JSDate.year c) mi).
  set (dim := JSDate.daysInMonth (JSDate.year target) (JSDate.month target)).
  set (next := JSDate.firstOfMonth (JSDate.year target) (JSDate.month target)).
  pose proof (daysInMonth_bounds (JSDate.year target) (JSDate.month target)) as Hdim.
  fold dim in Hdim.
  pose proof (daysInMonth_bounds (JSDate.year c) (JSDate.month c)) as Hdc.
  destruct (firstOfMonth_index (JSDate.year c) mi) as [_ Hmt]. fold target in Hmt.
  destruct (JSDate.day c - 1 <=? dim) eqn:E1.
  - apply Z.leb_le in E1. unfold nextDay.
    cbn [JSDate.year JSDate.month JSDate.day]. fold dim.
    destruct (JSDate.day c - 1 <? dim) eqn:E2.
    + apply Z.ltb_lt in E2.
      replace (JSDate.day c <=? dim) with true by (symmetry; apply Z.leb_le; lia).
      f_equal. lia.
    + apply Z.ltb_ge in E2.
      replace (JSDate.day c <=? dim) with false by (symmetry; apply Z.leb_gt; lia).
      unfold next, JSDate.firstOfMonth. cbn [JSDate.year JSDate.month].
      destruct (JSDate.month target =? 12) eqn:E12.
      * apply Z.eqb_eq in E12. rewrite E12. f_equal; try reflexivity; lia.
      * apply Z.eqb_neq in E12.
        rewrite Z.div_small, Z.mod_small by lia. f_equal; lia.
  - apply Z.leb_gt in E1.
    replace (JSDate.day c <=? dim) with false by (symmetry; apply Z.leb_gt; lia).
    unfold nextDay. cbn [JSDate.year JSDate.month JSDate.day].
    pose proof (daysInMonth_bounds (JSDate.year next) (JSDate.month next)).
    replace (JSDate.day c - 1 - dim
             <? JSDate.daysInMonth (JSDate.year next) (JSDate.month next))
      with true by (symmetry; apply Z.ltb_lt; lia).
    f_equal. lia.
Qed.

End ZonedAggregate.

Section ZonedAggregateBehind.

Import JS Forecasting Zoned.

Open Scope Z_scope.

Lemma monthAfter_monthAfter c a b :
  monthAfter (monthAfter c a) b = monthAfter c (a + b).
Proof.
  unfold monthAfter, JSDate.firstOfMonth. cbn [JSDate.year JSDate.month].
  f_equal; Z.div_mod_to_equations; lia.
Qed.

Lemma monthAfter_month c k : 1 <= JSDate.month (monthAfter c k) <= 12.
Proof. unfold monthAfter. apply firstOfMonth_index. Qed.

(** The day before a first of the month is the last day of the month
    before. *)
Lemma prevDay_first c :
  calendarDay c -> JSDate.day c = 1 ->
  prevDay c
  = JSDate.mkCivil (JSDate.year (monthAfter c (-1)))
                   (JSDate.month (monthAfter c (-1)))
                   (daysOf (monthAfter c (-1))).
Proof.
  intros [_ [Hm _]] Hd. unfold prevDay. rewrite Hd.
  change (1 <? 1) with false. cbv iota.
  unfold daysOf, monthAfter, JSDate.firstOfMonth.
  cbn [JSDate.year JSDate.month].
  destruct (JSDate.month c =? 1) eqn:E.
  - apply Z.eqb_eq in E. rewrite E.
    change ((1 - 1 + -1) / 12) with (-1). change ((1 - 1 + -1) mod 12 + 1) with 12.
    replace (JSDate.year c + -1) with (JSDate.year c - 1) by lia.
    reflexivity.
  - apply Z.eqb_neq in E.
    replace ((JSDate.month c - 1 + -1) / 12) with 0
      by (Z.div_mod_to_equations; lia).
    replace ((JSDate.month c - 1 + -1) mod 12 + 1) with (JSDate.month c - 1)
      by (Z.div_mod_to_equations; lia).
    rewrite Z.add_0_r. reflexivity.
Qed.

(** West of UTC from a first of the month: a month behind when the month
    before the latest date is shorter than the month reached. *)
Lemma behind_label c step :
  calendarDay c -> JSDate.day c = 1 ->
  monthLabel (nextDay (Aggregate.setMonth (prevDay c)
                                          (JSDate.month (prevDay c) - 1 + step)))
  = monthLabel (if daysOf (monthAfter c (-1)) <? daysOf (monthAfter c (step - 1))
                then monthAfter c (step - 1)
                else monthAfter c step).
Proof.
  intros Hcal Hd. rewrite (prevDay_first c Hcal Hd).
  set (P := monthAfter c (-1)).
  unfold Aggregate.setMonth. cbv zeta. cbn [JSDate.year JSDate.month JSDate.day].
  fold (monthAfter P step).
  assert (ET : monthAfter P step = monthAfter c (step - 1)).
  { unfold P. rewrite monthAfter_monthAfter. f_equal. lia. }
  rewrite ET. set (T := monthAfter c (step - 1)).
  fold (daysOf T).
  assert (EN : JSDate.firstOfMonth (JSDate.year T) (JSDate.month T) = monthAfter c step).
  { transitivity (monthAfter T 1).
    - unfold monthAfter. f_equal. lia.
    - unfold T. rewrite monthAfter_monthAfter. f_equal. lia. }
  rewrite EN. set (N := monthAfter c step).
  pose proof (daysInMonth_bounds (JSDate.year P) (JSDate.month P)) as HP.
  pose proof (daysInMonth_bounds (JSDate.year T) (JSDate.month T)) as HT.
  pose proof (daysInMonth_bounds (JSDate.year N) (JSDate.month N)) as HN.
  fold (daysOf P) in HP. fold (daysOf T) in HT.
  destruct (daysOf P <? daysOf T) eqn:E1.
  - apply Z.ltb_lt in E1.
    replace (daysOf P <=? daysOf T) with true by (symmetry; apply Z.leb_le; lia).
    unfold nextDay. cbn [JSDate.year JSDate.month JSDate.day]. fold (daysOf T).
    replace (daysOf P <? daysOf T) with true by (symmetry; apply Z.ltb_lt; lia).
    destruct T as [yT mT dT]. apply monthLabel_day.
  - apply Z.ltb_ge in E1.
    destruct (daysOf P <=? daysOf T) eqn:E2.
    + apply Z.leb_le in E2.
      unfold nextDay. cbn [JSDate.year JSDate.month JSDate.day]. fold (daysOf T).
      replace (daysOf P <? daysOf T) with false by (symmetry; apply Z.ltb_ge; lia).
      pose proof (monthAfter_month c (step - 1)) as HmT. fold T in HmT.
      assert (EN' : N = JSDate.firstOfMonth (JSDate.year T) (JSDate.month T))
        by (symmetry; exact EN).
      rewrite EN'. unfold JSDate.firstOfMonth.
      destruct (JSDate.month T =? 12) eqn:E12.
      * apply Z.eqb_eq in E12. rewrite E12. reflexivity.
      * apply Z.eqb_neq in E12.
        rewrite Z.div_small, Z.mod_small by lia.
        rewrite Z.add_0_r. reflexivity.
    + apply Z.leb_gt in E2.
      unfold nextDay. cbn [JSDate.year JSDate.month JSDate.day].
      replace (daysOf P - daysOf T
               <? JSDate.daysInMonth (JSDate.year N) (JSDate.month N))
        with true by (symmetry; apply Z.ltb_lt; lia).
      destruct N as [yN mN dN]. apply monthLabel_day.
Qed.

End ZonedAggregateBehind.

Section ZonedAggregateShape.

Import JS Forecasting Zoned.

Open Scope Z_scope.

Lemma pushAggregate_nth z ld multiplier sd vals :
  forall idx k,
    (k < length vals)%nat ->
    exists pts,
      Zoned.pushAggregate z (Some ld) multiplier sd idx vals = Some pts
      /\ length pts = length vals
      /\ nth_error pts k
         = Some (Zoned.aggregateFuturePoint z ld multiplier sd (idx + k)
                                            (nth k vals 0%R)).
Proof.
  induction vals as [|v vals IH]; intros idx k Hk; cbn [length] in Hk; [lia|].
  cbn [Zoned.pushAggregate].
  destruct vals as [|v' vals'] eqn:Ev.
  - cbn [Zoned.pushAggregate]. eexists. split; [reflexivity|].
    split; [reflexivity|].
    destruct k; [|cbn [length] in Hk; lia]. now rewrite Nat.add_0_r.
  - rewrite <- Ev in *. destruct k as [|k].
    + destruct (IH (S idx) 0%nat) as [pts [E [Hl _]]]; [rewrite Ev; simpl; lia|].
      rewrite E. eexists. split; [reflexivity|]. split; [simpl; now rewrite Hl|].
      now rewrite Nat.add_0_r.
    + destruct (IH (S idx) k) as [pts [E [Hl Hn]]]; [lia|].
      rewrite E. eexists. split; [reflexivity|]. split; [simpl; now rewrite Hl|].
      cbn [nth_error nth]. rewrite Hn. do 2 f_equal. lia.
Qed.

(** At or east of UTC, and west of UTC from a day that is not a first of
    the month, the day reached is the one [setMonth] reaches in UTC. *)
Lemma aggregateDate_not_behind tz c step :
  - msPerDay < tz < msPerDay ->
  calendarDay c ->
  monthBehind tz c = false ->
  dayOf (setMonth (fixedOffset tz) (mkInstant c 0)
                  (getMonth (fixedOffset tz) (mkInstant c 0) + step))
  = Aggregate.setMonth c (JSDate.month c - 1 + step).
Proof.
  intros H Hcal Hb. rewrite (aggregateDate_fixed tz c step H Hcal).
  unfold monthBehind in Hb. destruct (tz <? 0); [|reflexivity].
  cbn [andb] in Hb. apply Z.eqb_neq in Hb.
  assert (H2 : 2 <= JSDate.day c) by (destruct Hcal as [_ [_ Hd]]; lia).
  assert (Em : JSDate.month (prevDay c) = JSDate.month c).
  { unfold prevDay.
    replace (1 <? JSDate.day c) with true by (symmetry; apply Z.ltb_lt; lia).
    reflexivity. }
  rewrite Em. now apply nextDay_setMonth_prevDay.
Qed.

Lemma setMonth_label c step :
  monthLabel (Aggregate.setMonth c (JSDate.month c - 1 + step))
  = monthLabel (if JSDate.day c <=? daysOf (monthAfter c step)
                then monthAfter c step
                else monthAfter c (step + 1)).
Proof.
  unfold Aggregate.setMonth. cbv zeta. fold (monthAfter c step).
  set (T := monthAfter c step). fold (daysOf T).
  assert (EN : JSDate.firstOfMonth (JSDate.year T) (JSDate.month T)
               = monthAfter c (step + 1)).
  { transitivity (monthAfter T 1).
    - unfold monthAfter. f_equal. lia.
    - unfold T. now rewrite monthAfter_monthAfter. }
  rewrite EN. set (N := monthAfter c (step + 1)).
  destruct (JSDate.day c <=? daysOf T).
  - destruct T as [yT mT dT]. apply monthLabel_day.
  - destruct N as [yN mN dN]. apply monthLabel_day.
Qed.

(** In UTC the function is [calculateForecastAggregateAllocate] of
    [Aggregate]. *)
Lemma aggregateFuturePoint_utc c multiplier sd idx v :
  calendarDay c ->
  Zoned.aggregateFuturePoint utc (mkInstant c 0) multiplier sd idx v
  = Aggregate.aggregateFuturePoint c multiplier sd idx v.
Proof.
  intros Hcal.
  pose proof (aggregateDate_not_behind 0 c (Z.of_nat (S idx))
                ltac:(unfold msPerDay; lia) Hcal eq_refl) as Hd.
  unfold Zoned.aggregateFuturePoint, Aggregate.aggregateFuturePoint. cbv zeta.
  unfold isoDate. change utc with (fixedOffset 0). rewrite Hd. reflexivity.
Qed.

Lemma pushAggregate_utc c multiplier sd vals :
  calendarDay c ->
  forall idx,
    Zoned.pushAggregate utc (Some (mkInstant c 0)) multiplier sd idx vals
    = Aggregate.pushAggregate (Some c) multiplier sd idx vals.
Proof.
  intros Hcal. induction vals as [|v vals IH]; intros idx;
    cbn [Zoned.pushAggregate Aggregate.pushAggregate]; [reflexivity|].
  now rewrite IH, (aggregateFuturePoint_utc c _ _ _ _ Hcal).
Qed.

Lemma calculateForecastAggregateAllocate_utc data horizon conf hw :
  Zoned.calculateForecastAggregateAllocate utc data horizon conf hw
  = Aggregate.calculateForecastAggregateAllocate data horizon conf hw.
Proof.
  unfold Zoned.calculateForecastAggregateAllocate,
         Aggregate.calculateForecastAggregateAllocate.
  destruct (Nat.eqb (length data) 0); [reflexivity|]. cbv zeta.
  unfold parse.
  destruct (JSDate.parse (App.lastDateOf (Aggregate.aggregateData data)))
    as [c|] eqn:Hc; cbn [option_map].
  - destruct (isoDate_parse _ c Hc) as [Hcal _].
    now rewrite (pushAggregate_utc c _ _ _ Hcal).
  - destruct (runHoltWinters _ horizon 12 hw); reflexivity.
Qed.

End ZonedAggregateShape.

(** X23. In a time zone with a constant offset from UTC,
    [calculateForecastAggregateAllocate] labels the forecast of step
    [i + 1] as follows.  At or east of UTC, and west of UTC from a latest
    date that is not a first of the month: with the month [setMonth]
    reaches from the latest date without resetting the day, that is the
    month [i + 1] months later when it has that day of the month and the
    month after it otherwise (from a 31st of January, step 1 is labelled
    March); from a day up to the 28th this is the month [i + 1] months
    later.  West of UTC from a first of the month: with the month [i]
    months later when the month before the latest date is shorter than
    it (from the first of March, step 1 is labelled March), and with the
    month [i + 1] months later otherwise. *)
Theorem calculateForecastAggregateAllocate_months :
  forall (tz : Z) (data : list DataPoint) (horizon : nat) (conf : R)
         (hw : Forecasting.HWMethod) (c : JSDate.civil) (i : nat),
    (- Zoned.msPerDay < tz < Zoned.msPerDay)%Z ->
    JSDate.parse (App.lastDateOf (Aggregate.aggregateData data)) = Some c ->
    (i < horizon)%nat ->
    exists pts p,
      Zoned.calculateForecastAggregateAllocate (Zoned.fixedOffset tz)
                                               data horizon conf hw
      = Some pts
      /\ nth_error pts (length (Aggregate.aggregateData data) + i) = Some p
      /\ (monthBehind tz c = false ->
          date p
          = monthLabel
              (if (JSDate.day c <=? daysOf (monthAfter c (Z.of_nat (S i))))%Z
               then monthAfter c (Z.of_nat (S i))
               else monthAfter c (Z.of_nat (S i) + 1))
          /\ ((JSDate.day c <= 28)%Z ->
              date p = monthLabel (monthAfter c (Z.of_nat (S i)))))
      /\ (monthBehind tz c = true ->
          date p
          = monthLabel
              (if (daysOf (monthAfter c (-1)) <? daysOf (monthAfter c (Z.of_nat i)))%Z
               then monthAfter c (Z.of_nat i)
               else monthAfter c (Z.of_nat (S i)))).
Proof.
  intros tz data horizon conf hw c i Htz Hc Hi.
  destruct (isoDate_parse _ c Hc) as [Hcal _].
  unfold Zoned.calculateForecastAggregateAllocate.
  destruct data as [|d0 data0] eqn:Edata; [discriminate|].
  rewrite <- Edata in *. replace (Nat.eqb (length data) 0) with false
    by (rewrite Edata; reflexivity).
  cbv zeta. unfold Zoned.parse. rewrite Hc. cbn [option_map].
  set (agg := Aggregate.aggregateData data) in *.
  set (vals := Forecasting.runHoltWinters (map quantity agg) horizon 12 hw).
  assert (Hvals : (i < length vals)%nat)
    by (unfold vals; now rewrite runHoltWinters_length).
  destruct (pushAggregate_nth (Zoned.fixedOffset tz) (Zoned.mkInstant c 0)
              (Forecasting.getZMultiplier conf)
              (Forecasting.getStdDev (map quantity agg)) vals 0 i Hvals)
    as [future [E [_ Hn]]].
  rewrite E. eexists. eexists. split; [reflexivity|]. split.
  { rewrite nth_error_app2 by (rewrite length_map; lia).
    rewrite length_map.
    replace (length agg + i - length agg)%nat with i by lia.
    exact Hn. }
  cbn [date Zoned.aggregateFuturePoint Nat.add].
  unfold Zoned.isoDate.
  match goal with
  | |- context [Zoned.dayOf ?t] => fold (monthLabel (Zoned.dayOf t))
  end.
  split.
  - intros Hb.
    rewrite (aggregateDate_not_behind tz c _ Htz Hcal Hb), setMonth_label.
    split; [reflexivity|].
    intros H28.
    pose proof (daysInMonth_bounds (JSDate.year (monthAfter c (Z.of_nat (S i))))
                                   (JSDate.month (monthAfter c (Z.of_nat (S i)))))
      as Hdim.
    fold (daysOf (monthAfter c (Z.of_nat (S i)))) in Hdim.
    replace (JSDate.day c <=? daysOf (monthAfter c (Z.of_nat (S i))))%Z
      with true by (symmetry; apply Z.leb_le; lia).
    reflexivity.
  - intros Hb. rewrite (aggregateDate_fixed tz c _ Htz Hcal).
    unfold monthBehind in Hb. apply andb_prop in Hb. destruct Hb as [Hw Hd].
    rewrite Hw. apply Z.eqb_eq in Hd.
    rewrite (behind_label c _ Hcal Hd).
    replace (Z.of_nat (S i) - 1)%Z with (Z.of_nat i) by lia.
    reflexivity.
Qed.

Lemma calculateForecastAggregateAllocate_months_witness :
  exists pts p,
    Zoned.calculateForecastAggregateAllocate
      (Zoned.fixedOffset (-18000000))
      [mkDataPoint "2023-03-01" "A" "c" 5] 1 95 Forecasting.additive = Some pts
    /\ nth_error pts 1 = Some p
    /\ date p = "2023-03-01"%string.
Proof.
  destruct (calculateForecastAggregateAllocate_months
              (-18000000) [mkDataPoint "2023-03-01" "A" "c" 5] 1 95
              Forecasting.additive (JSDate.mkCivil 2023 3 1) 0)
    as [pts [p [H1 [H2 [_ H3]]]]];
    [unfold Zoned.msPerDay; lia|vm_compute; reflexivity|lia|].
  exists pts, p. split; [exact H1|]. split; [exact H2|].
  rewrite (H3 eq_refl). vm_compute. reflexivity.
Defined.

Section ZoneGeneral.

Import JS Forecasting Zoned.

Open Scope Z_scope.

Lemma pushForecasts_nth z ld multiplier sd vals :
  forall idx k,
    (k < length vals)%nat ->
    exists pts,
      Zoned.pushForecasts z (Some ld) multiplier sd idx vals = Some pts
      /\ length pts = length vals
      /\ nth_error pts k
         = Some (Zoned.futurePoint z ld multiplier sd (idx + k) (nth k vals 0%R)).
Proof.
  induction vals as [|v vals IH]; intros idx k Hk; cbn [length] in Hk; [lia|].
  cbn [Zoned.pushForecasts].
  destruct vals as [|v' vals'] eqn:Ev.
  - cbn [Zoned.pushForecasts]. eexists. split; [reflexivity|].
    split; [reflexivity|].
    destruct k; [|cbn [length] in Hk; lia]. now rewrite Nat.add_0_r.
  - rewrite <- Ev in *. destruct k as [|k].
    + destruct (IH (S idx) 0%nat) as [pts [E [Hl _]]]; [rewrite Ev; simpl; lia|].
      rewrite E. eexists. split; [reflexivity|]. split; [simpl; now rewrite Hl|].
      now rewrite Nat.add_0_r.
    + destruct (IH (S idx) k) as [pts [E [Hl Hn]]]; [lia|].
      rewrite E. eexists. split; [reflexivity|]. split; [simpl; now rewrite Hl|].
      cbn [nth_error nth]. rewrite Hn. do 2 f_equal. lia.
Qed.

Lemma monthAfter_index c k :
  monthIndex (monthAfter c k) = monthIndex c + k.
Proof.
  unfold monthAfter.
  destruct (firstOfMonth_index (JSDate.year c) (JSDate.month c - 1 + k)) as [H _].
  rewrite H. unfold monthIndex. lia.
Qed.

Lemma monthAfter_day c k : JSDate.day (monthAfter c k) = 1.
Proof. reflexivity. Qed.

Lemma monthAfter_0 c :
  1 <= JSDate.month c <= 12 ->
  monthAfter c 0 = JSDate.mkCivil (JSDate.year c) (JSDate.month c) 1.
Proof.
  intros H. unfold monthAfter. rewrite Z.add_0_r. now apply firstOfMonth_same.
Qed.

(** The local day at UTC midnight is that day or the day before, and the
    local time of day is within the day. *)
Lemma localCutoff_day z c :
  zoneBounded z ->
  let off := offsetAtUTC z (mkInstant c 0) in
  dayOf (localCutoff z c) = (if off <? 0 then prevDay c else c)
  /\ msOf (localCutoff z c) = (if off <? 0 then msPerDay + off else off)
  /\ 0 <= msOf (localCutoff z c) < msPerDay.
Proof.
  intros Hz off. destruct (Hz (mkInstant c 0)) as [Ho _]. fold off in Ho.
  unfold localCutoff, LocalTime. fold off.
  destruct (off <? 0) eqn:E.
  - apply Z.ltb_lt in E. rewrite shift_west by lia. cbn [dayOf msOf].
    repeat split; lia.
  - apply Z.ltb_ge in E. rewrite shift_east by lia. cbn [dayOf msOf].
    repeat split; lia.
Qed.

Lemma localCutoff_month z c :
  zoneBounded z -> 1 <= JSDate.month c <= 12 ->
  1 <= JSDate.month (dayOf (localCutoff z c)) <= 12.
Proof.
  intros Hz Hm. destruct (localCutoff_day z c Hz) as [-> _].
  destruct (_ <? 0); [now apply prevDay_month|exact Hm].
Qed.

(** The month of the UTC day of a local first of the month: the month
    before when the offset of the zone exceeds the local time of day. *)
Lemma UTC_first_label z y m T :
  zoneBounded z -> 1 <= m <= 12 -> 0 <= T < msPerDay ->
  let l := mkInstant (JSDate.mkCivil y m 1) T in
  monthLabel (dayOf (UTC z l))
  = monthLabel (if T <? offsetAtLocal z l
                then monthAfter (JSDate.mkCivil y m 1) (-1)
                else JSDate.mkCivil y m 1).
Proof.
  intros Hz Hm HT l. destruct (Hz l) as [_ Ho].
  set (off := offsetAtLocal z l) in *.
  unfold UTC. fold off. unfold shift. cbn [dayOf msOf l].
  destruct (T <? off) eqn:E.
  - apply Z.ltb_lt in E.
    assert (Hq : (T + - off) / msPerDay = -1).
    { unfold msPerDay in *. Z.div_mod_to_equations. lia. }
    rewrite Hq. cbn [addDays Pos.iter].
    set (c1 := JSDate.mkCivil y m 1).
    assert (Hcal : 1 <= JSDate.month c1 <= 12) by exact Hm.
    unfold prevDay. cbn [JSDate.day JSDate.month JSDate.year c1].
    change (1 <? 1) with false. cbv iota.
    unfold monthAfter, JSDate.firstOfMonth.
    cbn [JSDate.year JSDate.month c1].
    destruct (m =? 1) eqn:E1.
    + apply Z.eqb_eq in E1. subst m.
      change ((1 - 1 + -1) / 12) with (-1).
      change ((1 - 1 + -1) mod 12 + 1) with 12.
      replace (y + -1) with (y - 1) by lia. apply monthLabel_day.
    + apply Z.eqb_neq in E1.
      replace ((m - 1 + -1) / 12) with 0 by (Z.div_mod_to_equations; lia).
      replace ((m - 1 + -1) mod 12 + 1) with (m - 1)
        by (Z.div_mod_to_equations; lia).
      rewrite Z.add_0_r. apply monthLabel_day.
  - apply Z.ltb_ge in E.
    destruct (T + - off <? msPerDay) eqn:E2.
    + apply Z.ltb_lt in E2.
      rewrite Z.div_small by lia. reflexivity.
    + apply Z.ltb_ge in E2.
      assert (Hq : (T + - off) / msPerDay = 1).
      { unfold msPerDay in *. Z.div_mod_to_equations. lia. }
      rewrite Hq. cbn [addDays Pos.iter]. rewrite nextDay_first.
      apply monthLabel_day.
Qed.

(** [lastDate.setDate(1)] is the UTC time of the local first of the
    month. *)
Lemma setDate_first z c :
  zoneBounded z -> 1 <= JSDate.month c <= 12 ->
  setDate z (mkInstant c 0) 1 = UTC z (localFirst z c 0).
Proof.
  intros Hz Hm. unfold setDate, localFirst. fold (localCutoff z c).
  unfold MakeDay. cbn [addDays Z.sub Z.add Z.opp Z.pos_sub].
  unfold monthAfter. now rewrite Z.add_0_r.
Qed.

(** The label of the forecast of step [step]. *)
Lemma forecastDate_zone z c step :
  zoneBounded z -> 1 <= JSDate.month c <= 12 ->
  LocalTime z (UTC z (localFirst z c 0)) = localFirst z c 0 ->
  monthLabel
    (dayOf (setMonth z (setDate z (mkInstant c 0) 1)
                     (getMonth z (setDate z (mkInstant c 0) 1) + step)))
  = monthLabel (if msOf (localCutoff z c) <? offsetAtLocal z (localFirst z c step)
                then monthAfter (dayOf (localCutoff z c)) (step - 1)
                else monthAfter (dayOf (localCutoff z c)) step).
Proof.
  intros Hz Hm Hrt. rewrite (setDate_first z c Hz Hm).
  unfold setMonth, getMonth. rewrite Hrt.
  pose proof (localCutoff_month z c Hz Hm) as HmL.
  destruct (localCutoff_day z c Hz) as [_ [_ HT]].
  set (L := dayOf (localCutoff z c)) in *.
  set (T := msOf (localCutoff z c)) in *.
  unfold localFirst. fold L. fold T. cbn [dayOf msOf].
  rewrite (monthAfter_0 L HmL). cbn [JSDate.year JSDate.month JSDate.day].
  unfold MakeDay. cbn [addDays Z.sub Z.add Z.opp Z.pos_sub].
  fold (monthAfter L step).
  pose proof (monthAfter_month L step) as HmS.
  assert (ES : monthAfter L step
               = JSDate.mkCivil (JSDate.year (monthAfter L step))
                                (JSDate.month (monthAfter L step)) 1)
    by reflexivity.
  rewrite ES at 1.
  rewrite (UTC_first_label z _ _ T Hz HmS HT). cbv zeta.
  rewrite <- ES.
  destruct (T <? _); [|reflexivity].
  rewrite monthAfter_monthAfter. reflexivity.
Qed.

End ZoneGeneral.

Section ZoneGeneralForecast.

Import JS Forecasting Zoned.

Open Scope Z_scope.

Lemma localCutoff_index z c :
  zoneBounded z -> calendarDay c ->
  monthIndex c - 1 <= monthIndex (dayOf (localCutoff z c)) <= monthIndex c.
Proof.
  intros Hz Hcal. destruct (localCutoff_day z c Hz) as [-> _].
  set (off := offsetAtUTC z (mkInstant c 0)).
  pose proof (localDay_index off c Hcal) as H. unfold localDay in H.
  destruct (off <? 0); [|lia].
  rewrite H. destruct (monthBehind off c); lia.
Qed.

Lemma centralEurope_bounded : zoneBounded centralEurope.
Proof.
  intros t. unfold centralEurope, msPerDay. cbn [offsetAtUTC offsetAtLocal].
  destruct (summerTime (dayOf t)); lia.
Qed.

End ZoneGeneralForecast.

(** X31. In any time zone whose offsets are below 24 hours, daylight
    saving time included, when [calculateForecast] forecasts (at least 3
    training points, a cutoff that is a calendar day of the year 1001 or
    later, a horizon within the year 9999) and the local time of the first
    of the cutoff's local month exists (it is not skipped by a switch to
    summer time), the point of step [i + 1] is dated on the first day of a
    month: the month [i + 1] months after the local month of the cutoff,
    or the month before that one when, on that day, the offset of the zone
    exceeds the local time of day of the cutoff.  The local month of the
    cutoff is its month or the month before. *)
Theorem calculateForecast_months_any_zone :
  forall (z : Zoned.Zone) (historicalData : list DataPoint) (horizon : nat)
         (cutoff : string) (conf : R) (method : ForecastMethodology)
         (hw : Forecasting.HWMethod) (auto : bool) (c : JSDate.civil) (i : nat),
    zoneBounded z ->
    (3 <= length (trainingOf historicalData cutoff))%nat ->
    JSDate.parse cutoff = Some c ->
    (1001 <= JSDate.year c)%Z ->
    (monthIndex c + Z.of_nat horizon <= 12 * 9999 + 12)%Z ->
    (i < horizon)%nat ->
    Zoned.LocalTime z (Zoned.UTC z (localFirst z c 0)) = localFirst z c 0 ->
    exists pts p first,
      Zoned.calculateForecast z historicalData horizon cutoff conf method hw auto
      = Some pts
      /\ nth_error pts (length historicalData + i) = Some p
      /\ JSDate.parse (date p) = Some first
      /\ JSDate.day first = 1%Z
      /\ (1 <= JSDate.month first <= 12)%Z
      /\ monthIndex first
         = (monthIndex (Zoned.dayOf (localCutoff z c)) + Z.of_nat (S i)
            - (if (Zoned.msOf (localCutoff z c)
                   <? Zoned.offsetAtLocal z (localFirst z c (Z.of_nat (S i))))%Z
               then 1 else 0))%Z
      /\ (monthIndex c - 1 <= monthIndex (Zoned.dayOf (localCutoff z c))
          <= monthIndex c)%Z.
Proof.
  intros z hist horizon cutoff conf method hw auto c i Hz Htrain Hparse
         Hy Hrange Hi Hrt.
  destruct (isoDate_parse cutoff c Hparse) as [Hcal _].
  pose proof (localCutoff_index z c Hz Hcal) as HL.
  destruct Hcal as [_ [Hm _]].
  unfold Zoned.calculateForecast.
  pose proof (trainingOf_length hist cutoff) as Hle.
  replace (Nat.ltb (length hist) 3) with false
    by (symmetry; apply Nat.ltb_ge; lia).
  rewrite (parse_nonempty _ _ Hparse). simpl orb. cbv iota.
  fold (trainingOf hist cutoff).
  replace (Nat.ltb (length (trainingOf hist cutoff)) 3) with false
    by (symmetry; apply Nat.ltb_ge; lia).
  cbv zeta. unfold Zoned.parse. rewrite Hparse. cbn [option_map].
  set (vals := Forecasting.forecastValuesOf method _ horizon hw auto).
  assert (Hvals : (i < length vals)%nat)
    by (unfold vals; now rewrite forecastValuesOf_length).
  destruct (pushForecasts_nth z (Zoned.setDate z (Zoned.mkInstant c 0) 1)
              (Forecasting.getZMultiplier conf)
              (Forecasting.getStdDev (map quantity (trainingOf hist cutoff)))
              vals 0 i Hvals) as [future [E [_ Hn]]].
  rewrite E.
  set (L := Zoned.dayOf (localCutoff z c)) in *.
  set (T := Zoned.msOf (localCutoff z c)).
  set (b := (T <? Zoned.offsetAtLocal z (localFirst z c (Z.of_nat (S i))))%Z).
  set (t := if b then monthAfter L (Z.of_nat (S i) - 1)
            else monthAfter L (Z.of_nat (S i))).
  assert (Hmt : (1 <= JSDate.month t <= 12)%Z)
    by (unfold t; destruct b; apply monthAfter_month).
  assert (Hit : monthIndex t
                = (monthIndex L + Z.of_nat (S i) - (if b then 1 else 0))%Z).
  { unfold t. destruct b; rewrite monthAfter_index; lia. }
  assert (Hdt : JSDate.day t = 1%Z) by (unfold t; destruct b; reflexivity).
  eexists. eexists. exists t. split; [reflexivity|]. split.
  { rewrite nth_error_app2 by (rewrite length_map; lia).
    rewrite length_map, Nat.add_comm, Nat.add_sub. exact Hn. }
  split; [|split; [exact Hdt|split; [exact Hmt|split; [exact Hit|exact HL]]]].
  cbn [date Zoned.futurePoint Nat.add]. unfold Zoned.isoDate.
  match goal with
  | |- context [Zoned.dayOf ?u] => fold (monthLabel (Zoned.dayOf u))
  end.
  rewrite (forecastDate_zone z c (Z.of_nat (S i)) Hz Hm Hrt).
  fold L. fold T. fold b. fold t.
  assert (Hty : (1000 <= JSDate.year t <= 9999)%Z).
  { unfold monthIndex in *. destruct b; lia. }
  rewrite (parse_monthLabel t Hty Hmt).
  destruct t as [yt mt dt]. cbn [JSDate.day] in Hdt. subst dt. reflexivity.
Qed.

Lemma calculateForecast_months_any_zone_witness :
  let hist := [mkDataPoint "2022-11-01" "A" "c" 5; mkDataPoint "2022-12-01" "A" "c" 6;
               mkDataPoint "2023-01-01" "A" "c" 9] in
  exists pts p q,
    Zoned.calculateForecast centralEurope hist 3 "2023-01-01" 95
                            LINEAR Forecasting.multiplicative false = Some pts
    /\ nth_error pts (length hist + 1) = Some p
    /\ JSDate.parse (date p) = Some (JSDate.mkCivil 2023 3 1)
    /\ nth_error pts (length hist + 2) = Some q
    /\ JSDate.parse (date q) = Some (JSDate.mkCivil 2023 3 1).
Proof.
  intros hist.
  destruct (calculateForecast_months_any_zone centralEurope hist 3 "2023-01-01" 95
              LINEAR Forecasting.multiplicative false (JSDate.mkCivil 2023 1 1) 1)
    as [pts [p [first [H1 [H2 [H3 [H4 [H5 [H6 _]]]]]]]]];
    [apply centralEurope_bounded|simpl; lia|reflexivity|simpl; lia
    |vm_compute; discriminate|lia|vm_compute; reflexivity|].
  destruct (calculateForecast_months_any_zone centralEurope hist 3 "2023-01-01" 95
              LINEAR Forecasting.multiplicative false (JSDate.mkCivil 2023 1 1) 2)
    as [pts' [q [first' [K1 [K2 [K3 [K4 [K5 [K6 _]]]]]]]]];
    [apply centralEurope_bounded|simpl; lia|reflexivity|simpl; lia
    |vm_compute; discriminate|lia|vm_compute; reflexivity|].
  rewrite H1 in K1. inversion K1; subst pts'.
  exists pts, p, q. split; [exact H1|]. split; [exact H2|].
  assert (E : Zoned.dayOf (localCutoff centralEurope (JSDate.mkCivil 2023 1 1))
              = JSDate.mkCivil 2023 1 1) by (vm_compute; reflexivity).
  rewrite E in H6, K6.
  change (Zoned.msOf (localCutoff centralEurope (JSDate.mkCivil 2023 1 1))
          <? Zoned.offsetAtLocal centralEurope
               (localFirst centralEurope (JSDate.mkCivil 2023 1 1) (Z.of_nat 2)))%Z
    with false in H6.
  change (Zoned.msOf (localCutoff centralEurope (JSDate.mkCivil 2023 1 1))
          <? Zoned.offsetAtLocal centralEurope
               (localFirst centralEurope (JSDate.mkCivil 2023 1 1) (Z.of_nat 3)))%Z
    with true in K6.
  split.
  - rewrite H3. f_equal. destruct first as [y m d].
    unfold monthIndex in H6. cbn [JSDate.year JSDate.month JSDate.day] in *.
    f_equal; lia.
  - split; [exact K2|].
    rewrite K3. f_equal. destruct first' as [y m d].
    unfold monthIndex in K6. cbn [JSDate.year JSDate.month JSDate.day] in *.
    f_equal; lia.
Defined.
